(* ===== verification/_CoqProject ===== *)
-Q . S2P
Prelude.v
PyString.v
Uow.v
Placement.v
Uuid.v
Registry.v
ControlPlane.v
Calendar.v
Retention.v
IdentityStore.v
PasswordPolicy.v
Accounts.v
Sessions.v
BruteForce.v
Login.v
IdentityScenario.v
Permissions.v
CommunityStore.v
Community.v
CommunityInv.v
Authority.v
Program.v
ServerRow.v
Backoff.v
LifecycleSeam.v
Lifecycle.v
Reconciler.v
LifecycleInv.v
StartSafety.v
Convergence.v
ReconcilerSafety.v
LifecycleScenario.v
Text.v
Properties.v
PropertiesLoad.v
PropertiesEscape.v
PropertiesChunks.v
PropertiesWrite.v
PropertiesGuard.v
VersionRange.v
PluginSet.v
PluginResolution.v
PluginClosure.v
PluginPlan.v
PluginScenario.v
Schedule.v
ScheduleStore.v
Schedules.v
ScheduleRunner.v
ScheduleRows.v
ScheduleMoves.v
ScheduleSystem.v
ScheduleOnce.v
ScheduleRequests.v
ScheduleHistory.v
ScheduleNotes.v
ScheduleWarnings.v
ScheduleScenario.v
RelyGuarantee.v
ServerPolicies.v
Utf8.v
SettingsStore.v
ManageServer.v
SettingsTables.v
SettingsSafety.v
SettingsThreads.v
SettingsRequests.v
ServerFiles.v
SettingsContracts.v
SettingsScenario.v
PlayerGroups.v
GroupStore.v
Groups.v
GroupSafety.v
GroupThreads.v
GroupContracts.v
GroupScenario.v
