(* ===== verification/Prelude.v ===== *)
(** * Minecraft Server Dashboard: verification library

    A model of the API process of the dashboard
    ([src/api/src/mc_server_dashboard_api/]; paths below are relative to it) and
    the theorems that make it correct.  The API keeps its state in one database
    and in a few in-process objects, serves requests as coroutines of one event
    loop, and commands a fleet of Workers that run the game servers.

    ** Parts and files

    The program's parts, the files that model them, and how they call each other:

    - Shared ground.  [Prelude] (results of Python calls, ordered dictionaries,
      generic lemmas), [PyString] and [Uuid] (what is used of [str] and [uuid]),
      [Calendar] ([datetime]), [Uow] ([<context>/domain/unit_of_work.py]: the
      effects of a transaction and its commit), [Program] (coroutines: trees of
      events, and the monitors their runs are checked against), [RelyGuarantee]
      (what a coroutine guarantees while the others keep to a relation, and what
      any number of them reach), [Utf8] (the code points of a [str]).
    - The fleet.  [Placement] ([fleet/domain/placement.py]) chooses a worker from
      the candidates of [Registry] ([fleet/adapters/registry.py]: sessions,
      heartbeats, drains, the load and memory accounts and their rebuild);
      [ControlPlane] ([servers/adapters/control_plane.py]) is the await-free
      section that reads, chooses and reserves.
    - Servers.  [ServerRow] (the row, its configuration blob and the statements
      of [servers/adapters/repositories.py]); [LifecycleSeam] (the events of the
      lifecycle's coroutines and what each does to the process and the database);
      [Lifecycle] ([servers/application/lifecycle.py], the report sinks, the boot
      reset: one definition per use case, helper and transaction, under the
      source's names); [Backoff] and [Reconciler]
      ([servers/application/reconciler.py]); [Retention]
      ([servers/domain/backup_retention.py]); [Properties]
      ([servers/domain/server_properties.py]: reader, escapes, rewrites, guard);
      [Text] (a [str] as its code points, under Unicode tables), [VersionRange]
      ([servers/application/version_range.py]), [PluginSet] (a server's plugins,
      their stored dependency edges and the validation checklist of
      [plugin_validation.py]) and [PluginResolution] ([plugin_resolution.py]: the
      plan that imports the missing dependencies from a catalog, and its
      application); [Schedule] ([servers/domain/schedule.py], the cron adapter and
      the next instant), [ScheduleStore] ([adapters/schedule_repository.py] and
      the constraints of [schedule_models.py]), [Schedules] (the requests of
      [application/schedules.py]) and [ScheduleRunner] ([schedule_runner.py]: the
      pass as coroutines over transactions and the runner's own memory);
      [ServerPolicies] ([servers/domain/slug.py], [ports.py],
      [snapshot_cadence.py]), [SettingsStore] (the statements of the settings use
      cases with the constraints of [models.py] and their translation, the working
      sets, the archives, the lifecycle lock) and [ManageServer]
      ([application/manage_server.py]: creation, edit and deletion as coroutines,
      [platform_properties.py]); [PlayerGroups] ([servers/domain/groups.py] and the
      bytes of the player files), [GroupStore] ([adapters/group_repository.py], row
      lock included) and [Groups] ([application/groups.py], with the part of a start
      that settles the owed files).
    - Identity.  [IdentityStore] (rows, tables and SQL), [PasswordPolicy],
      [Accounts], [Sessions], [BruteForce] and [Login]: the use cases of
      [identity/application/], one definition each.
    - Community.  [Permissions] (the catalog), [CommunityStore] (rows, tables,
      constraints and cascades), [Community] (the use cases of
      [community/application/] and the two-layer authorization check).

    ** What the theorems show

    - Fleet: the choice is the least loaded candidate that fits ([Placement]); no
      interleaving of placements, confirmations, stops and reconnects puts a
      worker over its capacity ([ControlPlane]); the assignment rebuild after a
      reconnect loses none of the window's confirms and stops, an old session's
      teardown is inert, and a drain survives reconnects ([Registry]).
    - Lifecycle, for every interleaving of requests, reports, crashes and
      cancellations: each step refines the row machine [row_step], an assignment
      never moves without a release, and the published frames rebuild the rows
      ([LifecycleInv]); a start that may have been applied is never undone or
      doubled by its own flow, and no reservation leaks ([StartSafety]).
      Stopped intents settle when nothing interferes ([Convergence]); the
      reconciler's scan and choice agree, and it waits out the grace and the
      backoff ([ReconcilerSafety]); backoff doubles, and only a settled window
      forgives ([Backoff]).  [LifecycleScenario] evaluates a concrete fleet, with
      the race in which [_compensate] undoes another start.
    - [server.properties], for every file: the bulk reader is the line-by-line one
      of the Java format ([PropertiesLoad]); what is written reads back
      ([PropertiesEscape]); a file is chunks that can be replaced one by one and
      an ending ([PropertiesChunks]), so the rewrite sets, clears and keeps exactly
      the keys it should ([PropertiesWrite]); from it the contracts of the platform
      keys, their guard and the overrides, and the file on which an override
      changes the port ([PropertiesGuard]).
    - Plugins, for every catalog: comparing versions is an order and equal versions
      satisfy the same ranges but for x-ranges ([VersionRange]); the walk over the dependencies ends
      and builds a closure grounded in the installed set ([PluginClosure]); a plan
      leaves no import on a live conflict, blocks nothing without a cause, imports
      the newest version that fits, and is applied as it stands ([PluginPlan]).
      [PluginScenario] has concrete catalogs, among them a cycle that outlives the
      mod it was needed for and a version number that ends the resolution.
    - Schedules.  An interval's occurrences are regular ([Schedule]); a row reads
      back what was written ([ScheduleRows]), each request and each transaction
      takes a row through one kind of step ([ScheduleMoves]), nobody edits a
      schedule without the permission of its action and an answer is what is
      stored ([ScheduleRequests]); the history is capped ([ScheduleHistory]).
      [ScheduleSystem] is the scheduler as a step relation among requests, server
      changes, failing transactions, aborted passes and restarts: an occurrence is
      dispatched once, unless its record was lost, and rows stay valid
      ([ScheduleOnce]); notifications alternate, and one due schedule is handled
      as promised whatever is answered ([ScheduleNotes]); warnings come in their
      window, once ([ScheduleWarnings]).  [ScheduleScenario] drives a concrete
      scheduler, through a crash too, with two races of an edit.
    - Settings.  Every interleaving of creations, edits, deletions, stops, reports
      and failures keeps the constraints of the table ([SettingsTables]); what
      each request may do to a row, and what it may count on from the others, is
      [SettingsSafety], that it keeps to it [SettingsThreads] and
      [SettingsRequests].  [ServerFiles] has what the rewrites leave in the file.
      From these [SettingsContracts]: a running server keeps its settings, a new
      one is at rest on a port of its own, a deletion leaves the last backup, the
      file says what the row says.  [SettingsScenario] drives a creation, an edit
      and a deletion, with three edits that are not treated as the code says.
    - Player groups, for every interleaving with starts and the rest of the API in
      which no rename is torn: a change of what a server's player file should hold is
      recorded as owed, and a start settles what it launches ([GroupSafety],
      [GroupThreads], [GroupContracts]); the file lists the union of the groups
      ([PlayerGroups]).  [GroupScenario] runs a start, a torn rename that brings a
      removed operator back and an edit that undoes another.
    - Retention: exactly the rows outside the windows and quotas are pruned, the
      stored form round-trips, and the accepted policies whose window leaves the
      calendar are shown to raise.
    - Identity, over every interleaving of transactions: the tables' invariant
      and the last active admin; theft, logout, password change and deactivation
      end what they must; lockouts hold ([Accounts], [Sessions], [BruteForce],
      [Login]; [IdentityScenario] is the concrete run).
    - Community, over every run: well-formed tables and an owner in every
      community, no privilege escalation, isolation of communities, and the
      authorization check answering from what the ceiling locks ([CommunityInv],
      [Authority]); the deletion race is a theorem of its own.

    ** Conventions

    Instants and durations are integers of microseconds, a [uuid.UUID] its
    128-bit integer, a [str] its UTF-8 bytes (its code points where [Text] is
    used, as [bytes] are numbers there).  A dict whose order is observed is
    an association list, any other a [gmap]; tables are [gmap]s by primary key,
    and where a [SELECT] leaves the order open the map's order stands for it.  A
    call that may raise returns a [result].  A transaction is one atomic step,
    as its locks make it; it is split where it reads without a lock and writes
    later (login, password change, account deletion) or awaits something other
    than the database (start), and two statements of one transaction are not
    interleaved with another's.  [UpdateSchedule] is one step in [ScheduleSystem]
    although it reads without a lock; [plan_update] is its part before the write,
    and [torn_edit_fires_twice] what a torn edit does.  There the clock does not
    run backwards.  In [ManageServer] each statement is an event, a write together
    with its commit, so that reads and writes of a request interleave with those of
    the others; a config blob is a map, whose overrides are written in the map's
    order; the rest of the API ([outside] of [SettingsSafety]) is assumed to leave a
    server whose lock is held alone but for reports, stops and safe keys, and the
    seeding of a creation runs without the lock, as in the code.  A database
    connection that drops the advisory lock while its holder runs on is left out.
    [Groups] is split the same way, with the locks of the group rows; there the rest of
    the API is assumed to leave the files of a server alone that no worker holds while
    its lock is held, and identifiers not to repeat; a torn rename is one that writes
    back players another edit changed meanwhile.
    What the code consults from outside is a
    parameter or an arbitrary answer: Unicode tables, the password hasher, the
    token service, random identifiers, the clock, Workers, Storage, the JAR
    provisioner, the plugin catalog, the relay tunnel, the time zones, the cron
    engine and SHA-256, the use cases a schedule runs; the outcome of a commit that raised is
    either.  Logging is left out.

    Coroutines are finite trees, and loops are structural recursions over the list
    (or the count) the source's loop consumes.  Three loops take fuel, each shown to
    be enough: the scanning loops of [Properties], the length of what is left
    ([parse_is_load]); the walk of the resolution, two more than
    [MAX_RESOLUTION_DEPTH], and its blocking loop, one more than the entries
    ([resolution_terminates]).
    The fan-outs of the reconciler and of the scheduler are separate coroutines
    (the code runs four at a time, a subset of these interleavings).

    ** Not modelled

    The installation of plugins, backups, files, resource packs and
    the sweep of the Bedrock ports at boot; the storage adapters, the version
    catalogs, the gRPC and relay servers and the HTTP edge (I/O over libraries);
    paged listings (reads without effect); logging, metrics and wiring. *)
From Stdlib Require Import ZArith Lia String Ascii.
From stdpp Require Import base gmap strings list fin_maps sorting.

#[global] Set Default Goal Selector "!".

(** ** Results: a Python call that returns or raises *)

Inductive result (E A : Type) : Type :=
| Ok (a : A)
| Err (e : E).
Arguments Ok {E A} a.
Arguments Err {E A} e.

#[global] Instance result_ret {E} : MRet (result E) := fun A a => Ok a.
#[global] Instance result_bind {E} : MBind (result E) :=
  fun A B k m => match m with Ok a => k a | Err e => Err e end.

Definition is_ok {E A} (m : result E A) : bool :=
  match m with Ok _ => true | Err _ => false end.

(** [require b e]: Python's [if not b: raise e]. *)
Definition require {E} (b : bool) (e : E) : result E unit :=
  if b then Ok tt else Err e.

Lemma bind_ok {E A B} (k : A -> result E B) (m : result E A) b :
  mbind k m = Ok b <-> exists a, m = Ok a /\ k a = Ok b.
Proof.
  split; [|by intros (a & -> & ?)].
  destruct m as [a|e]; [|done]. by exists a.
Qed.

Lemma bind_err {E A B} (k : A -> result E B) (m : result E A) e :
  mbind k m = Err e <-> m = Err e \/ exists a, m = Ok a /\ k a = Err e.
Proof.
  split.
  - destruct m as [a|e']; simpl; [intros ?; right; by exists a|].
    intros H. left. unfold mbind, result_bind in H. congruence.
  - intros [-> | (a & -> & ?)]; done.
Qed.

Lemma require_ok {E} b (e : E) u : require b e = Ok u <-> b = true.
Proof. destruct b, u; done. Qed.

Lemma require_err {E} b (e e' : E) : require b e = Err e' <-> b = false /\ e = e'.
Proof. destruct b; simpl; split; [done|by intros []| |]; [by intros [= ->]|]. by intros [_ ->]. Qed.

#[global] Instance result_eq_dec {E A} `{!EqDecision E, !EqDecision A} :
  EqDecision (result E A).
Proof. solve_decision. Defined.

(** A comprehension whose [if] clause may raise. *)
Fixpoint filterM {E A} (p : A -> result E bool) (l : list A) : result E (list A) :=
  match l with
  | [] => Ok []
  | x :: l' =>
      b ← p x;
      r ← filterM p l';
      Ok (if b : bool then x :: r else r)
  end.

Lemma filterM_pure {E A} (p : A -> result E bool) (q : A -> bool) l :
  (forall x, p x = Ok (q x)) -> filterM p l = Ok (List.filter q l).
Proof.
  intros Hp. induction l as [|x l IH]; simpl; [done|].
  rewrite Hp, IH. done.
Qed.

#[global] Instance filter_bool_proper {A} (f : A -> bool) :
  Proper ((≡ₚ) ==> (≡ₚ)) (List.filter f).
Proof.
  induction 1 as [|x l l' _ IH|x y l|l1 l2 l3 _ IH1 _ IH2]; simpl.
  - done.
  - destruct (f x); by rewrite IH.
  - destruct (f x), (f y); try done. apply Permutation_swap.
  - by rewrite IH1.
Qed.

Lemma elem_of_filter_bool {A} (f : A -> bool) x (l : list A) :
  x ∈ List.filter f l <-> x ∈ l /\ f x = true.
Proof. by rewrite !list_elem_of_In, filter_In. Qed.

Lemma elem_of_mapM {A B} (f : A -> option B) l l' :
  mapM f l = Some l' ->
  (forall y, y ∈ l' <-> exists x, x ∈ l /\ f x = Some y) /\ forall x, x ∈ l -> is_Some (f x).
Proof.
  intros H%mapM_Some. induction H as [|x y l l' Hxy H [IH1 IH2]].
  - split; [|by intros x ?%not_elem_of_nil].
    intros y. split; [by intros ?%not_elem_of_nil|]. by intros (x & ?%not_elem_of_nil & _).
  - split.
    + intros z. rewrite elem_of_cons, IH1. split.
      * intros [->|(x' & Hx' & ?)]; [exists x|exists x']; set_solver.
      * intros (x' & [->|Hx']%elem_of_cons & ?); [left; congruence|eauto].
    + intros z [->|Hz]%elem_of_cons; eauto.
Qed.

(** ** Strict total orders as boolean tests *)

Class StrictTotal {A} (ltb : A -> A -> bool) := {
  ltb_irrefl : forall a, ltb a a = false;
  ltb_trans : forall a b c, ltb a b = true -> ltb b c = true -> ltb a c = true;
  ltb_total : forall a b, ltb a b = true \/ a = b \/ ltb b a = true
}.

Section StrictTotalFacts.
Context {A : Type} {ltb : A -> A -> bool} {ST : StrictTotal ltb}.

Lemma ltb_asym a b : ltb a b = true -> ltb b a = false.
Proof using ST.
  intros H. destruct (ltb b a) eqn:E; [|done].
  pose proof (ltb_trans _ _ _ H E). by rewrite ltb_irrefl in H0.
Qed.

Lemma ltb_false_ge a b : ltb a b = false <-> a = b \/ ltb b a = true.
Proof using ST.
  split.
  - intros H. destruct (ltb_total a b) as [?|[?|?]]; [congruence|auto|auto].
  - intros [->|H]; [apply ltb_irrefl|by apply ltb_asym].
Qed.

(** [a <= b] in the order: not [b < a]. *)
Lemma leb_trans a b c : ltb b a = false -> ltb c b = false -> ltb c a = false.
Proof using ST.
  rewrite !ltb_false_ge. intros [->|H1] [->|H2]; auto.
  right. by eapply ltb_trans.
Qed.

Lemma leb_antisym a b : ltb b a = false -> ltb a b = false -> a = b.
Proof using ST.
  intros H1 H2. destruct (ltb_total a b) as [?|[?|?]]; congruence.
Qed.

Lemma leb_total a b : ltb b a = false \/ ltb a b = false.
Proof using ST.
  destruct (ltb_total a b) as [H|[->|H]].
  - left. by apply ltb_asym.
  - left. apply ltb_irrefl.
  - right. by apply ltb_asym.
Qed.
End StrictTotalFacts.

#[global] Instance Z_ltb_strict : StrictTotal Z.ltb.
Proof.
  split.
  - intros. apply Z.ltb_irrefl.
  - intros a b c. rewrite !Z.ltb_lt. lia.
  - intros a b. rewrite !Z.ltb_lt. lia.
Qed.

#[global] Instance N_ltb_strict : StrictTotal N.ltb.
Proof.
  split.
  - intros. apply N.ltb_irrefl.
  - intros a b c. rewrite !N.ltb_lt. lia.
  - intros a b. rewrite !N.ltb_lt. lia.
Qed.

(** The reversed order: [reverse=True]. *)
Lemma flip_strict {A} (ltb : A -> A -> bool) :
  StrictTotal ltb -> StrictTotal (fun x y => ltb y x).
Proof.
  intros H. split.
  - intros a. apply ltb_irrefl.
  - intros a b c H1 H2. by eapply ltb_trans.
  - intros a b. destruct (ltb_total a b) as [?|[?|?]]; auto.
Qed.

(** Python compares tuples lexicographically. *)
Definition pair_ltb {A B} (la : A -> A -> bool) (lb : B -> B -> bool)
    (x y : A * B) : bool :=
  la x.1 y.1 || (negb (la y.1 x.1) && lb x.2 y.2).

#[global] Instance pair_ltb_strict {A B} (la : A -> A -> bool) (lb : B -> B -> bool)
  `{!StrictTotal la, !StrictTotal lb} : StrictTotal (pair_ltb la lb).
Proof.
  split; unfold pair_ltb.
  - intros [a b]; simpl. by rewrite !ltb_irrefl.
  - intros [a1 b1] [a2 b2] [a3 b3]; simpl. rewrite !orb_true_iff, !andb_true_iff.
    intros [H1|[H1 H1']] [H2|[H2 H2']]; rewrite ?negb_true_iff in *.
    + left. by eapply ltb_trans.
    + left. destruct (proj1 (ltb_false_ge _ _) H2) as [->|?]; [done|].
      by eapply ltb_trans.
    + left. destruct (proj1 (ltb_false_ge _ _) H1) as [<-|?]; [done|].
      by eapply ltb_trans.
    + right. split; [by eapply leb_trans|by eapply ltb_trans].
  - intros [a1 b1] [a2 b2]; simpl.
    destruct (ltb_total a1 a2) as [->|[->| ->]]; simpl; auto.
    rewrite ltb_irrefl; simpl.
    destruct (ltb_total b1 b2) as [->|[->| ->]]; auto.
Qed.

(** ** Strings: Python [str] as UTF-8 bytes, whose byte order is code-point order *)

Definition str_ltb (a b : string) : bool :=
  match String.compare a b with Lt => true | _ => false end.

Lemma ascii_compare_eq a b : Ascii.compare a b = Eq <-> a = b.
Proof.
  split; [apply Ascii.compare_eq_iff|]. intros ->. unfold Ascii.compare.
  apply N.compare_refl.
Qed.

Lemma str_compare_refl a : String.compare a a = Eq.
Proof.
  induction a as [|x a IH]; simpl; [done|].
  by rewrite (proj2 (ascii_compare_eq x x) eq_refl).
Qed.

Lemma str_compare_trans a b c :
  String.compare a b = Lt -> String.compare b c = Lt -> String.compare a c = Lt.
Proof.
  revert b c. induction a as [|x a IH]; intros [|y b] [|z c]; simpl; try done.
  destruct (Ascii.compare x y) eqn:Hxy; try done;
    destruct (Ascii.compare y z) eqn:Hyz; try done; intros H1 H2.
  - apply ascii_compare_eq in Hxy as ->. rewrite Hyz. by eapply IH.
  - apply ascii_compare_eq in Hxy as ->. by rewrite Hyz.
  - apply ascii_compare_eq in Hyz as ->. by rewrite Hxy.
  - assert (Ascii.compare x z = Lt) as ->; [|done].
    unfold Ascii.compare in *. rewrite N.compare_lt_iff in *. lia.
Qed.

#[global] Instance str_ltb_strict : StrictTotal str_ltb.
Proof.
  split; unfold str_ltb.
  - intros a. by rewrite str_compare_refl.
  - intros a b c H1 H2.
    destruct (String.compare a b) eqn:E1; try done.
    destruct (String.compare b c) eqn:E2; try done.
    by rewrite (str_compare_trans _ _ _ E1 E2).
  - intros a b. destruct (String.compare a b) eqn:E; auto.
    + right; left. by apply String.compare_eq_iff.
    + right; right. by rewrite String.compare_antisym, E.
Qed.

(** ** [min(l, key=...)]: the first element with the least key *)

Section MinSort.
Context {A K : Type} (ltb : K -> K -> bool) (key : A -> K).

Fixpoint min_from (best : A) (l : list A) : A :=
  match l with
  | [] => best
  | x :: l' => min_from (if ltb (key x) (key best) then x else best) l'
  end.

Definition min_by (l : list A) : option A :=
  match l with
  | [] => None
  | x :: l' => Some (min_from x l')
  end.

(** ** [sorted(l, key=...)]: stable, ascending *)

Fixpoint insert_by (x : A) (l : list A) : list A :=
  match l with
  | [] => [x]
  | y :: l' => if ltb (key y) (key x) then y :: insert_by x l' else x :: y :: l'
  end.

Definition sort_by (l : list A) : list A := foldr insert_by [] l.

Definition key_le (x y : A) : Prop := ltb (key y) (key x) = false.

Context {ST : StrictTotal ltb}.

Lemma min_from_spec best l :
  (min_from best l = best \/ min_from best l ∈ l)
  /\ key_le (min_from best l) best
  /\ (forall y, y ∈ l -> key_le (min_from best l) y).
Proof using ST.
  unfold key_le. revert best. induction l as [|x l IH]; intros best; simpl.
  - split_and!; [by left|apply ltb_irrefl|]. intros y Hy. by apply not_elem_of_nil in Hy.
  - destruct (ltb (key x) (key best)) eqn:E.
    + destruct (IH x) as (Hin & Hx & Hall). split_and!.
      * right. destruct Hin as [-> | ?]; set_solver.
      * apply ltb_asym in E. by eapply leb_trans.
      * intros y [->|Hy]%elem_of_cons; auto.
    + destruct (IH best) as (Hin & Hx & Hall). split_and!.
      * destruct Hin as [?|?]; [by left|right; set_solver].
      * done.
      * intros y [->|Hy]%elem_of_cons; [|auto]. by eapply leb_trans.
Qed.

Lemma min_by_spec l m :
  min_by l = Some m -> m ∈ l /\ forall y, y ∈ l -> key_le m y.
Proof using ST.
  destruct l as [|x l]; simpl; [done|]. intros [= <-].
  destruct (min_from_spec x l) as (Hin & Hx & Hall). split.
  - destruct Hin as [->|?]; set_solver.
  - intros y [->|Hy]%elem_of_cons; auto.
Qed.

Lemma min_by_None l : min_by l = None <-> l = [].
Proof. destruct l; simpl; naive_solver. Qed.

Lemma min_by_unique l m :
  (forall x y, x ∈ l -> y ∈ l -> key x = key y -> x = y) ->
  m ∈ l -> (forall y, y ∈ l -> key_le m y) -> min_by l = Some m.
Proof using ST.
  intros Hinj Hm Hle. destruct (min_by l) as [m'|] eqn:E.
  - destruct (min_by_spec _ _ E) as [Hm' Hle']. f_equal.
    apply Hinj; [done|done|]. eapply leb_antisym; [by apply Hle'|by apply Hle].
  - apply min_by_None in E as ->. by apply not_elem_of_nil in Hm.
Qed.

Lemma insert_by_perm x l : insert_by x l ≡ₚ x :: l.
Proof.
  induction l as [|y l IH]; simpl; [done|].
  destruct (ltb (key y) (key x)); [|done]. rewrite IH. by constructor.
Qed.

Lemma sort_by_perm l : sort_by l ≡ₚ l.
Proof.
  induction l as [|x l IH]; simpl; [done|]. by rewrite insert_by_perm, IH.
Qed.

Lemma insert_by_sorted x l :
  StronglySorted key_le l -> StronglySorted key_le (insert_by x l).
Proof using ST.
  unfold key_le. induction 1 as [|y l Hs IH Hf]; simpl.
  - repeat constructor.
  - destruct (ltb (key y) (key x)) eqn:E.
    + constructor; [done|]. rewrite (insert_by_perm x l). constructor; [|done].
      by apply ltb_asym.
    + constructor; [by constructor|]. constructor; [done|].
      eapply Forall_impl; [exact Hf|]. intros z Hz. by eapply leb_trans.
Qed.

Lemma sort_by_sorted l : StronglySorted key_le (sort_by l).
Proof using ST.
  induction l as [|x l IH]; simpl; [constructor|by apply insert_by_sorted].
Qed.

(** With distinct keys the sorted list does not depend on the input order. *)
Lemma sort_by_unique l1 l2 :
  l1 ≡ₚ l2 ->
  (forall x y, x ∈ l1 -> y ∈ l1 -> key x = key y -> x = y) ->
  sort_by l1 = sort_by l2.
Proof using ST.
  intros Hp Hinj.
  assert (forall a b : list A, a ≡ₚ b ->
    (forall x y, x ∈ a -> y ∈ a -> key x = key y -> x = y) ->
    StronglySorted key_le a -> StronglySorted key_le b -> a = b) as Haux.
  { clear -ST. intros a b Hab Hin Ha. revert b Hab Hin.
    induction Ha as [|x a Hs IH Hf]; intros b Hab Hin Hb.
    - symmetry in Hab. by apply Permutation_nil_r in Hab as ->.
    - destruct Hb as [|y b Hsb Hfb].
      { by apply Permutation_nil_r in Hab. }
      assert (x = y) as ->.
      { apply Hin; [set_solver|rewrite Hab; set_solver|].
        assert (Hx : x ∈ y :: b) by (rewrite <- Hab; set_solver).
        assert (Hy : y ∈ x :: a) by (rewrite Hab; set_solver).
        rewrite Forall_forall in Hf, Hfb. unfold key_le in *.
        apply elem_of_cons in Hx as [->|Hx]; [done|].
        apply elem_of_cons in Hy as [->|Hy]; [done|].
        eapply leb_antisym; [by apply Hf|by apply Hfb]. }
      f_equal. apply IH; [by eapply Permutation_cons_inv|set_solver|done]. }
  apply Haux.
  - by rewrite !sort_by_perm.
  - intros x y. rewrite !sort_by_perm. apply Hinj.
  - apply sort_by_sorted.
  - apply sort_by_sorted.
Qed.
End MinSort.

(** ** Finite maps of integers: [sum(d.values())] *)

Section MapSum.
Context {K : Type} `{Countable K}.
Open Scope Z_scope.

Definition map_sum (m : gmap K Z) : Z := map_fold (fun _ v acc => v + acc) 0 m.

Lemma map_sum_empty : map_sum ∅ = 0.
Proof. done. Qed.

Lemma map_sum_insert m k v :
  m !! k = None -> map_sum (<[k:=v]> m) = v + map_sum m.
Proof.
  intros Hk. unfold map_sum. rewrite map_fold_insert_L; [done| |done].
  intros. lia.
Qed.

Lemma map_sum_delete m k v :
  m !! k = Some v -> map_sum (delete k m) = map_sum m - v.
Proof.
  intros Hk. rewrite <- (insert_delete_id m k v Hk) at 2.
  rewrite map_sum_insert by apply lookup_delete_eq. lia.
Qed.

Lemma map_sum_nonneg m :
  (forall k v, m !! k = Some v -> 0 <= v) -> 0 <= map_sum m.
Proof.
  induction m as [|k v m Hk IH] using map_ind; [done|]. intros Hv.
  rewrite map_sum_insert by done.
  assert (0 <= v) by (apply (Hv k); apply lookup_insert_eq).
  assert (0 <= map_sum m); [|lia]. apply IH. intros k' v' Hk'.
  apply (Hv k'). rewrite lookup_insert_ne; [done|]. intros ->. congruence.
Qed.

Definition all_nonneg (m : gmap K Z) : Prop := forall k v, m !! k = Some v -> 0 <= v.

Lemma all_nonneg_insert m k v : all_nonneg m -> 0 <= v -> all_nonneg (<[k:=v]> m).
Proof. intros Hm Hv k' v'. rewrite lookup_insert. case_decide; [naive_solver|apply Hm]. Qed.

Lemma all_nonneg_delete m k : all_nonneg m -> all_nonneg (delete k m).
Proof. intros Hm k' v' [_ H']%lookup_delete_Some. by eapply Hm. Qed.

Lemma map_sum_delete_le m k : all_nonneg m -> map_sum (delete k m) <= map_sum m.
Proof.
  intros Hm. destruct (m !! k) as [v|] eqn:E.
  - rewrite (map_sum_delete _ _ _ E). pose proof (Hm _ _ E). lia.
  - rewrite delete_id by done. lia.
Qed.

Lemma map_sum_insert_le m k v : all_nonneg m -> map_sum (<[k:=v]> m) <= map_sum m + v.
Proof.
  intros Hm. rewrite <- insert_delete_eq, map_sum_insert by apply lookup_delete_eq.
  pose proof (map_sum_delete_le m k Hm). lia.
Qed.

Lemma map_size_delete_le {V} (m : gmap K V) k : Z.of_nat (size (delete k m)) <= Z.of_nat (size m).
Proof. rewrite map_size_delete. destruct (m !! k); simpl; lia. Qed.

Lemma map_size_insert_le {V} (m : gmap K V) k v :
  Z.of_nat (size (<[k:=v]> m)) <= Z.of_nat (size m) + 1.
Proof. rewrite map_size_insert. destruct (m !! k); simpl; lia. Qed.

Lemma map_size_delete_Some {V} (m : gmap K V) k v :
  m !! k = Some v -> Z.of_nat (size (delete k m)) = Z.of_nat (size m) - 1.
Proof.
  intros Hk. rewrite map_size_delete, Hk.
  assert (size m <> 0%nat).
  { intros E%map_size_empty_inv. subst. by rewrite lookup_empty in Hk. }
  lia.
Qed.
End MapSum.

(** ** Python dicts whose iteration order is observable: insertion-ordered *)

Section ODict.
Context {K V : Type} `{EqDecision K}.

Definition odict := list (K * V).

Fixpoint od_get (k : K) (d : list (K * V)) : option V :=
  match d with
  | [] => None
  | (k', v) :: d' => if decide (k = k') then Some v else od_get k d'
  end.

(** [d[k] = v]: an existing key keeps its position, a new one goes last. *)
Fixpoint od_set (k : K) (v : V) (d : list (K * V)) : list (K * V) :=
  match d with
  | [] => [(k, v)]
  | (k', v') :: d' => if decide (k = k') then (k', v) :: d' else (k', v') :: od_set k v d'
  end.

Definition od_values (d : list (K * V)) : list V := map snd d.
Definition od_keys (d : list (K * V)) : list K := map fst d.

Lemma od_get_set_eq k v d : od_get k (od_set k v d) = Some v.
Proof.
  induction d as [|[k' v'] d IH]; simpl; [by destruct (decide (k = k))|].
  by destruct (decide (k = k')) eqn:E; simpl; rewrite E.
Qed.

Lemma od_get_set_ne k k' v d : k <> k' -> od_get k' (od_set k v d) = od_get k' d.
Proof.
  intros Hne. induction d as [|[k1 v1] d IH]; simpl; [by destruct (decide (k' = k))|].
  destruct (decide (k = k1)) as [<-|]; simpl; [by destruct (decide (k' = k))|].
  by rewrite IH.
Qed.

Lemma od_get_set k k' v d :
  od_get k' (od_set k v d) = if decide (k = k') then Some v else od_get k' d.
Proof.
  case_decide as E; [subst; apply od_get_set_eq|by apply od_get_set_ne].
Qed.

Lemma od_get_Some_key k d : is_Some (od_get k d) <-> k ∈ od_keys d.
Proof.
  induction d as [|[k' v] d IH]; simpl.
  - split; [by intros [? ?]|by intros ?%not_elem_of_nil].
  - rewrite elem_of_cons. destruct (decide (k = k')) as [->|?]; [split; eauto|].
    naive_solver.
Qed.

Lemma od_set_keys_in k v d : k ∈ od_keys d -> od_keys (od_set k v d) = od_keys d.
Proof.
  unfold od_keys. induction d as [|[k' v'] d IH]; simpl; intros Hk; [set_solver|].
  destruct (decide (k = k')) as [->|Hne]; simpl; [done|].
  rewrite IH by set_solver. done.
Qed.

Lemma od_set_keys_new k v d :
  k ∉ od_keys d -> od_keys (od_set k v d) = od_keys d ++ [k].
Proof.
  unfold od_keys. induction d as [|[k' v'] d IH]; simpl; intros Hk; [done|].
  destruct (decide (k = k')) as [->|Hne]; simpl; [set_solver|].
  rewrite IH by set_solver. done.
Qed.

Lemma od_set_nodup k v d : NoDup (od_keys d) -> NoDup (od_keys (od_set k v d)).
Proof.
  intros Hd. destruct (decide (k ∈ od_keys d)) as [Hk|Hk].
  - by rewrite od_set_keys_in.
  - rewrite od_set_keys_new by done. apply NoDup_app.
    split_and!; [done|set_solver|apply NoDup_singleton].
Qed.

Lemma od_get_elem k v d : NoDup (od_keys d) -> od_get k d = Some v <-> (k, v) ∈ d.
Proof.
  induction d as [|[k' v'] d IH]; simpl; intros Hd; [set_solver|].
  apply NoDup_cons in Hd as [Hk Hd]. rewrite elem_of_cons, <- IH by done.
  destruct (decide (k = k')) as [E|E]; split.
  - intros [= ->]. left. by subst.
  - intros [[= -> ->]|Hg]; [done|]. exfalso. apply Hk. subst.
    by apply od_get_Some_key.
  - auto.
  - intros [[= -> ->]|Hg]; done.
Qed.
End ODict.

(** ** Boolean reflection and case analysis *)

Ltac bsimp :=
  repeat match goal with
  | H : _ && _ = true |- _ => apply andb_true_iff in H as [? ?]
  | H : _ || _ = false |- _ => apply orb_false_iff in H as [? ?]
  | H : negb _ = true |- _ => apply negb_true_iff in H
  | H : negb _ = false |- _ => apply negb_false_iff in H
  | H : (_ <? _)%Z = true |- _ => apply Z.ltb_lt in H
  | H : (_ <? _)%Z = false |- _ => apply Z.ltb_ge in H
  | H : (_ <=? _)%Z = true |- _ => apply Z.leb_le in H
  | H : (_ <=? _)%Z = false |- _ => apply Z.leb_gt in H
  | H : (_ =? _)%Z = true |- _ => apply Z.eqb_eq in H
  | H : (_ =? _)%Z = false |- _ => apply Z.eqb_neq in H
  | H : bool_decide _ = true |- _ => apply bool_decide_eq_true in H
  | H : bool_decide _ = false |- _ => apply bool_decide_eq_false in H
  end.

(** Inverts the monadic binds of a call that returned. *)
Ltac bind_inv :=
  repeat match goal with
  | H : mbind _ _ = Ok _ |- _ => apply bind_ok in H as (? & ? & H)
  | H : require _ _ = Ok _ |- _ => apply require_ok in H
  end.
