(* ===== verification/PyString.v ===== *)
(** * Python strings

    What several components use of [str], held as its UTF-8 bytes: the methods
    that consult Unicode tables are parameters, the others are defined. *)
From Stdlib Require Import String Ascii.
From stdpp Require Import base.

(** Python's [str] methods that consult Unicode tables. *)
Class PyStr := {
  str_strip : string -> string;
  str_lower : string -> string;
  str_casefold : string -> string
}.

(** The methods on lower-case ASCII without surrounding blanks. *)
Definition ascii_strings : PyStr :=
  {| str_strip := fun s => s; str_lower := fun s => s; str_casefold := fun s => s |}.

(** [s.partition(c)] for a one-character separator. *)
Fixpoint partition (c : ascii) (s : string) : string * bool * string :=
  match s with
  | EmptyString => (EmptyString, false, EmptyString)
  | String a s' =>
      if Ascii.eqb a c then (EmptyString, true, s')
      else let '(l, sep, r) := partition c s' in (String a l, sep, r)
  end.

Fixpoint contains_char (c : ascii) (s : string) : bool :=
  match s with
  | EmptyString => false
  | String a s' => Ascii.eqb a c || contains_char c s'
  end.
