(* ===== verification/Uow.v ===== *)
(** * Units of work

    The shape every use case of the API shares: effects on the database state
    that may raise, grouped in a transaction which is durable from its [commit]
    and rolled back when the block is left without one
    ([<context>/domain/unit_of_work.py], [<context>/adapters/unit_of_work.py]). *)
From Stdlib Require Import ZArith Lia.
From stdpp Require Import prelude gmap fin_maps.
From S2P Require Import Prelude.

(** ** Stateful calls that may raise *)

Definition M (S E A : Type) : Type := S -> result E A * S.

#[global] Instance M_ret {S E} : MRet (M S E) := fun A a s => (Ok a, s).
#[global] Instance M_bind {S E} : MBind (M S E) := fun A B k m s =>
  match m s with
  | (Ok a, s') => k a s'
  | (Err e, s') => (Err e, s')
  end.

Section Calls.
Context {S E : Type}.

Definition raise {A} (e : E) : M S E A := fun s => (Err e, s).
Definition gets {A} (f : S -> A) : M S E A := fun s => (Ok (f s), s).
Definition modify (f : S -> S) : M S E unit := fun s => (Ok tt, f s).
Definition lift {A} (r : result E A) : M S E A := fun s => (r, s).

(** [if b: raise e]. *)
Definition guard_not (b : bool) (e : E) : M S E unit := if b then raise e else mret tt.

(** A write that may violate a constraint of the schema. *)
Definition try_modify (f : S -> result E S) : M S E unit := fun s =>
  match f s with Ok s' => (Ok tt, s') | Err e => (Err e, s) end.

Lemma M_bind_ok {A B} (m : M S E A) (k : A -> M S E B) s b s' :
  mbind k m s = (Ok b, s') <-> exists a s1, m s = (Ok a, s1) /\ k a s1 = (Ok b, s').
Proof.
  unfold mbind, M_bind. split.
  - destruct (m s) as [[a|e] s1]; [|done]. by exists a, s1.
  - by intros (a & s1 & -> & ?).
Qed.

Lemma M_bind_run {A B} (m : M S E A) (k : A -> M S E B) s r s1 :
  m s = (r, s1) ->
  mbind k m s = match r with Ok a => k a s1 | Err e => (Err e, s1) end.
Proof. unfold mbind, M_bind. intros ->. by destruct r. Qed.

Lemma guard_not_ok b e s u s' : guard_not b e s = (Ok u, s') <-> b = false /\ s' = s.
Proof. destruct b, u; cbn; split; [done|by intros []|by intros [= <-]|by intros [_ ->]]. Qed.
End Calls.

(** ** The transaction *)

Record tx (S : Type) := Tx { work : S; durable : S }.
Arguments Tx {S} work durable.
Arguments work {S} t.
Arguments durable {S} t.

Section Transaction.
Context {S E : Type}.

(** [async with uow: body]: the block works on its own view of the database and
    what survives is the last committed one, however the block is left. *)
Definition uow {A} (body : M (tx S) E A) : M S E A := fun s =>
  let '(r, t) := body (Tx s s) in (r, t.(durable)).

Definition commit : M (tx S) E unit := fun t => (Ok tt, Tx t.(work) t.(work)).

(** A repository call of the block. *)
Definition on {A} (m : M S E A) : M (tx S) E A := fun t =>
  let '(r, s) := m t.(work) in (r, Tx s t.(durable)).

Lemma uow_run {A} (body : M (tx S) E A) s r t :
  body (Tx s s) = (r, t) -> uow body s = (r, t.(durable)).
Proof. unfold uow. by intros ->. Qed.

Lemma on_run {A} (m : M S E A) w d r w' : m w = (r, w') -> on m (Tx w d) = (r, Tx w' d).
Proof. unfold on. simpl. by intros ->. Qed.

(** Leaving the block without a commit changes nothing. *)
Lemma uow_read {A} (m : M S E A) s : uow (on m) s = (fst (m s), s).
Proof. unfold uow, on. cbn. by destruct (m s). Qed.
End Transaction.

(** ** Tables

    A table is a finite map from its primary key. *)
Open Scope Z_scope.

(** [SELECT ... WHERE]: the matching row, some matching row, their number. *)
Section Rows.
Context {K V : Type} `{Countable K}.

Definition find_row (p : V -> bool) (m : gmap K V) : option V :=
  List.find p (map snd (map_to_list m)).

Definition any_row (p : V -> bool) (m : gmap K V) : bool :=
  match find_row p m with Some _ => true | None => false end.

Definition count_rows (p : V -> bool) (m : gmap K V) : Z :=
  Z.of_nat (size (filter (fun kv : K * V => p kv.2 = true) m)).

Lemma find_row_Some p (m : gmap K V) v :
  find_row p m = Some v -> exists k, m !! k = Some v /\ p v = true.
Proof.
  unfold find_row. intros [Hin Hp]%find_some. apply list_elem_of_In, list_elem_of_fmap in Hin.
  destruct Hin as ([k v'] & -> & Hkv%elem_of_map_to_list). by exists k.
Qed.

Lemma find_row_None p (m : gmap K V) k v : find_row p m = None -> m !! k = Some v -> p v = false.
Proof.
  unfold find_row. intros Hn Hk. apply (find_none p _ Hn), list_elem_of_In.
  apply list_elem_of_fmap. exists (k, v). split; [done|by apply elem_of_map_to_list].
Qed.

Lemma any_row_true p (m : gmap K V) :
  any_row p m = true <-> exists k v, m !! k = Some v /\ p v = true.
Proof.
  unfold any_row. destruct (find_row p m) as [v|] eqn:E.
  - apply find_row_Some in E as (k & ? & ?). naive_solver.
  - split; [done|]. intros (k & v & Hk & Hp). by rewrite (find_row_None _ _ _ _ E Hk) in Hp.
Qed.

Lemma any_row_false p (m : gmap K V) :
  any_row p m = false <-> forall k v, m !! k = Some v -> p v = false.
Proof.
  rewrite <- not_true_iff_false, any_row_true. split.
  - intros Hn k v Hk. apply not_true_iff_false. naive_solver.
  - intros Hf (k & v & Hk & Hp). by rewrite (Hf _ _ Hk) in Hp.
Qed.

(** Two matching rows leave another one beside any given row. *)
Lemma count_rows_other p (m : gmap K V) k :
  1 < count_rows p m -> exists k' v', k' <> k /\ m !! k' = Some v' /\ p v' = true.
Proof.
  unfold count_rows. set (f := filter _ m). intros Hc.
  assert (Hne : delete k f <> ∅).
  { intros He. apply (f_equal size) in He. rewrite map_size_delete, map_size_empty in He.
    unfold id in He. destruct (f !! k); lia. }
  apply map_choose in Hne as (k' & v' & [Hk' Hf]%lookup_delete_Some).
  apply map_lookup_filter_Some in Hf as [Hm Hp]. by exists k', v'.
Qed.

Lemma count_rows_none p (m : gmap K V) :
  count_rows p m = 0 <-> forall k v, m !! k = Some v -> p v = false.
Proof.
  unfold count_rows. transitivity (filter (fun kv : K * V => p kv.2 = true) m = ∅).
  - rewrite <- map_size_empty_iff. lia.
  - rewrite map_empty. setoid_rewrite map_lookup_filter_None. split.
    + intros Hf k v Hk. destruct (Hf k) as [Hk'|Hk']; [congruence|].
      apply not_true_iff_false. by apply Hk'.
    + intros Hf k. destruct (m !! k) as [v|] eqn:E; [right|by left].
      intros v' [= <-]. simpl. by rewrite (Hf _ _ E).
Qed.
End Rows.
