(* ===== verification/Placement.v ===== *)
(** * Worker placement

    [fleet/domain/placement.py] and the fleet value objects it projects
    ([fleet/domain/value_objects.py]): the resource gate of a candidate, the
    greedy choice of a worker, and what the choice guarantees. *)
From Stdlib Require Import ZArith Lia String.
From stdpp Require Import base gmap strings list.
From S2P Require Import Prelude.

Open Scope Z_scope.

(** ** Value objects *)

Inductive DriverKind : Set := CONTAINER.

#[global] Instance DriverKind_eq_dec : EqDecision DriverKind.
Proof. solve_decision. Defined.

#[global] Instance DriverKind_countable : Countable DriverKind.
Proof.
  refine (inj_countable' (fun _ => tt) (fun _ => CONTAINER) _). by intros [].
Defined.

(** A worker id is its string; [WorkerId.__post_init__] refuses a blank one
    where it is built, and the model only passes ids around. *)
Abbreviation WorkerId := string.

Record HostResources := { cpu_cores : Z; memory_bytes : Z }.

Record WorkerCapabilities := {
  drivers : gset DriverKind;
  max_servers : Z;
  resources : HostResources
}.

(** ** Placement data *)

Record PlacementCandidate := {
  pc_worker_id : WorkerId;
  pc_drivers : gset DriverKind;
  pc_capacity : Z;
  pc_load : Z;
  pc_memory_capacity_mb : Z;
  pc_committed_memory_mb : Z;
  pc_committed_cpu_millis : Z
}.

Inductive Placed : Set :=
| Chosen (worker_id : WorkerId)
| NoEligibleWorker.

Inductive placement_error : Set := ValueError_needed_must_be_positive.

Definition MEMORY_RESERVE_MB : Z := 1024.

(** [MEMORY_RESERVE_FRACTION = 0.1] is the IEEE double nearest to 0.1, that is
    [3602879701896397 / 2^55].  [round53 m] rounds a non-negative integer to 53
    significant bits, ties to even: the double nearest to [m] (and, scaled by a
    power of two, the rounding of any product of doubles). *)
Definition MEMORY_RESERVE_FRACTION : Z * Z := (3602879701896397, 55).

Definition round53 (m : Z) : Z :=
  let e := Z.max 0 (Z.log2 m - 52) in
  let q := m / 2 ^ e in
  let r := m mod 2 ^ e in
  if (2 * r <? 2 ^ e) || ((2 * r =? 2 ^ e) && Z.even q)
  then q * 2 ^ e else (q + 1) * 2 ^ e.

(** [int(memory_capacity_mb * MEMORY_RESERVE_FRACTION)]: the integer is
    converted to a double, multiplied, and truncated. *)
Definition reserve_fraction_mb (memory_capacity_mb : Z) : Z :=
  let '(c, k) := MEMORY_RESERVE_FRACTION in
  round53 (round53 memory_capacity_mb * c) / 2 ^ k.

Definition _reserve_mb (memory_capacity_mb : Z) : Z :=
  Z.max MEMORY_RESERVE_MB (reserve_fraction_mb memory_capacity_mb).

Definition _fits_memory (c : PlacementCandidate) (needed_memory_mb : option Z) : bool :=
  match needed_memory_mb with
  | None => true
  | Some mb =>
      if (mb =? 0) || (c.(pc_memory_capacity_mb) =? 0) then true
      else
        let usable_mb := c.(pc_memory_capacity_mb) - _reserve_mb c.(pc_memory_capacity_mb) in
        c.(pc_committed_memory_mb) + mb <=? usable_mb
  end.

Definition can_host (c : PlacementCandidate) (required_driver : DriverKind)
    (needed : Z) (needed_memory_mb : option Z) : result placement_error bool :=
  if needed <=? 0 then Err ValueError_needed_must_be_positive
  else if negb (bool_decide (required_driver ∈ c.(pc_drivers))) then Ok false
  else if negb (c.(pc_capacity) =? 0) && (c.(pc_capacity) <? c.(pc_load) + needed)
  then Ok false
  else Ok (_fits_memory c needed_memory_mb).

(** The [min] key: load, then committed CPU, then the worker id. *)
Definition placement_key (c : PlacementCandidate) : Z * Z * WorkerId :=
  (c.(pc_load), c.(pc_committed_cpu_millis), c.(pc_worker_id)).

Definition placement_key_ltb : Z * Z * WorkerId -> Z * Z * WorkerId -> bool :=
  pair_ltb (pair_ltb Z.ltb Z.ltb) str_ltb.

Definition place (candidates : list PlacementCandidate) (required_driver : DriverKind)
    (needed : Z) (needed_memory_mb : option Z) : result placement_error Placed :=
  eligible ← filterM (fun c => can_host c required_driver needed needed_memory_mb) candidates;
  match min_by placement_key_ltb placement_key eligible with
  | None => Ok NoEligibleWorker
  | Some chosen => Ok (Chosen chosen.(pc_worker_id))
  end.

(** ** The gate *)

#[global] Instance placement_key_strict : StrictTotal placement_key_ltb.
Proof. unfold placement_key_ltb. apply _. Qed.

(** What a candidate has to satisfy to be chosen, as a proposition. *)
Definition hosts (c : PlacementCandidate) (d : DriverKind) (needed : Z)
    (mem : option Z) : Prop :=
  d ∈ c.(pc_drivers)
  /\ (c.(pc_capacity) = 0 \/ c.(pc_load) + needed <= c.(pc_capacity))
  /\ (forall mb, mem = Some mb -> mb <> 0 -> c.(pc_memory_capacity_mb) <> 0 ->
      c.(pc_committed_memory_mb) + mb
      <= c.(pc_memory_capacity_mb) - _reserve_mb c.(pc_memory_capacity_mb)).

Lemma fits_memory_true c mem :
  _fits_memory c mem = true <->
  (forall mb, mem = Some mb -> mb <> 0 -> c.(pc_memory_capacity_mb) <> 0 ->
      c.(pc_committed_memory_mb) + mb
      <= c.(pc_memory_capacity_mb) - _reserve_mb c.(pc_memory_capacity_mb)).
Proof.
  unfold _fits_memory. destruct mem as [mb|]; [|split; [by intros _ ? [=]|done]].
  destruct (Z.eqb_spec mb 0) as [->|?]; simpl.
  { split; [|done]. by intros _ mb [= <-]. }
  destruct (Z.eqb_spec (pc_memory_capacity_mb c) 0) as [E|?]; simpl.
  { by rewrite E. }
  rewrite Z.leb_le. split; [by intros H ? [= <-]|]. intros H. by apply H.
Qed.

Lemma can_host_pure c d needed mem :
  0 < needed -> exists b, can_host c d needed mem = Ok b /\ (b = true <-> hosts c d needed mem).
Proof.
  intros Hn. unfold can_host.
  destruct (Z.leb_spec needed 0); [lia|].
  case_bool_decide as Hd; simpl.
  2: { exists false. split; [done|]. split; [done|]. by intros [? _]. }
  destruct (Z.eqb_spec (pc_capacity c) 0) as [Hc|Hc]; simpl;
    [|destruct (Z.ltb_spec (pc_capacity c) (pc_load c + needed))];
    (eexists; split; [done|]); unfold hosts; rewrite <- fits_memory_true; naive_solver lia.
Qed.

(** [can_host] as a total test, for [needed > 0]. *)
Definition can_hostb (d : DriverKind) (needed : Z) (mem : option Z)
    (c : PlacementCandidate) : bool :=
  match can_host c d needed mem with Ok b => b | Err _ => false end.

Lemma can_hostb_spec c d needed mem :
  0 < needed -> can_hostb d needed mem c = true <-> hosts c d needed mem.
Proof.
  intros Hn. unfold can_hostb. by destruct (can_host_pure c d needed mem Hn) as (b & -> & Hb).
Qed.

Lemma place_pure cs d needed mem :
  0 < needed ->
  place cs d needed mem =
    match min_by placement_key_ltb placement_key (List.filter (can_hostb d needed mem) cs) with
    | None => Ok NoEligibleWorker
    | Some c => Ok (Chosen c.(pc_worker_id))
    end.
Proof.
  intros Hn. unfold place.
  rewrite (filterM_pure _ (can_hostb d needed mem)); [done|].
  intros c. unfold can_hostb. by destruct (can_host_pure c d needed mem Hn) as (b & -> & _).
Qed.

Lemma elem_of_eligible c cs d needed mem :
  0 < needed ->
  c ∈ List.filter (can_hostb d needed mem) cs <-> c ∈ cs /\ hosts c d needed mem.
Proof.
  intros Hn. by rewrite elem_of_filter_bool, (can_hostb_spec _ _ _ _ Hn).
Qed.

(** ** The memory reserve *)

Lemma round53_small m : 0 <= m < 2 ^ 53 -> round53 m = m.
Proof.
  intros Hm. unfold round53.
  assert (Z.max 0 (Z.log2 m - 52) = 0) as ->.
  { destruct (Z.eq_dec m 0) as [->|]; [done|].
    assert (Z.log2 m < 53) by (apply Z.log2_lt_pow2; lia). lia. }
  rewrite Z.pow_0_r, Z.div_1_r, Z.mod_1_r. simpl. lia.
Qed.

(** Rounding to 53 bits moves the value by at most half a unit in the last
    place, and never below the truncation to that unit. *)
Lemma round53_bounds m :
  0 < m -> exists e, 0 <= e /\ (e = 0 \/ 2 ^ e * 2 ^ 52 <= m) /\ (e <= Z.max 0 (Z.log2 m - 52))
    /\ (m / 2 ^ e) * 2 ^ e <= round53 m /\ 2 * round53 m <= 2 * m + 2 ^ e.
Proof.
  intros Hm. unfold round53. set (e := Z.max 0 (Z.log2 m - 52)).
  exists e. assert (0 <= e) by lia. assert (0 < 2 ^ e) by lia.
  pose proof (Z.div_mod m (2 ^ e) ltac:(lia)) as Hdm.
  pose proof (Z.mod_pos_bound m (2 ^ e) ltac:(lia)).
  split_and!; [done| |lia| |].
  - destruct (Z.eq_dec e 0) as [|He]; [by left|right].
    rewrite <- Z.pow_add_r by lia.
    transitivity (2 ^ Z.log2 m); [|by apply Z.log2_spec].
    apply Z.pow_le_mono_r; lia.
  - destruct ((2 * (m mod 2 ^ e) <? 2 ^ e) || _); nia.
  - destruct (Z.ltb_spec (2 * (m mod 2 ^ e)) (2 ^ e)); simpl; [nia|].
    destruct (Z.eqb_spec (2 * (m mod 2 ^ e)) (2 ^ e)); simpl; [|nia].
    destruct (Z.even _); nia.
Qed.

Lemma reserve_fraction_exact n : 0 <= n < 2 ^ 52 -> reserve_fraction_mb n = n / 10.
Proof.
  intros Hn. unfold reserve_fraction_mb, MEMORY_RESERVE_FRACTION.
  rewrite (round53_small n) by lia.
  destruct (Z.eq_dec n 0) as [->|Hn0]; [done|].
  set (m := n * 3602879701896397).
  assert (Hm : 0 < m) by (unfold m; lia).
  destruct (round53_bounds m Hm) as (e & He0 & He & Hemax & Hlo & Hhi).
  assert (Hle : e <= 51).
  { assert (Z.log2 m < 104); [|lia]. apply Z.log2_lt_pow2; unfold m; lia. }
  pose proof (Z.div_mod n 10 ltac:(lia)) as Hd. pose proof (Z.mod_pos_bound n 10 ltac:(lia)).
  symmetry. apply Z.div_unique with (r := round53 m - n / 10 * 2 ^ 55); [|lia].
  left. assert (Hpow : 2 ^ 55 = 2 ^ (55 - e) * 2 ^ e) by (rewrite <- Z.pow_add_r; [f_equal; lia|lia..]).
  assert (0 < 2 ^ e) by lia. split.
  - enough (n / 10 * 2 ^ 55 <= m / 2 ^ e * 2 ^ e) by lia.
    rewrite Hpow, Z.mul_assoc. apply Z.mul_le_mono_nonneg_r; [lia|].
    apply Z.div_le_lower_bound; [lia|]. rewrite Z.mul_comm, <- Z.mul_assoc, <- Hpow.
    unfold m. lia.
  - unfold m in *. destruct He as [->|He]; lia.
Qed.

(** The reserve is exactly [max(1024, n // 10)] for every memory
    size below 2^52 MiB, so the float product never misplaces a MiB. *)
Theorem reserve_mb_exact n :
  0 <= n < 2 ^ 52 -> _reserve_mb n = Z.max 1024 (n / 10).
Proof. intros Hn. unfold _reserve_mb. by rewrite reserve_fraction_exact. Qed.

Lemma reserve_mb_exact_witness :
  (0 <= 16055 < 2 ^ 52) /\ _reserve_mb 16055 = Z.max 1024 (16055 / 10).
Proof. split; [lia|]. apply (reserve_mb_exact 16055). lia. Defined.

(** ** The choice *)

Lemma place_chosen cs d needed mem w :
  0 < needed ->
  place cs d needed mem = Ok (Chosen w) ->
  exists c, c ∈ cs /\ c.(pc_worker_id) = w /\ hosts c d needed mem
    /\ forall c', c' ∈ cs -> hosts c' d needed mem ->
         placement_key_ltb (placement_key c') (placement_key c) = false.
Proof.
  intros Hn. rewrite place_pure by done.
  destruct (min_by _ _ _) as [c|] eqn:E; [|done]. intros [= <-].
  apply min_by_spec in E as [Hin Hmin]; [|apply _].
  rewrite elem_of_eligible in Hin by done. destruct Hin as [Hin Hh].
  exists c. split_and!; [done..|]. intros c' Hc' Hh'. apply Hmin.
  by apply elem_of_eligible.
Qed.

Lemma place_none_iff cs d needed mem :
  0 < needed ->
  place cs d needed mem = Ok NoEligibleWorker <->
  forall c, c ∈ cs -> ~ hosts c d needed mem.
Proof.
  intros Hn. rewrite place_pure by done.
  destruct (min_by _ _ _) as [c|] eqn:E.
  - split; [done|]. intros H. apply min_by_spec in E as [Hin _]; [|apply _].
    apply elem_of_eligible in Hin as [??]; [|done]. naive_solver.
  - split; [|done]. intros _ c Hc Hh. apply min_by_None in E.
    assert (Hin : c ∈ List.filter (can_hostb d needed mem) cs) by by apply elem_of_eligible.
    rewrite E in Hin. by apply not_elem_of_nil in Hin.
Qed.

(** [place] never raises on a positive demand: it answers a candidate that can
    host the server and that no other such candidate beats on load, committed CPU
    and id, or that there is none exactly when no candidate can host it. *)
Theorem place_spec cs d needed mem :
  0 < needed ->
  match place cs d needed mem with
  | Ok (Chosen w) => exists c, c ∈ cs /\ c.(pc_worker_id) = w /\ hosts c d needed mem
      /\ forall c', c' ∈ cs -> hosts c' d needed mem ->
           placement_key_ltb (placement_key c') (placement_key c) = false
  | Ok NoEligibleWorker => forall c, c ∈ cs -> ~ hosts c d needed mem
  | Err _ => False
  end.
Proof.
  intros Hn. destruct (place cs d needed mem) as [[w|]|e] eqn:E.
  - by apply place_chosen.
  - by apply place_none_iff.
  - rewrite place_pure in E by done. by destruct (min_by _ _ _).
Qed.

(** The registry hands candidates over in registration order; the choice does
    not depend on it. *)
Theorem place_order_irrelevant cs1 cs2 d needed mem :
  0 < needed ->
  cs1 ≡ₚ cs2 -> NoDup (map pc_worker_id cs1) ->
  place cs1 d needed mem = place cs2 d needed mem.
Proof.
  intros Hn Hp Hnd. rewrite !place_pure by done.
  set (f := can_hostb d needed mem).
  assert (Hf : List.filter f cs1 ≡ₚ List.filter f cs2) by by rewrite Hp.
  destruct (min_by placement_key_ltb placement_key (List.filter f cs1)) as [c|] eqn:E.
  - apply min_by_spec in E as [Hin Hmin]; [|apply _].
    rewrite (min_by_unique _ _ (List.filter f cs2) c); [done| | |].
    + intros x y Hx Hy [= _ _ Hid]. rewrite <- Hf in Hx, Hy.
      apply elem_of_eligible in Hx as [Hx _]; [|done].
      apply elem_of_eligible in Hy as [Hy _]; [|done].
      apply list_elem_of_lookup in Hx as [i Hi]. apply list_elem_of_lookup in Hy as [j Hj].
      assert (i = j) as ->; [|congruence].
      eapply NoDup_lookup; [exact Hnd| |]; rewrite list_lookup_fmap; [by rewrite Hi|].
      rewrite Hj. simpl. by rewrite Hid.
    + by rewrite <- Hf.
    + intros y Hy. apply Hmin. by rewrite Hf.
  - apply min_by_None in E. rewrite E in Hf. apply Permutation_nil_l in Hf.
    by rewrite <- Hf.
Qed.

(** [can_host] raises on a non-positive [needed]; with no candidate at all
    nothing calls it. *)
Lemma place_needed_nonpositive cs d needed mem :
  needed <= 0 ->
  place cs d needed mem =
    match cs with
    | [] => Ok NoEligibleWorker
    | _ => Err ValueError_needed_must_be_positive
    end.
Proof.
  intros Hn. destruct cs as [|c cs]; [done|]. unfold place. simpl.
  assert (can_host c d needed mem = Err ValueError_needed_must_be_positive) as ->; [|done].
  unfold can_host. by rewrite (proj2 (Z.leb_le needed 0) Hn).
Qed.

(** ** A concrete fleet *)

Definition sample_candidate (w : WorkerId) (load committed_mb : Z) : PlacementCandidate :=
  {| pc_worker_id := w; pc_drivers := {[CONTAINER]}; pc_capacity := 4; pc_load := load;
     pc_memory_capacity_mb := 8192; pc_committed_memory_mb := committed_mb;
     pc_committed_cpu_millis := 0 |}.

(** The idle worker has no memory left; the next one wins. *)
Definition sample_candidates : list PlacementCandidate :=
  [sample_candidate "a" 3 0; sample_candidate "b" 0 7000; sample_candidate "c" 1 4096].

Lemma place_spec_witness :
  place sample_candidates CONTAINER 1 (Some 2048) = Ok (Chosen "c"%string)
  /\ exists c, c ∈ sample_candidates /\ c.(pc_worker_id) = "c"%string
       /\ hosts c CONTAINER 1 (Some 2048).
Proof.
  assert (E : place sample_candidates CONTAINER 1 (Some 2048) = Ok (Chosen "c"%string))
    by (vm_compute; reflexivity).
  split; [exact E|].
  pose proof (place_spec sample_candidates CONTAINER 1 (Some 2048) ltac:(lia)) as Hs.
  rewrite E in Hs. destruct Hs as (c & Hin & Hid & Hh & _). exists c. split; [exact Hin|split; [exact Hid|exact Hh]].
Defined.

Lemma place_order_irrelevant_witness :
  place sample_candidates CONTAINER 1 (Some 2048)
  = place (reverse sample_candidates) CONTAINER 1 (Some 2048).
Proof.
  apply (place_order_irrelevant sample_candidates (reverse sample_candidates)).
  - lia.
  - symmetry. apply reverse_Permutation.
  - apply (bool_decide_eq_true_1 _). vm_compute. reflexivity.
Defined.
