(* ===== verification/Uuid.v ===== *)
(** * UUIDs

    What the code relies on of Python's [uuid.UUID]: a UUID is its 128-bit
    integer, [str] prints it 8-4-4-4-12 in lowercase hex, and the constructor
    reads any spelling of it.  [WorkerId.parse]
    ([fleet/domain/value_objects.py]) and the id bridge of the control-plane
    seam ([servers/adapters/control_plane.py]) are built on it. *)
From Stdlib Require Import ZArith NArith Lia String Ascii.
From stdpp Require Import base gmap strings list.
From S2P Require Import Prelude Placement.

Open Scope N_scope.

Abbreviation uuid := N.

(** ** Printing *)

Definition hex_char (d : N) : ascii :=
  if d <? 10 then ascii_of_N (48 + d) else ascii_of_N (87 + d).

(** The [n] low hex digits of [x], most significant first. *)
Fixpoint hex_digits (n : nat) (x : N) : list ascii :=
  match n with
  | O => []
  | S n' => hex_digits n' (x / 16) ++ [hex_char (x mod 16)]
  end.

Definition hyphenate (l : list ascii) : list ascii :=
  take 8 l ++ "-"%char :: take 4 (drop 8 l) ++ "-"%char :: take 4 (drop 12 l)
  ++ "-"%char :: take 4 (drop 16 l) ++ "-"%char :: drop 20 l.

Definition uuid_str (u : uuid) : string :=
  string_of_list_ascii (hyphenate (hex_digits 32 u)).

(** ** Parsing: [uuid.UUID(hex)] over ASCII spellings *)

Fixpoint starts_with (p l : list ascii) : bool :=
  match p, l with
  | [], _ => true
  | x :: p', y :: l' => Ascii.eqb x y && starts_with p' l'
  | _, [] => false
  end.

(** [l.replace(p, "")] for a non-empty [p]; [skip] counts the characters of a
    match still to drop. *)
Fixpoint remove_sub (p : list ascii) (skip : nat) (l : list ascii) : list ascii :=
  match l with
  | [] => []
  | c :: l' =>
      match skip with
      | S k => remove_sub p k l'
      | O => if starts_with p l then remove_sub p (length p - 1) l'
             else c :: remove_sub p 0 l'
      end
  end.

Fixpoint lstrip (p : ascii -> bool) (l : list ascii) : list ascii :=
  match l with
  | c :: l' => if p c then lstrip p l' else l
  | [] => []
  end.

Definition strip (p : ascii -> bool) (l : list ascii) : list ascii :=
  rev (lstrip p (rev (lstrip p l))).

Definition hex_value (c : ascii) : option N :=
  let n := N_of_ascii c in
  if (48 <=? n) && (n <=? 57) then Some (n - 48)
  else if (97 <=? n) && (n <=? 102) then Some (n - 87)
  else if (65 <=? n) && (n <=? 70) then Some (n - 55)
  else None.

(** The digits of [int(s, 16)]: single underscores may separate them; [us] says
    an underscore may not come next. *)
Fixpoint hex_value_of (acc : N) (us : bool) (l : list ascii) : option N :=
  match l with
  | [] => if us then None else Some acc
  | c :: l' =>
      if Ascii.eqb c "_" then (if us then None else hex_value_of acc true l')
      else d ← hex_value c; hex_value_of (16 * acc + d) false l'
  end.

Definition is_space (c : ascii) : bool :=
  let n := N_of_ascii c in
  ((9 <=? n) && (n <=? 13)) || ((28 <=? n) && (n <=? 32)).

(** [int(s, 16)]: surrounding blanks, a sign, a [0x] prefix. *)
Definition int16 (l : list ascii) : option Z :=
  let l := strip is_space l in
  let '(neg, l) :=
    match l with
    | c :: l' => if Ascii.eqb c "-" then (true, l')
                 else if Ascii.eqb c "+" then (false, l') else (false, l)
    | [] => (false, [])
    end in
  let l :=
    match l with
    | z :: x :: l' =>
        if Ascii.eqb z "0" && (Ascii.eqb x "x" || Ascii.eqb x "X")
        then match l' with
             | u :: l'' => if Ascii.eqb u "_" then l'' else l'
             | [] => []
             end
        else l
    | _ => l
    end in
  v ← hex_value_of 0 true l;
  Some (if neg : bool then (- Z.of_N v)%Z else Z.of_N v).

Definition uuid_parse (s : string) : option uuid :=
  let hex := list_ascii_of_string s in
  let hex := remove_sub (list_ascii_of_string "urn:") 0 hex in
  let hex := remove_sub (list_ascii_of_string "uuid:") 0 hex in
  let hex := strip (fun c => Ascii.eqb c "{" || Ascii.eqb c "}") hex in
  let hex := List.filter (fun c => negb (Ascii.eqb c "-")) hex in
  if negb (Nat.eqb (length hex) 32) then None
  else
    v ← int16 hex;
    if ((0 <=? v) && (v <? 2 ^ 128))%Z then Some (Z.to_N v) else None.

(** ** The value object *)

(** [WorkerId.parse]: the canonical spelling, or [InvalidWorkerIdError]. *)
Definition WorkerId_parse (raw : string) : option WorkerId :=
  u ← uuid_parse raw; Some (uuid_str u).

(** ** Round trip *)

Definition plain_hex (c : ascii) : bool :=
  let n := N_of_ascii c in ((48 <=? n) && (n <=? 57)) || ((97 <=? n) && (n <=? 102)).

Lemma hex_char_plain d : d < 16 -> plain_hex (hex_char d) = true /\ hex_value (hex_char d) = Some d.
Proof.
  intros Hd.
  assert (H : Forall (fun d => plain_hex (hex_char d) = true /\ hex_value (hex_char d) = Some d)
    [0;1;2;3;4;5;6;7;8;9;10;11;12;13;14;15]) by (repeat constructor).
  rewrite Forall_forall in H. apply H.
  assert (d = 0 \/ d = 1 \/ d = 2 \/ d = 3 \/ d = 4 \/ d = 5 \/ d = 6 \/ d = 7 \/ d = 8 \/ d = 9
    \/ d = 10 \/ d = 11 \/ d = 12 \/ d = 13 \/ d = 14 \/ d = 15) by lia. set_solver.
Qed.

Lemma hex_digits_length n x : length (hex_digits n x) = n.
Proof.
  revert x. induction n as [|n IH]; intros x; simpl; [done|].
  rewrite length_app, IH. simpl. lia.
Qed.

Lemma hex_digits_plain n x : Forall (fun c => plain_hex c = true) (hex_digits n x).
Proof.
  revert x. induction n as [|n IH]; intros x; simpl; [done|].
  apply Forall_app. split; [done|]. constructor; [|done].
  apply hex_char_plain. by apply N.mod_lt.
Qed.

(** Plain hex digits are no separator, sign, blank, brace or prefix character. *)
Lemma plain_hex_not c :
  plain_hex c = true ->
  c <> "-"%char /\ c <> "_"%char /\ c <> "+"%char /\ c <> "x"%char /\ c <> "X"%char
  /\ c <> "u"%char /\ c <> "{"%char /\ c <> "}"%char /\ is_space c = false.
Proof.
  intros H.
  assert (Hall : forallb (fun n => let c := ascii_of_nat n in
     implb (plain_hex c)
       (negb (Ascii.eqb c "-") && negb (Ascii.eqb c "_") && negb (Ascii.eqb c "+")
        && negb (Ascii.eqb c "x") && negb (Ascii.eqb c "X") && negb (Ascii.eqb c "u")
        && negb (Ascii.eqb c "{") && negb (Ascii.eqb c "}") && negb (is_space c)))
     (List.seq 0 256) = true) by by vm_compute.
  rewrite List.forallb_forall in Hall.
  assert (Hc : List.In (nat_of_ascii c) (List.seq 0 256)).
  { apply in_seq. pose proof (nat_ascii_bounded c). lia. }
  specialize (Hall _ Hc). simpl in Hall. rewrite ascii_nat_embedding, H in Hall. simpl in Hall.
  rewrite !andb_true_iff, !negb_true_iff, !Ascii.eqb_neq in Hall. tauto.
Qed.

Lemma hex_value_of_digits n x acc us :
  hex_value_of acc us (hex_digits n x) =
    if bool_decide (n = O) then (if us then None else Some acc)
    else Some (16 ^ N.of_nat n * acc + x mod 16 ^ N.of_nat n).
Proof.
  enough (Hgen : forall rest, hex_value_of acc us (hex_digits n x ++ rest) =
    hex_value_of (16 ^ N.of_nat n * acc + x mod 16 ^ N.of_nat n)
      (if bool_decide (n = O) then us else false) rest).
  { rewrite <- (app_nil_r (hex_digits n x)), Hgen. simpl.
    case_bool_decide; subst; [|done]. destruct us; [done|]. f_equal. rewrite N.mod_1_r. simpl. lia. }
  revert x. induction n as [|n IH]; intros x rest; simpl.
  { rewrite N.mod_1_r. f_equal. lia. }
  rewrite <- app_assoc, IH. simpl.
  destruct (hex_char_plain (x mod 16)) as [Hp Hv]; [by apply N.mod_lt|].
  destruct (plain_hex_not _ Hp) as (_ & Hu & _).
  rewrite (proj2 (Ascii.eqb_neq _ _) Hu), Hv. simpl. f_equal.
  replace (N.of_nat (S n)) with (N.succ (N.of_nat n)) by lia. rewrite N.pow_succ_r by lia.
  rewrite (N.Div0.mod_mul_r x 16). lia.
Qed.

Lemma remove_sub_none x p l :
  Forall (fun c => c <> x) l -> remove_sub (x :: p) 0 l = l.
Proof.
  induction 1 as [|c l Hc _ IH]; [done|]. cbn -[Ascii.eqb].
  destruct (Ascii.eqb_spec x c); [congruence|]. simpl. by rewrite IH.
Qed.

Lemma lstrip_none p l : Forall (fun c => p c = false) l -> lstrip p l = l.
Proof. intros H. destruct H as [|c l Hc _]; [done|]. simpl. by rewrite Hc. Qed.

Lemma strip_none p l : Forall (fun c => p c = false) l -> strip p l = l.
Proof.
  intros H. unfold strip. rewrite (lstrip_none p l H).
  rewrite lstrip_none; [by rewrite rev_involutive|].
  apply Forall_forall. intros c Hc. rewrite Forall_forall in H. apply H.
  apply list_elem_of_In. rewrite in_rev. by apply list_elem_of_In.
Qed.

Lemma filter_all {A} (f : A -> bool) l : Forall (fun c => f c = true) l -> List.filter f l = l.
Proof. induction 1 as [|c l Hc _ IH]; simpl; [done|]. by rewrite Hc, IH. Qed.

Lemma take_drop_plain n m (l : list ascii) (P : ascii -> Prop) :
  Forall P l -> Forall P (take n (drop m l)).
Proof. intros H. by apply Forall_take, Forall_drop. Qed.

Lemma hyphenate_forall (P : ascii -> Prop) l :
  P "-"%char -> Forall P l -> Forall P (hyphenate l).
Proof.
  intros Hd Hl. unfold hyphenate.
  repeat first [apply Forall_app; split | apply Forall_cons; split];
    try done; try (by apply take_drop_plain); try (by apply Forall_take); by apply Forall_drop.
Qed.

Lemma filter_hyphenate l :
  Forall (fun c => plain_hex c = true) l ->
  List.filter (fun c => negb (Ascii.eqb c "-")) (hyphenate l) = l.
Proof.
  intros Hl.
  assert (Hk : forall k, Forall (fun c => plain_hex c = true) k ->
    List.filter (fun c => negb (Ascii.eqb c "-")) k = k).
  { intros k Hk. apply filter_all. eapply Forall_impl; [exact Hk|]. intros c Hc.
    destruct (plain_hex_not c Hc) as (Hm & _). simpl.
    by rewrite (proj2 (Ascii.eqb_neq _ _) Hm). }
  unfold hyphenate.
  do 4 (rewrite List.filter_app; cbn [List.filter Ascii.eqb Bool.eqb negb]).
  rewrite !Hk by first [by apply take_drop_plain|by apply Forall_take|by apply Forall_drop].
  pose proof (take_drop 4 (drop 8 l)) as H1. pose proof (take_drop 4 (drop 12 l)) as H2.
  pose proof (take_drop 4 (drop 16 l)) as H3. rewrite drop_drop in H1, H2, H3. simpl in H1, H2, H3.
  rewrite H3, H2, H1. apply take_drop.
Qed.

Lemma int16_digits u : u < 2 ^ 128 -> int16 (hex_digits 32 u) = Some (Z.of_N u).
Proof.
  intros Hu. pose proof (hex_digits_plain 32 u) as Hp.
  assert (Hv : hex_value_of 0 true (hex_digits 32 u) = Some u).
  { rewrite hex_value_of_digits. simpl bool_decide. cbv iota.
    rewrite N.mul_0_r, N.add_0_l. f_equal. apply N.mod_small. exact Hu. }
  pose proof (hex_digits_length 32 u) as Hlen.
  destruct (hex_digits 32 u) as [|c1 [|c2 l]]; [done..|].
  unfold int16. rewrite strip_none.
  2: { eapply Forall_impl; [exact Hp|]. intros c Hc. by apply plain_hex_not. }
  apply Forall_cons in Hp as [H1 Hp]. apply Forall_cons in Hp as [H2 _].
  destruct (plain_hex_not c1 H1) as (Hm & _ & Hpl & _).
  destruct (plain_hex_not c2 H2) as (_ & _ & _ & Hx & HX & _).
  rewrite (proj2 (Ascii.eqb_neq _ _) Hm), (proj2 (Ascii.eqb_neq _ _) Hpl).
  rewrite (proj2 (Ascii.eqb_neq _ _) Hx), (proj2 (Ascii.eqb_neq _ _) HX).
  rewrite andb_false_r. by rewrite Hv.
Qed.

(** Printing a UUID and parsing it back gives it again. *)
Lemma uuid_roundtrip u : u < 2 ^ 128 -> uuid_parse (uuid_str u) = Some u.
Proof.
  intros Hu. unfold uuid_parse, uuid_str. rewrite list_ascii_of_string_of_list_ascii.
  pose proof (hex_digits_plain 32 u) as Hp.
  assert (Hne : Forall (fun c => c <> "u"%char) (hyphenate (hex_digits 32 u))).
  { apply hyphenate_forall; [done|]. eapply Forall_impl; [exact Hp|].
    intros c Hc. by apply plain_hex_not. }
  cbn [list_ascii_of_string]. rewrite (remove_sub_none _ _ _ Hne), (remove_sub_none _ _ _ Hne).
  rewrite strip_none.
  2: { apply hyphenate_forall; [done|]. eapply Forall_impl; [exact Hp|]. intros c Hc.
       destruct (plain_hex_not c Hc) as (_ & _ & _ & _ & _ & _ & H1 & H2 & _). simpl.
       by rewrite (proj2 (Ascii.eqb_neq _ _) H1), (proj2 (Ascii.eqb_neq _ _) H2). }
  rewrite filter_hyphenate, hex_digits_length, int16_digits by done. simpl.
  rewrite (proj2 (Z.leb_le _ _)), (proj2 (Z.ltb_lt _ _)) by lia. simpl.
  by rewrite N2Z.id.
Qed.

Lemma uuid_parse_bound s u : uuid_parse s = Some u -> u < 2 ^ 128.
Proof.
  unfold uuid_parse. destruct (negb _); [done|].
  destruct (int16 _) as [v|]; simpl; [|done].
  destruct (Z.leb_spec 0 v), (Z.ltb_spec v (2 ^ 128)); simpl; try done.
  intros [= <-]. lia.
Qed.

#[local] Opaque uuid_str uuid_parse.

(** Any two spellings of one UUID name the same worker, spellings of different
    UUIDs name different workers, and the canonical spelling is a fixed point. *)
Theorem WorkerId_parse_canonical raw1 raw2 w1 w2 :
  WorkerId_parse raw1 = Some w1 -> WorkerId_parse raw2 = Some w2 ->
  WorkerId_parse w1 = Some w1 /\ (w1 = w2 <-> uuid_parse raw1 = uuid_parse raw2).
Proof.
  unfold WorkerId_parse. intros H1 H2.
  destruct (uuid_parse raw1) as [u1|] eqn:E1; [|done].
  destruct (uuid_parse raw2) as [u2|] eqn:E2; [|done]. cbn in H1, H2.
  apply uuid_parse_bound in E1, E2. injection H1 as <-. injection H2 as <-.
  rewrite (uuid_roundtrip u1 E1). split; [done|]. split; [|by intros [= ->]].
  intros Heq. apply (f_equal uuid_parse) in Heq.
  rewrite (uuid_roundtrip u1 E1), (uuid_roundtrip u2 E2) in Heq. exact Heq.
Qed.

#[local] Transparent uuid_str uuid_parse.

Lemma WorkerId_parse_canonical_witness :
  let w := "0aff00ff-0aff-00ff-0aff-00ff0aff00ff"%string in
  WorkerId_parse w = Some w
  /\ (w = w <-> uuid_parse "{0AFF-00ff0AFF00ff0AFF00ff0AFF00ff}"
               = uuid_parse "urn:uuid:0aff00ff0aff00ff0aff00ff0aff00ff").
Proof.
  apply (WorkerId_parse_canonical "{0AFF-00ff0AFF00ff0AFF00ff0AFF00ff}"
    "urn:uuid:0aff00ff0aff00ff0aff00ff0aff00ff"); vm_compute; reflexivity.
Defined.
