(* ===== verification/Registry.v ===== *)
(** * The worker registry

    [fleet/domain/entities.py] (the [Worker] entity and its liveness) and
    [fleet/adapters/registry.py] ([InMemoryWorkerRegistry], the implementation
    of the [WorkerRegistry] port).  Instants and durations are integers in
    microseconds.  Every dict operation that can raise [KeyError] in Python
    returns [None] here; the invariant [wf] shows none of them does. *)
From Stdlib Require Import ZArith Lia String.
From stdpp Require Import base gmap strings list fin_maps.
From S2P Require Import Prelude Placement.

Open Scope Z_scope.

(** ** The Worker entity *)

Inductive WorkerStatus : Set := ONLINE | OFFLINE | DRAINING.

#[global] Instance WorkerStatus_eq_dec : EqDecision WorkerStatus.
Proof. solve_decision. Defined.

Record Worker := {
  w_id : WorkerId;
  w_version : string;
  w_capabilities : WorkerCapabilities;
  w_registered_at : Z;
  w_last_heartbeat_at : Z;
  w_disconnected : bool;
  w_draining : bool
}.

Definition with_heartbeat (w : Worker) (at_ : Z) : Worker :=
  {| w_id := w.(w_id); w_version := w.(w_version);
     w_capabilities := w.(w_capabilities); w_registered_at := w.(w_registered_at);
     w_last_heartbeat_at := at_; w_disconnected := false; w_draining := w.(w_draining) |}.

Definition disconnect (w : Worker) : Worker :=
  {| w_id := w.(w_id); w_version := w.(w_version);
     w_capabilities := w.(w_capabilities); w_registered_at := w.(w_registered_at);
     w_last_heartbeat_at := w.(w_last_heartbeat_at); w_disconnected := true;
     w_draining := w.(w_draining) |}.

Definition replace_draining (w : Worker) (b : bool) : Worker :=
  {| w_id := w.(w_id); w_version := w.(w_version);
     w_capabilities := w.(w_capabilities); w_registered_at := w.(w_registered_at);
     w_last_heartbeat_at := w.(w_last_heartbeat_at); w_disconnected := w.(w_disconnected);
     w_draining := b |}.

Definition start_draining (w : Worker) : Worker := replace_draining w true.

Definition stop_draining (w : Worker) : Worker := replace_draining w false.

Definition status (w : Worker) (now timeout : Z) : WorkerStatus :=
  if w.(w_disconnected) then OFFLINE
  else if timeout <? now - w.(w_last_heartbeat_at) then OFFLINE
  else if w.(w_draining) then DRAINING
  else ONLINE.

(** ** The registry state: the dicts of [InMemoryWorkerRegistry.__init__] *)

Abbreviation SessionToken := Z.
Abbreviation per_worker := (gmap WorkerId (gmap string Z)).

Record Registry := mkRegistry {
  timeout : Z;
  workers : list (WorkerId * Worker);
  sessions : gmap WorkerId SessionToken;
  next_session : SessionToken;
  committed : per_worker;
  next_seq : Z;
  confirmed_seq : per_worker;
  decremented_seq : per_worker;
  reserved : per_worker;
  drained : gset WorkerId;
  held : per_worker
}.

Definition init (heartbeat_timeout : Z) (drained0 : gset WorkerId) : Registry :=
  {| timeout := heartbeat_timeout; workers := []; sessions := ∅; next_session := 0;
     committed := ∅; next_seq := 0; confirmed_seq := ∅; decremented_seq := ∅;
     reserved := ∅; drained := drained0; held := ∅ |}.

(** Assignments to one attribute. *)
Definition set_workers (f : list (WorkerId * Worker)) (r : Registry) : Registry :=
  mkRegistry r.(timeout) f r.(sessions) r.(next_session) r.(committed) r.(next_seq)
    r.(confirmed_seq) r.(decremented_seq) r.(reserved) r.(drained) r.(held).

Definition set_drained (d : gset WorkerId) (r : Registry) : Registry :=
  mkRegistry r.(timeout) r.(workers) r.(sessions) r.(next_session) r.(committed) r.(next_seq)
    r.(confirmed_seq) r.(decremented_seq) r.(reserved) d r.(held).

Definition set_held (h : per_worker) (r : Registry) : Registry :=
  mkRegistry r.(timeout) r.(workers) r.(sessions) r.(next_session) r.(committed) r.(next_seq)
    r.(confirmed_seq) r.(decremented_seq) r.(reserved) r.(drained) h.

Definition set_reserved (v : per_worker) (r : Registry) : Registry :=
  mkRegistry r.(timeout) r.(workers) r.(sessions) r.(next_session) r.(committed) r.(next_seq)
    r.(confirmed_seq) r.(decremented_seq) v r.(drained) r.(held).

(** The four assignment axes at once, with the sequence counter. *)
Definition set_axes (c : per_worker) (n : Z) (cs ds rs : per_worker) (r : Registry) : Registry :=
  mkRegistry r.(timeout) r.(workers) r.(sessions) r.(next_session) c n cs ds rs
    r.(drained) r.(held).

(** ** Registration, liveness and drain *)

Definition register (r : Registry) (worker : Worker) (held_servers : gmap string Z)
    : Registry * SessionToken :=
  let wid := worker.(w_id) in
  let worker := if decide (wid ∈ r.(drained)) then start_draining worker else worker in
  let session := r.(next_session) in
  ({| timeout := r.(timeout);
      workers := od_set wid worker r.(workers);
      sessions := <[wid := session]> r.(sessions);
      next_session := session + 1;
      committed := <[wid := ∅]> r.(committed);
      next_seq := r.(next_seq);
      confirmed_seq := <[wid := ∅]> r.(confirmed_seq);
      decremented_seq := <[wid := ∅]> r.(decremented_seq);
      reserved := match r.(reserved) !! wid with
                  | Some _ => r.(reserved)
                  | None => <[wid := ∅]> r.(reserved)
                  end;
      drained := r.(drained);
      held := <[wid := held_servers]> r.(held) |}, session).

Definition record_held_generation (r : Registry) (w : WorkerId) (server : string)
    (generation : Z) : Registry :=
  match r.(held) !! w with
  | Some h => set_held (<[w := <[server := generation]> h]> r.(held)) r
  | None => r
  end.

Definition held_generation (r : Registry) (w : WorkerId) (server : string) : option Z :=
  match r.(held) !! w with
  | Some h => h !! server
  | None => None
  end.

Definition record_heartbeat (r : Registry) (w : WorkerId) (at_ : Z) : Registry :=
  match od_get w r.(workers) with
  | Some worker => set_workers (od_set w (with_heartbeat worker at_) r.(workers)) r
  | None => r
  end.

Definition is_current_session (r : Registry) (w : WorkerId) (session : SessionToken) : bool :=
  bool_decide (r.(sessions) !! w = Some session).

Definition mark_disconnected (r : Registry) (w : WorkerId) (session : SessionToken) : Registry :=
  match od_get w r.(workers) with
  | Some worker =>
      if decide (r.(sessions) !! w = Some session)
      then set_workers (od_set w (disconnect worker) r.(workers)) r else r
  | None => r
  end.

Definition set_draining (r : Registry) (w : WorkerId) (draining : bool) : Registry * bool :=
  match od_get w r.(workers) with
  | None => (r, false)
  | Some worker =>
      if draining
      then (set_workers (od_set w (start_draining worker) r.(workers))
              (set_drained ({[w]} ∪ r.(drained)) r), true)
      else (set_workers (od_set w (stop_draining worker) r.(workers))
              (set_drained (r.(drained) ∖ {[w]}) r), true)
  end.

(** ** The assignment axes *)

Definition reserve (r : Registry) (w : WorkerId) (server : string) (memory_mb : Z)
    : option Registry :=
  match r.(committed) !! w with
  | None => Some r
  | Some _ =>
      rs ← r.(reserved) !! w;
      Some (set_reserved (<[w := <[server := memory_mb]> rs]> r.(reserved)) r)
  end.

Definition reserved_memory_mb (r : Registry) (w : WorkerId) : Z :=
  map_sum (default ∅ (r.(reserved) !! w)).

Definition committed_memory_mb (r : Registry) (w : WorkerId) : Z :=
  map_sum (default ∅ (r.(committed) !! w)).

Definition assignment_epoch (r : Registry) (w : WorkerId) : Z := r.(next_seq).

Definition release_reservation (r : Registry) (w : WorkerId) (server : string) : Registry :=
  match r.(reserved) !! w with
  | Some rs => set_reserved (<[w := delete server rs]> r.(reserved)) r
  | None => r
  end.

Definition increment_assignment (r : Registry) (w : WorkerId) (server : string)
    : option Registry :=
  match r.(committed) !! w with
  | None => Some r
  | Some cm =>
      rs ← r.(reserved) !! w;
      match rs !! server with
      | None => Some r
      | Some memory_mb =>
          cs ← r.(confirmed_seq) !! w;
          Some (set_axes (<[w := <[server := memory_mb]> cm]> r.(committed))
                  (r.(next_seq) + 1)
                  (<[w := <[server := r.(next_seq)]> cs]> r.(confirmed_seq))
                  r.(decremented_seq)
                  (<[w := delete server rs]> r.(reserved)) r)
      end
  end.

Definition decrement_assignment (r : Registry) (w : WorkerId) (server : string)
    : option Registry :=
  match r.(committed) !! w with
  | None => Some r
  | Some cm =>
      cs ← r.(confirmed_seq) !! w;
      ds ← r.(decremented_seq) !! w;
      Some (set_axes (<[w := delete server cm]> r.(committed))
              (r.(next_seq) + 1)
              (<[w := delete server cs]> r.(confirmed_seq))
              (<[w := <[server := r.(next_seq)]> ds]> r.(decremented_seq))
              r.(reserved) r)
  end.

(** [preserved]: the committed rows confirmed at or after the snapshot. *)
Definition preserved (cm cs : gmap string Z) (snapshot_epoch : Z) : gmap string Z :=
  filter (fun p => snapshot_epoch <= default (-1) (cs !! p.1)) cm.

(** [filtered_assignments]: the tally without the rows decremented since. *)
Definition filtered_assignments (tally ds : gmap string Z) (snapshot_epoch : Z)
    : gmap string Z :=
  filter (fun p => ~ (snapshot_epoch <= default (snapshot_epoch - 1) (ds !! p.1))) tally.

Definition set_assignment (r : Registry) (w : WorkerId) (assignments : gmap string Z)
    (snapshot_epoch : Z) : option Registry :=
  match r.(committed) !! w with
  | None => Some r
  | Some cm =>
      cs ← r.(confirmed_seq) !! w;
      ds ← r.(decremented_seq) !! w;
      rs ← r.(reserved) !! w;
      let filtered := filtered_assignments assignments ds snapshot_epoch in
      let cm' := preserved cm cs snapshot_epoch ∪ filtered in
      let cs' := map_imap (fun server _ => Some (default (-1) (cs !! server))) cm' in
      let rs' := filter (fun p => filtered !! p.1 = None) rs in
      Some (set_axes (<[w := cm']> r.(committed)) r.(next_seq)
              (<[w := cs']> r.(confirmed_seq)) r.(decremented_seq)
              (<[w := rs']> r.(reserved)) r)
  end.

(** ** Reads *)

Definition _load (r : Registry) (w : WorkerId) : option Z :=
  cm ← r.(committed) !! w;
  Some (Z.of_nat (size cm) + Z.of_nat (size (default ∅ (r.(reserved) !! w)))).

Definition candidate_of (r : Registry) (worker : Worker) : option PlacementCandidate :=
  load ← _load r worker.(w_id);
  Some {| pc_worker_id := worker.(w_id);
          pc_drivers := worker.(w_capabilities).(drivers);
          pc_capacity := worker.(w_capabilities).(max_servers);
          pc_load := load;
          pc_memory_capacity_mb :=
            worker.(w_capabilities).(resources).(memory_bytes) / (1024 * 1024);
          pc_committed_memory_mb :=
            committed_memory_mb r worker.(w_id) + reserved_memory_mb r worker.(w_id);
          pc_committed_cpu_millis := 0 |}.

Definition candidates_for_placement (r : Registry) (now : Z) : option (list PlacementCandidate) :=
  mapM (candidate_of r)
    (List.filter (fun w => bool_decide (status w now r.(timeout) = ONLINE))
       (od_values r.(workers))).

Record WorkerSnapshot := {
  sn_id : WorkerId;
  sn_version : string;
  sn_capabilities : WorkerCapabilities;
  sn_registered_at : Z;
  sn_last_heartbeat_at : Z;
  sn_status : WorkerStatus;
  sn_assigned_count : Z
}.

Definition _snapshot (r : Registry) (worker : Worker) (now : Z) : option WorkerSnapshot :=
  load ← _load r worker.(w_id);
  Some {| sn_id := worker.(w_id);
          sn_version := worker.(w_version);
          sn_capabilities := worker.(w_capabilities);
          sn_registered_at := worker.(w_registered_at);
          sn_last_heartbeat_at := worker.(w_last_heartbeat_at);
          sn_status := status worker now r.(timeout);
          sn_assigned_count := load |}.

Definition list_workers (r : Registry) (now : Z) : option (list WorkerSnapshot) :=
  mapM (fun w => _snapshot r w now) (od_values r.(workers)).

Definition get (r : Registry) (w : WorkerId) (now : Z) : option (option WorkerSnapshot) :=
  match od_get w r.(workers) with
  | None => Some None
  | Some worker => s ← _snapshot r worker now; Some (Some s)
  end.

(** ** Every mutation as one step *)

Inductive op : Type :=
| Register (worker : Worker) (held_servers : gmap string Z)
| RecordHeld (w : WorkerId) (server : string) (generation : Z)
| Heartbeat (w : WorkerId) (at_ : Z)
| Disconnected (w : WorkerId) (session : SessionToken)
| SetDraining (w : WorkerId) (draining : bool)
| Reserve (w : WorkerId) (server : string) (memory_mb : Z)
| Release (w : WorkerId) (server : string)
| Increment (w : WorkerId) (server : string)
| Decrement (w : WorkerId) (server : string)
| SetAssignment (w : WorkerId) (tally : gmap string Z) (snapshot_epoch : Z).

Definition step (o : op) (r : Registry) : option Registry :=
  match o with
  | Register worker h => Some (register r worker h).1
  | RecordHeld w s g => Some (record_held_generation r w s g)
  | Heartbeat w t => Some (record_heartbeat r w t)
  | Disconnected w t => Some (mark_disconnected r w t)
  | SetDraining w b => Some (set_draining r w b).1
  | Reserve w s mb => reserve r w s mb
  | Release w s => Some (release_reservation r w s)
  | Increment w s => increment_assignment r w s
  | Decrement w s => decrement_assignment r w s
  | SetAssignment w t e => set_assignment r w t e
  end.

Fixpoint run (os : list op) (r : Registry) : option Registry :=
  match os with
  | [] => Some r
  | o :: os' => r' ← step o r; run os' r'
  end.

(** ** The invariant *)

Record wf (r : Registry) : Prop := {
  wf_nodup : NoDup (od_keys r.(workers));
  wf_ids : forall k w, od_get k r.(workers) = Some w -> w.(w_id) = k;
  wf_workers : forall k, is_Some (od_get k r.(workers)) <-> k ∈ dom r.(committed);
  wf_confirmed : dom r.(confirmed_seq) = dom r.(committed);
  wf_decremented : dom r.(decremented_seq) = dom r.(committed);
  wf_reserved : dom r.(reserved) = dom r.(committed);
  wf_held : dom r.(held) = dom r.(committed);
  wf_sessions : dom r.(sessions) = dom r.(committed);
  wf_stamped : forall k cm cs,
    r.(committed) !! k = Some cm -> r.(confirmed_seq) !! k = Some cs -> dom cs = dom cm;
  wf_confirmed_lt : forall k cs s n,
    r.(confirmed_seq) !! k = Some cs -> cs !! s = Some n -> n < r.(next_seq);
  wf_decremented_lt : forall k ds s n,
    r.(decremented_seq) !! k = Some ds -> ds !! s = Some n -> n < r.(next_seq);
  wf_seq : 0 <= r.(next_seq);
  wf_session_lt : forall k t, r.(sessions) !! k = Some t -> 0 <= t < r.(next_session);
  wf_session_inj : forall k1 k2 t,
    r.(sessions) !! k1 = Some t -> r.(sessions) !! k2 = Some t -> k1 = k2;
  wf_next_session : 0 <= r.(next_session);
  wf_drained : forall k w, od_get k r.(workers) = Some w -> k ∈ r.(drained) ->
    w.(w_draining) = true
}.

Lemma init_wf t d : wf (init t d).
Proof.
  split; simpl; try set_solver; try lia; try (by intros; simplify_map_eq); try done.
  constructor.
Qed.

(** A key present on one axis is present on all. *)
Lemma wf_lookup r w cm :
  wf r -> r.(committed) !! w = Some cm ->
  (exists cs, r.(confirmed_seq) !! w = Some cs) /\ (exists ds, r.(decremented_seq) !! w = Some ds)
  /\ (exists rs, r.(reserved) !! w = Some rs) /\ (exists wk, od_get w r.(workers) = Some wk).
Proof.
  intros Hw Hc. assert (Hd : w ∈ dom r.(committed)) by (apply elem_of_dom; eauto).
  split_and!.
  - apply elem_of_dom. by rewrite (wf_confirmed r Hw).
  - apply elem_of_dom. by rewrite (wf_decremented r Hw).
  - apply elem_of_dom. by rewrite (wf_reserved r Hw).
  - by apply (wf_workers r Hw).
Qed.

Lemma set_worker_drain_wf r k w d :
  wf r -> is_Some (od_get k r.(workers)) -> w.(w_id) = k ->
  (k ∈ d -> w.(w_draining) = true) ->
  (forall k', k' <> k -> k' ∈ d -> k' ∈ r.(drained)) ->
  wf (set_workers (od_set k w r.(workers)) (set_drained d r)).
Proof.
  intros [] Hk Hid Hd Hsub. split; simpl; try done.
  - by apply od_set_nodup.
  - intros k' w'. rewrite od_get_set. case_decide; [by intros [= <-]; subst|by apply wf_ids0].
  - intros k'. rewrite od_get_set. case_decide; [|by apply wf_workers0].
    subst. split; [|by eauto]. intros _. by apply wf_workers0.
  - intros k' w'. rewrite od_get_set. case_decide; [intros [= <-]; subst; done|].
    intros Hg Hk'. eapply wf_drained0; [exact Hg|]. apply Hsub; [congruence|done].
Qed.

Lemma set_workers_wf r k w :
  wf r -> is_Some (od_get k r.(workers)) -> w.(w_id) = k ->
  (k ∈ r.(drained) -> w.(w_draining) = true) ->
  wf (set_workers (od_set k w r.(workers)) r).
Proof.
  intros Hw Hk Hid Hd. destruct r. by apply (set_worker_drain_wf _ k w drained0 Hw).
Qed.

Lemma record_heartbeat_wf r w t : wf r -> wf (record_heartbeat r w t).
Proof.
  intros Hw. unfold record_heartbeat. destruct (od_get w _) as [wk|] eqn:E; [|done].
  apply set_workers_wf; [done|by rewrite E|exact (wf_ids r Hw w wk E)|].
  intros Hd. by apply (wf_drained r Hw w wk).
Qed.

Lemma mark_disconnected_wf r w t : wf r -> wf (mark_disconnected r w t).
Proof.
  intros Hw. unfold mark_disconnected. destruct (od_get w _) as [wk|] eqn:E; [|done].
  case_decide; [|done].
  apply set_workers_wf; [done|by rewrite E|exact (wf_ids r Hw w wk E)|].
  intros Hd. by apply (wf_drained r Hw w wk).
Qed.

Lemma set_draining_wf r w b : wf r -> wf (set_draining r w b).1.
Proof.
  intros Hw. unfold set_draining. destruct (od_get w _) as [wk|] eqn:E; [|done].
  pose proof (wf_ids r Hw w wk E) as Hid.
  destruct b; simpl; apply set_worker_drain_wf; simpl; try done; set_solver.
Qed.

Lemma record_held_wf r w s g : wf r -> wf (record_held_generation r w s g).
Proof.
  intros []. unfold record_held_generation. destruct (held r !! w) as [h|] eqn:E; [|by split].
  split; simpl; try done. rewrite dom_insert_L, wf_held0.
  assert (w ∈ dom (held r)) by (apply elem_of_dom; eauto). set_solver.
Qed.

Lemma register_wf r wk h : wf r -> wf (register r wk h).1.
Proof.
  intros []. unfold register. set (wk' := if decide _ then _ else _).
  assert (Hid : w_id wk' = w_id wk) by (unfold wk'; by case_decide).
  assert (Hdr : w_id wk ∈ drained r -> w_draining wk' = true).
  { intros Hd. unfold wk'. by rewrite decide_True. }
  clearbody wk'.
  split; simpl; rewrite ?dom_insert_L; try congruence; try lia; try done.
  - by apply od_set_nodup.
  - intros k w. rewrite od_get_set. case_decide; [by intros [= <-]; subst|apply wf_ids0].
  - intros k. rewrite od_get_set. rewrite elem_of_union, elem_of_singleton, <- wf_workers0.
    case_decide; [subst; split; eauto|naive_solver].
  - destruct (reserved r !! w_id wk) as [rs|] eqn:E; [|rewrite dom_insert_L; congruence].
    assert (w_id wk ∈ dom (reserved r)) by (apply elem_of_dom; eauto). set_solver.
  - intros k cm cs. rewrite !lookup_insert. case_decide; [naive_solver|apply wf_stamped0].
  - intros k cs s n. rewrite lookup_insert. case_decide; [|apply wf_confirmed_lt0].
    intros [= <-] Hs. by rewrite lookup_empty in Hs.
  - intros k ds s n. rewrite lookup_insert. case_decide; [|apply wf_decremented_lt0].
    intros [= <-] Hs. by rewrite lookup_empty in Hs.
  - intros k t. rewrite lookup_insert. case_decide; [naive_solver lia|].
    intros Ht%wf_session_lt0. lia.
  - intros k1 k2 t. rewrite !lookup_insert. repeat case_decide; subst; try done.
    + intros [= <-] Ht%wf_session_lt0. lia.
    + intros Ht%wf_session_lt0 [= <-]. lia.
    + apply wf_session_inj0.
  - intros k w. rewrite od_get_set. case_decide; [intros [= <-]; subst; done|apply wf_drained0].
Qed.

(** The five maps updated at one known worker. *)
Definition upd_axes (r : Registry) (w : WorkerId) (cm : gmap string Z) (n : Z)
    (cs ds rs : gmap string Z) : Registry :=
  set_axes (<[w := cm]> r.(committed)) n (<[w := cs]> r.(confirmed_seq))
    (<[w := ds]> r.(decremented_seq)) (<[w := rs]> r.(reserved)) r.

Lemma upd_axes_wf r w cm n cs ds rs :
  wf r -> w ∈ dom r.(committed) -> r.(next_seq) <= n -> dom cs = dom cm ->
  (forall s m, cs !! s = Some m -> m < n) -> (forall s m, ds !! s = Some m -> m < n) ->
  wf (upd_axes r w cm n cs ds rs).
Proof.
  intros [] Hw Hn Hdom Hcs Hds.
  assert (forall X : gset WorkerId, X = dom (committed r) -> {[w]} ∪ X = {[w]} ∪ dom (committed r))
    as Hcong by congruence.
  assert ({[w]} ∪ dom (committed r) = dom (committed r)) as Hid by set_solver.
  split; simpl; rewrite ?dom_insert_L; try done; try (by apply Hcong); try congruence; try lia.
  - intros k. rewrite wf_workers0. set_solver.
  - intros k cm' cs'. rewrite !lookup_insert. case_decide; [naive_solver|apply wf_stamped0].
  - intros k cs' s m. rewrite lookup_insert. case_decide; [naive_solver|].
    intros Hk Hm. pose proof (wf_confirmed_lt0 _ _ _ _ Hk Hm). lia.
  - intros k cs' s m. rewrite lookup_insert. case_decide; [naive_solver|].
    intros Hk Hm. pose proof (wf_decremented_lt0 _ _ _ _ Hk Hm). lia.
Qed.

Lemma set_axes_same_ds r w cm n cs ds rs :
  r.(decremented_seq) !! w = Some ds ->
  set_axes (<[w := cm]> r.(committed)) n (<[w := cs]> r.(confirmed_seq))
    r.(decremented_seq) (<[w := rs]> r.(reserved)) r = upd_axes r w cm n cs ds rs.
Proof. intros H. unfold upd_axes. by rewrite (insert_id _ _ _ H). Qed.

Lemma set_axes_same_rs r w cm n cs ds rs :
  r.(reserved) !! w = Some rs ->
  set_axes (<[w := cm]> r.(committed)) n (<[w := cs]> r.(confirmed_seq))
    (<[w := ds]> r.(decremented_seq)) r.(reserved) r = upd_axes r w cm n cs ds rs.
Proof. intros H. unfold upd_axes. by rewrite (insert_id _ _ _ H). Qed.

Lemma set_reserved_wf r w rs :
  wf r -> w ∈ dom r.(committed) -> wf (set_reserved (<[w := rs]> r.(reserved)) r).
Proof.
  intros [] Hw. split; simpl; try done. rewrite dom_insert_L. set_solver.
Qed.

(** ** What each assignment operation does, on a worker the registry knows *)

(** The view of one worker's four maps. *)
Definition axes (r : Registry) (w : WorkerId) (cm cs ds rs : gmap string Z) : Prop :=
  r.(committed) !! w = Some cm /\ r.(confirmed_seq) !! w = Some cs
  /\ r.(decremented_seq) !! w = Some ds /\ r.(reserved) !! w = Some rs.

Lemma wf_axes r w cm :
  wf r -> r.(committed) !! w = Some cm -> exists cs ds rs, axes r w cm cs ds rs.
Proof.
  intros Hw Hc. destruct (wf_lookup r w cm Hw Hc) as ((cs & ?) & (ds & ?) & (rs & ?) & _).
  by exists cs, ds, rs.
Qed.

Lemma axes_known r w cm cs ds rs : axes r w cm cs ds rs -> w ∈ dom r.(committed).
Proof. intros (? & _). apply elem_of_dom. eauto. Qed.

Lemma upd_axes_axes r w cm n cs ds rs : axes (upd_axes r w cm n cs ds rs) w cm cs ds rs.
Proof. by repeat split; apply lookup_insert_eq. Qed.

Lemma reserve_spec r w s mb cm cs ds rs :
  axes r w cm cs ds rs ->
  reserve r w s mb = Some (set_reserved (<[w := <[s := mb]> rs]> r.(reserved)) r).
Proof. intros (Hc & _ & _ & Hr). unfold reserve. by rewrite Hc, Hr. Qed.

Lemma increment_spec r w s cm cs ds rs :
  axes r w cm cs ds rs ->
  increment_assignment r w s =
    Some match rs !! s with
         | None => r
         | Some mb => upd_axes r w (<[s := mb]> cm) (r.(next_seq) + 1)
                        (<[s := r.(next_seq)]> cs) ds (delete s rs)
         end.
Proof.
  intros (Hc & Hcs & Hds & Hr). unfold increment_assignment. rewrite Hc, Hr. simpl.
  destruct (rs !! s); [|done]. rewrite Hcs. simpl. by rewrite (set_axes_same_ds _ _ _ _ _ ds).
Qed.

Lemma decrement_spec r w s cm cs ds rs :
  axes r w cm cs ds rs ->
  decrement_assignment r w s =
    Some (upd_axes r w (delete s cm) (r.(next_seq) + 1) (delete s cs)
            (<[s := r.(next_seq)]> ds) rs).
Proof.
  intros (Hc & Hcs & Hds & Hr). unfold decrement_assignment. rewrite Hc, Hcs, Hds. simpl.
  by rewrite (set_axes_same_rs _ _ _ _ _ _ rs).
Qed.

Definition rebuilt_committed (cm cs ds tally : gmap string Z) (epoch : Z) : gmap string Z :=
  preserved cm cs epoch ∪ filtered_assignments tally ds epoch.

Lemma set_assignment_spec r w tally epoch cm cs ds rs :
  axes r w cm cs ds rs ->
  set_assignment r w tally epoch =
    Some (upd_axes r w (rebuilt_committed cm cs ds tally epoch) r.(next_seq)
            (map_imap (fun s _ => Some (default (-1) (cs !! s)))
               (rebuilt_committed cm cs ds tally epoch))
            ds (filter (fun p => filtered_assignments tally ds epoch !! p.1 = None) rs)).
Proof.
  intros (Hc & Hcs & Hds & Hr). unfold set_assignment. rewrite Hc, Hcs, Hds, Hr. simpl.
  by rewrite (set_axes_same_ds _ _ _ _ _ ds).
Qed.

Lemma unknown_noop r w :
  r.(committed) !! w = None ->
  (forall s mb, reserve r w s mb = Some r) /\ (forall s, increment_assignment r w s = Some r)
  /\ (forall s, decrement_assignment r w s = Some r)
  /\ (forall t e, set_assignment r w t e = Some r).
Proof.
  intros H. unfold reserve, increment_assignment, decrement_assignment, set_assignment.
  by rewrite H.
Qed.

Lemma imap_stamps (cs : gmap string Z) m epoch_bound s n :
  (forall s' k, cs !! s' = Some k -> k < epoch_bound) -> 0 <= epoch_bound ->
  map_imap (fun s _ => Some (default (-1) (cs !! s))) (m : gmap string Z) !! s = Some n ->
  n < epoch_bound.
Proof.
  intros Hcs He. rewrite map_lookup_imap. destruct (m !! s); simpl; [|done].
  intros [= <-]. destruct (cs !! s) eqn:E; simpl; [by eapply Hcs|lia].
Qed.

(** Every operation returns (no [KeyError]) and keeps the invariant. *)
Definition preserves (f : Registry -> option Registry) (r : Registry) : Prop :=
  exists r', f r = Some r' /\ wf r'.

Lemma preserves_known (f : Registry -> option Registry) r w :
  wf r -> (r.(committed) !! w = None -> f r = Some r) ->
  (forall cm cs ds rs, axes r w cm cs ds rs -> preserves f r) -> preserves f r.
Proof.
  intros Hw Hn Hs. destruct (committed r !! w) as [cm|] eqn:E.
  - destruct (wf_axes r w cm Hw E) as (cs & ds & rs & Ha). by eapply Hs.
  - exists r. split; [by apply Hn|done].
Qed.

Lemma stamp_lt_succ r w cm cs ds rs :
  wf r -> axes r w cm cs ds rs ->
  dom cs = dom cm
  /\ (forall s m, cs !! s = Some m -> m < r.(next_seq))
  /\ (forall s m, ds !! s = Some m -> m < r.(next_seq)).
Proof.
  intros Hw (Hc & Hcs & Hds & _). split_and!.
  - by eapply (wf_stamped r Hw).
  - intros s m. by eapply (wf_confirmed_lt r Hw).
  - intros s m. by eapply (wf_decremented_lt r Hw).
Qed.

Lemma reserve_wf r w s mb : wf r -> preserves (fun r => reserve r w s mb) r.
Proof.
  intros Hw. apply (preserves_known _ r w Hw); [intros H; by apply unknown_noop|].
  intros cm cs ds rs Ha. eexists. split; [by eapply reserve_spec|].
  apply set_reserved_wf; [done|by eapply axes_known].
Qed.

Lemma release_wf r w s : wf r -> wf (release_reservation r w s).
Proof.
  intros Hw. unfold release_reservation. destruct (reserved r !! w) as [rs|] eqn:E; [|done].
  apply set_reserved_wf; [done|]. rewrite <- (wf_reserved r Hw). apply elem_of_dom. eauto.
Qed.

Lemma increment_wf r w s : wf r -> preserves (fun r => increment_assignment r w s) r.
Proof.
  intros Hw. apply (preserves_known _ r w Hw); [intros H; by apply unknown_noop|].
  intros cm cs ds rs Ha. eexists. split; [by eapply increment_spec|].
  destruct (rs !! s); [|done].
  destruct (stamp_lt_succ r w cm cs ds rs Hw Ha) as (Hdom & Hcs & Hds).
  apply upd_axes_wf; [done|by eapply axes_known|lia| | |].
  - rewrite !dom_insert_L. by rewrite Hdom.
  - intros s' m. rewrite lookup_insert. case_decide; [naive_solver lia|].
    intros Hm%Hcs. lia.
  - intros s' m Hm%Hds. lia.
Qed.

Lemma decrement_wf r w s : wf r -> preserves (fun r => decrement_assignment r w s) r.
Proof.
  intros Hw. apply (preserves_known _ r w Hw); [intros H; by apply unknown_noop|].
  intros cm cs ds rs Ha. eexists. split; [by eapply decrement_spec|].
  destruct (stamp_lt_succ r w cm cs ds rs Hw Ha) as (Hdom & Hcs & Hds).
  apply upd_axes_wf; [done|by eapply axes_known|lia| | |].
  - rewrite !dom_delete_L. by rewrite Hdom.
  - intros s' m [_ Hm%Hcs]%lookup_delete_Some. lia.
  - intros s' m. rewrite lookup_insert. case_decide; [naive_solver lia|].
    intros Hm%Hds. lia.
Qed.

Lemma set_assignment_wf r w t e : wf r -> preserves (fun r => set_assignment r w t e) r.
Proof.
  intros Hw. apply (preserves_known _ r w Hw); [intros H; by apply unknown_noop|].
  intros cm cs ds rs Ha. eexists. split; [by eapply set_assignment_spec|].
  destruct (stamp_lt_succ r w cm cs ds rs Hw Ha) as (Hdom & Hcs & Hds).
  apply upd_axes_wf; [done|by eapply axes_known|lia| | |done].
  - apply set_eq. intros s. rewrite !elem_of_dom, map_lookup_imap.
    destruct (rebuilt_committed _ _ _ _ _ !! s); simpl; [|done]. split; eauto.
  - intros s n. apply imap_stamps; [done|by apply wf_seq].
Qed.

Lemma step_total_wf o r : wf r -> preserves (step o) r.
Proof.
  intros Hw. destruct o; simpl.
  - eexists; split; [done|by apply register_wf].
  - eexists; split; [done|by apply record_held_wf].
  - eexists; split; [done|by apply record_heartbeat_wf].
  - eexists; split; [done|by apply mark_disconnected_wf].
  - eexists; split; [done|by apply set_draining_wf].
  - by apply reserve_wf.
  - eexists; split; [done|by apply release_wf].
  - by apply increment_wf.
  - by apply decrement_wf.
  - by apply set_assignment_wf.
Qed.

Lemma run_total_wf os r : wf r -> exists r', run os r = Some r' /\ wf r'.
Proof.
  revert r. induction os as [|o os IH]; intros r Hw; simpl; [eauto|].
  destruct (step_total_wf o r Hw) as (r1 & -> & Hw1). simpl. by apply IH.
Qed.

(** ** The reconnect rebuild is linearizable *)

(** What happened to a worker's assignments, as the lifecycle layer sees it. *)
Inductive event : Type :=
| Confirmed (server : string) (memory_mb : Z)
| Stopped (server : string).

(** The event an operation is for worker [w], if it takes effect. *)
Definition event_of (w : WorkerId) (o : op) (r : Registry) : option event :=
  match o with
  | Increment w' s =>
      if decide (w' = w) then
        _ ← r.(committed) !! w;
        rs ← r.(reserved) !! w;
        mb ← rs !! s;
        Some (Confirmed s mb)
      else None
  | Decrement w' s =>
      if decide (w' = w) then _ ← r.(committed) !! w; Some (Stopped s) else None
  | _ => None
  end.

Definition apply_event (e : option event) (t : gmap string Z) : gmap string Z :=
  match e with
  | Some (Confirmed s mb) => <[s := mb]> t
  | Some (Stopped s) => delete s t
  | None => t
  end.

(** The tally brought forward over the operations of a window. *)
Fixpoint replay (w : WorkerId) (os : list op) (r : Registry) (t : gmap string Z)
    : gmap string Z :=
  match os with
  | [] => t
  | o :: os' =>
      match step o r with
      | Some r' => replay w os' r' (apply_event (event_of w o r) t)
      | None => t
      end
  end.

(** Operations that do not themselves reset worker [w]'s assignments. *)
Definition undisturbed (w : WorkerId) (o : op) : Prop :=
  match o with
  | Register wk _ => wk.(w_id) <> w
  | SetAssignment w' _ _ => w' <> w
  | _ => True
  end.

Lemma rebuilt_lookup cm cs ds tally epoch s :
  rebuilt_committed cm cs ds tally epoch !! s =
    match cm !! s with
    | Some mb =>
        if decide (epoch <= default (-1) (cs !! s)) then Some mb
        else if decide (epoch <= default (epoch - 1) (ds !! s)) then None else tally !! s
    | None => if decide (epoch <= default (epoch - 1) (ds !! s)) then None else tally !! s
    end.
Proof.
  unfold rebuilt_committed, preserved, filtered_assignments.
  rewrite lookup_union, !map_lookup_filter.
  destruct (cm !! s) as [mb|]; simpl; [case_decide as E|];
    rewrite ?(option_guard_True _ _ E), ?(option_guard_False _ _ E); simpl;
    destruct (tally !! s); simpl; repeat case_decide; simpl;
    rewrite ?option_guard_True, ?option_guard_False by (simpl in *; tauto); done.
Qed.

Lemma rebuilt_confirm cm cs ds tally epoch s mb n :
  epoch <= n ->
  rebuilt_committed (<[s := mb]> cm) (<[s := n]> cs) ds tally epoch
  = <[s := mb]> (rebuilt_committed cm cs ds tally epoch).
Proof.
  intros Hn. apply map_eq. intros s'. rewrite rebuilt_lookup, !lookup_insert.
  case_decide as E; simpl; [by rewrite decide_True|]. by rewrite rebuilt_lookup.
Qed.

Lemma rebuilt_stop cm cs ds tally epoch s n :
  epoch <= n ->
  rebuilt_committed (delete s cm) (delete s cs) (<[s := n]> ds) tally epoch
  = delete s (rebuilt_committed cm cs ds tally epoch).
Proof.
  intros Hn. apply map_eq. intros s'. rewrite rebuilt_lookup, !lookup_delete, lookup_insert.
  case_decide as E; simpl; [by rewrite decide_True|]. by rewrite rebuilt_lookup.
Qed.

Lemma rebuilt_fresh cm cs ds tally epoch :
  0 <= epoch ->
  (forall s m, cs !! s = Some m -> m < epoch) -> (forall s m, ds !! s = Some m -> m < epoch) ->
  rebuilt_committed cm cs ds tally epoch = tally.
Proof.
  intros He Hcs Hds. apply map_eq. intros s. rewrite rebuilt_lookup.
  assert (~ epoch <= default (-1) (cs !! s)).
  { destruct (cs !! s) eqn:E; simpl; [specialize (Hcs _ _ E)|]; lia. }
  assert (~ epoch <= default (epoch - 1) (ds !! s)).
  { destruct (ds !! s) eqn:E; simpl; [specialize (Hds _ _ E)|]; lia. }
  destruct (cm !! s); by rewrite !decide_False.
Qed.

(** The rebuild, were it run now, would give [t]. *)
Definition would_rebuild (r : Registry) (w : WorkerId) (tally : gmap string Z) (epoch : Z)
    (t : gmap string Z) : Prop :=
  epoch <= r.(next_seq)
  /\ exists cm cs ds rs, axes r w cm cs ds rs /\ rebuilt_committed cm cs ds tally epoch = t.

Lemma would_rebuild_frame r r' w tally epoch t rs' :
  would_rebuild r w tally epoch t ->
  r'.(committed) !! w = r.(committed) !! w ->
  r'.(confirmed_seq) !! w = r.(confirmed_seq) !! w ->
  r'.(decremented_seq) !! w = r.(decremented_seq) !! w ->
  r'.(reserved) !! w = Some rs' ->
  r.(next_seq) <= r'.(next_seq) ->
  would_rebuild r' w tally epoch t.
Proof.
  intros (He & cm & cs & ds & rs & (Hc & Hcs & Hds & _) & <-) Hc' Hcs' Hds' Hrs' Hn.
  split; [lia|]. exists cm, cs, ds, rs'. split; [|done].
  unfold axes. by rewrite Hc', Hcs', Hds', Hc, Hcs, Hds.
Qed.

Lemma frame_upd_axes r w w' cm n cs ds rs tally epoch t :
  w' <> w -> r.(next_seq) <= n -> would_rebuild r w tally epoch t ->
  would_rebuild (upd_axes r w' cm n cs ds rs) w tally epoch t.
Proof.
  intros Hne Hn Hr. destruct (Hr) as (_ & cm0 & cs0 & ds0 & rs0 & (_ & _ & _ & Hrs) & _).
  apply (would_rebuild_frame r _ w tally epoch t rs0 Hr); simpl;
    by rewrite ?lookup_insert_ne by done.
Qed.

Lemma frame_set_reserved r w w' rs tally epoch t :
  would_rebuild r w tally epoch t ->
  would_rebuild (set_reserved (<[w' := rs]> r.(reserved)) r) w tally epoch t.
Proof.
  intros Hr. destruct (Hr) as (_ & cm0 & cs0 & ds0 & rs0 & (_ & _ & _ & Hrs) & _).
  apply (would_rebuild_frame r _ w tally epoch t (if decide (w' = w) then rs else rs0) Hr);
    simpl; try done; try lia.
  rewrite lookup_insert. by case_decide.
Qed.

Lemma would_rebuild_workers r ws w tally epoch t :
  would_rebuild r w tally epoch t -> would_rebuild (set_workers ws r) w tally epoch t.
Proof. done. Qed.

Lemma would_rebuild_register r wk h w tally epoch t :
  wk.(w_id) <> w -> would_rebuild r w tally epoch t ->
  would_rebuild (register r wk h).1 w tally epoch t.
Proof.
  intros Hne Hr. destruct (Hr) as (_ & cm0 & cs0 & ds0 & rs0 & (_ & _ & _ & Hrs) & _).
  apply (would_rebuild_frame r _ w tally epoch t rs0 Hr); simpl;
    rewrite ?lookup_insert_ne by done; try done.
  destruct (reserved r !! w_id wk); [done|]. by rewrite lookup_insert_ne.
Qed.

Lemma would_rebuild_increment r r' w w' s tally epoch t :
  wf r -> would_rebuild r w tally epoch t -> increment_assignment r w' s = Some r' ->
  would_rebuild r' w tally epoch (apply_event (event_of w (Increment w' s) r) t).
Proof.
  intros Hw Hr Hs. simpl. destruct (decide (w' = w)) as [->|Hne].
  - destruct Hr as (He & cm & cs & ds & rs & Ha & <-).
    rewrite (increment_spec _ _ _ _ _ _ _ Ha) in Hs.
    destruct (Ha) as (Hc & _ & _ & Hrs). rewrite Hc. simpl. rewrite Hrs. simpl.
    destruct (rs !! s) as [mb|]; simplify_eq/=; [|split; [done|by exists cm, cs, ds, rs]].
    split; [simpl; lia|]. do 4 eexists. split; [apply upd_axes_axes|]. by apply rebuilt_confirm.
  - destruct (committed r !! w') as [cm|] eqn:E; simpl.
    + destruct (wf_axes r w' cm Hw E) as (cs & ds & rs & Ha).
      rewrite (increment_spec _ _ _ _ _ _ _ Ha) in Hs. simplify_eq.
      destruct (rs !! s); [|done]. apply frame_upd_axes; [done|lia|done].
    + rewrite (proj1 (proj2 (unknown_noop r w' E))) in Hs. by simplify_eq.
Qed.

Lemma would_rebuild_decrement r r' w w' s tally epoch t :
  wf r -> would_rebuild r w tally epoch t -> decrement_assignment r w' s = Some r' ->
  would_rebuild r' w tally epoch (apply_event (event_of w (Decrement w' s) r) t).
Proof.
  intros Hw Hr Hs. simpl. destruct (decide (w' = w)) as [->|Hne].
  - destruct Hr as (He & cm & cs & ds & rs & Ha & <-).
    rewrite (decrement_spec _ _ _ _ _ _ _ Ha) in Hs. simplify_eq.
    destruct (Ha) as (Hc & _). rewrite Hc. simpl.
    split; [simpl; lia|]. do 4 eexists. split; [apply upd_axes_axes|]. by apply rebuilt_stop.
  - destruct (committed r !! w') as [cm|] eqn:E; simpl.
    + destruct (wf_axes r w' cm Hw E) as (cs & ds & rs & Ha).
      rewrite (decrement_spec _ _ _ _ _ _ _ Ha) in Hs. simplify_eq.
      apply frame_upd_axes; [done|lia|done].
    + rewrite (proj1 (proj2 (proj2 (unknown_noop r w' E)))) in Hs. by simplify_eq.
Qed.

Lemma would_rebuild_step r r' w o tally epoch t :
  wf r -> undisturbed w o -> would_rebuild r w tally epoch t -> step o r = Some r' ->
  would_rebuild r' w tally epoch (apply_event (event_of w o r) t).
Proof.
  intros Hw Hu Hr. destruct o as [wk h|w' s g|w' t'|w' t'|w' b|w' s mb|w' s|w' s|w' s|w' t' e];
    simpl in Hu |- *.
  - intros [= <-]. by apply would_rebuild_register.
  - intros [= <-]. unfold record_held_generation. by destruct (held r !! w').
  - intros [= <-]. unfold record_heartbeat. by destruct (od_get w' _).
  - intros [= <-]. unfold mark_disconnected. destruct (od_get w' _); [by case_decide|done].
  - intros [= <-]. unfold set_draining. destruct (od_get w' _); [by destruct b|done].
  - intros Hs. destruct (committed r !! w') as [cm|] eqn:E.
    + destruct (wf_axes r w' cm Hw E) as (cs & ds & rs & Ha).
      rewrite (reserve_spec _ _ _ _ _ _ _ _ Ha) in Hs. simplify_eq. by apply frame_set_reserved.
    + rewrite (proj1 (unknown_noop r w' E)) in Hs. by simplify_eq.
  - intros [= <-]. unfold release_reservation. destruct (reserved r !! w'); [|done].
    by apply frame_set_reserved.
  - by apply would_rebuild_increment.
  - by apply would_rebuild_decrement.
  - intros Hs. destruct (committed r !! w') as [cm|] eqn:E.
    + destruct (wf_axes r w' cm Hw E) as (cs & ds & rs & Ha).
      rewrite (set_assignment_spec _ _ _ _ _ _ _ _ Ha) in Hs. simplify_eq.
      apply frame_upd_axes; [done|lia|done].
    + rewrite (proj2 (proj2 (proj2 (unknown_noop r w' E)))) in Hs. by simplify_eq.
Qed.

Lemma would_rebuild_run r r' w os tally epoch t :
  wf r -> Forall (undisturbed w) os -> would_rebuild r w tally epoch t ->
  run os r = Some r' -> would_rebuild r' w tally epoch (replay w os r t).
Proof.
  revert r t. induction os as [|o os IH]; intros r t Hw Hu Hr; simpl.
  - by intros [= <-].
  - apply Forall_cons in Hu as [Hu1 Hu]. intros Hrun.
    destruct (step_total_wf o r Hw) as (r1 & Hs & Hw1).
    rewrite Hs in Hrun |- *. simpl in Hrun. apply IH; [done..| |done].
    by eapply would_rebuild_step.
Qed.

(** C20: The rebuild after a reconnect reads its tally, other operations run while
    that read is awaited, and [set_assignment] is then called with the epoch
    snapshotted before the read.  What it commits is the tally with every
    confirm and stop of the window replayed over it, whatever they were. *)
Theorem rebuild_replays_window r0 r1 w os tally :
  wf r0 -> is_Some (r0.(committed) !! w) ->
  Forall (undisturbed w) os -> run os r0 = Some r1 ->
  exists r2, set_assignment r1 w tally (assignment_epoch r0 w) = Some r2
    /\ r2.(committed) !! w = Some (replay w os r0 tally).
Proof.
  intros Hw [cm Hc] Hu Hrun.
  destruct (wf_axes r0 w cm Hw Hc) as (cs & ds & rs & Ha).
  destruct (stamp_lt_succ r0 w cm cs ds rs Hw Ha) as (_ & Hcs & Hds).
  assert (H0 : would_rebuild r0 w tally (assignment_epoch r0 w) tally).
  { split; [done|]. exists cm, cs, ds, rs. split; [done|].
    apply rebuilt_fresh; [apply wf_seq|..]; done. }
  destruct (would_rebuild_run _ _ _ _ _ _ _ Hw Hu H0 Hrun)
    as (He & cm1 & cs1 & ds1 & rs1 & Ha1 & Heq).
  eexists. split; [by eapply set_assignment_spec|]. simpl. rewrite lookup_insert_eq.
  by rewrite Heq.
Qed.

(** A reservation the tally already counts is dropped, so its pending confirm
    is a no-op and the server is counted once. *)
Theorem rebuild_no_double_count r w tally epoch r2 s cm cs ds rs :
  axes r w cm cs ds rs ->
  set_assignment r w tally epoch = Some r2 ->
  is_Some (filtered_assignments tally ds epoch !! s) ->
  increment_assignment r2 w s = Some r2.
Proof.
  intros Ha. rewrite (set_assignment_spec _ _ _ _ _ _ _ _ Ha). intros [= <-] [mb Hs].
  rewrite (increment_spec _ _ _ _ _ _ _ (upd_axes_axes _ _ _ _ _ _ _)).
  rewrite map_lookup_filter. destruct (rs !! s); simpl; [|done].
  rewrite option_guard_False; [done|]. simpl. by rewrite Hs.
Qed.

(** Confirming a reservation moves it: the load and the memory the placement
    gate reads do not change. *)
Theorem increment_conserves r w s mb r' cm cs ds rs :
  axes r w cm cs ds rs -> rs !! s = Some mb -> cm !! s = None ->
  increment_assignment r w s = Some r' ->
  _load r' w = _load r w
  /\ committed_memory_mb r' w + reserved_memory_mb r' w
     = committed_memory_mb r w + reserved_memory_mb r w.
Proof.
  intros Ha Hrs Hcm. rewrite (increment_spec _ _ _ _ _ _ _ Ha), Hrs. intros [= <-].
  destruct (Ha) as (Hc & _ & _ & Hr).
  unfold _load, committed_memory_mb, reserved_memory_mb. simpl.
  rewrite !lookup_insert_eq, Hc, Hr. simpl. split.
  - rewrite (map_size_insert_None s mb cm Hcm), (map_size_delete_Some rs s mb Hrs). f_equal. lia.
  - rewrite (map_sum_insert cm s mb Hcm), (map_sum_delete rs s mb Hrs). lia.
Qed.

(** ** Sessions: a superseded stream cannot take its worker offline *)

Definition no_register (w : WorkerId) (o : op) : Prop :=
  match o with Register wk _ => wk.(w_id) <> w | _ => True end.

Lemma frame_axes_option r o r' :
  step o r = Some r' ->
  (forall wk h, o <> Register wk h) -> r'.(sessions) = r.(sessions).
Proof.
  intros Hs Hn. destruct o as [wk h|w s g|w t|w t|w b|w s mb|w s|w s|w s|w t e]; simpl in Hs;
    [by destruct (Hn wk h)|..];
    unfold record_held_generation, record_heartbeat, mark_disconnected, set_draining, reserve,
      release_reservation, increment_assignment, decrement_assignment, set_assignment in Hs;
    repeat (case_match || (progress simplify_option_eq)); try done.
Qed.

Lemma step_session r o r' w t :
  no_register w o -> step o r = Some r' -> r.(sessions) !! w = Some t ->
  r'.(sessions) !! w = Some t.
Proof.
  intros Hn Hs Ht.
  destruct o as [wk h|w' s g|w' t'|w' t'|w' b|w' s mb|w' s|w' s|w' s|w' t' e];
    [|rewrite (frame_axes_option r _ r' Hs); done..].
  simpl in *. injection Hs as <-. simpl. by rewrite lookup_insert_ne.
Qed.

Lemma run_session os r r' w t :
  Forall (no_register w) os -> run os r = Some r' -> r.(sessions) !! w = Some t ->
  r'.(sessions) !! w = Some t.
Proof.
  revert r. induction os as [|o os IH]; intros r Hn; simpl; [by intros [= <-]|].
  apply Forall_cons in Hn as [Hn1 Hn]. intros Hrun Ht.
  destruct (step o r) as [r1|] eqn:Hs; [|done]. simpl in Hrun.
  eapply IH; [done..|]. by eapply step_session.
Qed.

(** After a reconnect, and whatever happens short of another registration, the
    teardown of any earlier session changes nothing and is told apart by
    [is_current_session]; the token of the new session is not one handed out
    before; and its own teardown takes the worker offline. *)
Theorem stale_session_ignored r0 wk h os r1 t :
  wf r0 ->
  Forall (no_register wk.(w_id)) os ->
  run os (register r0 wk h).1 = Some r1 ->
  t <> (register r0 wk h).2 ->
  mark_disconnected r1 wk.(w_id) t = r1
  /\ is_current_session r1 wk.(w_id) t = false
  /\ (forall k, r0.(sessions) !! k <> Some (register r0 wk h).2)
  /\ (forall now worker,
        od_get wk.(w_id) (mark_disconnected r1 wk.(w_id) (register r0 wk h).2).(workers)
          = Some worker -> status worker now r1.(timeout) = OFFLINE).
Proof.
  intros Hw Hn Hrun Ht.
  assert (Hs : r1.(sessions) !! wk.(w_id) = Some (register r0 wk h).2).
  { eapply run_session; [done..|]. simpl. by rewrite lookup_insert_eq. }
  split_and!.
  - unfold mark_disconnected. destruct (od_get _ _); [|done].
    rewrite decide_False; [done|]. congruence.
  - unfold is_current_session. apply bool_decide_eq_false. congruence.
  - intros k Hk. apply (wf_session_lt r0 Hw) in Hk. simpl in Hk. lia.
  - intros now worker. unfold mark_disconnected. destruct (od_get _ (workers r1)) eqn:E.
    + rewrite decide_True by done. simpl. rewrite od_get_set_eq. by intros [= <-].
    + by rewrite E.
Qed.

(** ** Drain outlives connections *)

Definition no_undrain (w : WorkerId) (o : op) : Prop := o <> SetDraining w false.

Lemma step_drained r o r' w :
  no_undrain w o -> step o r = Some r' -> w ∈ r.(drained) -> w ∈ r'.(drained).
Proof.
  intros Hn Hs Hd. destruct o as [wk h|w' s g|w' t|w' t|w' b|w' s mb|w' s|w' s|w' s|w' t e];
    simpl in Hs; unfold no_undrain in Hn;
    unfold register, record_held_generation, record_heartbeat, mark_disconnected, set_draining,
      reserve, release_reservation, increment_assignment, decrement_assignment,
      set_assignment in Hs;
    repeat (case_match || (progress simplify_option_eq)); try done; try set_solver.
Qed.

Lemma run_drained os r r' w :
  Forall (no_undrain w) os -> run os r = Some r' -> w ∈ r.(drained) -> w ∈ r'.(drained).
Proof.
  revert r. induction os as [|o os IH]; intros r Hn; simpl; [by intros [= <-]|].
  apply Forall_cons in Hn as [Hn1 Hn]. intros Hrun Hd.
  destruct (step o r) as [r1|] eqn:Hs; [|done]. simpl in Hrun.
  eapply IH; [done..|]. by eapply step_drained.
Qed.

Lemma online_not_draining w now t : status w now t = ONLINE -> w.(w_draining) = false.
Proof. unfold status. by destruct (w_disconnected w); [|destruct (Z.ltb _ _)]; destruct (w_draining w). Qed.

Lemma candidates_lookup r now cs c :
  wf r -> candidates_for_placement r now = Some cs -> c ∈ cs ->
  exists wk, od_get c.(pc_worker_id) r.(workers) = Some wk
    /\ status wk now r.(timeout) = ONLINE /\ candidate_of r wk = Some c.
Proof.
  intros Hw Hcs Hc. unfold candidates_for_placement in Hcs. apply mapM_Some in Hcs.
  apply list_elem_of_lookup in Hc as [i Hi].
  destruct (Forall2_lookup_r _ _ _ _ _ Hcs Hi) as (wk & Hwk & Hcand).
  apply list_elem_of_lookup_2 in Hwk. apply elem_of_filter_bool in Hwk as [Hin Hst].
  apply bool_decide_eq_true in Hst. unfold od_values in Hin.
  apply list_elem_of_fmap in Hin as ([k wk'] & -> & Hin).
  apply od_get_elem in Hin; [|apply (wf_nodup r Hw)].
  pose proof (wf_ids r Hw k wk' Hin) as Hid. exists wk'. split_and!; [|done..].
  unfold candidate_of in Hcand. destruct (_load r _); simplify_eq/=. done.
Qed.

(** An operator's drain holds across reconnects: until it is cleared, the worker
    is never offered for placement, whatever it and the others do. *)
Theorem drained_never_offered r0 w b os r now cs :
  wf r0 -> (set_draining r0 w true) = (b, true) ->
  Forall (no_undrain w) os -> run os b = Some r ->
  candidates_for_placement r now = Some cs ->
  forall c, c ∈ cs -> c.(pc_worker_id) <> w.
Proof.
  intros Hw Hset Hn Hrun Hcs c Hc <-.
  assert (Hb : wf b) by (replace b with (set_draining r0 (pc_worker_id c) true).1 by (by rewrite Hset);
    by apply set_draining_wf).
  assert (Hd : pc_worker_id c ∈ b.(drained)).
  { unfold set_draining in Hset. destruct (od_get _ _); simplify_eq. simpl. set_solver. }
  destruct (run_total_wf os b Hb) as (r' & Hr' & Hwf). rewrite Hrun in Hr'. simplify_eq.
  destruct (candidates_lookup _ _ _ _ Hwf Hcs Hc) as (wk & Hg & Hon & _).
  apply online_not_draining in Hon.
  rewrite (wf_drained _ Hwf _ _ Hg) in Hon; [done|]. by eapply run_drained.
Qed.

(** ** A concrete registry *)

Definition sample_worker : Worker :=
  {| w_id := "w1"; w_version := "1.0";
     w_capabilities := {| drivers := {[CONTAINER]}; max_servers := 2;
       resources := {| cpu_cores := 4; memory_bytes := 4096 * 1024 * 1024 |} |};
     w_registered_at := 0; w_last_heartbeat_at := 0; w_disconnected := false;
     w_draining := false |}.

Definition sample_registry (os : list op) : Registry :=
  default (init 30 ∅) (run (Register sample_worker ∅ :: os) (init 30 ∅)).

Lemma sample_registry_run os :
  run (Register sample_worker ∅ :: os) (init 30 ∅) = Some (sample_registry os)
  /\ wf (sample_registry os).
Proof.
  unfold sample_registry.
  destruct (run_total_wf (Register sample_worker ∅ :: os) (init 30 ∅) (init_wf _ _)) as (r & Hr & Hw).
  by rewrite Hr.
Qed.

(** A stop and a placement confirmed while the tally is read both survive it. *)
Lemma rebuild_replays_window_witness :
  let r0 := sample_registry [Reserve "w1" "s1" 512; Increment "w1" "s1"] in
  let os := [Decrement "w1" "s1"; Reserve "w1" "s2" 256; Increment "w1" "s2"] in
  exists r1 r2, run os r0 = Some r1
    /\ set_assignment r1 "w1" {["s1"%string := 512]} (assignment_epoch r0 "w1") = Some r2
    /\ r2.(committed) !! "w1"%string = Some (replay "w1" os r0 {["s1"%string := 512]}).
Proof.
  intros r0 os.
  destruct (run_total_wf os r0 (proj2 (sample_registry_run _))) as (r1 & Hr1 & _).
  exists r1. destruct (rebuild_replays_window r0 r1 "w1" os {["s1"%string := 512]}) as (r2 & H1 & H2).
  - apply sample_registry_run.
  - refine (proj1 (bool_decide_eq_true _) _). vm_compute. reflexivity.
  - repeat constructor.
  - exact Hr1.
  - exists r2. split_and!; [exact Hr1|exact H1|exact H2].
Defined.

Lemma rebuild_no_double_count_witness :
  exists r2, set_assignment (sample_registry [Reserve "w1" "s1" 512]) "w1" {["s1"%string := 512]} 0
             = Some r2 /\ increment_assignment r2 "w1" "s1" = Some r2.
Proof.
  eexists. split; [vm_compute; reflexivity|].
  eapply (rebuild_no_double_count (sample_registry [Reserve "w1" "s1" 512]) "w1" {["s1"%string := 512]} 0).
  - split_and!; vm_compute; reflexivity.
  - vm_compute. reflexivity.
  - refine (proj1 (bool_decide_eq_true _) _). vm_compute. reflexivity.
Defined.

Lemma increment_conserves_witness :
  exists r', increment_assignment (sample_registry [Reserve "w1" "s1" 512]) "w1" "s1" = Some r'
    /\ _load r' "w1" = _load (sample_registry [Reserve "w1" "s1" 512]) "w1".
Proof.
  eexists. split; [vm_compute; reflexivity|].
  eapply (increment_conserves (sample_registry [Reserve "w1" "s1" 512]) "w1" "s1" 512).
  - split_and!; vm_compute; reflexivity.
  - vm_compute. reflexivity.
  - vm_compute. reflexivity.
  - vm_compute. reflexivity.
Defined.

(** The first session's teardown arrives after the second connect. *)
Lemma stale_session_ignored_witness :
  let r0 := sample_registry [] in
  let os := [Heartbeat "w1" 5] in
  exists r1, run os (register r0 sample_worker ∅).1 = Some r1
    /\ mark_disconnected r1 "w1" 0 = r1 /\ is_current_session r1 "w1" 0 = false.
Proof.
  intros r0 os.
  destruct (run_total_wf os (register r0 sample_worker ∅).1) as (r1 & Hr1 & _).
  { apply register_wf, sample_registry_run. }
  exists r1. split; [exact Hr1|].
  destruct (stale_session_ignored r0 sample_worker ∅ os r1 0) as (H1 & H2 & _).
  - apply sample_registry_run.
  - repeat constructor.
  - exact Hr1.
  - vm_compute. discriminate.
  - split; [exact H1|exact H2].
Defined.

(** The drained worker reconnects and is still not offered. *)
Lemma drained_never_offered_witness :
  let r0 := sample_registry [] in
  let os := [Register sample_worker ∅; Heartbeat "w1" 5] in
  exists r cs, run os (set_draining r0 "w1" true).1 = Some r
    /\ candidates_for_placement r 6 = Some cs /\ forall c, c ∈ cs -> c.(pc_worker_id) <> "w1"%string.
Proof.
  intros r0 os.
  destruct (run_total_wf os (set_draining r0 "w1" true).1) as (r & Hr & Hw).
  { apply set_draining_wf, sample_registry_run. }
  assert (Hcs : is_Some (run os (set_draining r0 "w1" true).1 ≫= fun r => candidates_for_placement r 6))
    by (refine (proj1 (bool_decide_eq_true _) _); vm_compute; reflexivity).
  rewrite Hr in Hcs. destruct Hcs as [cs Hcs]. exists r, cs. split; [exact Hr|]. split; [exact Hcs|].
  apply (drained_never_offered r0 "w1" (set_draining r0 "w1" true).1 os r 6 cs).
  - apply sample_registry_run.
  - vm_compute. reflexivity.
  - repeat constructor; discriminate.
  - exact Hr.
  - exact Hcs.
Defined.
