(* ===== verification/ControlPlane.v ===== *)
(** * The placement seam

    [servers/adapters/control_plane.py]: [FleetControlPlaneAdapter.place] reads
    the registry's candidates, folds in the committed CPU, runs the placement
    choice and reserves the slot in one await-free section.  The main theorem
    is that no interleaving of placements with the rest of the fleet's life
    takes a worker over its advertised capacity or memory. *)
From Stdlib Require Import ZArith Lia String.
From stdpp Require Import base gmap strings list fin_maps relations.
From S2P Require Import Prelude Placement Registry Uuid.

Open Scope Z_scope.

(** ** The adapter *)

Record CommittedResources := { cpu_millis : Z }.

Definition _fleet_worker (worker_id : uuid) : WorkerId := uuid_str worker_id.

(** [None]: [uuid.UUID] raises [ValueError]. *)
Definition _servers_worker (worker_id : WorkerId) : option uuid := uuid_parse worker_id.

Definition with_committed_cpu (committed_by_fleet_id : gmap WorkerId CommittedResources)
    (c : PlacementCandidate) : PlacementCandidate :=
  match committed_by_fleet_id !! c.(pc_worker_id) with
  | None => c
  | Some committed =>
      {| pc_worker_id := c.(pc_worker_id); pc_drivers := c.(pc_drivers);
         pc_capacity := c.(pc_capacity); pc_load := c.(pc_load);
         pc_memory_capacity_mb := c.(pc_memory_capacity_mb);
         pc_committed_memory_mb := c.(pc_committed_memory_mb);
         pc_committed_cpu_millis := committed.(cpu_millis) |}
  end.

Inductive place_outcome : Type :=
| PlacedOn (worker_id : uuid)
| NoWorker
| RaisedKeyError
| RaisedValueError.

(** The re-keyed accounting: a later id with the same spelling wins, as in a
    dict comprehension. *)
Definition by_fleet_id (committed_by_worker : list (uuid * CommittedResources))
    : gmap WorkerId CommittedResources :=
  foldl (fun m p => <[_fleet_worker p.1 := p.2]> m) ∅ committed_by_worker.

Definition adapter_place (r : Registry) (now : Z) (server_id : uuid)
    (memory_limit_mb : option Z) (committed_by_worker : list (uuid * CommittedResources))
    : Registry * place_outcome :=
  match candidates_for_placement r now with
  | None => (r, RaisedKeyError)
  | Some cs =>
      let candidates := map (with_committed_cpu (by_fleet_id committed_by_worker)) cs in
      match place candidates CONTAINER 1 memory_limit_mb with
      | Err _ => (r, RaisedValueError)
      | Ok NoEligibleWorker => (r, NoWorker)
      | Ok (Chosen chosen) =>
          match reserve r chosen (uuid_str server_id) (default 0 memory_limit_mb) with
          | None => (r, RaisedKeyError)
          | Some r' =>
              match _servers_worker chosen with
              | Some u => (r', PlacedOn u)
              | None => (r', RaisedValueError)
              end
          end
      end
  end.

(** [is_worker_connected]: a draining worker still counts. *)
Definition is_worker_connected (r : Registry) (now : Z) (worker_id : uuid) : option bool :=
  s ← get r (_fleet_worker worker_id) now;
  Some match s with
       | None => false
       | Some sn => bool_decide (sn.(sn_status) = ONLINE) || bool_decide (sn.(sn_status) = DRAINING)
       end.

Definition adapter_held_generation (r : Registry) (worker_id server_id : uuid) : option Z :=
  held_generation r (_fleet_worker worker_id) (uuid_str server_id).

Definition holds_fresh_working_set (r : Registry) (worker_id server_id : uuid)
    (store_generation : Z) : bool :=
  match adapter_held_generation r worker_id server_id with
  | Some g => store_generation <=? g
  | None => false
  end.

(** ** What may happen between registrations *)

Inductive fleet_step : Registry -> Registry -> Prop :=
| fs_place r now server mem committed r' out :
    (forall mb, mem = Some mb -> 0 <= mb) ->
    adapter_place r now server mem committed = (r', out) -> fleet_step r r'
| fs_increment r w s r' : increment_assignment r w s = Some r' -> fleet_step r r'
| fs_decrement r w s r' : decrement_assignment r w s = Some r' -> fleet_step r r'
| fs_release r w s : fleet_step r (release_reservation r w s)
| fs_heartbeat r w t : fleet_step r (record_heartbeat r w t)
| fs_disconnect r w t : fleet_step r (mark_disconnected r w t)
| fs_draining r w b : fleet_step r (set_draining r w b).1
| fs_held r w s g : fleet_step r (record_held_generation r w s g).

(** The memory a worker may be committed to: what placement admits, or nothing
    when its advertised memory does not even cover the reserve. *)
Definition usable_mb (wk : Worker) : Z :=
  let cap := wk.(w_capabilities).(resources).(memory_bytes) / (1024 * 1024) in
  Z.max 0 (cap - _reserve_mb cap).

Definition memory_gated (wk : Worker) : Prop :=
  wk.(w_capabilities).(resources).(memory_bytes) / (1024 * 1024) <> 0.

(** Worker [w], with assigned rows [cm] and reservations [rs], is within what
    [wk] advertises. *)
Definition fits (wk : Worker) (cm rs : gmap string Z) : Prop :=
  (wk.(w_capabilities).(max_servers) = 0
   \/ Z.of_nat (size cm) + Z.of_nat (size rs) <= wk.(w_capabilities).(max_servers))
  /\ (memory_gated wk -> map_sum cm + map_sum rs <= usable_mb wk)
  /\ all_nonneg cm /\ all_nonneg rs.

Definition within_capacity (r : Registry) : Prop :=
  forall w wk cm rs, od_get w r.(workers) = Some wk ->
    r.(committed) !! w = Some cm -> r.(reserved) !! w = Some rs -> fits wk cm rs.

(** ** Capacity is never oversubscribed *)

Section Fits.
Context (wk : Worker) (cm rs : gmap string Z) (Hfits : fits wk cm rs).

Lemma fits_reserve s mb :
  0 <= mb ->
  (wk.(w_capabilities).(max_servers) = 0
   \/ Z.of_nat (size cm) + Z.of_nat (size rs) + 1 <= wk.(w_capabilities).(max_servers)) ->
  (memory_gated wk -> mb <> 0 -> map_sum cm + map_sum rs + mb <= usable_mb wk) ->
  fits wk cm (<[s := mb]> rs).
Proof using Hfits.
  destruct Hfits as (_ & Hm & Hcm & Hrs). intros Hmb Hc Hg. split_and!; [|intros Hgate|done|].
  - pose proof (map_size_insert_le rs s mb). lia.
  - pose proof (map_sum_insert_le rs s mb Hrs). specialize (Hm Hgate).
    destruct (Z.eq_dec mb 0); [lia|]. specialize (Hg Hgate n). lia.
  - by apply all_nonneg_insert.
Qed.

Lemma fits_confirm s mb :
  rs !! s = Some mb -> fits wk (<[s := mb]> cm) (delete s rs).
Proof using Hfits.
  destruct Hfits as (Hc & Hm & Hcm & Hrs). intros Hs. split_and!; [|intros Hgate| |].
  - pose proof (map_size_insert_le cm s mb). rewrite (map_size_delete_Some rs s mb Hs). lia.
  - pose proof (map_sum_insert_le cm s mb Hcm). rewrite (map_sum_delete rs s mb Hs).
    specialize (Hm Hgate). lia.
  - apply all_nonneg_insert; [done|]. by eapply Hrs.
  - by apply all_nonneg_delete.
Qed.

Lemma fits_stop s : fits wk (delete s cm) rs.
Proof using Hfits.
  destruct Hfits as (Hc & Hm & Hcm & Hrs). split_and!; [|intros Hgate| |done].
  - pose proof (map_size_delete_le cm s). lia.
  - pose proof (map_sum_delete_le cm s Hcm). specialize (Hm Hgate). lia.
  - by apply all_nonneg_delete.
Qed.

Lemma fits_release s : fits wk cm (delete s rs).
Proof using Hfits.
  destruct Hfits as (Hc & Hm & Hcm & Hrs). split_and!; [|intros Hgate|done|].
  - pose proof (map_size_delete_le rs s). lia.
  - pose proof (map_sum_delete_le rs s Hrs). specialize (Hm Hgate). lia.
  - by apply all_nonneg_delete.
Qed.
End Fits.

(** A worker's advertisement only changes with its registration. *)
Definition same_fit (r r' : Registry) : Prop :=
  forall w wk', od_get w r'.(workers) = Some wk' ->
    exists wk, od_get w r.(workers) = Some wk /\ wk.(w_capabilities) = wk'.(w_capabilities).

Lemma fits_caps wk wk' cm rs :
  wk.(w_capabilities) = wk'.(w_capabilities) -> fits wk cm rs -> fits wk' cm rs.
Proof. intros E. unfold fits, memory_gated, usable_mb. by rewrite E. Qed.

Lemma within_same r r' :
  within_capacity r -> same_fit r r' ->
  r'.(committed) = r.(committed) -> r'.(reserved) = r.(reserved) -> within_capacity r'.
Proof.
  intros Hr Hs Hc Hrs w wk' cm rs Hw Hcm Hres. rewrite Hc in Hcm. rewrite Hrs in Hres.
  destruct (Hs _ _ Hw) as (wk & Hwk & Hcaps). eapply fits_caps; [done|]. by eapply Hr.
Qed.

(** Only worker [w]'s maps changed, to [cm'] and [rs']. *)
Lemma within_update r r' w cm' rs' :
  within_capacity r -> r'.(workers) = r.(workers) ->
  (forall k, k <> w -> r'.(committed) !! k = r.(committed) !! k) ->
  (forall k, k <> w -> r'.(reserved) !! k = r.(reserved) !! k) ->
  r'.(committed) !! w = Some cm' -> r'.(reserved) !! w = Some rs' ->
  (forall wk, od_get w r.(workers) = Some wk -> fits wk cm' rs') ->
  within_capacity r'.
Proof.
  intros Hr Hw Hc Hrs Hc' Hrs' Hf k wk cm rs. rewrite Hw. intros Hk Hcm Hres.
  destruct (decide (k = w)) as [->|Hne].
  - simplify_eq. by apply Hf.
  - rewrite Hc in Hcm by done. rewrite Hrs in Hres by done. by eapply Hr.
Qed.

(** What the registry offered for the chosen worker. *)
Lemma candidate_axes r wk c :
  wf r -> od_get wk.(w_id) r.(workers) = Some wk -> candidate_of r wk = Some c ->
  exists cm cs ds rs, axes r wk.(w_id) cm cs ds rs
    /\ c.(pc_worker_id) = wk.(w_id)
    /\ c.(pc_capacity) = wk.(w_capabilities).(max_servers)
    /\ c.(pc_load) = Z.of_nat (size cm) + Z.of_nat (size rs)
    /\ c.(pc_memory_capacity_mb) = wk.(w_capabilities).(resources).(memory_bytes) / (1024 * 1024)
    /\ c.(pc_committed_memory_mb) = map_sum cm + map_sum rs.
Proof.
  intros Hw Hg Hc. assert (Hd : w_id wk ∈ dom (committed r)) by (apply (wf_workers r Hw); eauto).
  apply elem_of_dom in Hd as [cm Hcm]. destruct (wf_axes r _ cm Hw Hcm) as (cs & ds & rs & Ha).
  exists cm, cs, ds, rs. split; [done|]. destruct Ha as (_ & _ & _ & Hrs).
  unfold candidate_of, _load, committed_memory_mb, reserved_memory_mb in Hc.
  rewrite Hcm, Hrs in Hc. simpl in Hc. by simplify_eq/=.
Qed.

Lemma with_committed_cpu_hosts m c d n mem :
  hosts (with_committed_cpu m c) d n mem <-> hosts c d n mem.
Proof. unfold with_committed_cpu. by destruct (m !! _). Qed.

Lemma with_committed_cpu_id m c :
  (with_committed_cpu m c).(pc_worker_id) = c.(pc_worker_id).
Proof. unfold with_committed_cpu. by destruct (m !! _). Qed.

(** A placement either changes nothing or reserves the server on a worker that
    can host it. *)
Lemma adapter_place_inv r now server mem committed r' out :
  wf r -> adapter_place r now server mem committed = (r', out) ->
  r' = r \/ exists wk c,
    od_get wk.(w_id) r.(workers) = Some wk /\ candidate_of r wk = Some c
    /\ hosts c CONTAINER 1 mem
    /\ reserve r wk.(w_id) (uuid_str server) (default 0 mem) = Some r'.
Proof.
  intros Hw. unfold adapter_place.
  destruct (candidates_for_placement r now) as [cs|] eqn:Ecs; [|intros [= <- _]; by left].
  destruct (place _ _ _ _) as [[w|]|] eqn:Ep; try (intros [= <- _]; by left).
  destruct (reserve r w _ _) as [r1|] eqn:Er; [|intros [= <- _]; by left].
  intros H. right. apply place_chosen in Ep as (c & Hc & Hid & Hh & _); [|lia].
  apply list_elem_of_fmap in Hc as (c0 & -> & Hc0).
  rewrite with_committed_cpu_id in Hid. rewrite with_committed_cpu_hosts in Hh.
  destruct (candidates_lookup _ _ _ _ Hw Ecs Hc0) as (wk & Hg & _ & Hcand).
  pose proof (wf_ids r Hw _ _ Hg) as Hwid. rewrite <- Hwid in Hg.
  exists wk, c0. split_and!; [done..|]. rewrite Hwid, Hid, Er.
  destruct (_servers_worker w); by simplify_eq.
Qed.

Lemma place_within r now server mem committed r' out :
  wf r -> within_capacity r -> (forall mb, mem = Some mb -> 0 <= mb) ->
  adapter_place r now server mem committed = (r', out) -> wf r' /\ within_capacity r'.
Proof.
  intros Hw Hin Hmem Hp.
  destruct (adapter_place_inv _ _ _ _ _ _ _ Hw Hp) as [->|(wk & c & Hg & Hc & Hh & Hr)]; [done|].
  destruct (candidate_axes r wk c Hw Hg Hc) as (cm & cs & ds & rs & Ha & _ & Hcap & Hload & Hmc & Hcm).
  destruct (reserve_wf r wk.(w_id) (uuid_str server) (default 0 mem) Hw) as (r1 & Hr1 & Hw1).
  simpl in Hr1. rewrite Hr in Hr1. injection Hr1 as <-. split; [done|].
  rewrite (reserve_spec _ _ _ _ _ _ _ _ Ha) in Hr. injection Hr as <-.
  destruct (Ha) as (Hcm' & _ & _ & Hrs').
  eapply (within_update r _ wk.(w_id)); [done|done|done| |done|by apply lookup_insert_eq|].
  { intros k Hk. simpl. by rewrite lookup_insert_ne. }
  intros wk' Hwk'. simplify_eq. destruct Hh as (_ & Hcount & Hgate).
  rewrite Hcap, Hload in Hcount. rewrite Hmc, Hcm in Hgate.
  apply fits_reserve.
  - by eapply Hin.
  - destruct mem as [mb|]; simpl; [by apply Hmem|lia].
  - lia.
  - intros Hg1 Hne. unfold usable_mb. destruct mem as [mb|]; [|done]. simpl in Hne |- *.
    specialize (Hgate mb eq_refl Hne Hg1). lia.
Qed.

Lemma increment_within r w s r' :
  wf r -> within_capacity r -> increment_assignment r w s = Some r' -> within_capacity r'.
Proof.
  intros Hw Hin Hs. destruct (committed r !! w) as [cm|] eqn:E.
  - destruct (wf_axes r w cm Hw E) as (cs & ds & rs & Ha).
    rewrite (increment_spec _ _ _ _ _ _ _ Ha) in Hs. injection Hs as <-.
    destruct (rs !! s) as [mb|] eqn:Ers; [|done]. destruct Ha as (Hcm & _ & _ & Hrs).
    eapply (within_update r _ w); [done|done|..];
      try (intros k Hk; simpl; by rewrite lookup_insert_ne); try by apply lookup_insert_eq.
    intros wk Hwk. apply fits_confirm; [by eapply Hin|done].
  - rewrite (proj1 (proj2 (unknown_noop r w E))) in Hs. by simplify_eq.
Qed.

Lemma decrement_within r w s r' :
  wf r -> within_capacity r -> decrement_assignment r w s = Some r' -> within_capacity r'.
Proof.
  intros Hw Hin Hs. destruct (committed r !! w) as [cm|] eqn:E.
  - destruct (wf_axes r w cm Hw E) as (cs & ds & rs & Ha).
    rewrite (decrement_spec _ _ _ _ _ _ _ Ha) in Hs. injection Hs as <-.
    destruct Ha as (Hcm & _ & _ & Hrs).
    eapply (within_update r _ w); [done|done|..];
      try (intros k Hk; simpl; by rewrite lookup_insert_ne); try by apply lookup_insert_eq.
    intros wk Hwk. apply fits_stop. by eapply Hin.
  - rewrite (proj1 (proj2 (proj2 (unknown_noop r w E)))) in Hs. by simplify_eq.
Qed.

Lemma release_within r w s :
  wf r -> within_capacity r -> within_capacity (release_reservation r w s).
Proof.
  intros Hw Hin. unfold release_reservation. destruct (reserved r !! w) as [rs|] eqn:E; [|done].
  assert (Hd : w ∈ dom (committed r)) by (rewrite <- (wf_reserved r Hw); apply elem_of_dom; eauto).
  apply elem_of_dom in Hd as [cm Hcm].
  eapply (within_update r _ w); [done|done|done| |done|by apply lookup_insert_eq|].
  { intros k Hk. simpl. by rewrite lookup_insert_ne. }
  intros wk Hwk. apply fits_release. by eapply Hin.
Qed.

Lemma same_fit_set r r' k wk wk' :
  od_get k r.(workers) = Some wk -> wk.(w_capabilities) = wk'.(w_capabilities) ->
  r'.(workers) = od_set k wk' r.(workers) -> same_fit r r'.
Proof.
  intros Hk Hc Hws w wk1. rewrite Hws, od_get_set. case_decide; [|intros H1; by exists wk1].
  intros [= <-]. subst. by exists wk.
Qed.

Lemma fleet_step_within r r' :
  wf r -> within_capacity r -> fleet_step r r' -> wf r' /\ within_capacity r'.
Proof.
  intros Hw Hin Hs. destruct Hs as [r now server mem committed r' out Hmem Hp|r w s r' Hp|r w s r' Hp
    |r w s|r w t|r w t|r w b|r w s g].
  - by eapply place_within.
  - destruct (increment_wf r w s Hw) as (r1 & Hr1 & Hw1). simpl in Hr1. rewrite Hp in Hr1. injection Hr1 as <-.
    split; [done|exact (increment_within r w s _ Hw Hin Hp)].
  - destruct (decrement_wf r w s Hw) as (r1 & Hr1 & Hw1). simpl in Hr1. rewrite Hp in Hr1. injection Hr1 as <-.
    split; [done|exact (decrement_within r w s _ Hw Hin Hp)].
  - split; [by apply release_wf|by apply release_within].
  - split; [by apply record_heartbeat_wf|]. unfold record_heartbeat.
    destruct (od_get w _) eqn:E; [|done].
    apply (within_same r); [done| |done|done].
    by eapply (same_fit_set r _ w _ _ E); [|reflexivity].
  - split; [by apply mark_disconnected_wf|]. unfold mark_disconnected.
    destruct (od_get w _) eqn:E; [|done]. case_decide; [|done].
    apply (within_same r); [done| |done|done].
    by eapply (same_fit_set r _ w _ _ E); [|reflexivity].
  - split; [by apply set_draining_wf|]. unfold set_draining.
    destruct (od_get w _) eqn:E; [|done]. destruct b;
      (apply (within_same r); [done| |done|done]);
      by eapply (same_fit_set r _ w _ _ E); [|reflexivity].
  - split; [by apply record_held_wf|]. unfold record_held_generation.
    destruct (held r !! w); [|done].
    apply (within_same r); [done| |done|done]. intros k wk' Hk. by exists wk'.
Qed.

(** C4: Between registrations, however placements, confirms, releases, stops,
    heartbeats, disconnects and drains interleave, no worker is taken over the server count it advertises,
    nor over its advertised memory less the reserve. *)
Theorem placement_never_oversubscribes r r' :
  wf r -> within_capacity r -> rtc fleet_step r r' -> within_capacity r'.
Proof.
  intros Hw Hin Hsteps. enough (wf r' /\ within_capacity r') by tauto.
  induction Hsteps as [|r1 r2 r3 Hs _ IH]; [done|].
  destruct (fleet_step_within _ _ Hw Hin Hs). by apply IH.
Qed.

(** ** A concrete fleet *)

Definition sample_fleet_worker : Worker :=
  {| w_id := _fleet_worker 7; w_version := "1.0";
     w_capabilities := {| drivers := {[CONTAINER]}; max_servers := 1;
       resources := {| cpu_cores := 4; memory_bytes := 4096 * 1024 * 1024 |} |};
     w_registered_at := 0; w_last_heartbeat_at := 0; w_disconnected := false;
     w_draining := false |}.

Definition sample_fleet : Registry := (register (init 30 ∅) sample_fleet_worker ∅).1.

Lemma sample_fleet_within : within_capacity sample_fleet.
Proof.
  intros w wk cm rs. unfold sample_fleet. simpl.
  destruct (decide (w = _)) as [->|]; [|done]. intros [= <-].
  rewrite !lookup_insert_eq. intros [= <-] [= <-]. split_and!.
  - right. vm_compute. discriminate.
  - intros _. vm_compute. discriminate.
  - intros k v Hk. by rewrite lookup_empty in Hk.
  - intros k v Hk. by rewrite lookup_empty in Hk.
Qed.

(** The only slot is taken once, and the second placement finds no worker. *)
Lemma placement_never_oversubscribes_witness :
  exists r1, adapter_place sample_fleet 1 100 (Some 1024) [] = (r1, PlacedOn 7)
    /\ snd (adapter_place r1 1 101 (Some 1024) []) = NoWorker /\ within_capacity r1.
Proof.
  exists (fst (adapter_place sample_fleet 1 100 (Some 1024) [])).
  split; [vm_compute; reflexivity|]. split; [vm_compute; reflexivity|].
  apply (placement_never_oversubscribes sample_fleet).
  - apply register_wf, init_wf.
  - apply sample_fleet_within.
  - eapply rtc_l; [|apply rtc_refl].
    eapply (fs_place _ 1 100 (Some 1024) [] _ (PlacedOn 7));
      [intros mb Hmb; injection Hmb as <-; lia|vm_compute; reflexivity].
Defined.
