(* ===== verification/Calendar.v ===== *)
(** * Dates

    What the code uses of Python's [datetime]: an aware instant is an integer
    number of microseconds since 1970-01-01 UTC, a date is its proleptic
    Gregorian ordinal (1 is 0001-01-01), and [year], [month], [isoweekday] and
    [isocalendar] are the standard library's own computations on ordinals. *)
From Stdlib Require Import ZArith Lia String.
From stdpp Require Import base list.
From S2P Require Import Prelude.

Open Scope Z_scope.

Abbreviation datetime := Z.
Abbreviation timedelta := Z.
Abbreviation date := Z.

Definition microsecond : timedelta := 1.
Definition second : timedelta := 1000000.
Definition day_us : timedelta := 86400 * second.

(** [timedelta(seconds=n)]. *)
Definition seconds (n : Z) : timedelta := n * second.

(** [date.min] and [date.max] as ordinals; leaving the range raises
    [OverflowError]. *)
Definition date_min : date := 1.
Definition date_max : date := 3652059.

(** [instant.astimezone(utc).date()]. *)
Definition utc_date (t : datetime) : date := t / day_us + 719163.

(** [d - timedelta(days=n)], which may leave the calendar. *)
Definition date_sub_days (d : date) (n : Z) : option date :=
  let r := d - n in
  if (date_min <=? r) && (r <=? date_max) then Some r else None.

(** ** Year and month of an ordinal *)

Definition days_before_year (y : Z) : Z :=
  let y := y - 1 in y * 365 + y / 4 - y / 100 + y / 400.

Definition is_leap (y : Z) : bool :=
  (y mod 4 =? 0) && (negb (y mod 100 =? 0) || (y mod 400 =? 0)).

(** [_days_before_month]. *)
Definition days_before_month (y m : Z) : Z :=
  match m with
  | 1 => 0 | 2 => 31 | 3 => 59 | 4 => 90 | 5 => 120 | 6 => 151 | 7 => 181 | 8 => 212
  | 9 => 243 | 10 => 273 | 11 => 304 | 12 => 334 | _ => 0
  end + (if (2 <? m) && is_leap y then 1 else 0).

(** [_ord2ymd], without the day. *)
Definition ord2ym (n : date) : Z * Z :=
  let n := n - 1 in
  let n400 := n / 146097 in
  let n := n mod 146097 in
  let year := n400 * 400 + 1 in
  let n100 := n / 36524 in
  let n := n mod 36524 in
  let n4 := n / 1461 in
  let n := n mod 1461 in
  let n1 := n / 365 in
  let n := n mod 365 in
  let year := year + (n100 * 100 + n4 * 4 + n1) in
  if (n1 =? 4) || (n100 =? 4) then (year - 1, 12)
  else
    let month := (n + 50) / 32 in
    if n <? days_before_month year month then (year, month - 1) else (year, month).

Definition year (d : date) : Z := fst (ord2ym d).
Definition month (d : date) : Z := snd (ord2ym d).

(** ** ISO weeks *)

(** Monday is 1. *)
Definition isoweekday (d : date) : Z := (d - 1) mod 7 + 1.

Definition isoweek1monday (y : Z) : date :=
  let firstday := days_before_year y + 1 in
  let firstweekday := (firstday + 6) mod 7 in
  let week1monday := firstday - firstweekday in
  if 3 <? firstweekday then week1monday + 7 else week1monday.

(** [d.isocalendar()[:2]]. *)
Definition isocalendar (d : date) : Z * Z :=
  let y := year d in
  let week := (d - isoweek1monday y) / 7 in
  if week <? 0 then
    let y := y - 1 in (y, (d - isoweek1monday y) / 7 + 1)
  else if (52 <=? week) && (isoweek1monday (y + 1) <=? d) then (y + 1, 1)
  else (y, week + 1).

(** The Monday of the week of [d]. *)
Definition monday (d : date) : date := d - (isoweekday d - 1).

(** The Monday of an ISO (year, week). *)
Definition week_monday (w : Z * Z) : date := isoweek1monday (fst w) + 7 * (snd w - 1).

(** ** The year of an ordinal brackets it *)

Lemma days_before_year_of a b c e :
  0 <= b <= 3 -> 0 <= c <= 24 -> 0 <= e <= 3 ->
  days_before_year (400 * a + 100 * b + 4 * c + e + 1)
  = 146097 * a + 36524 * b + 1461 * c + 365 * e.
Proof.
  intros Hb Hc He. unfold days_before_year.
  replace (400 * a + 100 * b + 4 * c + e + 1 - 1) with (400 * a + 100 * b + 4 * c + e) by lia.
  replace ((400 * a + 100 * b + 4 * c + e) / 4) with (100 * a + 25 * b + c)
    by (apply Z.div_unique with e; lia).
  replace ((400 * a + 100 * b + 4 * c + e) / 100) with (4 * a + b)
    by (apply Z.div_unique with (4 * c + e); lia).
  replace ((400 * a + 100 * b + 4 * c + e) / 400) with a
    by (apply Z.div_unique with (100 * b + 4 * c + e); lia).
  lia.
Qed.

Lemma days_before_year_succ y :
  days_before_year y + 365 <= days_before_year (y + 1) <= days_before_year y + 366.
Proof.
  unfold days_before_year. replace (y + 1 - 1) with y by lia.
  assert (H : forall k, 0 < k -> (y - 1) / k <= y / k <= (y - 1) / k + 1).
  { intros k Hk. split; [apply Z.div_le_mono; lia|].
    apply Z.div_le_upper_bound; [lia|]. pose proof (Z.div_mod (y - 1) k ltac:(lia)).
    pose proof (Z.mod_pos_bound (y - 1) k Hk). lia. }
  assert (H100 : y / 100 - (y - 1) / 100 <= y / 4 - (y - 1) / 4).
  { pose proof (Z.div_mod y 100 ltac:(lia)). pose proof (Z.mod_pos_bound y 100 ltac:(lia)).
    pose proof (Z.div_mod y 4 ltac:(lia)). pose proof (Z.mod_pos_bound y 4 ltac:(lia)).
    pose proof (Z.div_mod (y - 1) 100 ltac:(lia)).
    pose proof (Z.mod_pos_bound (y - 1) 100 ltac:(lia)).
    pose proof (Z.div_mod (y - 1) 4 ltac:(lia)). pose proof (Z.mod_pos_bound (y - 1) 4 ltac:(lia)).
    lia. }
  assert (H400 : y / 400 - (y - 1) / 400 <= y / 100 - (y - 1) / 100).
  { pose proof (Z.div_mod y 100 ltac:(lia)). pose proof (Z.mod_pos_bound y 100 ltac:(lia)).
    pose proof (Z.div_mod y 400 ltac:(lia)). pose proof (Z.mod_pos_bound y 400 ltac:(lia)).
    pose proof (Z.div_mod (y - 1) 100 ltac:(lia)).
    pose proof (Z.mod_pos_bound (y - 1) 100 ltac:(lia)).
    pose proof (Z.div_mod (y - 1) 400 ltac:(lia)).
    pose proof (Z.mod_pos_bound (y - 1) 400 ltac:(lia)). lia. }
  pose proof (H 4). pose proof (H 100). pose proof (H 400). lia.
Qed.

Lemma year_bounds d : days_before_year (year d) < d <= days_before_year (year d + 1).
Proof.
  unfold year, ord2ym.
  pose proof (Z.div_mod (d - 1) 146097 ltac:(lia)) as Ha.
  pose proof (Z.mod_pos_bound (d - 1) 146097 ltac:(lia)) as Ha'.
  set (a := (d - 1) / 146097) in *. set (n := (d - 1) mod 146097) in *.
  pose proof (Z.div_mod n 36524 ltac:(lia)) as Hb.
  pose proof (Z.mod_pos_bound n 36524 ltac:(lia)) as Hb'.
  set (b := n / 36524) in *. set (n1 := n mod 36524) in *.
  pose proof (Z.div_mod n1 1461 ltac:(lia)) as Hc.
  pose proof (Z.mod_pos_bound n1 1461 ltac:(lia)) as Hc'.
  set (c := n1 / 1461) in *. set (n2 := n1 mod 1461) in *.
  pose proof (Z.div_mod n2 365 ltac:(lia)) as He.
  pose proof (Z.mod_pos_bound n2 365 ltac:(lia)) as He'.
  set (e := n2 / 365) in *. set (f := n2 mod 365) in *.
  clearbody a n b n1 c n2 e f.
  assert (0 <= b <= 4 /\ 0 <= c <= 24 /\ 0 <= e <= 4) as (Hb4 & Hc4 & He4) by lia.
  destruct (Z.eqb_spec e 4) as [->|He5]; simpl; [|destruct (Z.eqb_spec b 4) as [->|Hb5]; simpl].
  - pose proof (days_before_year_of a b c 3).
    replace (a * 400 + 1 + (b * 100 + c * 4 + 4) - 1)
      with (400 * a + 100 * b + 4 * c + 3 + 1) by lia.
    pose proof (days_before_year_of a b (c + 1) 0).
    replace (400 * a + 100 * b + 4 * c + 3 + 1 + 1)
      with (400 * a + 100 * b + 4 * (c + 1) + 0 + 1) by lia. lia.
  - pose proof (days_before_year_of a 3 24 3).
    replace (a * 400 + 1 + (4 * 100 + c * 4 + e) - 1)
      with (400 * a + 100 * 3 + 4 * 24 + 3 + 1) by lia.
    pose proof (days_before_year_of (a + 1) 0 0 0).
    replace (400 * a + 100 * 3 + 4 * 24 + 3 + 1 + 1)
      with (400 * (a + 1) + 100 * 0 + 4 * 0 + 0 + 1) by lia. lia.
  - pose proof (days_before_year_of a b c e).
    pose proof (days_before_year_succ (400 * a + 100 * b + 4 * c + e + 1)).
    destruct (_ <? _); cbn [fst];
      replace (a * 400 + 1 + (b * 100 + c * 4 + e))
        with (400 * a + 100 * b + 4 * c + e + 1) by lia; lia.
Qed.

(** ** ISO weeks and their Mondays *)

Lemma isoweek1monday_spec y :
  days_before_year y - 2 <= isoweek1monday y <= days_before_year y + 4
  /\ isoweek1monday y mod 7 = 1.
Proof.
  unfold isoweek1monday. set (x := days_before_year y + 1).
  pose proof (Z.div_mod (x + 6) 7 ltac:(lia)). pose proof (Z.mod_pos_bound (x + 6) 7 ltac:(lia)).
  split.
  - destruct (Z.ltb_spec 3 ((x + 6) mod 7)); unfold x in *; lia.
  - assert (Hm : (x - (x + 6) mod 7) mod 7 = 1).
    { replace (x - (x + 6) mod 7) with (1 + ((x + 6) / 7 - 1) * 7) by lia.
      by rewrite Z.mod_add by lia. }
    destruct (3 <? _); [|done]. replace (x - (x + 6) mod 7 + 7) with (x - (x + 6) mod 7 + 1 * 7) by lia.
    by rewrite Z.mod_add by lia.
Qed.

Lemma isoweek1monday_succ y : isoweek1monday y + 364 <= isoweek1monday (y + 1).
Proof.
  pose proof (isoweek1monday_spec y) as [H1 H1']. pose proof (isoweek1monday_spec (y + 1)) as [H2 H2'].
  pose proof (days_before_year_succ y).
  pose proof (Z.div_mod (isoweek1monday y) 7 ltac:(lia)).
  pose proof (Z.div_mod (isoweek1monday (y + 1)) 7 ltac:(lia)). lia.
Qed.

Lemma isoweek1monday_mono y1 y2 : y1 < y2 -> isoweek1monday y1 < isoweek1monday y2.
Proof.
  intros Hlt. assert (Hn : forall n : nat, isoweek1monday y1 < isoweek1monday (y1 + 1 + Z.of_nat n)).
  { induction n as [|n IH].
    - pose proof (isoweek1monday_succ y1). rewrite Z.add_0_r. lia.
    - pose proof (isoweek1monday_succ (y1 + 1 + Z.of_nat n)).
      replace (y1 + 1 + Z.of_nat (S n)) with (y1 + 1 + Z.of_nat n + 1) by lia. lia. }
  specialize (Hn (Z.to_nat (y2 - y1 - 1))).
  by replace (y1 + 1 + Z.of_nat (Z.to_nat (y2 - y1 - 1))) with y2 in Hn by lia.
Qed.

Lemma monday_spec d : monday d <= d < monday d + 7 /\ (monday d) mod 7 = 1.
Proof.
  unfold monday, isoweekday. pose proof (Z.mod_pos_bound (d - 1) 7 ltac:(lia)).
  split; [lia|]. pose proof (Z.div_mod (d - 1) 7 ltac:(lia)).
  replace (d - ((d - 1) mod 7 + 1 - 1)) with (1 + ((d - 1) / 7) * 7) by lia.
  by rewrite Z.mod_add by lia.
Qed.

(** A Monday at most [d] is at most [monday d]; [monday d] rounds down to it. *)
Lemma monday_ge m d : m mod 7 = 1 -> m <= d -> m <= monday d.
Proof.
  intros Hm Hle. destruct (monday_spec d) as [H1 H2].
  pose proof (Z.div_mod m 7 ltac:(lia)). pose proof (Z.div_mod (monday d) 7 ltac:(lia)). lia.
Qed.

Lemma monday_from m d : m mod 7 = 1 -> m + 7 * ((d - m) / 7) = monday d.
Proof.
  intros Hm. destruct (monday_spec d) as [H1 H2].
  pose proof (Z.div_mod m 7 ltac:(lia)). pose proof (Z.div_mod (monday d) 7 ltac:(lia)).
  pose proof (Z.div_mod (d - m) 7 ltac:(lia)). pose proof (Z.mod_pos_bound (d - m) 7 ltac:(lia)). lia.
Qed.

(** The ISO year is the one whose weeks contain the Monday, and the week counts
    from its first Monday. *)
Lemma isocalendar_spec d :
  week_monday (isocalendar d) = monday d
  /\ isoweek1monday (fst (isocalendar d)) <= monday d < isoweek1monday (fst (isocalendar d) + 1).
Proof.
  unfold week_monday, isocalendar. set (y := year d).
  pose proof (year_bounds d) as Hy. fold y in Hy.
  destruct (isoweek1monday_spec y) as [Hw Hm].
  destruct (isoweek1monday_spec (y + 1)) as [Hw1 Hm1].
  destruct (monday_spec d) as [Hd Hd7].
  destruct (Z.ltb_spec ((d - isoweek1monday y) / 7) 0) as [Hneg|Hpos]; cbn [fst snd].
  - destruct (isoweek1monday_spec (y - 1)) as [Hw0 Hm0].
    pose proof (days_before_year_succ (y - 1)) as Hs. replace (y - 1 + 1) with y in * by lia.
    assert (d < isoweek1monday y).
    { pose proof (Z.div_mod (d - isoweek1monday y) 7 ltac:(lia)).
      pose proof (Z.mod_pos_bound (d - isoweek1monday y) 7 ltac:(lia)). lia. }
    pose proof (monday_from (isoweek1monday (y - 1)) d Hm0). lia.
  - assert (Hge : isoweek1monday y <= d).
    { destruct (Z_le_gt_dec (isoweek1monday y) d); [done|].
      pose proof (Z.div_lt_upper_bound (d - isoweek1monday y) 7 0 ltac:(lia)). lia. }
    pose proof (monday_ge _ _ Hm Hge) as Hmy.
    destruct (Z.leb_spec 52 ((d - isoweek1monday y) / 7)) as [H52|H52]; simpl.
    + destruct (Z.leb_spec (isoweek1monday (y + 1)) d) as [Hn|Hn]; cbn [fst snd].
      * pose proof (monday_ge _ _ Hm1 Hn). pose proof (isoweek1monday_succ (y + 1)).
        pose proof (Z.div_mod (isoweek1monday (y + 1)) 7 ltac:(lia)).
        pose proof (Z.div_mod (monday d) 7 ltac:(lia)). lia.
      * pose proof (monday_from (isoweek1monday y) d Hm). lia.
    + pose proof (monday_from (isoweek1monday y) d Hm). pose proof (isoweek1monday_succ y). cbn [fst snd].
      lia.
Qed.

(** Two dates have the same ISO (year, week) exactly when they share a Monday. *)
Lemma isocalendar_eq_iff d1 d2 : isocalendar d1 = isocalendar d2 <-> monday d1 = monday d2.
Proof.
  destruct (isocalendar_spec d1) as [H1 H1'], (isocalendar_spec d2) as [H2 H2'].
  split; intros H; [by rewrite <- H1, <- H2, H|].
  destruct (isocalendar d1) as [y1 w1], (isocalendar d2) as [y2 w2].
  unfold week_monday in *. cbn [fst snd] in *.
  assert (y1 = y2) as ->; [|f_equal; lia].
  destruct (Z.lt_trichotomy y1 y2) as [Hlt|[Heq|Hlt]]; [|done|]; exfalso.
  - destruct (Z.eq_dec (y1 + 1) y2) as [<-|]; [lia|].
    pose proof (isoweek1monday_mono (y1 + 1) y2). lia.
  - destruct (Z.eq_dec (y2 + 1) y1) as [<-|]; [lia|].
    pose proof (isoweek1monday_mono (y2 + 1) y1). lia.
Qed.

(** ** Months *)

Lemma month_bounds d : 1 <= month d <= 12.
Proof.
  unfold month, ord2ym.
  set (n := ((((d - 1) mod 146097) mod 36524) mod 1461) mod 365).
  assert (Hn : 0 <= n < 365) by (apply Z.mod_pos_bound; lia). clearbody n.
  destruct (_ || _); cbn [snd]; [lia|].
  pose proof (Z.div_mod (n + 50) 32 ltac:(lia)) as Hd.
  pose proof (Z.mod_pos_bound (n + 50) 32 ltac:(lia)).
  set (m := (n + 50) / 32) in *. clearbody m.
  match goal with |- context [days_before_month ?y m] => set (k := y); clearbody k end.
  destruct (Z.ltb_spec n (days_before_month k m)) as [Hlt|Hge]; cbn [snd]; [|lia].
  destruct (Z.eq_dec m 1) as [->|]; [|lia]. unfold days_before_month in Hlt. simpl in Hlt. lia.
Qed.

(** Months numbered consecutively. *)
Definition month_index (ym : Z * Z) : Z := 12 * ym.1 + ym.2 - 1.

Lemma month_index_inj a b :
  1 <= a.2 <= 12 -> 1 <= b.2 <= 12 -> month_index a = month_index b -> a = b.
Proof.
  destruct a as [y1 m1], b as [y2 m2]. unfold month_index. simpl. intros. f_equal; lia.
Qed.

Definition month_no (d : date) : Z := month_index (year d, month d).
