(* ===== verification/Retention.v ===== *)
(** * Backup retention

    [servers/domain/backup_retention.py]: the retention policy, its persisted
    JSON form, and the pure selection of the scheduled backups it prunes. *)
From Stdlib Require Import ZArith NArith Lia String.
From stdpp Require Import base gmap strings list sorting.
From S2P Require Import Prelude Calendar.

Open Scope Z_scope.

(** ** Values *)

Inductive BackupSource : Set := MANUAL | SCHEDULED | EVENT | UPLOADED.

#[global] Instance BackupSource_eq_dec : EqDecision BackupSource.
Proof. solve_decision. Defined.

(** The columns of a backup row that retention reads.  The id is the UUID's
    integer: canonical UUID strings compare as their integers do. *)
Record Backup := {
  bk_id : N;
  bk_source : BackupSource;
  bk_created_at : datetime
}.

#[global] Instance Backup_eq_dec : EqDecision Backup.
Proof. solve_decision. Defined.

(** Values a jsonb column reads back as; an object's keys are distinct. *)
Inductive json : Type :=
| JNull
| JBool (b : bool)
| JInt (n : Z)
| JStr (s : string)
| JOther
| JObject (fields : list (string * json)).

Inductive retention_error : Type :=
| InvalidRetentionPolicyError (message : string)
| OverflowError.

Definition invalid {A} (message : string) : result retention_error A :=
  Err (InvalidRetentionPolicyError message).

(** [_require_int]: a bool is an int to Python, but not to a policy. *)
Definition _require_int (value : json) (name : string) : result retention_error Z :=
  match value with
  | JInt n => Ok n
  | _ => invalid (name ++ " must be an integer")
  end.

Record RetentionPolicy := {
  keep_last : option Z;
  daily : Z;
  weekly : Z;
  monthly : Z
}.

(** [RetentionPolicy.__post_init__]. *)
Definition post_init (p : RetentionPolicy) : result retention_error RetentionPolicy :=
  if p.(daily) <? 0 then invalid "daily must be >= 0"
  else if p.(weekly) <? 0 then invalid "weekly must be >= 0"
  else if p.(monthly) <? 0 then invalid "monthly must be >= 0"
  else
    let tiered := negb (p.(daily) =? 0) || negb (p.(weekly) =? 0) || negb (p.(monthly) =? 0) in
    match p.(keep_last) with
    | Some n =>
        if n <? 1 then invalid "keep_last must be >= 1"
        else if tiered then invalid "a policy is keep_last XOR tiered, not both"
        else Ok p
    | None => if negb tiered then invalid "at least one tier must be > 0" else Ok p
    end.

Definition from_fields (keep_last daily weekly monthly : option Z)
    : result retention_error RetentionPolicy :=
  let tiers_given := match daily, weekly, monthly with None, None, None => false | _, _, _ => true end in
  match keep_last with
  | Some n =>
      if tiers_given then invalid "a policy is keep_last XOR tiered, not both"
      else post_init {| keep_last := Some n; daily := 0; weekly := 0; monthly := 0 |}
  | None =>
      if negb tiers_given then invalid "one of keep_last or a tier is required"
      else post_init {| keep_last := None; daily := default 0 daily; weekly := default 0 weekly;
                        monthly := default 0 monthly |}
  end.

(** [set(data) == keys], for a dict and a frozenset. *)
Definition keys_are (fields : list (string * json)) (keys : list string) : bool :=
  bool_decide (list_to_set (od_keys fields) = (list_to_set keys : gset string)).

Definition _KEEP_LAST_KEYS : list string := ["keep_last"%string].
Definition _TIERED_KEYS : list string := ["daily"; "weekly"; "monthly"]%string.

Definition field (fields : list (string * json)) (name : string) : result retention_error Z :=
  _require_int (default JNull (od_get name fields)) name.

Definition from_json (data : json) : result retention_error RetentionPolicy :=
  match data with
  | JObject fields =>
      if keys_are fields _KEEP_LAST_KEYS then
        n ← field fields "keep_last";
        post_init {| keep_last := Some n; daily := 0; weekly := 0; monthly := 0 |}
      else if keys_are fields _TIERED_KEYS then
        d ← field fields "daily";
        w ← field fields "weekly";
        m ← field fields "monthly";
        post_init {| keep_last := None; daily := d; weekly := w; monthly := m |}
      else invalid "policy must be {keep_last} or {daily, weekly, monthly}"
  | _ => invalid "policy must be a JSON object"
  end.

Definition to_json (p : RetentionPolicy) : json :=
  match p.(keep_last) with
  | Some n => JObject [("keep_last"%string, JInt n)]
  | None => JObject [("daily"%string, JInt p.(daily)); ("weekly"%string, JInt p.(weekly));
                     ("monthly"%string, JInt p.(monthly))]
  end.

(** ** The selection *)

Definition backup_key (b : Backup) : datetime * N := (b.(bk_created_at), b.(bk_id)).

(** Descending: [sorted(..., reverse=True)] is stable for the reversed order. *)
Definition newer (x y : datetime * N) : bool := pair_ltb Z.ltb N.ltb y x.

Definition _newest_first (backups : list Backup) : list Backup :=
  sort_by newer backup_key backups.

(** [range(n)], empty for [n <= 0]. *)
Definition py_range (n : Z) : list Z := map Z.of_nat (seq 0 (Z.to_nat n)).

(** A set comprehension over dates that may leave the calendar. *)
Definition window_of (n : Z) (f : Z -> option date) : result retention_error (list date) :=
  match mapM f (py_range n) with
  | Some l => Ok l
  | None => Err OverflowError
  end.

Definition _window_days (now_date : date) (days : Z) : result retention_error (list date) :=
  window_of days (fun i => date_sub_days now_date i).

Definition _window_weeks (now_date : date) (weeks : Z)
    : result retention_error (list (Z * Z)) :=
  match date_sub_days now_date (isoweekday now_date - 1) with
  | None => Err OverflowError
  | Some monday =>
      l ← window_of weeks (fun i => date_sub_days monday (7 * i));
      Ok (map isocalendar l)
  end.

Fixpoint window_months_from (n : nat) (year month : Z) : list (Z * Z) :=
  match n with
  | O => []
  | S n' =>
      (year, month) ::
      (if month - 1 =? 0 then window_months_from n' (year - 1) 12
       else window_months_from n' year (month - 1))
  end.

Definition _window_months (now_date : date) (months : Z) : list (Z * Z) :=
  window_months_from (Z.to_nat months) (year now_date) (month now_date).

(** One tier: the bucket is in the window and not yet claimed. *)
Definition claims {K} `{EqDecision K} (window claimed : list K) (k : K) : bool :=
  bool_decide (k ∈ window) && negb (bool_decide (k ∈ claimed)).

Definition claim {K} `{EqDecision K} (window claimed : list K) (k : K) : list K :=
  if claims window claimed k then k :: claimed else claimed.

Definition created_date (b : Backup) : date := utc_date b.(bk_created_at).
Definition week_of (b : Backup) : Z * Z := isocalendar (created_date b).
Definition month_of (b : Backup) : Z * Z := (year (created_date b), month (created_date b)).

(** The loop over the scheduled backups, newest first. *)
Fixpoint prune_loop (days : list date) (weeks months : list (Z * Z))
    (cd : list date) (cw cm : list (Z * Z)) (scheduled : list Backup) : list Backup :=
  match scheduled with
  | [] => []
  | b :: rest =>
      let kept := claims days cd (created_date b) || claims weeks cw (week_of b)
                  || claims months cm (month_of b) in
      let pruned := prune_loop days weeks months (claim days cd (created_date b))
                      (claim weeks cw (week_of b)) (claim months cm (month_of b)) rest in
      if kept then pruned else b :: pruned
  end.

Definition scheduled_of (backups : list Backup) : list Backup :=
  _newest_first (List.filter (fun b => bool_decide (b.(bk_source) = SCHEDULED)) backups).

(** [l[n:]] for a Python slice start [n]. *)
Definition slice_from {A} (n : Z) (l : list A) : list A :=
  drop (Z.to_nat (if n <? 0 then Z.max 0 (Z.of_nat (length l) + n) else n)) l.

Definition backups_to_prune (policy : RetentionPolicy) (backups : list Backup) (now : datetime)
    : result retention_error (list Backup) :=
  let scheduled := scheduled_of backups in
  match policy.(keep_last) with
  | Some n => Ok (slice_from n scheduled)
  | None =>
      let now_date := utc_date now in
      days ← _window_days now_date policy.(daily);
      weeks ← _window_weeks now_date policy.(weekly);
      let months := _window_months now_date policy.(monthly) in
      Ok (prune_loop days weeks months [] [] [] scheduled)
  end.

(** ** Policies: validity and the JSON form *)

Definition valid_policy (p : RetentionPolicy) : Prop :=
  match p.(keep_last) with
  | Some n => 1 <= n /\ p.(daily) = 0 /\ p.(weekly) = 0 /\ p.(monthly) = 0
  | None => 0 <= p.(daily) /\ 0 <= p.(weekly) /\ 0 <= p.(monthly)
            /\ (0 < p.(daily) \/ 0 < p.(weekly) \/ 0 < p.(monthly))
  end.

Lemma post_init_ok p q : post_init p = Ok q <-> q = p /\ valid_policy p.
Proof.
  unfold post_init, valid_policy, invalid. destruct p as [[n|] d w m]; simpl;
    repeat match goal with
    | |- context [?a <? ?b] => destruct (Z.ltb_spec a b)
    | |- context [?a =? ?b] => destruct (Z.eqb_spec a b)
    end; simpl; split; intros Hq;
    first [ discriminate Hq
          | injection Hq as <-; split; [done|lia]
          | destruct Hq as [-> Hq]; first [done | exfalso; lia] ].
Qed.

Lemma from_fields_valid k d w m p : from_fields k d w m = Ok p -> valid_policy p.
Proof.
  unfold from_fields, invalid. intros H.
  assert (Hp : exists q, post_init q = Ok p) by (repeat case_match; simplify_eq; eauto).
  by destruct Hp as [q [-> Hv]%post_init_ok].
Qed.

Lemma from_json_valid j p : from_json j = Ok p -> valid_policy p.
Proof.
  unfold from_json, invalid. intros H. destruct j; try done.
  assert (Hp : exists q, post_init q = Ok p).
  { destruct (keys_are fields _KEEP_LAST_KEYS); [bind_inv; eauto|].
    destruct (keys_are fields _TIERED_KEYS); [|done].
    apply bind_ok in H as (? & _ & H). apply bind_ok in H as (? & _ & H).
    apply bind_ok in H as (? & _ & H). eauto. }
  by destruct Hp as [q [-> Hv]%post_init_ok].
Qed.

(** A policy the API accepts, and nothing else, is read back from the column
    unchanged; whatever is read back is valid. *)
Theorem retention_json_roundtrip p :
  from_json (to_json p) = Ok p <-> valid_policy p.
Proof.
  split; [apply from_json_valid|]. intros Hv.
  assert (Hp : post_init p = Ok p) by by apply post_init_ok.
  destruct p as [[n|] d w m]; unfold to_json; simpl.
  - unfold valid_policy in Hv. simpl in Hv. destruct Hv as (? & -> & -> & ->).
    by rewrite <- Hp.
  - by rewrite <- Hp.
Qed.

(** ** Sorting *)

#[global] Instance newer_strict : StrictTotal newer.
Proof. unfold newer. apply (flip_strict (pair_ltb Z.ltb N.ltb)). apply _. Qed.

Definition is_scheduled (b : Backup) : bool := bool_decide (b.(bk_source) = SCHEDULED).

Lemma elem_of_scheduled b bs : b ∈ scheduled_of bs <-> b ∈ bs /\ b.(bk_source) = SCHEDULED.
Proof.
  unfold scheduled_of, _newest_first.
  rewrite sort_by_perm, elem_of_filter_bool, bool_decide_eq_true. done.
Qed.

(** The rows of a table have distinct primary keys. *)
Definition distinct_ids (bs : list Backup) : Prop := NoDup (map bk_id bs).

Lemma distinct_ids_inj bs x y :
  distinct_ids bs -> x ∈ bs -> y ∈ bs -> x.(bk_id) = y.(bk_id) -> x = y.
Proof.
  unfold distinct_ids. induction bs as [|b bs IH]; simpl; [by intros _ ?%not_elem_of_nil|].
  intros [Hb Hn]%NoDup_cons Hx Hy Hxy.
  apply elem_of_cons in Hx as [->|Hx]; apply elem_of_cons in Hy as [->|Hy];
    [done| | |by apply IH].
  - destruct Hb. rewrite Hxy. by apply list_elem_of_fmap_2.
  - destruct Hb. rewrite <- Hxy. by apply list_elem_of_fmap_2.
Qed.

Lemma scheduled_of_order bs1 bs2 :
  bs1 ≡ₚ bs2 -> distinct_ids bs1 -> scheduled_of bs1 = scheduled_of bs2.
Proof.
  intros Hp Hd. unfold scheduled_of, _newest_first. apply sort_by_unique; [apply _|by rewrite Hp|].
  intros x y Hx Hy [= _ Hid]. apply elem_of_filter_bool in Hx as [Hx _].
  apply elem_of_filter_bool in Hy as [Hy _]. by eapply distinct_ids_inj.
Qed.

(** The selection does not depend on the order the repository lists rows in. *)
Theorem prune_order_irrelevant policy bs1 bs2 now :
  bs1 ≡ₚ bs2 -> distinct_ids bs1 ->
  backups_to_prune policy bs1 now = backups_to_prune policy bs2 now.
Proof.
  intros Hp Hd. unfold backups_to_prune. by rewrite (scheduled_of_order bs1 bs2).
Qed.

(** ** Keep-N *)

(** A keep-N policy splits the scheduled rows into the N newest, which stay, and
    the rest, which are pruned. *)
Theorem keep_last_prune policy bs now n :
  policy.(keep_last) = Some n -> 1 <= n ->
  exists kept pruned,
    backups_to_prune policy bs now = Ok pruned
    /\ kept ++ pruned ≡ₚ List.filter is_scheduled bs
    /\ Z.of_nat (length kept) = Z.min n (Z.of_nat (length (List.filter is_scheduled bs)))
    /\ (forall x y, x ∈ kept -> y ∈ pruned -> newer (backup_key y) (backup_key x) = false).
Proof.
  intros Hk Hn. set (S := scheduled_of bs). exists (take (Z.to_nat n) S), (drop (Z.to_nat n) S).
  assert (HS : S ≡ₚ List.filter is_scheduled bs) by apply sort_by_perm.
  split_and!.
  - unfold backups_to_prune. rewrite Hk. unfold slice_from.
    by rewrite (proj2 (Z.ltb_ge n 0)) by lia.
  - by rewrite take_drop.
  - rewrite length_take, <- (Permutation_length HS). lia.
  - intros x y Hx Hy. pose proof (sort_by_sorted newer backup_key
      (List.filter (fun b => bool_decide (bk_source b = SCHEDULED)) bs)) as Hs.
    change (sort_by _ _ _) with S in Hs. rewrite <- (take_drop (Z.to_nat n) S) in Hs.
    by eapply StronglySorted_app_1_elem_of in Hs.
Qed.

(** ** Tiers *)

(** A tier keeps [b] after the rows [before] it: its bucket is in the window,
    unclaimed, and no earlier row claimed it. *)
Definition tier_keeps {K} (window claimed : list K) (bucket : Backup -> K)
    (before : list Backup) (b : Backup) : Prop :=
  bucket b ∈ window /\ bucket b ∉ claimed /\ forall x, x ∈ before -> bucket x <> bucket b.

Section Tier.
Context {K : Type} `{EqDecision K} (window claimed : list K) (bucket : Backup -> K).

Lemma claims_true k : claims window claimed k = true <-> k ∈ window /\ k ∉ claimed.
Proof.
  unfold claims. rewrite andb_true_iff, negb_true_iff, bool_decide_eq_true, bool_decide_eq_false.
  done.
Qed.

Lemma tier_keeps_nil b :
  tier_keeps window claimed bucket [] b <-> claims window claimed (bucket b) = true.
Proof. rewrite claims_true. unfold tier_keeps. split; [naive_solver|]. set_solver. Qed.

Lemma tier_keeps_cons x before b :
  tier_keeps window claimed bucket (x :: before) b
  <-> tier_keeps window (claim window claimed (bucket x)) bucket before b.
Proof.
  unfold tier_keeps, claim. destruct (claims window claimed (bucket x)) eqn:E.
  - apply claims_true in E. rewrite not_elem_of_cons. set_solver.
  - assert (bucket b ∈ window -> bucket b ∉ claimed -> bucket x <> bucket b); [|set_solver].
    intros H1 H2 Heq. rewrite Heq in E.
    by rewrite (proj2 (claims_true (bucket b)) (conj H1 H2)) in E.
Qed.
End Tier.

Section Loop.
Context (days : list date) (weeks months : list (Z * Z)).

(** [b] is pruned at its place in [l]: no tier keeps it. *)
Definition pruned_at (cd : list date) (cw cm : list (Z * Z)) (l : list Backup) (b : Backup) : Prop :=
  exists before after, l = before ++ b :: after
    /\ ~ tier_keeps days cd created_date before b
    /\ ~ tier_keeps weeks cw week_of before b
    /\ ~ tier_keeps months cm month_of before b.

Lemma pruned_at_head cd cw cm b l :
  b ∉ l ->
  pruned_at cd cw cm (b :: l) b
  <-> (claims days cd (created_date b) || claims weeks cw (week_of b)
       || claims months cm (month_of b)) = false.
Proof.
  intros Hb. rewrite !orb_false_iff, <- !not_true_iff_false, <- !tier_keeps_nil.
  split.
  - intros ([|y before] & after & Heq & H); simplify_eq/=; [tauto|].
    destruct Hb. set_solver.
  - intros H. exists [], l. tauto.
Qed.

Lemma pruned_at_tail cd cw cm x b l :
  b <> x ->
  pruned_at cd cw cm (x :: l) b
  <-> pruned_at (claim days cd (created_date x)) (claim weeks cw (week_of x))
        (claim months cm (month_of x)) l b.
Proof.
  intros Hb. split.
  - intros ([|y before] & after & Heq & H); simplify_eq/=.
    rewrite !tier_keeps_cons in H. by exists before, after.
  - intros (before & after & -> & H). exists (x :: before), after. by rewrite !tier_keeps_cons.
Qed.

Lemma elem_of_prune_loop l : forall cd cw cm b,
  NoDup l -> b ∈ prune_loop days weeks months cd cw cm l <-> pruned_at cd cw cm l b.
Proof.
  induction l as [|x l IH]; intros cd cw cm b Hn; simpl.
  { split; [by intros ?%not_elem_of_nil|]. by intros ([] & after & Heq & _). }
  apply NoDup_cons in Hn as [Hx Hn].
  destruct (decide (b = x)) as [->|Hb].
  - rewrite pruned_at_head by done.
    assert (Hnot : forall cd cw cm, x ∉ prune_loop days weeks months cd cw cm l).
    { intros cd' cw' cm' H. apply IH in H as (before & after & -> & _); [|done]. set_solver. }
    destruct (_ || _ || _); [|set_solver]. split; [by intros ?%Hnot|done].
  - rewrite pruned_at_tail, <- IH by done. destruct (_ || _ || _); set_solver.
Qed.
End Loop.

(** ** Windows *)

Lemma elem_of_py_range i n : i ∈ py_range n <-> 0 <= i < n.
Proof.
  unfold py_range. rewrite list_elem_of_fmap. split.
  - intros (k & -> & Hk%elem_of_seq). lia.
  - intros H. exists (Z.to_nat i). rewrite elem_of_seq. lia.
Qed.

Lemma window_of_ok n f l :
  window_of n f = Ok l ->
  (forall k, k ∈ l <-> exists i, 0 <= i < n /\ f i = Some k) /\ forall i, 0 <= i < n -> is_Some (f i).
Proof.
  unfold window_of. destruct (mapM f (py_range n)) as [l'|] eqn:E; [|done]. intros [= <-].
  apply elem_of_mapM in E as [H1 H2]. setoid_rewrite elem_of_py_range in H1.
  setoid_rewrite elem_of_py_range in H2. done.
Qed.

Lemma date_sub_days_some d n k : date_sub_days d n = Some k -> k = d - n.
Proof. unfold date_sub_days. by case_match; intros [= <-]. Qed.

Lemma window_days_ok d n days k :
  _window_days d n = Ok days -> k ∈ days <-> d - n < k <= d.
Proof.
  intros [H1 H2]%window_of_ok. rewrite H1. split.
  - intros (i & Hi & Hk%date_sub_days_some). lia.
  - intros H. exists (d - k). split; [lia|]. destruct (H2 (d - k)) as [k' Hk']; [lia|].
    rewrite Hk'. apply date_sub_days_some in Hk'. f_equal. lia.
Qed.

Lemma monday_back d i : monday (monday d - 7 * i) = monday d - 7 * i.
Proof.
  destruct (monday_spec d) as [_ H]. destruct (monday_spec (monday d - 7 * i)) as [H1 H2].
  pose proof (Z.div_mod (monday d) 7 ltac:(lia)).
  pose proof (Z.div_mod (monday (monday d - 7 * i)) 7 ltac:(lia)). lia.
Qed.

Lemma monday_gap d1 d2 : exists i, monday d1 = monday d2 - 7 * i.
Proof.
  destruct (monday_spec d1) as [_ H1]. destruct (monday_spec d2) as [_ H2].
  pose proof (Z.div_mod (monday d1) 7 ltac:(lia)). pose proof (Z.div_mod (monday d2) 7 ltac:(lia)).
  exists (monday d2 / 7 - monday d1 / 7). lia.
Qed.

Lemma window_weeks_ok d n weeks x :
  _window_weeks d n = Ok weeks ->
  isocalendar x ∈ weeks <-> monday d - 7 * n < monday x <= monday d.
Proof.
  unfold _window_weeks. destruct (date_sub_days d (isoweekday d - 1)) as [m|] eqn:Em; [|done].
  apply date_sub_days_some in Em. intros (l & [H1 H2]%window_of_ok & [= <-])%bind_ok.
  assert (m = monday d) as ->. { done. } clear Em.
  rewrite list_elem_of_fmap. split.
  - intros (k & Hk & (i & Hi & ->%date_sub_days_some)%H1). apply isocalendar_eq_iff in Hk.
    rewrite monday_back in Hk. lia.
  - intros H. destruct (monday_gap x d) as [i Hi]. destruct (H2 i) as [k Hk]; [lia|].
    exists k. split; [|apply H1; exists i; split; [lia|done]].
    apply isocalendar_eq_iff. apply date_sub_days_some in Hk as ->. by rewrite monday_back.
Qed.

Lemma window_months_from_spec n y m k :
  1 <= m <= 12 -> 1 <= k.2 <= 12 ->
  k ∈ window_months_from n y m
  <-> month_index (y, m) - Z.of_nat n < month_index k <= month_index (y, m).
Proof.
  revert y m. induction n as [|n IH]; intros y m Hm Hk.
  { simpl. split; [by intros ?%not_elem_of_nil|]. lia. }
  cbn [window_months_from]. rewrite elem_of_cons.
  assert (Hhd : k = (y, m) <-> month_index k = month_index (y, m)).
  { split; [by intros ->|]. by apply month_index_inj. }
  rewrite Hhd. destruct (Z.eqb_spec (m - 1) 0) as [Hm1|Hm1]; rewrite IH by lia;
    unfold month_index; cbn [fst snd]; lia.
Qed.

Lemma window_months_ok d n x :
  (year x, month x) ∈ _window_months d n <-> month_no d - n < month_no x <= month_no d.
Proof.
  unfold _window_months. rewrite window_months_from_spec by apply month_bounds.
  unfold month_no. lia.
Qed.

(** The windows, computed on a known calendar date, raise exactly when they
    reach before the first day of the calendar. *)
Lemma window_of_err n f e :
  window_of n f = Err e -> e = OverflowError /\ exists i, 0 <= i < n /\ f i = None.
Proof.
  unfold window_of. destruct (mapM f (py_range n)) eqn:E; [done|]. intros [= <-]. split; [done|].
  apply mapM_None_1 in E. apply Exists_exists in E as (i & Hi%elem_of_py_range & H). eauto.
Qed.

(** ** The tiered selection *)

(** [b] is the newest scheduled row of its bucket. *)
Definition newest_of {K} (bucket : Backup -> K) (bs : list Backup) (b : Backup) : Prop :=
  forall x, x ∈ bs -> x.(bk_source) = SCHEDULED -> bucket x = bucket b ->
    newer (backup_key x) (backup_key b) = false.

Lemma scheduled_split bs before b after :
  distinct_ids bs -> scheduled_of bs = before ++ b :: after ->
  forall x, x ∈ before <-> x ∈ bs /\ x.(bk_source) = SCHEDULED /\ newer (backup_key x) (backup_key b) = true.
Proof.
  intros Hd Heq x.
  transitivity (x ∈ before ++ b :: after /\ newer (backup_key x) (backup_key b) = true);
    [|rewrite <- Heq, elem_of_scheduled; tauto].
  assert (Hs : StronglySorted (key_le newer backup_key) (before ++ b :: after)).
  { rewrite <- Heq. apply sort_by_sorted, _. }
  assert (Hinj : forall y, y ∈ before ++ b :: after -> backup_key y = backup_key b -> y = b).
  { intros y Hy [= _ Hid]. rewrite <- Heq in Hy. apply elem_of_scheduled in Hy as [Hy _].
    eapply distinct_ids_inj; [done|done| |done].
    apply (elem_of_scheduled b bs). rewrite Heq. set_solver. }
  assert (Hn : NoDup (before ++ b :: after)).
  { rewrite <- Heq. unfold scheduled_of, _newest_first. rewrite sort_by_perm.
    apply NoDup_ListNoDup, List.NoDup_filter, NoDup_ListNoDup.
    by apply (NoDup_fmap_1 bk_id). }
  split.
  - intros Hx. split; [set_solver|].
    destruct (ltb_total (ltb := newer) (backup_key x) (backup_key b)) as [?|[Hk|Hk]]; [done| |].
    + apply Hinj in Hk as ->; [|set_solver]. apply NoDup_app in Hn as (_ & Hn & _).
      destruct (Hn b Hx). set_solver.
    + eapply StronglySorted_app_1_elem_of in Hs; [|done|by apply elem_of_cons; left].
      unfold key_le in Hs. congruence.
  - intros [[Hx|[->|Hx]%elem_of_cons]%elem_of_app Hk]; [done| |].
    + by rewrite ltb_irrefl in Hk.
    + apply StronglySorted_app_1_r, StronglySorted_inv in Hs as [_ Hs].
      rewrite Forall_forall in Hs. apply Hs in Hx. unfold key_le in Hx. congruence.
Qed.

Lemma tier_keeps_newest {K} (bucket : Backup -> K) window bs before b after :
  distinct_ids bs -> scheduled_of bs = before ++ b :: after ->
  tier_keeps window [] bucket before b <-> bucket b ∈ window /\ newest_of bucket bs b.
Proof.
  intros Hd Heq. pose proof (scheduled_split _ _ _ _ Hd Heq) as Hsp.
  unfold tier_keeps, newest_of. split.
  - intros (Hw & _ & Hb). split; [done|]. intros x Hx Hsrc Hk.
    destruct (newer _ _) eqn:E; [|done]. destruct (Hb x); [|done]. by apply Hsp.
  - intros [Hw Hb]. split_and!; [done|by apply not_elem_of_nil|].
    intros x (Hx & Hsrc & Hn)%Hsp Hk. by rewrite Hb in Hn.
Qed.

Lemma newest_of_iff {K1 K2} (b1 : Backup -> K1) (b2 : Backup -> K2) bs b :
  (forall x, b1 x = b1 b <-> b2 x = b2 b) -> newest_of b1 bs b <-> newest_of b2 bs b.
Proof. intros H. unfold newest_of. setoid_rewrite H. done. Qed.

Definition week_start (b : Backup) : date := monday (created_date b).
Definition month_number (b : Backup) : Z := month_no (created_date b).

Lemma month_of_eq x y : month_of x = month_of y <-> month_number x = month_number y.
Proof.
  unfold month_of, month_number, month_no. split; [by intros ->|].
  apply month_index_inj; apply month_bounds.
Qed.

(** The rows a tiered policy protects, stated on day, week and month numbers. *)
Definition protected (p : RetentionPolicy) (bs : list Backup) (now_date : date) (b : Backup) : Prop :=
  (now_date - p.(daily) < created_date b <= now_date /\ newest_of created_date bs b)
  \/ (monday now_date - 7 * p.(weekly) < week_start b <= monday now_date
      /\ newest_of week_start bs b)
  \/ (month_no now_date - p.(monthly) < month_number b <= month_no now_date
      /\ newest_of month_number bs b).


(** ** Running past the start of the calendar *)

Lemma window_days_total d n :
  date_min <= d <= date_max ->
  (_window_days d n = Err OverflowError <-> d < n) /\ (n <= d -> is_ok (_window_days d n) = true).
Proof.
  intros Hd. unfold _window_days, date_min, date_max in *. split; [split|].
  - intros (_ & i & Hi & H)%window_of_err. unfold date_sub_days, date_min, date_max in H.
    case_match; [done|]. lia.
  - intros Hn. destruct (window_of n _) as [l|[]] eqn:E; try done.
    + apply window_of_ok in E as [_ E]. destruct (E d) as [k Hk]; [lia|].
      unfold date_sub_days, date_min in Hk. case_match; [lia|done].
    + apply window_of_err in E as [? _]. done.
  - intros Hn. destruct (window_of n _) as [l|e] eqn:E; [done|]. exfalso.
    apply window_of_err in E as (_ & i & Hi & H). unfold date_sub_days, date_min, date_max in H.
    case_match; [done|]. lia.
Qed.

Lemma monday_min d : date_min <= d -> date_min <= monday d.
Proof. intros H. by apply monday_ge. Qed.

Lemma window_weeks_total d n :
  date_min <= d <= date_max ->
  (_window_weeks d n = Err OverflowError <-> monday d <= 7 * (n - 1))
  /\ (7 * (n - 1) < monday d -> is_ok (_window_weeks d n) = true).
Proof.
  intros Hd. pose proof (monday_min d ltac:(lia)) as Hm. destruct (monday_spec d) as [Hm1 _].
  unfold _window_weeks. assert (date_sub_days d (isoweekday d - 1) = Some (monday d)) as ->.
  { unfold date_sub_days. change (d - (isoweekday d - 1)) with (monday d).
    case_match; [done|]. unfold date_min, date_max in *. lia. }
  unfold date_min, date_max in *. split; [split|].
  - intros [(_ & i & Hi & H)%window_of_err|(? & _ & ?)]%bind_err; [|done].
    unfold date_sub_days, date_min, date_max in H. case_match; [done|]. lia.
  - intros Hn. destruct (window_of n _) as [l|e] eqn:E; simpl.
    + apply window_of_ok in E as [_ E]. destruct (E (n - 1)) as [k Hk]; [lia|].
      unfold date_sub_days, date_min in Hk. case_match; [lia|done].
    + by apply window_of_err in E as [-> _].
  - intros Hn. destruct (window_of n _) as [l|e] eqn:E; [done|]. exfalso.
    apply window_of_err in E as (_ & i & Hi & H). unfold date_sub_days, date_min, date_max in H.
    case_match; [done|]. lia.
Qed.

(** The tiered selection raises exactly when a window reaches before the first
    day of the calendar, and returns otherwise. *)
Theorem prune_overflow policy bs now :
  policy.(keep_last) = None -> date_min <= utc_date now <= date_max ->
  (backups_to_prune policy bs now = Err OverflowError
   <-> utc_date now < policy.(daily) \/ monday (utc_date now) <= 7 * (policy.(weekly) - 1))
  /\ (policy.(daily) <= utc_date now -> 7 * (policy.(weekly) - 1) < monday (utc_date now) ->
      is_ok (backups_to_prune policy bs now) = true).
Proof.
  intros Hk Hd. unfold backups_to_prune. rewrite Hk.
  destruct (window_days_total _ policy.(daily) Hd) as [Hd1 Hd2].
  destruct (window_weeks_total _ policy.(weekly) Hd) as [Hw1 Hw2].
  destruct (_window_days _ _) as [days|e] eqn:Ed; simpl.
  - assert (Hnd : ~ utc_date now < policy.(daily)) by (intros H; by apply Hd1 in H).
    destruct (_window_weeks _ _) as [weeks|e] eqn:Ew; simpl.
    + split; [|done]. split; [done|]. by intros [?|?%Hw1].
    + split; [|intros _ H; by apply Hw2 in H]. rewrite <- Hw1.
      cbv [mbind result_bind]. split; [intros [= ->]; by right|]. intros [H|[= ->]]; [by destruct Hnd|done].
  - split; [|intros H; by apply Hd2 in H]. split; [intros [= ->]; left; by apply Hd1|].
    intros _. destruct (Z.le_gt_cases policy.(daily) (utc_date now)) as [H|H].
    { by apply Hd2 in H. }
    apply Hd1 in H. by injection H as ->.
Qed.

(** A policy the API accepts and stores, whose prune raises at every instant:
    the scheduled backups it was set to bound accumulate. *)
Theorem accepted_policy_never_prunes :
  exists p, from_fields None (Some 3652060) None None = Ok p
    /\ from_json (to_json p) = Ok p
    /\ forall bs now, date_min <= utc_date now <= date_max ->
         backups_to_prune p bs now = Err OverflowError.
Proof.
  exists {| keep_last := None; daily := 3652060; weekly := 0; monthly := 0 |}.
  split_and!; [done|done|]. intros bs now Hd. unfold backups_to_prune. cbn [keep_last daily].
  assert (H : _window_days (utc_date now) 3652060 = Err OverflowError); [|by rewrite H].
  apply window_days_total; [done|]. unfold date_max in Hd. lia.
Qed.

(** ** Witnesses *)

(** Four rows of 2024-05-01 (ordinal 739007) and the day before. *)
Definition at_hours (d : date) (h : Z) : datetime := (d - 719163) * day_us + h * 3600 * second.
Definition sample_rows : list Backup :=
  [ {| bk_id := 1; bk_source := SCHEDULED; bk_created_at := at_hours 739007 1 |};
    {| bk_id := 2; bk_source := MANUAL; bk_created_at := at_hours 739007 5 |};
    {| bk_id := 3; bk_source := SCHEDULED; bk_created_at := at_hours 739007 4 |};
    {| bk_id := 4; bk_source := SCHEDULED; bk_created_at := at_hours 739006 2 |};
    {| bk_id := 5; bk_source := SCHEDULED; bk_created_at := at_hours 739006 3 |} ].
Definition sample_daily : RetentionPolicy :=
  {| keep_last := None; daily := 1; weekly := 2; monthly := 2 |}.
Definition sample_keep : RetentionPolicy :=
  {| keep_last := Some 3; daily := 0; weekly := 0; monthly := 0 |}.

Example sample_daily_prunes :
  (map bk_id <$> match backups_to_prune sample_daily sample_rows (at_hours 739007 6) with
                 | Ok l => Some l | Err _ => None end) = Some [1%N; 4%N].
Proof. vm_compute. reflexivity. Qed.

Lemma sample_rows_distinct : distinct_ids sample_rows.
Proof. apply (bool_decide_unpack _). vm_compute. exact I. Qed.

Lemma prune_order_irrelevant_witness :
  backups_to_prune sample_daily sample_rows (at_hours 739007 6)
  = backups_to_prune sample_daily (reverse sample_rows) (at_hours 739007 6).
Proof.
  apply (prune_order_irrelevant sample_daily sample_rows (reverse sample_rows)).
  - symmetry. apply reverse_Permutation.
  - apply sample_rows_distinct.
Defined.

Lemma keep_last_prune_witness :
  exists kept pruned,
    backups_to_prune sample_keep sample_rows (at_hours 739007 6) = Ok pruned
    /\ kept ++ pruned ≡ₚ List.filter is_scheduled sample_rows
    /\ Z.of_nat (length kept) = Z.min 3 (Z.of_nat (length (List.filter is_scheduled sample_rows)))
    /\ (forall x y, x ∈ kept -> y ∈ pruned -> newer (backup_key y) (backup_key x) = false).
Proof. apply (keep_last_prune sample_keep sample_rows (at_hours 739007 6) 3); [reflexivity|lia]. Defined.

Definition sample_row_1 : Backup :=
  {| bk_id := 1; bk_source := SCHEDULED; bk_created_at := at_hours 739007 1 |}.
Definition sample_row_4 : Backup :=
  {| bk_id := 4; bk_source := SCHEDULED; bk_created_at := at_hours 739006 2 |}.


Lemma prune_overflow_witness :
  (backups_to_prune sample_daily sample_rows (at_hours 739007 6) = Err OverflowError
   <-> 739007 < 1 \/ monday 739007 <= 7 * (2 - 1))
  /\ (1 <= 739007 -> 7 * (2 - 1) < monday 739007 ->
      is_ok (backups_to_prune sample_daily sample_rows (at_hours 739007 6)) = true).
Proof. apply (prune_overflow sample_daily sample_rows (at_hours 739007 6)); [reflexivity|]. vm_compute. split; discriminate. Defined.
