(* ===== verification/IdentityStore.v ===== *)
(** * Identity: data and tables

    [identity/domain/value_objects.py], [identity/domain/entities.py],
    [identity/domain/errors.py] and the SQL of
    [identity/adapters/repositories.py]: users, refresh-token sessions and the
    statements the use cases run on their two tables, with the tables'
    constraints ([identity/adapters/models.py]). *)
From Stdlib Require Import ZArith NArith Lia String Ascii.
From stdpp Require Import base gmap strings list fin_maps.
From S2P Require Import Prelude PyString Uow Uuid Calendar.

Open Scope Z_scope.

(** ** Errors *)

Inductive identity_error : Type :=
| InvalidUsernameError
| InvalidEmailError
| PasswordPolicyError (reason : string)
| UsernameAlreadyExistsError
| EmailAlreadyExistsError
| RegistrationDisabledError
| RegistrationThrottledError
| InvalidCredentialsError (retry_after : option Z)
| UserNotFoundError
| CommunityOwnedError
| LastPlatformAdminError
| SelfTargetError
| InvalidRefreshTokenError
| RefreshTokenReuseError (user_id : uuid)
| InvalidAccessTokenError
| IntegrityError.

#[global] Instance identity_error_eq_dec : EqDecision identity_error.
Proof. solve_decision. Defined.

(** ** Value objects *)

Section ValueObjects.
Context `{PyStr}.

Record Username := { un_value : string }.
Record EmailAddress := { em_value : string }.

Definition Username_new (value : string) : result identity_error Username :=
  let trimmed := str_strip value in
  if String.eqb trimmed "" then Err InvalidUsernameError else Ok {| un_value := trimmed |}.

(** The case-folded identity key; equality and hashing of usernames compare it. *)
Definition key (u : Username) : string := str_casefold u.(un_value).

Definition username_eqb (a b : Username) : bool := String.eqb (key a) (key b).

Definition EmailAddress_new (value : string) : result identity_error EmailAddress :=
  let normalized := str_lower (str_strip value) in
  let '(local, _, domain) := partition "@" normalized in
  if String.eqb local "" || String.eqb domain "" || contains_char "@" domain
  then Err InvalidEmailError
  else Ok {| em_value := normalized |}.
End ValueObjects.

(** ** Entities *)

Record User := {
  us_id : uuid;
  us_username : Username;
  us_email : EmailAddress;
  us_password_hash : string;
  us_created_at : datetime;
  us_updated_at : datetime;
  us_is_platform_admin : bool;
  us_active : bool
}.

(** [REVOKED_*]: why a refresh token was revoked. *)
Inductive RevokedReason : Set :=
| REVOKED_ROTATED | REVOKED_FAMILY | REVOKED_LOGOUT | REVOKED_USER | REVOKED_SUPERSEDED.

#[global] Instance RevokedReason_eq_dec : EqDecision RevokedReason.
Proof. solve_decision. Defined.

Record RefreshToken := {
  rt_id : uuid;
  rt_user_id : uuid;
  rt_chain_id : uuid;
  rt_token_hash : string;
  rt_issued_at : datetime;
  rt_expires_at : datetime;
  rt_revoked_at : option datetime;
  rt_revoked_reason : option RevokedReason
}.

#[global] Instance RefreshToken_eq_dec : EqDecision RefreshToken.
Proof. solve_decision. Defined.

Definition is_active (t : RefreshToken) (now : datetime) : bool :=
  match t.(rt_revoked_at) with None => now <? t.(rt_expires_at) | Some _ => false end.

(** ** The tables

    [user] by primary key, [refresh_token] by its unique hash. *)
Record Db := {
  users : gmap uuid User;
  refresh_tokens : gmap string RefreshToken
}.

Definition set_users (f : gmap uuid User -> gmap uuid User) (db : Db) : Db :=
  {| users := f db.(users); refresh_tokens := db.(refresh_tokens) |}.

Definition set_tokens (f : gmap string RefreshToken -> gmap string RefreshToken) (db : Db) : Db :=
  {| users := db.(users); refresh_tokens := f db.(refresh_tokens) |}.

(** ** [SqlAlchemyUserRepository] *)

Module Users.
Section Users.
Context `{PyStr}.

Definition is_active_admin (u : User) : bool := u.(us_is_platform_admin) && u.(us_active).

(** The schema's checks on a row [u]: the primary key is the map's; the indexes
    [uq_user_username_lower] and [uq_user_email] compare it to the other rows. *)
Definition unique_against (u : User) (others : gmap uuid User) : result identity_error unit :=
  if any_row (fun v => String.eqb (str_lower v.(us_username).(un_value))
                                  (str_lower u.(us_username).(un_value))) others
  then Err UsernameAlreadyExistsError
  else if any_row (fun v => String.eqb v.(us_email).(em_value) u.(us_email).(em_value)) others
  then Err EmailAlreadyExistsError
  else Ok tt.

Definition add (u : User) : M Db identity_error unit := try_modify (fun db =>
  match db.(users) !! u.(us_id) with
  | Some _ => Err IntegrityError
  | None => unique_against u db.(users) ≫= fun _ => Ok (set_users <[u.(us_id) := u]> db)
  end).

Definition get_by_id (user_id : uuid) : M Db identity_error (option User) :=
  gets (fun db => db.(users) !! user_id).

Definition get_by_username (username : Username) : M Db identity_error (option User) :=
  gets (fun db => find_row (fun v => String.eqb (str_lower v.(us_username).(un_value))
                                                (str_lower username.(un_value))) db.(users)).

Definition get_by_email (email : EmailAddress) : M Db identity_error (option User) :=
  gets (fun db => find_row (fun v => String.eqb v.(us_email).(em_value) email.(em_value)) db.(users)).

Definition update_profile (user_id : uuid) (username : option Username)
    (email : option EmailAddress) (updated_at : datetime) : M Db identity_error (option User) :=
  fun db =>
    match db.(users) !! user_id with
    | None => (Ok None, db)
    | Some u =>
        let u' := {| us_id := u.(us_id); us_username := default u.(us_username) username;
                     us_email := default u.(us_email) email;
                     us_password_hash := u.(us_password_hash); us_created_at := u.(us_created_at);
                     us_updated_at := updated_at;
                     us_is_platform_admin := u.(us_is_platform_admin);
                     us_active := u.(us_active) |} in
        match unique_against u' (delete user_id db.(users)) with
        | Err e => (Err e, db)
        | Ok _ => (Ok (Some u'), set_users <[user_id := u']> db)
        end
    end.

(** Compare-and-set on the verified hash. *)
Definition change_password_hash (user_id : uuid) (expected_hash new_hash : string)
    (updated_at : datetime) : M Db identity_error bool := fun db =>
  match db.(users) !! user_id with
  | Some u =>
      if String.eqb u.(us_password_hash) expected_hash then
        (Ok true, set_users <[user_id :=
           {| us_id := u.(us_id); us_username := u.(us_username); us_email := u.(us_email);
              us_password_hash := new_hash; us_created_at := u.(us_created_at);
              us_updated_at := updated_at; us_is_platform_admin := u.(us_is_platform_admin);
              us_active := u.(us_active) |}]> db)
      else (Ok false, db)
  | None => (Ok false, db)
  end.

Definition set_active (user_id : uuid) (active : bool) (updated_at : datetime)
    : M Db identity_error bool := fun db =>
  match db.(users) !! user_id with
  | Some u =>
      (Ok true, set_users <[user_id :=
         {| us_id := u.(us_id); us_username := u.(us_username); us_email := u.(us_email);
            us_password_hash := u.(us_password_hash); us_created_at := u.(us_created_at);
            us_updated_at := updated_at; us_is_platform_admin := u.(us_is_platform_admin);
            us_active := active |}]> db)
  | None => (Ok false, db)
  end.

Definition set_platform_admin (user_id : uuid) (is_platform_admin : bool) (updated_at : datetime)
    : M Db identity_error bool := fun db =>
  match db.(users) !! user_id with
  | Some u =>
      (Ok true, set_users <[user_id :=
         {| us_id := u.(us_id); us_username := u.(us_username); us_email := u.(us_email);
            us_password_hash := u.(us_password_hash); us_created_at := u.(us_created_at);
            us_updated_at := updated_at; us_is_platform_admin := is_platform_admin;
            us_active := u.(us_active) |}]> db)
  | None => (Ok false, db)
  end.

(** [DELETE FROM user], with the foreign key's [ON DELETE CASCADE]. *)
Definition delete_user (user_id : uuid) : M Db identity_error unit := modify (fun db =>
  {| users := delete user_id db.(users);
     refresh_tokens := filter (fun kt : string * RefreshToken => kt.2.(rt_user_id) <> user_id)
                         db.(refresh_tokens) |}).

Definition count_all : M Db identity_error Z := gets (fun db => Z.of_nat (size db.(users))).

(** The advisory lock serializes first registrations; it answers [count_all]. *)
Definition lock_for_bootstrap : M Db identity_error Z := count_all.

Definition count_active_platform_admins : M Db identity_error Z :=
  gets (fun db => count_rows is_active_admin db.(users)).

Definition lock_with_active_admins (user_id : uuid) : M Db identity_error (option User * Z) :=
  gets (fun db => (db.(users) !! user_id, count_rows is_active_admin db.(users))).
End Users.
End Users.

(** ** [SqlAlchemyRefreshTokenRepository] *)

Module Tokens.

(** Unique hash and id, and the owner must exist. *)
Definition add (t : RefreshToken) : M Db identity_error unit := try_modify (fun db =>
  match db.(refresh_tokens) !! t.(rt_token_hash) with
  | Some _ => Err IntegrityError
  | None =>
      if any_row (fun v => bool_decide (v.(rt_id) = t.(rt_id))) db.(refresh_tokens)
      then Err IntegrityError
      else match db.(users) !! t.(rt_user_id) with
           | None => Err IntegrityError
           | Some _ => Ok (set_tokens <[t.(rt_token_hash) := t]> db)
           end
  end).

Definition get_by_token_hash (token_hash : string) : M Db identity_error (option RefreshToken) :=
  gets (fun db => db.(refresh_tokens) !! token_hash).

(** The owners' session locks, then the rows as their last holder left them. *)
Definition lock_sessions_by_token_hashes (token_hashes : list string)
    : M Db identity_error (gmap string RefreshToken) :=
  gets (fun db => filter (fun kt : string * RefreshToken => kt.1 ∈ token_hashes)
                    db.(refresh_tokens)).

Definition stamp (reason : RevokedReason) (revoked_at : datetime) (t : RefreshToken) : RefreshToken :=
  {| rt_id := t.(rt_id); rt_user_id := t.(rt_user_id); rt_chain_id := t.(rt_chain_id);
     rt_token_hash := t.(rt_token_hash); rt_issued_at := t.(rt_issued_at);
     rt_expires_at := t.(rt_expires_at);
     rt_revoked_at := Some revoked_at; rt_revoked_reason := Some reason |}.

Definition revoke (token_hash : string) (revoked_at : datetime) (reason : RevokedReason)
    : M Db identity_error unit :=
  modify (set_tokens (alter (stamp reason revoked_at) token_hash)).

(** [revoked_at IS NULL OR revoked_reason = 'rotated']. *)
Definition unrevoked_or_rotated (t : RefreshToken) : bool :=
  bool_decide (t.(rt_revoked_at) = None)
  || bool_decide (t.(rt_revoked_reason) = Some REVOKED_ROTATED).

(** The bulk revocations: the rows [scope] selects, their first revocation
    instant preserved. *)
Definition revoke_scope (scope : RefreshToken -> bool) (revoked_at : datetime)
    (reason : RevokedReason) (t : RefreshToken) : RefreshToken :=
  if scope t && unrevoked_or_rotated t
  then stamp reason (default revoked_at t.(rt_revoked_at)) t
  else t.

Definition in_chain (chain_id : uuid) (t : RefreshToken) : bool :=
  bool_decide (t.(rt_chain_id) = chain_id).

Definition of_user (user_id : uuid) (t : RefreshToken) : bool :=
  bool_decide (t.(rt_user_id) = user_id).

Definition revoke_chain (chain_id : uuid) (revoked_at : datetime) (reason : RevokedReason)
    : M Db identity_error unit :=
  modify (set_tokens (fmap (revoke_scope (in_chain chain_id) revoked_at reason))).

Definition revoke_all_for_user (user_id : uuid) (revoked_at : datetime)
    : M Db identity_error unit :=
  modify (set_tokens (fmap (revoke_scope (of_user user_id) revoked_at REVOKED_FAMILY))).

(** Newest first by [issued_at], ties by id. *)
Definition list_key (t : RefreshToken) : Z * N := (- t.(rt_issued_at), t.(rt_id)).

Definition list_active_for_user (user_id : uuid) (now : datetime)
    : M Db identity_error (list RefreshToken) :=
  gets (fun db => sort_by (pair_ltb Z.ltb N.ltb) list_key
    (List.filter (fun t => of_user user_id t && is_active t now)
       (map snd (map_to_list db.(refresh_tokens))))).

Definition revoke_by_id (token_id user_id : uuid) (revoked_at : datetime) (reason : RevokedReason)
    : M Db identity_error bool := fun db =>
  match find_row (fun t => bool_decide (t.(rt_id) = token_id) && of_user user_id t
                           && any_row (fun v => in_chain t.(rt_chain_id) v
                                                && bool_decide (v.(rt_revoked_at) = None))
                                db.(refresh_tokens))
                 db.(refresh_tokens) with
  | None => (Ok false, db)
  | Some t =>
      let '(_, db') := revoke_chain t.(rt_chain_id) revoked_at reason db in (Ok true, db')
  end.

Definition revoke_all_for_user_except (user_id : uuid) (keep_token_hash : option string)
    (keep_session_id : option uuid) (revoked_at : datetime) (reason : RevokedReason)
    : M Db identity_error unit :=
  modify (set_tokens (fmap (revoke_scope (fun t =>
    of_user user_id t
    && match keep_token_hash with Some h => negb (String.eqb t.(rt_token_hash) h) | None => true end
    && match keep_session_id with Some i => negb (bool_decide (t.(rt_id) = i)) | None => true end)
    revoked_at reason))).
End Tokens.

(** ** Running a use case's code on a symbolic database *)
Ltac run_tx :=
  cbv [uow on commit mbind mret M_bind M_ret lift raise gets modify guard_not try_modify
       result_bind result_ret
       Users.add Users.get_by_id Users.get_by_username Users.get_by_email Users.update_profile
       Users.change_password_hash Users.set_active Users.set_platform_admin Users.delete_user
       Users.count_all Users.lock_for_bootstrap Users.lock_with_active_admins
       Tokens.add Tokens.get_by_token_hash Tokens.lock_sessions_by_token_hashes Tokens.revoke
       Tokens.revoke_chain Tokens.revoke_all_for_user Tokens.revoke_by_id
       Tokens.revoke_all_for_user_except Tokens.list_active_for_user set_users set_tokens];
  cbn [fst snd work durable users refresh_tokens].
