(* ===== verification/PasswordPolicy.v ===== *)
(** * The password policy

    [identity/domain/password_policy.py]: the configured strength rules, checked
    in order, and the three presets.  A [str] is its UTF-8 bytes; its characters
    are the code points [chars] splits it into. *)
From Stdlib Require Import ZArith Lia String Ascii.
From stdpp Require Import base strings list gmap.
From S2P Require Import Prelude PyString IdentityStore.

Open Scope Z_scope.

(** ** Python strings as code points *)

Definition is_continuation (a : ascii) : bool :=
  let n := Z.of_N (N_of_ascii a) in (128 <=? n) && (n <? 192).

Fixpoint chars_from (cur s : string) : list string :=
  match s with
  | EmptyString => if String.eqb cur "" then [] else [cur]
  | String a s' =>
      if is_continuation a then chars_from (String.append cur (String a EmptyString)) s'
      else (if String.eqb cur "" then [] else [cur]) ++ chars_from (String a EmptyString) s'
  end.

Definition chars (s : string) : list string := chars_from "" s.

(** [len(s)] and [len(s.encode("utf-8"))]. *)
Definition py_len (s : string) : Z := Z.of_nat (List.length (chars s)).
Definition byte_len (s : string) : Z := Z.of_nat (String.length s).

(** [needle in s]. *)
Fixpoint str_in (needle s : string) : bool :=
  String.prefix needle s || match s with EmptyString => false | String _ s' => str_in needle s' end.

(** [s[::-1]] of an ASCII string. *)
Definition str_rev (s : string) : string :=
  string_of_list_ascii (rev (list_ascii_of_string s)).

(** The character predicates that consult Unicode tables. *)
Class PyChar := {
  isupper : string -> bool;
  islower : string -> bool;
  isdigit : string -> bool;
  isalnum : string -> bool
}.

(** The predicates on one ASCII character. *)
Definition ascii_in (lo hi : Z) (s : string) : bool :=
  match s with
  | String a EmptyString => let n := Z.of_N (N_of_ascii a) in (lo <=? n) && (n <=? hi)
  | _ => false
  end.

Definition ascii_chars : PyChar :=
  {| isupper := ascii_in 65 90; islower := ascii_in 97 122; isdigit := ascii_in 48 57;
     isalnum := fun s => ascii_in 65 90 s || ascii_in 97 122 s || ascii_in 48 57 s |}.

Definition _SEQUENCES : list string :=
  ["abcdefghijklmnopqrstuvwxyz"; "0123456789"; "qwertyuiop"; "asdfghjkl"; "zxcvbnm"]%string.

Definition _RUN_LENGTH : nat := 4.

(** ** Simple patterns *)

(** The loop over adjacent pairs, [run] the length of the current repeat. *)
Fixpoint repeated_run_from (prev : string) (run : nat) (rest : list string) : bool :=
  match rest with
  | [] => false
  | curr :: rest' =>
      let run := if String.eqb curr prev then S run else 1%nat in
      if (_RUN_LENGTH <=? run)%nat then true else repeated_run_from curr run rest'
  end.

Definition _has_repeated_run (password : string) : bool :=
  match chars password with
  | [] => false
  | c :: rest => repeated_run_from c 1 rest
  end.

Section Policy.
Context `{PyStr, PyChar}.

Definition in_some_sequence (window : string) : bool :=
  existsb (fun seq => str_in window seq || str_in window (str_rev seq)) _SEQUENCES.

Definition _has_sequential_run (password : string) : bool :=
  let lowered := chars (str_casefold password) in
  existsb (fun window_start =>
             in_some_sequence (String.concat "" (take _RUN_LENGTH (drop window_start lowered))))
    (seq 0 (List.length lowered + 1 - _RUN_LENGTH)).

Definition _has_simple_pattern (password : string) : bool :=
  _has_repeated_run password || _has_sequential_run password.

Definition _contains_user_info (password : string) (username : Username) (email : EmailAddress)
    : bool :=
  let folded := str_casefold password in
  let '(local_part, _, _) := partition "@" email.(em_value) in
  str_in (str_casefold username.(un_value)) folded || str_in (str_casefold local_part) folded.

Definition _has_complexity_or_length (password : string) (required_classes : Z) : bool :=
  if 16 <=? py_len password then true
  else
    let one (b : bool) : Z := if b then 1 else 0 in
    let cs := chars password in
    required_classes <=? one (existsb isupper cs) + one (existsb islower cs)
                         + one (existsb isdigit cs) + one (existsb (fun c => negb (isalnum c)) cs).

(** ** The policy *)

Record PolicyPreset := {
  pp_min_length : Z;
  pp_require_complexity : bool;
  pp_complexity_classes : Z;
  pp_check_common_list : bool;
  pp_forbid_user_info : bool;
  pp_forbid_simple_patterns : bool
}.

Definition preset_low : PolicyPreset :=
  {| pp_min_length := 8; pp_require_complexity := false; pp_complexity_classes := 0;
     pp_check_common_list := true; pp_forbid_user_info := true;
     pp_forbid_simple_patterns := false |}.
Definition preset_middle : PolicyPreset :=
  {| pp_min_length := 10; pp_require_complexity := true; pp_complexity_classes := 2;
     pp_check_common_list := true; pp_forbid_user_info := true;
     pp_forbid_simple_patterns := true |}.
Definition preset_high : PolicyPreset :=
  {| pp_min_length := 12; pp_require_complexity := true; pp_complexity_classes := 3;
     pp_check_common_list := true; pp_forbid_user_info := true;
     pp_forbid_simple_patterns := true |}.

Definition PRESETS : list (string * PolicyPreset) :=
  [("low"%string, preset_low); ("middle"%string, preset_middle); ("high"%string, preset_high)].

Record PasswordPolicy := {
  min_length : Z;
  max_length : Z;
  max_bytes : option Z;
  require_complexity : bool;
  complexity_classes : Z;
  check_common_list : bool;
  forbid_user_info : bool;
  forbid_simple_patterns : bool;
  common_passwords : gset string
}.

Definition validate (p : PasswordPolicy) (password : string) (username : Username)
    (email : EmailAddress) : result identity_error unit :=
  if py_len password <? p.(min_length) then Err (PasswordPolicyError "too_short")
  else if p.(max_length) <? py_len password then Err (PasswordPolicyError "too_long")
  else if match p.(max_bytes) with Some n => n <? byte_len password | None => false end
  then Err (PasswordPolicyError "too_long_for_bcrypt")
  else if p.(require_complexity) && negb (_has_complexity_or_length password p.(complexity_classes))
  then Err (PasswordPolicyError "insufficient_complexity")
  else if p.(check_common_list) && bool_decide (str_casefold password ∈ p.(common_passwords))
  then Err (PasswordPolicyError "common_password")
  else if p.(forbid_user_info) && _contains_user_info password username email
  then Err (PasswordPolicyError "contains_user_info")
  else if p.(forbid_simple_patterns) && _has_simple_pattern password
  then Err (PasswordPolicyError "simple_pattern")
  else Ok tt.

(** [dependencies._build_password_policy]: the policy of a preset, with the
    deployment's own length bound, hasher and blocklist. *)
Definition _build_password_policy (preset : PolicyPreset) (maximum : Z) (bcrypt : bool)
    (blocklist : gset string) : PasswordPolicy :=
  {| min_length := preset.(pp_min_length); max_length := maximum;
     max_bytes := if bcrypt then Some 72 else None;
     require_complexity := preset.(pp_require_complexity);
     complexity_classes := preset.(pp_complexity_classes);
     check_common_list := preset.(pp_check_common_list);
     forbid_user_info := preset.(pp_forbid_user_info);
     forbid_simple_patterns := preset.(pp_forbid_simple_patterns);
     common_passwords := if preset.(pp_check_common_list) then blocklist else ∅ |}.
End Policy.

(** ** The repeat scan finds exactly the runs of four *)

(** [run] copies of [prev] were just read. *)
Lemma repeated_run_from_iff rest : forall prev run,
  (1 <= run < _RUN_LENGTH)%nat ->
  repeated_run_from prev run rest = true
  <-> (exists after, rest = replicate (_RUN_LENGTH - run) prev ++ after)
      \/ exists before c after, rest = before ++ replicate _RUN_LENGTH c ++ after.
Proof.
  unfold _RUN_LENGTH. induction rest as [|x rest IH]; intros prev run Hrun; cbn [repeated_run_from];
    unfold _RUN_LENGTH.
  { split; [done|]. intros [(after & H)|(before & c & after & H)].
    - destruct (4 - run)%nat eqn:E; [lia|done].
    - by destruct before. }
  destruct (String.eqb_spec x prev) as [->|Hne].
  - destruct (Nat.leb_spec 4 (S run)).
    + split; [|done]. intros _. left. assert (4 - run = 1)%nat as -> by lia. by exists rest.
    + rewrite IH by lia. replace (4 - run)%nat with (S (4 - S run)) by lia. simpl. split.
      * intros [(after & ->)|(before & c & after & ->)]; [left; by exists after|].
        right. by exists (prev :: before), c, after.
      * intros [(after & [= ->])|([|y before] & c & after & Heq)]; [left; by exists after| |].
        -- simplify_eq/=. left. exists (replicate run c ++ after).
           replace (c :: c :: c :: after) with (replicate 3 c ++ after) by done.
           rewrite (assoc_L (++)), <- replicate_add. do 2 f_equal. lia.
        -- simplify_eq/=. right. by exists before, c, after.
  - cbn [Nat.leb]. rewrite IH by lia. split.
    + intros [(after & ->)|(before & c & after & ->)].
      * right. by exists [], x, after.
      * right. by exists (x :: before), c, after.
    + intros [(after & Heq)|([|y before] & c & after & Heq)].
      * destruct (4 - run)%nat eqn:E; [lia|]. by simplify_eq/=.
      * simplify_eq/=. left. by exists after.
      * simplify_eq/=. right. by exists before, c, after.
Qed.

(** A password is rejected for repetition exactly when four adjacent characters
    are equal. *)
Theorem repeated_run_iff password :
  _has_repeated_run password = true
  <-> exists before c after, chars password = before ++ replicate _RUN_LENGTH c ++ after.
Proof.
  unfold _has_repeated_run. destruct (chars password) as [|x rest].
  { split; [done|]. by intros ([] & c & after & H). }
  rewrite repeated_run_from_iff by (unfold _RUN_LENGTH; lia). unfold _RUN_LENGTH. split.
  - intros [(after & ->)|(before & c & after & ->)]; [by exists [], x, after|].
    by exists (x :: before), c, after.
  - intros ([|y before] & c & after & Heq); simplify_eq/=; [left; by exists after|].
    right. by exists before, c, after.
Qed.

(** ** Acceptance, and the order of the presets *)

Section PolicyFacts.
Context `{PyStr, PyChar}.

(** The rules, in the order they are checked, with their reason codes. *)
Definition rules (p : PasswordPolicy) (password : string) (username : Username)
    (email : EmailAddress) : list (bool * string) :=
  [ (py_len password <? p.(min_length), "too_short"%string);
    (p.(max_length) <? py_len password, "too_long"%string);
    (match p.(max_bytes) with Some n => n <? byte_len password | None => false end,
     "too_long_for_bcrypt"%string);
    (p.(require_complexity) && negb (_has_complexity_or_length password p.(complexity_classes)),
     "insufficient_complexity"%string);
    (p.(check_common_list) && bool_decide (str_casefold password ∈ p.(common_passwords)),
     "common_password"%string);
    (p.(forbid_user_info) && _contains_user_info password username email, "contains_user_info"%string);
    (p.(forbid_simple_patterns) && _has_simple_pattern password, "simple_pattern"%string) ].

(** The reason reported is the first broken rule's; a password is accepted
    exactly when it breaks none. *)
Lemma validate_first_broken_rule p password username email :
  validate p password username email
  = match List.find fst (rules p password username email) with
    | Some (_, reason) => Err (PasswordPolicyError reason)
    | None => Ok tt
    end.
Proof.
  unfold validate, rules. cbn [List.find fst].
  repeat match goal with |- context [if ?b then _ else _] => destruct b; [done|] end. done.
Qed.

Lemma validate_ok p password username email :
  validate p password username email = Ok tt
  <-> forall r, r ∈ rules p password username email -> fst r = false.
Proof.
  rewrite validate_first_broken_rule. split.
  - destruct (List.find _ _) as [[b r]|] eqn:E; [done|]. intros _ x Hx%list_elem_of_In.
    by apply (find_none _ _ E).
  - intros Hr. destruct (List.find _ _) as [[b r]|] eqn:E; [|done].
    apply find_some in E as [Hin Hb]. apply list_elem_of_In, Hr in Hin. congruence.
Qed.

Lemma complexity_weaken password m n :
  m <= n -> _has_complexity_or_length password n = true -> _has_complexity_or_length password m = true.
Proof. unfold _has_complexity_or_length. intros Hmn. case_match; [done|]. rewrite !Z.leb_le. lia. Qed.

(** Preset [weak] asks no more than [strong]. *)
Definition preset_le (weak strong : PolicyPreset) : Prop :=
  weak.(pp_min_length) <= strong.(pp_min_length)
  /\ (weak.(pp_require_complexity) = true -> strong.(pp_require_complexity) = true
      /\ weak.(pp_complexity_classes) <= strong.(pp_complexity_classes))
  /\ (weak.(pp_check_common_list) = true -> strong.(pp_check_common_list) = true)
  /\ (weak.(pp_forbid_user_info) = true -> strong.(pp_forbid_user_info) = true)
  /\ (weak.(pp_forbid_simple_patterns) = true -> strong.(pp_forbid_simple_patterns) = true).

Lemma validate_weaken weak strong maximum bcrypt blocklist password username email :
  preset_le weak strong ->
  validate (_build_password_policy strong maximum bcrypt blocklist) password username email = Ok tt ->
  validate (_build_password_policy weak maximum bcrypt blocklist) password username email = Ok tt.
Proof.
  intros (Hlen & Hc & Hb & Hu & Hs). unfold validate, _build_password_policy; simpl.
  destruct (Z.ltb_spec (py_len password) strong.(pp_min_length)); [done|].
  destruct (Z.ltb_spec (py_len password) weak.(pp_min_length)); [lia|].
  destruct (maximum <? py_len password); [done|].
  destruct (match _ with Some _ => _ | None => _ end); [done|].
  destruct weak.(pp_require_complexity); simpl.
  - destruct (Hc eq_refl) as [-> Hle]; simpl.
    destruct (_has_complexity_or_length password strong.(pp_complexity_classes)) eqn:E; simpl; [|done].
    rewrite (complexity_weaken _ _ _ Hle E). simpl. revert Hb Hu Hs.
    destruct weak.(pp_check_common_list), weak.(pp_forbid_user_info), weak.(pp_forbid_simple_patterns),
      strong.(pp_check_common_list), strong.(pp_forbid_user_info), strong.(pp_forbid_simple_patterns);
      simpl; intros; repeat case_match; naive_solver.
  - destruct (_ && negb _); [done|]. revert Hb Hu Hs.
    destruct weak.(pp_check_common_list), weak.(pp_forbid_user_info), weak.(pp_forbid_simple_patterns),
      strong.(pp_check_common_list), strong.(pp_forbid_user_info), strong.(pp_forbid_simple_patterns);
      simpl; intros; repeat case_match; naive_solver.
Qed.

(** The presets are ordered by strength: what [high] accepts, [middle] accepts,
    and what [middle] accepts, [low] accepts. *)
Theorem presets_ordered maximum bcrypt blocklist password username email :
  let accepts preset :=
    validate (_build_password_policy preset maximum bcrypt blocklist) password username email
    = Ok tt in
  (accepts preset_high -> accepts preset_middle) /\ (accepts preset_middle -> accepts preset_low).
Proof.
  split; apply validate_weaken; unfold preset_le; simpl; (split_and!; [lia|try done; lia|done|done|done]).
Qed.
End PolicyFacts.

(** A password all three presets accept. *)
Lemma presets_ordered_witness :
  let ok preset := validate (H := ascii_strings) (H0 := ascii_chars)
      (_build_password_policy preset 128 false ∅) "Vt7-mQ2x!kWz9p"
      {| un_value := "alice" |} {| em_value := "a@b.c" |} = Ok tt in
  ok preset_high /\ ok preset_middle /\ ok preset_low.
Proof.
  intros ok.
  destruct (presets_ordered (H := ascii_strings) (H0 := ascii_chars) 128 false ∅ "Vt7-mQ2x!kWz9p"
    {| un_value := "alice" |} {| em_value := "a@b.c" |}) as [Hm Hl].
  assert (Hh : ok preset_high) by (vm_compute; reflexivity).
  split_and!; [exact Hh|by apply Hm|by apply Hl, Hm].
Defined.
