(* ===== verification/Accounts.v ===== *)
(** * Accounts

    The account use cases of [identity/application]: registration and admin
    provisioning, profile and password changes, activation, the platform-admin
    flag, deletion and request authentication.  The at-least-one-active-admin
    invariant is proved over every sequence of their transactions. *)
From Stdlib Require Import ZArith NArith Lia String.
From stdpp Require Import base gmap strings list fin_maps relations.
From S2P Require Import Prelude PyString Uow Uuid Calendar IdentityStore PasswordPolicy.

Open Scope Z_scope.

Abbreviation IM := (M Db identity_error).
Abbreviation ITx := (M (tx Db) identity_error).

Section Accounts.
Context `{PyStr, PyChar}.

(** The password hasher: the slow salted hash and its verification. *)
Context (verify : string -> string -> bool).

(** ** Registration *)

(** [persist_new_user]; [user_id] and [password_hash] are what [UserId.new] and
    the hasher answered. *)
Definition persist_new_user (policy : PasswordPolicy) (username email password : string)
    (user_id : uuid) (password_hash : string) (now : datetime) (registration_open : bool)
    : IM User :=
  name ← lift (Username_new username);
  address ← lift (EmailAddress_new email);
  _ ← lift (validate policy password name address);
  uow (
    n ← on Users.lock_for_bootstrap;
    let first_user := n =? 0 in
    _ ← guard_not (negb first_user && negb registration_open) RegistrationDisabledError;
    other ← on (Users.get_by_username name);
    _ ← guard_not (match other with Some _ => true | None => false end) UsernameAlreadyExistsError;
    other ← on (Users.get_by_email address);
    _ ← guard_not (match other with Some _ => true | None => false end) EmailAlreadyExistsError;
    let user := {| us_id := user_id; us_username := name; us_email := address;
                   us_password_hash := password_hash; us_created_at := now; us_updated_at := now;
                   us_is_platform_admin := first_user; us_active := true |} in
    _ ← on (Users.add user);
    _ ← commit;
    mret user).

Definition AdminCreateUser (policy : PasswordPolicy) (username email password : string)
    (user_id : uuid) (password_hash : string) (now : datetime) : IM User :=
  persist_new_user policy username email password user_id password_hash now true.

(** ** The user's own account *)

Definition UpdateProfile (user_id : uuid) (username email : option string) (now : datetime)
    : IM User :=
  new_name ← lift (match username with
                   | Some v => n ← Username_new v; Ok (Some n)
                   | None => Ok None
                   end);
  new_email ← lift (match email with
                    | Some v => e ← EmailAddress_new v; Ok (Some e)
                    | None => Ok None
                    end);
  uow (
    user ← on (Users.get_by_id user_id);
    match user with
    | None => raise UserNotFoundError
    | Some user =>
        match new_name, new_email with
        | None, None => mret user
        | _, _ =>
            _ ← match new_name with
                | Some n =>
                    if username_eqb n user.(us_username) then mret tt
                    else other ← on (Users.get_by_username n);
                         guard_not (match other with Some _ => true | None => false end)
                           UsernameAlreadyExistsError
                | None => mret tt
                end;
            _ ← match new_email with
                | Some e =>
                    if String.eqb e.(em_value) user.(us_email).(em_value) then mret tt
                    else other ← on (Users.get_by_email e);
                         guard_not (match other with Some _ => true | None => false end)
                           EmailAlreadyExistsError
                | None => mret tt
                end;
            updated ← on (Users.update_profile user_id new_name new_email now);
            match updated with
            | None => raise UserNotFoundError
            | Some updated => _ ← commit; mret updated
            end
        end
    end).

(** The read of [ChangePassword], which holds no lock: what it checks may be
    stale by the time of the write. *)
Definition change_password_check (policy : PasswordPolicy) (user_id : uuid)
    (current_password new_password : string) : IM User :=
  user ← Users.get_by_id user_id;
  match user with
  | None => raise UserNotFoundError
  | Some user =>
      _ ← guard_not (negb (verify current_password user.(us_password_hash)))
            (InvalidCredentialsError None);
      _ ← lift (validate policy new_password user.(us_username) user.(us_email));
      mret user
  end.

(** The compare-and-set against the hash just verified, and the revocation. *)
Definition change_password_write (user : User) (new_hash : string) (now : datetime)
    : ITx unit :=
  changed ← on (Users.change_password_hash user.(us_id) user.(us_password_hash) new_hash now);
  _ ← guard_not (negb changed) (InvalidCredentialsError None);
  _ ← on (Tokens.revoke_all_for_user user.(us_id) now);
  commit.

Definition ChangePassword (policy : PasswordPolicy) (user_id : uuid)
    (current_password new_password new_hash : string) (now : datetime) : IM unit :=
  uow (user ← on (change_password_check policy user_id current_password new_password);
       change_password_write user new_hash now).

(** ** Administration *)

(** The guard every reduction of the active-admin set shares. *)
Definition last_admin_guard (user : User) (active_admins : Z) : ITx unit :=
  guard_not (user.(us_is_platform_admin) && user.(us_active) && (active_admins <=? 1))
    LastPlatformAdminError.

Definition SetUserActive (actor_id target_id : uuid) (active : bool) (now : datetime) : IM unit :=
  _ ← guard_not (negb active && bool_decide (target_id = actor_id)) SelfTargetError;
  uow (
    user ← (if active then
              user ← on (Users.get_by_id target_id);
              match user with None => raise UserNotFoundError | Some user => mret user end
            else
              '(user, active_admins) ← on (Users.lock_with_active_admins target_id);
              match user with
              | None => raise UserNotFoundError
              | Some user => _ ← last_admin_guard user active_admins; mret user
              end);
    found ← on (Users.set_active user.(us_id) active now);
    _ ← guard_not (negb found) UserNotFoundError;
    _ ← (if negb active then on (Tokens.revoke_all_for_user user.(us_id) now) else mret tt);
    commit).

Definition SetPlatformAdmin (target_id : uuid) (grant : bool) (now : datetime) : IM unit :=
  uow (
    user ← (if grant then
              user ← on (Users.get_by_id target_id);
              match user with None => raise UserNotFoundError | Some user => mret user end
            else
              '(user, active_admins) ← on (Users.lock_with_active_admins target_id);
              match user with
              | None => raise UserNotFoundError
              | Some user => _ ← last_admin_guard user active_admins; mret user
              end);
    found ← on (Users.set_platform_admin user.(us_id) grant now);
    _ ← guard_not (negb found) UserNotFoundError;
    commit).

(** The deleting transaction of both deletions. *)
Definition delete_locked (user_id : uuid) (now : datetime) : ITx unit :=
  '(user, active_admins) ← on (Users.lock_with_active_admins user_id);
  match user with
  | None => raise UserNotFoundError
  | Some user =>
      _ ← last_admin_guard user active_admins;
      _ ← on (Tokens.revoke_all_for_user user.(us_id) now);
      _ ← on (Users.delete_user user.(us_id));
      commit
  end.

(** [owns] is the community context's answer to [owns_any_community]. *)
Definition DeleteAccount (owns : bool) (user_id : uuid) (password : string) (now : datetime)
    : IM unit :=
  _ ← uow (actor ← on (Users.get_by_id user_id);
           match actor with
           | None => raise UserNotFoundError
           | Some actor => guard_not (negb (verify password actor.(us_password_hash)))
                             (InvalidCredentialsError None)
           end);
  _ ← guard_not owns CommunityOwnedError;
  uow (delete_locked user_id now).

Definition AdminDeleteUser (owns : bool) (actor_id target_id : uuid) (now : datetime) : IM unit :=
  _ ← guard_not (bool_decide (target_id = actor_id)) SelfTargetError;
  _ ← guard_not owns CommunityOwnedError;
  uow (delete_locked target_id now).

(** ** Requests *)

(** [verified] is the token service's answer for the presented access token: its
    subject and expiry, or its refusal. *)
Definition AuthenticateRequest (verified : result identity_error (uuid * datetime))
    : IM (User * datetime) :=
  '(user_id, expires_at) ← lift verified;
  user ← uow (on (Users.get_by_id user_id));
  match user with
  | Some user => if user.(us_active) then mret (user, expires_at) else raise InvalidAccessTokenError
  | None => raise InvalidAccessTokenError
  end.
End Accounts.

(** ** What a transaction does to the user table *)

Section UserTable.
Context `{PyStr}.

Definition same_names (u u' : User) : Prop :=
  u'.(us_username) = u.(us_username) /\ u'.(us_email) = u.(us_email).

(** One transaction's change: none, a new row, a row rewritten or deleted; an
    active admin leaves the set only if another one remains. *)
Inductive users_change (m : gmap uuid User) : gmap uuid User -> Prop :=
| uc_same : users_change m m
| uc_add u :
    m !! u.(us_id) = None -> Users.unique_against u m = Ok tt ->
    (m = ∅ -> Users.is_active_admin u = true) ->
    users_change m (<[u.(us_id) := u]> m)
| uc_update k u u' :
    m !! k = Some u -> u'.(us_id) = u.(us_id) ->
    (same_names u u' \/ Users.unique_against u' (delete k m) = Ok tt) ->
    (Users.is_active_admin u = true ->
     Users.is_active_admin u' = true \/ 1 < count_rows Users.is_active_admin m) ->
    users_change m (<[k := u']> m)
| uc_delete k u :
    m !! k = Some u ->
    (Users.is_active_admin u = true -> 1 < count_rows Users.is_active_admin m) ->
    users_change m (delete k m).

(** Rows sit at their primary key; no two share a folded name or an email. *)
Definition users_wf (m : gmap uuid User) : Prop :=
  (forall k u, m !! k = Some u -> u.(us_id) = k)
  /\ (forall k1 k2 u1 u2, m !! k1 = Some u1 -> m !! k2 = Some u2 ->
      str_lower u1.(us_username).(un_value) = str_lower u2.(us_username).(un_value)
      \/ u1.(us_email).(em_value) = u2.(us_email).(em_value) -> k1 = k2).

Definition has_active_admin (m : gmap uuid User) : Prop :=
  exists k u, m !! k = Some u /\ Users.is_active_admin u = true.

Definition admin_inv (m : gmap uuid User) : Prop := m = ∅ \/ has_active_admin m.

Lemma unique_against_ok u m :
  Users.unique_against u m = Ok tt <->
  forall k v, m !! k = Some v ->
    str_lower v.(us_username).(un_value) <> str_lower u.(us_username).(un_value)
    /\ v.(us_email).(em_value) <> u.(us_email).(em_value).
Proof.
  unfold Users.unique_against. split.
  - case_match eqn:E1; [done|]. case_match eqn:E2; [done|]. intros _ k v Hk.
    rewrite any_row_false in E1. rewrite any_row_false in E2.
    split; apply String.eqb_neq; [by eapply E1|by eapply E2].
  - intros Hu. rewrite (proj2 (any_row_false _ m)).
    2:{ intros k v Hk. apply String.eqb_neq. by eapply Hu. }
    rewrite (proj2 (any_row_false _ m)); [done|].
    intros k v Hk. apply String.eqb_neq. by eapply Hu.
Qed.

Lemma users_change_wf m m' : users_change m m' -> users_wf m -> users_wf m'.
Proof.
  intros Hc [Hid Hun]. destruct Hc as [|u Hk Hu _|k u u' Hk Hi Hu _|k u Hk _]; [done| | |].
  - rewrite unique_against_ok in Hu. split.
    + intros k v [[<- <-]|[_ Hv]]%lookup_insert_Some; [done|by apply Hid].
    + intros k1 k2 u1 u2 [[<- <-]|[_ H1]]%lookup_insert_Some [[<- <-]|[_ H2]]%lookup_insert_Some He;
        [done|destruct (Hu _ _ H2)|destruct (Hu _ _ H1)|by eapply Hun]; naive_solver.
  - assert (Hsep : forall k' v, k' <> k -> m !! k' = Some v ->
      str_lower v.(us_username).(un_value) <> str_lower u'.(us_username).(un_value)
      /\ v.(us_email).(em_value) <> u'.(us_email).(em_value)).
    { intros k' v Hne Hv. destruct Hu as [[Hn He]|Hu].
      - rewrite Hn, He. split; intros Heq; apply Hne; apply (Hun k' k v u Hv Hk); tauto.
      - rewrite unique_against_ok in Hu. apply (Hu k'). by rewrite lookup_delete_ne. }
    split.
    + intros k' v [[<- <-]|[_ Hv]]%lookup_insert_Some; [|by apply Hid].
      rewrite Hi. by apply Hid.
    + intros k1 k2 u1 u2 [[<- <-]|[Hn1 H1]]%lookup_insert_Some [[<- <-]|[Hn2 H2]]%lookup_insert_Some He;
        [done|destruct (Hsep _ _ (not_eq_sym Hn2) H2)|destruct (Hsep _ _ (not_eq_sym Hn1) H1)|by eapply Hun];
        naive_solver.
  - split.
    + intros k' v [_ Hv]%lookup_delete_Some. by apply Hid.
    + intros k1 k2 u1 u2 [_ H1]%lookup_delete_Some [_ H2]%lookup_delete_Some. by eapply Hun.
Qed.

Lemma users_change_admin m m' : users_change m m' -> has_active_admin m -> has_active_admin m'.
Proof.
  intros Hc (a & ua & Ha & Had).
  destruct Hc as [|u Hk _ _|k u u' Hk _ _ Hadm|k u Hk Hadm]; [by exists a, ua| | |].
  - exists a, ua. by rewrite lookup_insert_ne by congruence.
  - destruct (decide (a = k)) as [->|Hne]; [|exists a, ua; by rewrite lookup_insert_ne].
    simplify_eq. destruct (Hadm Had) as [Hu'|Hc].
    + exists k, u'. by rewrite lookup_insert_eq.
    + apply count_rows_other with (k := k) in Hc as (k' & v' & Hne & Hv & Hp).
      exists k', v'. by rewrite lookup_insert_ne.
  - destruct (decide (a = k)) as [->|Hne]; [|exists a, ua; by rewrite lookup_delete_ne].
    simplify_eq. apply count_rows_other with (k := k) in Hadm as (k' & v' & Hne & Hv & Hp); [|done].
    exists k', v'. by rewrite lookup_delete_ne.
Qed.

Lemma users_change_admin_inv m m' : users_change m m' -> admin_inv m -> admin_inv m'.
Proof.
  intros Hc [->|Ha]; [|right; by eapply users_change_admin].
  inversion Hc as [|u Hk Hu Had|k u u' Hk|k u Hk]; subst; [by left| |done|done].
  right. exists u.(us_id), u. rewrite lookup_insert_eq. auto.
Qed.
End UserTable.

(** ** Every use case is such a change *)

Section Preservation.
Context `{PyStr, PyChar}.
Context (verify : string -> string -> bool).

Definition users_step (db db' : Db) : Prop := users_change db.(users) db'.(users).

Lemma users_step_same db db' : users db' = users db -> users_step db db'.
Proof. unfold users_step. intros ->. constructor. Qed.

Ltac run_cases := repeat (case_match; simplify_eq/=; try by apply users_step_same).

Lemma persist_new_user_step policy name email password user_id password_hash now open db :
  users_step db (snd (persist_new_user policy name email password user_id password_hash now open db)).
Proof.
  unfold persist_new_user. run_tx. run_cases.
  destruct a5. refine (uc_add _ _ _ _ _); [done|done|]. intros ->. done.
Qed.

Lemma UpdateProfile_step user_id name email now db :
  users_step db (snd (UpdateProfile user_id name email now db)).
Proof.
  unfold UpdateProfile. run_tx. run_cases.
  all: match goal with
       | H : Users.unique_against _ _ = Ok ?x |- _ =>
           destruct x; refine (uc_update _ _ _ _ _ _ _ _); [done|done|by right|by left]
       end.
Qed.

Lemma change_password_write_step user new_hash now db :
  users_step db (snd (uow (change_password_write user new_hash now) db)).
Proof.
  unfold change_password_write. run_tx. run_cases.
  by refine (uc_update _ _ _ _ _ _ _ _); [done|done|left|left].
Qed.

Lemma ChangePassword_step policy user_id current new new_hash now db :
  users_step db (snd (ChangePassword verify policy user_id current new new_hash now db)).
Proof.
  unfold ChangePassword, change_password_check. unfold change_password_write. run_tx. run_cases.
  by refine (uc_update _ _ _ _ _ _ _ _); [done|done|left|left].
Qed.

(** The shared guard's meaning: an active admin it lets through is not the last. *)
Lemma guard_passed u n :
  u.(us_is_platform_admin) && u.(us_active) && (n <=? 1) = false ->
  Users.is_active_admin u = true -> 1 < n.
Proof. unfold Users.is_active_admin. intros Hg Ha. rewrite Ha in Hg. simpl in Hg. by apply Z.leb_gt. Qed.

Ltac same_row Hid :=
  repeat match goal with
  | H1 : users ?db !! ?k = Some ?u, H2 : users ?db !! us_id ?u = _ |- _ =>
      rewrite (Hid _ _ H1) in *; rewrite H1 in H2; simplify_eq
  end.

Lemma SetUserActive_step actor_id target_id active now db :
  users_wf db.(users) ->
  users_step db (snd (SetUserActive actor_id target_id active now db)).
Proof.
  intros [Hid _]. unfold SetUserActive, last_admin_guard. run_tx. run_cases; same_row Hid.
  - refine (uc_update _ _ _ _ _ _ _ _); [done|done|by left|]. intros Ha. right.
    by eapply guard_passed.
  - refine (uc_update _ _ _ _ _ _ _ _); [done|done|by left|]. simpl. left.
    unfold Users.is_active_admin in *. simpl in *. by destruct (us_is_platform_admin _).
Qed.

Lemma SetPlatformAdmin_step target_id grant now db :
  users_wf db.(users) ->
  users_step db (snd (SetPlatformAdmin target_id grant now db)).
Proof.
  intros [Hid _]. unfold SetPlatformAdmin, last_admin_guard. run_tx. run_cases; same_row Hid.
  - refine (uc_update _ _ _ _ _ _ _ _); [done|done|by left|]. simpl. left.
    unfold Users.is_active_admin in *. simpl in *. by destruct (us_is_platform_admin _).
  - refine (uc_update _ _ _ _ _ _ _ _); [done|done|by left|]. intros Ha. right.
    by eapply guard_passed.
Qed.

Lemma delete_locked_step user_id now db :
  users_wf db.(users) ->
  users_step db (snd (uow (delete_locked user_id now) db)).
Proof.
  intros [Hid _]. unfold delete_locked, last_admin_guard. run_tx. run_cases; same_row Hid.
  match goal with H : users db !! _ = Some _ |- _ => rewrite (Hid _ _ H) end.
  refine (uc_delete _ _ _ _ _); [done|]. intros Ha. by eapply guard_passed.
Qed.

Lemma DeleteAccount_step owns user_id password now db :
  users_wf db.(users) ->
  users_step db (snd (DeleteAccount verify owns user_id password now db)).
Proof.
  intros Hwf. pose proof (delete_locked_step user_id now db Hwf) as Hd. revert Hd.
  unfold DeleteAccount. generalize (delete_locked user_id now). intros d. run_tx.
  destruct (d (Tx db db)) as [r t] eqn:Ed. intros Hd. run_cases; done.
Qed.

Lemma AdminDeleteUser_step owns actor_id target_id now db :
  users_wf db.(users) ->
  users_step db (snd (AdminDeleteUser owns actor_id target_id now db)).
Proof.
  intros Hwf. pose proof (delete_locked_step target_id now db Hwf) as Hd. revert Hd.
  unfold AdminDeleteUser. generalize (delete_locked target_id now). intros d. run_tx.
  destruct (d (Tx db db)) as [r t] eqn:Ed. intros Hd. run_cases; done.
Qed.
End Preservation.

(** ** Runs of account transactions *)

Section Runs.
Context `{PyStr, PyChar}.
Context (verify : string -> string -> bool).

(** The use cases, and the transactions of those that read in one and write in
    another: a run may place anything between the two. *)
Inductive account_op :=
| OpPersistNewUser (policy : PasswordPolicy) (username email password : string) (user_id : uuid)
    (password_hash : string) (now : datetime) (registration_open : bool)
| OpUpdateProfile (user_id : uuid) (username email : option string) (now : datetime)
| OpChangePassword (policy : PasswordPolicy) (user_id : uuid)
    (current_password new_password new_hash : string) (now : datetime)
| OpChangePasswordWrite (user : User) (new_hash : string) (now : datetime)
| OpSetUserActive (actor_id target_id : uuid) (active : bool) (now : datetime)
| OpSetPlatformAdmin (target_id : uuid) (grant : bool) (now : datetime)
| OpDeleteAccount (owns : bool) (user_id : uuid) (password : string) (now : datetime)
| OpDeleteLocked (user_id : uuid) (now : datetime)
| OpAdminDeleteUser (owns : bool) (actor_id target_id : uuid) (now : datetime)
| OpAuthenticateRequest (verified : result identity_error (uuid * datetime)).

Definition run_account (op : account_op) (db : Db) : Db :=
  match op with
  | OpPersistNewUser policy username email password user_id password_hash now open =>
      snd (persist_new_user policy username email password user_id password_hash now open db)
  | OpUpdateProfile user_id username email now => snd (UpdateProfile user_id username email now db)
  | OpChangePassword policy user_id current new new_hash now =>
      snd (ChangePassword verify policy user_id current new new_hash now db)
  | OpChangePasswordWrite user new_hash now =>
      snd (uow (change_password_write user new_hash now) db)
  | OpSetUserActive actor_id target_id active now =>
      snd (SetUserActive actor_id target_id active now db)
  | OpSetPlatformAdmin target_id grant now => snd (SetPlatformAdmin target_id grant now db)
  | OpDeleteAccount owns user_id password now => snd (DeleteAccount verify owns user_id password now db)
  | OpDeleteLocked user_id now => snd (uow (delete_locked user_id now) db)
  | OpAdminDeleteUser owns actor_id target_id now =>
      snd (AdminDeleteUser owns actor_id target_id now db)
  | OpAuthenticateRequest verified => snd (AuthenticateRequest verified db)
  end.

Lemma run_account_step op db :
  users_wf db.(users) -> users_step db (run_account op db).
Proof.
  intros Hwf. destruct op; simpl.
  - apply persist_new_user_step.
  - apply UpdateProfile_step.
  - apply ChangePassword_step.
  - apply change_password_write_step.
  - by apply SetUserActive_step.
  - by apply SetPlatformAdmin_step.
  - by apply DeleteAccount_step.
  - by apply delete_locked_step.
  - by apply AdminDeleteUser_step.
  - apply users_step_same. unfold AuthenticateRequest, mbind, M_bind, lift.
    destruct verified as [[user_id expires_at]|]; [|done]. rewrite uow_read. simpl.
    by repeat case_match.
Qed.

Lemma run_accounts_inv (P : gmap uuid User -> Prop) ops : forall db,
  (forall m m', users_change m m' -> P m -> P m') ->
  users_wf db.(users) -> P db.(users) ->
  users_wf (foldl (fun db op => run_account op db) db ops).(users)
  /\ P (foldl (fun db op => run_account op db) db ops).(users).
Proof.
  induction ops as [|op ops IH]; intros db Hstep Hwf HP; simpl; [done|].
  pose proof (run_account_step op db Hwf) as Hs. apply IH; [done| |].
  - by eapply users_change_wf.
  - by eapply Hstep.
Qed.

Lemma empty_users_wf : users_wf ∅.
Proof. split; intros *; rewrite ?lookup_empty; done. Qed.

(** From an empty database, however registrations, profile changes, grants,
    deactivations and deletions interleave: rows sit at their keys, names and
    emails are unique, and the platform is either without any account or has an
    active platform administrator. *)
Theorem accounts_invariant ops tokens :
  let db := foldl (fun db op => run_account op db) {| users := ∅; refresh_tokens := tokens |} ops in
  users_wf db.(users) /\ admin_inv db.(users).
Proof.
  apply run_accounts_inv.
  - apply users_change_admin_inv.
  - apply empty_users_wf.
  - by left.
Qed.

(** The closed-registration fast path is race-free: once an account exists the
    table never becomes empty again, whatever runs in between. *)
Theorem users_never_empty_again ops1 ops2 tokens :
  let run db ops := foldl (fun db op => run_account op db) db ops in
  let db1 := run {| users := ∅; refresh_tokens := tokens |} ops1 in
  db1.(users) <> ∅ -> (run db1 ops2).(users) <> ∅.
Proof.
  intros run db1 Hne. destruct (accounts_invariant ops1 tokens) as [Hwf [He|Ha]]; [done|].
  fold run db1 in Hwf, Ha |- *.
  destruct (run_accounts_inv has_active_admin ops2 db1 users_change_admin Hwf Ha) as [_ (k & u & Hk & _)].
  intros He. unfold run in He. rewrite He, lookup_empty in Hk. done.
Qed.
End Runs.
