(* ===== verification/Sessions.v ===== *)
(** * Sessions

    Refresh-token sessions: [identity/application/issue_tokens.py],
    [refresh_session.py], [logout.py], [restore_session.py],
    [revoke_session.py], [revoke_other_sessions.py] and [list_sessions.py].
    Each runs under its owner's session lock, so a transaction is one step. *)
From Stdlib Require Import ZArith NArith Lia String.
From stdpp Require Import base gmap strings list fin_maps.
From S2P Require Import Prelude PyString Uow Uuid Calendar IdentityStore PasswordPolicy Accounts.

Open Scope Z_scope.

(** What the token service and the id generator answer for one issued pair. *)
Record fresh := {
  fr_token_id : uuid;
  fr_access_token : string;
  fr_secret : string;
  fr_token_hash : string
}.

Record TokenPair := { access_token : string; refresh_token : string }.

Section Sessions.
(** [TokenService.hash_refresh_token]. *)
Context (hash_refresh_token : string -> string).

Definition issue_token_pair (f : fresh) (user_id chain_id : uuid) (now : datetime)
    (refresh_ttl : timedelta) : ITx TokenPair :=
  _ ← on (Tokens.add
    {| rt_id := f.(fr_token_id); rt_user_id := user_id; rt_chain_id := chain_id;
       rt_token_hash := f.(fr_token_hash); rt_issued_at := now;
       rt_expires_at := now + refresh_ttl; rt_revoked_at := None; rt_revoked_reason := None |});
  mret {| access_token := f.(fr_access_token); refresh_token := f.(fr_secret) |}.

(** [RefreshSession._revoke_superseded]. *)
Definition _revoke_superseded (superseded used : RefreshToken) (now : datetime) : ITx unit :=
  if String.eqb superseded.(rt_token_hash) used.(rt_token_hash) then mret tt
  else if bool_decide (superseded.(rt_chain_id) = used.(rt_chain_id)) then
    if is_active superseded now
    then on (Tokens.revoke superseded.(rt_token_hash) now REVOKED_SUPERSEDED)
    else mret tt
  else on (Tokens.revoke_chain superseded.(rt_chain_id) now REVOKED_SUPERSEDED).

(** A revoked token that is not a rotated predecessor inside the grace window. *)
Definition is_reuse (t : RefreshToken) (now : datetime) (reuse_grace : timedelta) : bool :=
  match t.(rt_revoked_at) with
  | None => false
  | Some revoked_at =>
      negb (bool_decide (t.(rt_revoked_reason) = Some REVOKED_ROTATED)
            && (now - revoked_at <=? reuse_grace))
  end.

Definition locked_hashes (token_hash : string) (superseded_hash : option string) : list string :=
  token_hash :: match superseded_hash with Some h => [h] | None => [] end.

Definition RefreshSession (refresh_ttl reuse_grace : timedelta) (f : fresh)
    (refresh_token : string) (superseded_token : option string) (now : datetime) : IM TokenPair :=
  let token_hash := hash_refresh_token refresh_token in
  let superseded_hash := hash_refresh_token <$> superseded_token in
  uow (
    locked ← on (Tokens.lock_sessions_by_token_hashes (locked_hashes token_hash superseded_hash));
    match (locked : gmap string RefreshToken) !! token_hash with
    | None => raise InvalidRefreshTokenError
    | Some stored =>
        _ ← guard_not (stored.(rt_expires_at) <=? now) InvalidRefreshTokenError;
        _ ← guard_not (bool_decide (stored.(rt_revoked_reason) = Some REVOKED_SUPERSEDED))
              InvalidRefreshTokenError;
        if is_reuse stored now reuse_grace then
          _ ← on (Tokens.revoke_all_for_user stored.(rt_user_id) now);
          _ ← commit;
          raise (RefreshTokenReuseError stored.(rt_user_id))
        else
          _ ← match stored.(rt_revoked_at) with
              | None => on (Tokens.revoke token_hash now REVOKED_ROTATED)
              | Some _ => mret tt
              end;
          pair ← issue_token_pair f stored.(rt_user_id) stored.(rt_chain_id) now refresh_ttl;
          _ ← match superseded_hash ≫= fun h => (locked : gmap string RefreshToken) !! h with
              | Some superseded => _revoke_superseded superseded stored now
              | None => mret tt
              end;
          _ ← commit;
          mret pair
    end).

Definition Logout (refresh_token : string) (superseded_token : option string) (now : datetime)
    : IM unit :=
  let token_hash := hash_refresh_token refresh_token in
  let superseded_hash :=
    match superseded_token with
    | Some s => if String.eqb s refresh_token then None else Some (hash_refresh_token s)
    | None => None
    end in
  uow (
    locked ← on (Tokens.lock_sessions_by_token_hashes (locked_hashes token_hash superseded_hash));
    _ ← match (locked : gmap string RefreshToken) !! token_hash with
        | Some stored => on (Tokens.revoke_chain stored.(rt_chain_id) now REVOKED_LOGOUT)
        | None => mret tt
        end;
    _ ← match superseded_hash ≫= fun h => (locked : gmap string RefreshToken) !! h with
        | Some superseded => on (Tokens.revoke_chain superseded.(rt_chain_id) now REVOKED_SUPERSEDED)
        | None => mret tt
        end;
    commit).

(** [issue_access_token] is the token service's. *)
Definition RestoreSession (issue_access_token : uuid -> string) (refresh_token : string)
    (now : datetime) : IM (string * uuid) :=
  let token_hash := hash_refresh_token refresh_token in
  stored ← uow (on (Tokens.get_by_token_hash token_hash));
  match stored with
  | None => raise InvalidRefreshTokenError
  | Some stored =>
      if is_active stored now
      then mret (issue_access_token stored.(rt_user_id), stored.(rt_user_id))
      else raise InvalidRefreshTokenError
  end.

Definition RevokeSession (user_id session_id : uuid) (now : datetime) : IM bool :=
  uow (revoked ← on (Tokens.revoke_by_id session_id user_id now REVOKED_USER);
       _ ← commit;
       mret revoked).

Definition RevokeOtherSessions (user_id : uuid) (current_refresh_token : option string)
    (keep_session_id : option uuid) (now : datetime) : IM unit :=
  let keep_hash := hash_refresh_token <$> current_refresh_token in
  uow (_ ← on (Tokens.revoke_all_for_user_except user_id keep_hash keep_session_id now REVOKED_USER);
       commit).

Definition ListSessions (user_id : uuid) (now : datetime) : IM (list RefreshToken) :=
  uow (on (Tokens.list_active_for_user user_id now)).
End Sessions.

(** ** How a stored token may change *)

Definition same_token (t t' : RefreshToken) : Prop :=
  t'.(rt_id) = t.(rt_id) /\ t'.(rt_user_id) = t.(rt_user_id) /\ t'.(rt_chain_id) = t.(rt_chain_id)
  /\ t'.(rt_token_hash) = t.(rt_token_hash) /\ t'.(rt_issued_at) = t.(rt_issued_at)
  /\ t'.(rt_expires_at) = t.(rt_expires_at).

(** It stays, is revoked once, or loses the grace of a rotation; its first
    revocation instant never moves. *)
Definition token_le (t t' : RefreshToken) : Prop :=
  same_token t t'
  /\ (t' = t
      \/ (t.(rt_revoked_at) = None /\ is_Some t'.(rt_revoked_at))
      \/ (t.(rt_revoked_reason) = Some REVOKED_ROTATED
          /\ t'.(rt_revoked_at) = t.(rt_revoked_at)
          /\ t'.(rt_revoked_reason) <> Some REVOKED_ROTATED)).

(** Revoked for another cause than rotation: never graced. *)
Definition dead (t : RefreshToken) : Prop :=
  is_Some t.(rt_revoked_at) /\ t.(rt_revoked_reason) <> Some REVOKED_ROTATED.

#[global] Instance token_le_refl : Reflexive token_le.
Proof. intros t. split; [done|by left]. Qed.

#[global] Instance token_le_trans : Transitive token_le.
Proof.
  intros t1 t2 t3 [Hs1 H1] [Hs2 H2]. split.
  { unfold same_token in *. naive_solver congruence. }
  destruct H1 as [->|[[H1 H1']|(H1 & H1' & H1'')]]; [done| |];
    destruct H2 as [->|[[H2 H2']|(H2 & H2' & H2'')]]; try tauto.
  - right; left. by rewrite H2'.
  - right; left. by rewrite <- H1', H2.
Qed.

Lemma token_le_dead t t' : token_le t t' -> dead t -> t' = t.
Proof. intros [_ [->|[[H _]|(H & _)]]] [[r Hr] Hd]; [done| |done]. congruence. Qed.

Lemma token_le_revoked_at t t' r :
  token_le t t' -> t.(rt_revoked_at) = Some r -> t'.(rt_revoked_at) = Some r.
Proof. intros [_ [->|[[H _]|(_ & H & _)]]] Hr; congruence. Qed.

(** The row of [h], if it survives, only changes so; no row appears at [h]. *)
Definition evolves (h : string) (m m' : gmap string RefreshToken) : Prop :=
  match m !! h with
  | None => m' !! h = None
  | Some t => match m' !! h with None => True | Some t' => token_le t t' end
  end.

#[global] Instance evolves_refl h : Reflexive (evolves h).
Proof. intros m. unfold evolves. by destruct (m !! h). Qed.

#[global] Instance evolves_trans h : Transitive (evolves h).
Proof.
  intros m1 m2 m3. unfold evolves. destruct (m1 !! h) as [t1|]; [|by intros ->].
  destruct (m2 !! h) as [t2|]; [|by intros _ ->].
  destruct (m3 !! h); [|done]. intros H1 H2. by etransitivity.
Qed.

Lemma revoke_scope_le scope at_ reason t :
  reason <> REVOKED_ROTATED -> token_le t (Tokens.revoke_scope scope at_ reason t).
Proof.
  intros Hr. unfold Tokens.revoke_scope. destruct (scope t && _) eqn:E; [|done].
  apply andb_true_iff in E as [_ E]. unfold Tokens.unrevoked_or_rotated in E.
  split; [done|]. right. simpl. destruct (rt_revoked_at t) as [r|] eqn:Et; simpl.
  - right. rewrite orb_true_iff, !bool_decide_eq_true in E. split_and!; [naive_solver|done|congruence].
  - left. done.
Qed.

Lemma evolves_revoke_scope h m scope at_ reason :
  reason <> REVOKED_ROTATED -> evolves h m (Tokens.revoke_scope scope at_ reason <$> m).
Proof.
  intros Hr. unfold evolves. rewrite lookup_fmap. destruct (m !! h); simpl; [|done].
  by apply revoke_scope_le.
Qed.

Lemma evolves_revoke h m k at_ reason :
  (forall t, m !! k = Some t -> t.(rt_revoked_at) = None) ->
  evolves h m (alter (Tokens.stamp reason at_) k m).
Proof.
  intros Hk. unfold evolves. rewrite lookup_alter. case_decide as E.
  - subst. destruct (m !! h) as [t|] eqn:Et; simpl; [|done]. split; [done|]. right; left.
    split; [by apply Hk|by eexists].
  - by destruct (m !! h).
Qed.

Lemma evolves_insert h m k t : h <> k -> evolves h m (<[k := t]> m).
Proof. intros Hne. unfold evolves. rewrite lookup_insert_ne by done. by destruct (m !! h). Qed.

Lemma evolves_filter h (P : string * RefreshToken -> Prop) `{forall x, Decision (P x)} m :
  evolves h m (filter P m).
Proof.
  unfold evolves. destruct (m !! h) as [t|] eqn:E.
  - destruct (filter P m !! h) as [t'|] eqn:E'; [|done].
    apply map_lookup_filter_Some in E' as [E' _]. by simplify_eq.
  - apply map_lookup_filter_None. by left.
Qed.

(** Rows sit at their hash; a reason is recorded exactly with a revocation. *)
Definition tokens_wf (m : gmap string RefreshToken) : Prop :=
  forall h t, m !! h = Some t ->
    t.(rt_token_hash) = h /\ (t.(rt_revoked_at) = None <-> t.(rt_revoked_reason) = None).

Lemma locked_lookup (m : gmap string RefreshToken) token_hash superseded_hash h :
  filter (fun kt : string * RefreshToken => kt.1 ∈ locked_hashes token_hash superseded_hash) m !! h
  = (if bool_decide (h = token_hash \/ superseded_hash = Some h) then m !! h else None).
Proof.
  apply option_eq. intros t. rewrite map_lookup_filter_Some. unfold locked_hashes.
  case_bool_decide as E; simpl.
  - split; [tauto|]. intros ->. split; [done|]. destruct E as [-> | ->]; set_solver.
  - split; [|done]. intros [_ Hin]. destruct E. destruct superseded_hash; set_solver.
Qed.


(** ** The outcomes of a rotation *)

(** What ending the superseded cookie's session does to the rows [m]; the cookie
    was read as [superseded]. *)
Definition supersede (superseded : option RefreshToken) (used : RefreshToken) (now : datetime)
    (m : gmap string RefreshToken) : gmap string RefreshToken :=
  match superseded with
  | None => m
  | Some s =>
      if String.eqb s.(rt_token_hash) used.(rt_token_hash) then m
      else if bool_decide (s.(rt_chain_id) = used.(rt_chain_id)) then
        if is_active s now then alter (Tokens.stamp REVOKED_SUPERSEDED now) s.(rt_token_hash) m else m
      else Tokens.revoke_scope (Tokens.in_chain s.(rt_chain_id)) now REVOKED_SUPERSEDED <$> m
  end.

Definition retire (h : string) (used : RefreshToken) (now : datetime)
    (m : gmap string RefreshToken) : gmap string RefreshToken :=
  match used.(rt_revoked_at) with
  | None => alter (Tokens.stamp REVOKED_ROTATED now) h m
  | Some _ => m
  end.

Definition successor (f : fresh) (used : RefreshToken) (now : datetime) (ttl : timedelta)
    : RefreshToken :=
  {| rt_id := f.(fr_token_id); rt_user_id := used.(rt_user_id); rt_chain_id := used.(rt_chain_id);
     rt_token_hash := f.(fr_token_hash); rt_issued_at := now; rt_expires_at := now + ttl;
     rt_revoked_at := None; rt_revoked_reason := None |}.

Section Outcomes.
Context (hash_refresh_token : string -> string).

Lemma revoke_superseded_run s used now t :
  _revoke_superseded s used now t
  = (Ok tt, Tx (set_tokens (supersede (Some s) used now) t.(work)) t.(durable)).
Proof.
  destruct t as [[us ts] d]. unfold _revoke_superseded, supersede. run_tx. by repeat case_match.
Qed.

Lemma RefreshSession_cases ttl grace f token cookie now db r db' :
  RefreshSession hash_refresh_token ttl grace f token cookie now db = (r, db') ->
  let m := db.(refresh_tokens) in
  match r with
  | Ok p => exists t,
      m !! hash_refresh_token token = Some t /\ now < t.(rt_expires_at)
      /\ t.(rt_revoked_reason) <> Some REVOKED_SUPERSEDED /\ is_reuse t now grace = false
      /\ retire (hash_refresh_token token) t now m !! f.(fr_token_hash) = None
      /\ is_Some (db.(users) !! t.(rt_user_id))
      /\ p = {| access_token := f.(fr_access_token); refresh_token := f.(fr_secret) |}
      /\ db' = {| users := db.(users);
                  refresh_tokens :=
                    supersede (cookie ≫= fun c => m !! hash_refresh_token c) t now
                      (<[f.(fr_token_hash) := successor f t now ttl]>
                         (retire (hash_refresh_token token) t now m)) |}
  | Err (RefreshTokenReuseError u) => exists t,
      m !! hash_refresh_token token = Some t /\ now < t.(rt_expires_at) /\ u = t.(rt_user_id)
      /\ is_reuse t now grace = true
      /\ db' = {| users := db.(users);
                  refresh_tokens := Tokens.revoke_scope (Tokens.of_user u) now REVOKED_FAMILY <$> m |}
  | Err _ => db' = db
  end.
Proof.
  unfold RefreshSession, issue_token_pair. run_tx. rewrite locked_lookup.
  rewrite bool_decide_eq_true_2 by auto.
  destruct (refresh_tokens db !! hash_refresh_token token) as [t|] eqn:Et; [|by intros [= <- <-]].
  destruct (Z.leb_spec (rt_expires_at t) now) as [|Hexp]; [by intros [= <- <-]|].
  case_bool_decide as Hsup; [by intros [= <- <-]|].
  destruct (is_reuse t now grace) eqn:Hr.
  { intros [= <- <-]. exists t. done. }
  assert (Hlk : option_bind string RefreshToken (fun h =>
      filter (fun kt : string * RefreshToken =>
        kt.1 ∈ locked_hashes (hash_refresh_token token) (hash_refresh_token <$> cookie))
      (refresh_tokens db) !! h) (hash_refresh_token <$> cookie)
      = option_bind string RefreshToken (fun c => refresh_tokens db !! hash_refresh_token c) cookie).
  { destruct cookie as [c|]; [|done]. simpl. rewrite locked_lookup, bool_decide_eq_true_2; auto. }
  rewrite Hlk. clear Hlk. set (sup := option_bind _ _ _ cookie). clearbody sup. unfold retire.
  destruct (rt_revoked_at t) eqn:Hrev; cbn [work durable users refresh_tokens rt_token_hash rt_user_id].
  all: destruct (_ !! fr_token_hash f) eqn:Hn; [by intros [= <- <-]|].
  all: destruct (any_row _ _); [by intros [= <- <-]|].
  all: destruct (users db !! rt_user_id t) eqn:Hu; [|by intros [= <- <-]].
  all: destruct sup as [s|]; [rewrite revoke_superseded_run|]; intros [= <- <-]; exists t;
    rewrite Hrev, Hu; split_and!; try done; by eexists.
Qed.

(** Ending one chain, when there is one to end. *)
Definition end_chain (t : option RefreshToken) (now : datetime) (reason : RevokedReason)
    (m : gmap string RefreshToken) : gmap string RefreshToken :=
  match t with
  | Some t => Tokens.revoke_scope (Tokens.in_chain t.(rt_chain_id)) now reason <$> m
  | None => m
  end.

Lemma Logout_run token cookie now db :
  let m := db.(refresh_tokens) in
  Logout hash_refresh_token token cookie now db
  = (Ok tt, {| users := db.(users);
               refresh_tokens :=
                 end_chain (match cookie with
                            | Some c => if String.eqb c token then None
                                        else m !! hash_refresh_token c
                            | None => None
                            end) now REVOKED_SUPERSEDED
                   (end_chain (m !! hash_refresh_token token) now REVOKED_LOGOUT m) |}).
Proof.
  unfold Logout. run_tx. rewrite locked_lookup, bool_decide_eq_true_2 by auto. unfold end_chain.
  destruct db as [us m]; cbn [users refresh_tokens].
  assert (Hlk : forall c, filter (fun kt : string * RefreshToken =>
      kt.1 ∈ locked_hashes (hash_refresh_token token) (Some (hash_refresh_token c))) m
      !! hash_refresh_token c = m !! hash_refresh_token c).
  { intros c. rewrite locked_lookup, bool_decide_eq_true_2; auto. }
  destruct cookie as [c|]; [destruct (String.eqb c token)|]; cbn [option_bind];
    [|rewrite Hlk; destruct (m !! hash_refresh_token c)|];
    by destruct (m !! hash_refresh_token token).
Qed.

(** A revoked token is refreshed only as a rotated predecessor inside the
    grace window. *)
Lemma is_reuse_false t now grace :
  is_reuse t now grace = false
  <-> t.(rt_revoked_at) = None
      \/ exists r, t.(rt_revoked_at) = Some r /\ t.(rt_revoked_reason) = Some REVOKED_ROTATED
                   /\ now <= r + grace.
Proof.
  unfold is_reuse. destruct (rt_revoked_at t) as [r|]; [|split; [by left|done]].
  rewrite negb_false_iff, andb_true_iff, bool_decide_eq_true, Z.leb_le. split.
  - intros [? ?]. right. exists r. split_and!; [done|done|lia].
  - intros [?|(r' & [= <-] & ? & ?)]; [done|]. split; [done|lia].
Qed.

Lemma dead_not_refreshed ttl grace f token cookie now db t :
  db.(refresh_tokens) !! hash_refresh_token token = Some t -> dead t ->
  is_ok (fst (RefreshSession hash_refresh_token ttl grace f token cookie now db)) = false.
Proof.
  intros Ht [[r Hr] Hd].
  destruct (RefreshSession _ _ _ _ _ _ _ _) as [res db'] eqn:E. apply RefreshSession_cases in E.
  destruct res as [p|e]; [|done]. destruct E as (t' & Ht' & _ & _ & Hre & _). simplify_eq.
  apply is_reuse_false in Hre as [?|(? & _ & ? & _)]; congruence.
Qed.

Lemma absent_not_refreshed ttl grace f token cookie now db :
  db.(refresh_tokens) !! hash_refresh_token token = None ->
  is_ok (fst (RefreshSession hash_refresh_token ttl grace f token cookie now db)) = false.
Proof.
  intros Ht. destruct (RefreshSession _ _ _ _ _ _ _ _) as [res db'] eqn:E.
  apply RefreshSession_cases in E. destruct res as [p|e]; [|done].
  destruct E as (t' & Ht' & _). congruence.
Qed.
End Outcomes.

(** ** Session transactions preserve the table's invariant *)

Lemma tokens_wf_alter m k reason at_ :
  tokens_wf m -> tokens_wf (alter (Tokens.stamp reason at_) k m).
Proof.
  intros Hwf h t. rewrite lookup_alter. case_decide; [|by apply Hwf]. subst.
  destruct (m !! h) as [t'|] eqn:E; [|done]. intros [= <-]. simpl. split; [by apply Hwf in E as [? _]|done].
Qed.

Lemma tokens_wf_scope m scope at_ reason :
  tokens_wf m -> tokens_wf (Tokens.revoke_scope scope at_ reason <$> m).
Proof.
  intros Hwf h t. rewrite lookup_fmap. destruct (m !! h) as [t'|] eqn:E; [|done]. intros [= <-].
  unfold Tokens.revoke_scope. case_match; [|by apply Hwf]. simpl.
  split; [by apply Hwf in E as [? _]|done].
Qed.

Lemma tokens_wf_insert m t :
  tokens_wf m -> (t.(rt_revoked_at) = None <-> t.(rt_revoked_reason) = None) ->
  tokens_wf (<[t.(rt_token_hash) := t]> m).
Proof. intros Hwf Ht h t' [[<- <-]|[_ H]]%lookup_insert_Some; [done|by apply Hwf]. Qed.

Lemma tokens_wf_filter (P : string * RefreshToken -> Prop) `{forall x, Decision (P x)} m :
  tokens_wf m -> tokens_wf (filter P m).
Proof. intros Hwf h t [Ht _]%map_lookup_filter_Some. by apply Hwf. Qed.

Section SessionRuns.
Context (hash_refresh_token : string -> string).

Inductive session_op :=
| OpRefreshSession (refresh_ttl reuse_grace : timedelta) (f : fresh) (refresh_token : string)
    (superseded_token : option string) (now : datetime)
| OpLogout (refresh_token : string) (superseded_token : option string) (now : datetime)
| OpRestoreSession (refresh_token : string) (now : datetime)
| OpRevokeSession (user_id session_id : uuid) (now : datetime)
| OpRevokeOtherSessions (user_id : uuid) (current_refresh_token : option string)
    (keep_session_id : option uuid) (now : datetime)
| OpListSessions (user_id : uuid) (now : datetime).

Definition run_session (op : session_op) (db : Db) : Db :=
  match op with
  | OpRefreshSession ttl grace f token cookie now =>
      snd (RefreshSession hash_refresh_token ttl grace f token cookie now db)
  | OpLogout token cookie now => snd (Logout hash_refresh_token token cookie now db)
  | OpRestoreSession token now =>
      snd (RestoreSession hash_refresh_token (fun _ => EmptyString) token now db)
  | OpRevokeSession user_id session_id now => snd (RevokeSession user_id session_id now db)
  | OpRevokeOtherSessions user_id current keep now =>
      snd (RevokeOtherSessions hash_refresh_token user_id current keep now db)
  | OpListSessions user_id now => snd (ListSessions user_id now db)
  end.

(** The hash a transaction may newly store. *)
Definition session_fresh (op : session_op) : option string :=
  match op with OpRefreshSession _ _ f _ _ _ => Some f.(fr_token_hash) | _ => None end.

Lemma retire_evolves h k t now m : m !! k = Some t -> evolves h m (retire k t now m).
Proof.
  intros Hk. unfold retire. destruct (rt_revoked_at t) eqn:E; [done|].
  apply evolves_revoke. intros t' Ht'. congruence.
Qed.

Lemma retire_wf k t now m : tokens_wf m -> tokens_wf (retire k t now m).
Proof. intros Hwf. unfold retire. case_match; [done|by apply tokens_wf_alter]. Qed.

Lemma supersede_wf s t now m : tokens_wf m -> tokens_wf (supersede s t now m).
Proof.
  intros Hwf. unfold supersede. repeat case_match; try done; [by apply tokens_wf_alter|].
  by apply tokens_wf_scope.
Qed.

Lemma supersede_evolves h s t now m :
  (forall u, s = Some u -> u.(rt_token_hash) <> t.(rt_token_hash) ->
     m !! u.(rt_token_hash) = Some u) ->
  evolves h m (supersede s t now m).
Proof.
  intros Hs. unfold supersede. destruct s as [u|]; [|done].
  destruct (String.eqb_spec (rt_token_hash u) (rt_token_hash t)); [done|].
  destruct (bool_decide _).
  - destruct (is_active u now) eqn:Ha; [|done]. apply evolves_revoke.
    intros v Hv. rewrite (Hs u) in Hv by done. simplify_eq. unfold is_active in Ha. by case_match.
  - by apply evolves_revoke_scope.
Qed.

Lemma end_chain_evolves h t now reason m :
  reason <> REVOKED_ROTATED -> evolves h m (end_chain t now reason m).
Proof. intros Hr. unfold end_chain. case_match; [by apply evolves_revoke_scope|done]. Qed.

Lemma end_chain_wf t now reason m : tokens_wf m -> tokens_wf (end_chain t now reason m).
Proof. intros Hwf. unfold end_chain. case_match; [by apply tokens_wf_scope|done]. Qed.

Lemma run_session_users op db : (run_session op db).(users) = db.(users).
Proof.
  destruct op; simpl.
  - destruct (RefreshSession _ _ _ _ _ _ _ _) as [r db'] eqn:E. apply RefreshSession_cases in E.
    destruct r as [p|[]]; simpl; try by rewrite E.
    + by destruct E as (t & _ & _ & _ & _ & _ & _ & _ & ->).
    + by destruct E as (t & _ & _ & _ & _ & ->).
  - by rewrite Logout_run.
  - unfold RestoreSession. run_tx. by repeat case_match; simplify_eq/=.
  - unfold RevokeSession. run_tx. by repeat case_match; simplify_eq/=.
  - done.
  - done.
Qed.

Lemma run_session_evolves op db h :
  tokens_wf db.(refresh_tokens) -> session_fresh op <> Some h ->
  evolves h db.(refresh_tokens) (run_session op db).(refresh_tokens)
  /\ tokens_wf (run_session op db).(refresh_tokens).
Proof.
  intros Hwf Hh. destruct op; simpl in *.
  - destruct (RefreshSession _ _ _ _ _ _ _ _) as [r db'] eqn:E. apply RefreshSession_cases in E.
    destruct r as [p|[]]; simpl; try by rewrite E.
    + destruct E as (t & Ht & _ & _ & _ & Hn & _ & _ & ->). simpl. split.
      * etransitivity; [by eapply (retire_evolves h)|].
        etransitivity; [apply (evolves_insert h _ (fr_token_hash f) (successor f t now refresh_ttl)); congruence|].
        apply supersede_evolves. intros u Hu Hne.
        destruct superseded_token as [c|]; [|done]. simpl in Hu.
        pose proof (proj1 (Hwf _ _ Hu)) as Huh. pose proof (proj1 (Hwf _ _ Ht)) as Hth.
        assert (Hret : retire (hash_refresh_token refresh_token0) t now (refresh_tokens db)
                       !! rt_token_hash u = Some u).
        { unfold retire. case_match; [congruence|]. rewrite lookup_alter_ne; congruence. }
        rewrite lookup_insert_ne; congruence.
      * apply supersede_wf.
        apply (tokens_wf_insert _ (successor f t now refresh_ttl)); [by apply retire_wf|done].
    + destruct E as (t & _ & _ & _ & _ & ->). simpl.
      split; [by apply evolves_revoke_scope|by apply tokens_wf_scope].
  - rewrite Logout_run. simpl. split.
    + etransitivity; by apply end_chain_evolves.
    + by repeat apply end_chain_wf.
  - unfold RestoreSession. run_tx. by repeat case_match; simplify_eq/=.
  - unfold RevokeSession. run_tx. repeat case_match; simplify_eq/=; try done.
    split; [by apply evolves_revoke_scope|by apply tokens_wf_scope].
  - split; [by apply evolves_revoke_scope|by apply tokens_wf_scope].
  - done.
Qed.
End SessionRuns.

(** ** Rotation *)

Section Rotation.
Context (hash_refresh_token : string -> string).

Lemma supersede_keeps s used now m h :
  is_Some (m !! h) -> is_Some (supersede s used now m !! h).
Proof.
  intros [x Hx]. unfold supersede. repeat case_match; try by eexists.
  - rewrite lookup_alter. destruct (decide (rt_token_hash r = h)) as [->|]; rewrite Hx; by eexists.
  - rewrite lookup_fmap, Hx. by eexists.
Qed.

(** Rows outside the cookie's chain are as before. *)
Lemma supersede_frame s used now m h t :
  m !! h = Some t -> t.(rt_token_hash) = h ->
  (forall u, s = Some u -> u.(rt_token_hash) <> used.(rt_token_hash) ->
     u.(rt_token_hash) <> h
     /\ (u.(rt_chain_id) <> used.(rt_chain_id) -> u.(rt_chain_id) <> t.(rt_chain_id))) ->
  supersede s used now m !! h = Some t.
Proof.
  intros Hm Hh Hs. unfold supersede. destruct s as [u|]; [|done].
  destruct (String.eqb_spec (rt_token_hash u) (rt_token_hash used)); [done|].
  destruct (Hs u eq_refl n) as [H1 H2]. case_bool_decide as Hc.
  - destruct (is_active u now); [|done]. by rewrite lookup_alter_ne.
  - rewrite lookup_fmap, Hm. simpl. unfold Tokens.revoke_scope, Tokens.in_chain.
    rewrite bool_decide_eq_false_2; [done|]. intros E. by destruct (H2 Hc).
Qed.

Lemma retire_lookup k t now m h :
  retire k t now m !! h
  = (if bool_decide (h = k) then
       match t.(rt_revoked_at) with None => Tokens.stamp REVOKED_ROTATED now <$> m !! h | Some _ => m !! h end
     else m !! h).
Proof.
  unfold retire. case_bool_decide as E; destruct (rt_revoked_at t); try done.
  - by rewrite E, lookup_alter_eq.
  - rewrite lookup_alter_ne; congruence.
Qed.

(** A refresh that answers a pair was presented a stored, unexpired token that
    was live or a rotated predecessor inside the grace window; afterwards that
    token is unusable, its successor is live in the same session, and the
    sessions of neither transport's chain are untouched. *)
Theorem refresh_rotates ttl grace f token cookie now db p db' :
  tokens_wf db.(refresh_tokens) -> 0 < ttl ->
  RefreshSession hash_refresh_token ttl grace f token cookie now db = (Ok p, db') ->
  exists t, db.(refresh_tokens) !! hash_refresh_token token = Some t
    /\ now < t.(rt_expires_at)
    /\ (t.(rt_revoked_at) = None
        \/ exists r, t.(rt_revoked_at) = Some r /\ t.(rt_revoked_reason) = Some REVOKED_ROTATED
                     /\ now <= r + grace)
    /\ (exists t', db'.(refresh_tokens) !! hash_refresh_token token = Some t'
        /\ is_active t' now = false)
    /\ db'.(refresh_tokens) !! f.(fr_token_hash) = Some (successor f t now ttl)
    /\ is_active (successor f t now ttl) now = true
    /\ p.(refresh_token) = f.(fr_secret)
    /\ (forall h u, db.(refresh_tokens) !! h = Some u -> u.(rt_chain_id) <> t.(rt_chain_id) ->
        (forall c v, cookie = Some c -> db.(refresh_tokens) !! hash_refresh_token c = Some v ->
           u.(rt_chain_id) <> v.(rt_chain_id)) ->
        db'.(refresh_tokens) !! h = Some u).
Proof.
  intros Hwf Httl E. apply RefreshSession_cases in E as (t & Ht & Hexp & _ & Hre & Hn & _ & -> & ->).
  simpl. exists t. set (k := hash_refresh_token token) in *. set (m := db.(refresh_tokens)) in *.
  assert (Hfk : fr_token_hash f <> k).
  { intros E. rewrite retire_lookup, bool_decide_eq_true_2, E, Ht in Hn by done. by case_match. }
  assert (Hfm : m !! fr_token_hash f = None).
  { by rewrite retire_lookup, bool_decide_eq_false_2 in Hn. }
  assert (Hcookie : forall u, cookie ≫= (fun c => m !! hash_refresh_token c) = Some u ->
                    exists c, cookie = Some c /\ m !! hash_refresh_token c = Some u
                              /\ u.(rt_token_hash) = hash_refresh_token c).
  { intros u. destruct cookie as [c|]; [|done]. intros Hu. exists c. split_and!; [done|done|].
    by apply Hwf in Hu as [? _]. }
  split_and!; [done|done|by apply is_reuse_false| | |by apply Z.ltb_lt; simpl; lia|done|].
  - assert (exists t1, retire k t now m !! k = Some t1 /\ is_Some t1.(rt_revoked_at)) as (t1 & Ht1 & Hr1).
    { rewrite retire_lookup, bool_decide_eq_true_2, Ht by done. destruct (rt_revoked_at t) eqn:Er.
      - exists t. rewrite Er. by eauto.
      - by eexists. }
    set (m2 := <[fr_token_hash f := successor f t now ttl]> (retire k t now m)).
    assert (Ht2 : m2 !! k = Some t1) by (unfold m2; by rewrite lookup_insert_ne).
    assert (Hev : evolves k m2 (supersede (cookie ≫= (fun c => m !! hash_refresh_token c)) t now m2)).
    { apply supersede_evolves. intros u (c & _ & Hu & Huh)%Hcookie Hne.
      pose proof (proj1 (Hwf _ _ Ht)) as Hth.
      unfold m2. rewrite lookup_insert_ne by congruence.
      rewrite retire_lookup, bool_decide_eq_false_2; congruence. }
    destruct (supersede_keeps (cookie ≫= (fun c => m !! hash_refresh_token c)) t now m2 k) as [t3 Ht3];
      [by eexists|]. exists t3. split; [done|].
    unfold evolves in Hev. rewrite Ht2, Ht3 in Hev. destruct Hr1 as [r Hr1].
    unfold is_active. by rewrite (token_le_revoked_at _ _ _ Hev Hr1).
  - apply supersede_frame; [by rewrite lookup_insert_eq|done|].
    intros u (c & _ & Hu & Huh)%Hcookie _. split; [congruence|]. simpl. congruence.
  - intros h u Hu Hc Hcc. apply supersede_frame.
    + rewrite lookup_insert_ne by congruence. rewrite retire_lookup.
      rewrite bool_decide_eq_false_2; [done|]. intros ->. congruence.
    + by apply Hwf in Hu as [? _].
    + intros v (c & Hcs & Hv & Hvh)%Hcookie _. specialize (Hcc _ _ Hcs Hv).
      split; [|congruence]. intros E. rewrite <- E, Hvh, Hv in Hu. congruence.
Qed.
End Rotation.
