(* ===== verification/BruteForce.v ===== *)
(** * Brute-force protection: the store and the back-off

    [identity/domain/brute_force.py], [identity/domain/registration.py],
    [identity/domain/login_attempt_store.py] and the statements of
    [identity/adapters/login_attempt_store.py]. *)
From Stdlib Require Import ZArith Lia String.
From stdpp Require Import base gmap strings list fin_maps.
From S2P Require Import Prelude PyString Uow Calendar IdentityStore.

Open Scope Z_scope.

(** ** Configuration *)

Record BruteForceConfig := {
  bf_enabled : bool;
  username_threshold : Z;
  username_window : timedelta;
  ip_threshold : Z;
  ip_window : timedelta;
  lockout_base : timedelta;
  lockout_max : timedelta
}.

Record RegistrationConfig := {
  reg_open : bool;
  reg_ip_limit_enabled : bool;
  reg_ip_threshold : Z;
  reg_ip_window : timedelta
}.

(** What the settings class [BruteForceSettings] accepts. *)
Definition config_valid (c : BruteForceConfig) : bool :=
  (1 <=? c.(username_threshold)) && (0 <? c.(username_window)) && (1 <=? c.(ip_threshold))
  && (0 <? c.(ip_window)) && (0 <? c.(lockout_base)) && (0 <? c.(lockout_max))
  && (c.(lockout_base) <=? c.(lockout_max)).

(** ** The back-off *)

Definition is_locked (locked_until : option datetime) (now : datetime) : bool :=
  match locked_until with Some t => now <? t | None => false end.

Definition prune_horizon (c : BruteForceConfig) (registration : option RegistrationConfig)
    : timedelta :=
  let horizon := Z.max c.(username_window) c.(ip_window) in
  match registration with
  | Some r => if r.(reg_ip_limit_enabled) then Z.max horizon r.(reg_ip_window) else horizon
  | None => horizon
  end.

(** [int.bit_length]. *)
Definition bit_length (n : Z) : Z := if n =? 0 then 0 else Z.log2 (Z.abs n) + 1.

(** The settings exclude [base = 0], for which Python would raise. *)
Definition backoff_cap_count (base maximum : timedelta) : Z := bit_length (maximum / base).

Definition backoff_duration (lockout_count : Z) (base maximum : timedelta) : timedelta :=
  if backoff_cap_count base maximum <=? lockout_count then maximum
  else
    let duration := base * 2 ^ lockout_count in
    if duration <? maximum then duration else maximum.

Lemma bit_length_bounds n : 0 < n -> 2 ^ (bit_length n - 1) <= n < 2 ^ bit_length n.
Proof.
  intros Hn. unfold bit_length. destruct (Z.eqb_spec n 0); [lia|]. rewrite Z.abs_eq by lia.
  pose proof (Z.log2_spec n Hn). replace (Z.log2 n + 1 - 1) with (Z.log2 n) by lia.
  by rewrite <- Z.add_1_r in H.
Qed.

(** The guarded computation is the mathematical one: [base] doubled once per
    prior lockout, capped at [maximum]; below the cap count it is never capped,
    so no larger power is ever computed. *)
Lemma backoff_duration_spec n base maximum :
  0 <= n -> 0 < base -> base <= maximum ->
  backoff_duration n base maximum = Z.min (base * 2 ^ n) maximum
  /\ (n < backoff_cap_count base maximum <-> base * 2 ^ n <= maximum).
Proof.
  intros Hn Hb Hm. unfold backoff_duration, backoff_cap_count.
  pose proof (Z.div_mod maximum base ltac:(lia)) as Hdm.
  pose proof (Z.mod_pos_bound maximum base Hb) as Hmod.
  assert (Hq : 0 < maximum / base) by (apply Z.div_str_pos; lia).
  pose proof (bit_length_bounds _ Hq) as [Hlo Hhi]. set (k := bit_length (maximum / base)) in *.
  assert (Hk : n < k -> base * 2 ^ n <= maximum).
  { intros Hlt. assert (2 ^ n <= 2 ^ (k - 1)) by (apply Z.pow_le_mono_r; lia). nia. }
  assert (Hk' : k <= n -> maximum < base * 2 ^ n).
  { intros Hle. assert (2 ^ k <= 2 ^ n) by (apply Z.pow_le_mono_r; lia). nia. }
  split; [|lia]. destruct (Z.leb_spec k n).
  - specialize (Hk' H). lia.
  - specialize (Hk H). destruct (Z.ltb_spec (base * 2 ^ n) maximum); lia.
Qed.

(** The back-off is the base doubled once per prior lockout, up to the maximum,
    and clamping the stored count at the cap changes no later duration. *)
Theorem backoff_saturates n base maximum :
  0 <= n -> 0 < base -> base <= maximum ->
  backoff_duration n base maximum = Z.min (base * 2 ^ n) maximum
  /\ backoff_duration (Z.min n (backoff_cap_count base maximum)) base maximum
     = Z.min (base * 2 ^ n) maximum.
Proof.
  intros Hn Hb Hm. destruct (backoff_duration_spec n base maximum Hn Hb Hm) as [<- _].
  split; [done|]. set (cap := backoff_cap_count base maximum).
  destruct (Z.le_gt_cases cap n) as [Hle|Hlt].
  - rewrite Z.min_r by done. unfold backoff_duration. fold cap.
    by rewrite Z.leb_refl, (proj2 (Z.leb_le cap n)).
  - by rewrite Z.min_l by lia.
Qed.

(** One minute doubled thirty times is capped at an hour. *)
Lemma backoff_saturates_witness :
  backoff_duration 30 60000000 3600000000 = Z.min (60000000 * 2 ^ 30) 3600000000
  /\ backoff_duration (Z.min 30 (backoff_cap_count 60000000 3600000000)) 60000000 3600000000
     = Z.min (60000000 * 2 ^ 30) 3600000000.
Proof. apply (backoff_saturates 30 60000000 3600000000); lia. Defined.

(** ** The store *)

(** Failure reasons, and the marker of a registration row. *)
Inductive failure_reason : Set :=
| REASON_LOCKED | REASON_IP_THROTTLED | REASON_UNKNOWN_USER | REASON_WRONG_PASSWORD
| REASON_DEACTIVATED | _REGISTRATION_REASON.

#[global] Instance failure_reason_eq_dec : EqDecision failure_reason.
Proof. solve_decision. Defined.

Record LoginAttempt := {
  la_username : string;
  la_ip : option string;
  la_success : bool;
  la_failure_reason : option failure_reason;
  la_created_at : datetime
}.

Record Lockout := { locked_until : option datetime; lockout_count : Z }.

Record Store := {
  login_attempts : list LoginAttempt;
  account_lockouts : gmap string Lockout
}.

Module Attempts.

Abbreviation SM := (M Store identity_error).

Definition append (row : LoginAttempt) : SM unit := modify (fun s =>
  {| login_attempts := s.(login_attempts) ++ [row]; account_lockouts := s.(account_lockouts) |}).

Definition record_attempt (username : string) (ip : option string) (success : bool)
    (reason : option failure_reason) (at_ : datetime) : SM unit :=
  append {| la_username := username; la_ip := ip; la_success := success;
            la_failure_reason := reason; la_created_at := at_ |}.

(** [SELECT count( * ) ... WHERE]. *)
Definition count_where (p : LoginAttempt -> bool) (rows : list LoginAttempt) : Z :=
  Z.of_nat (length (List.filter p rows)).

Definition username_failure (username : string) (since : datetime) (r : LoginAttempt) : bool :=
  String.eqb r.(la_username) username && negb r.(la_success) && (since <=? r.(la_created_at)).

Definition ip_failure (ip : string) (since : datetime) (r : LoginAttempt) : bool :=
  bool_decide (r.(la_ip) = Some ip) && negb r.(la_success) && (since <=? r.(la_created_at)).

Definition ip_registration (ip : string) (since : datetime) (r : LoginAttempt) : bool :=
  bool_decide (r.(la_ip) = Some ip)
  && bool_decide (r.(la_failure_reason) = Some _REGISTRATION_REASON)
  && (since <=? r.(la_created_at)).

Definition count_username_failures (username : string) (since : datetime) : SM Z :=
  gets (fun s => count_where (username_failure username since) s.(login_attempts)).

Definition count_ip_failures (ip : string) (since : datetime) : SM Z :=
  gets (fun s => count_where (ip_failure ip since) s.(login_attempts)).

(** A registration row carries the empty username and [success=True]. *)
Definition record_registration (ip : string) (at_ : datetime) : SM unit :=
  append {| la_username := ""; la_ip := Some ip; la_success := true;
            la_failure_reason := Some _REGISTRATION_REASON; la_created_at := at_ |}.

Definition count_ip_registrations (ip : string) (since : datetime) : SM Z :=
  gets (fun s => count_where (ip_registration ip since) s.(login_attempts)).

Definition get_lockout (username : string) : SM (option Lockout) :=
  gets (fun s => s.(account_lockouts) !! username).

Definition lock (username : string) (until : datetime) (count : Z) : SM unit := modify (fun s =>
  {| login_attempts := s.(login_attempts);
     account_lockouts :=
       <[username := {| locked_until := Some until; lockout_count := count |}]>
         s.(account_lockouts) |}).

Definition clear_lockout (username : string) : SM unit := modify (fun s =>
  {| login_attempts := s.(login_attempts);
     account_lockouts := delete username s.(account_lockouts) |}).

Definition prune_attempts (older_than : datetime) : SM unit := modify (fun s =>
  {| login_attempts := List.filter (fun r => negb (r.(la_created_at) <? older_than))
                         s.(login_attempts);
     account_lockouts := s.(account_lockouts) |}).
End Attempts.

(** [PruneLoginAttempts.tick]. *)
Definition prune_tick (c : BruteForceConfig) (registration : option RegistrationConfig)
    (now : datetime) : Attempts.SM unit :=
  Attempts.prune_attempts (now - prune_horizon c registration).

(** ** Pruning is invisible to every window *)

Lemma count_where_filter p q rows :
  (forall r, p r = true -> q r = true) ->
  Attempts.count_where p (List.filter q rows) = Attempts.count_where p rows.
Proof.
  intros Hpq. unfold Attempts.count_where. f_equal. f_equal.
  induction rows as [|r rows IH]; simpl; [done|]. destruct (q r) eqn:E; simpl.
  - by rewrite IH.
  - rewrite IH. destruct (p r) eqn:E'; [|done]. apply Hpq in E'. congruence.
Qed.

(** A prune at [now] deletes no row that any check at a later instant [t] still
    counts: the login windows always, the registration window when its cap is
    enabled. *)
Theorem prune_preserves_windows c registration now t s username ip :
  now <= t ->
  let s' := snd (prune_tick c registration now s) in
  let count w p st := Attempts.count_where (p (t - w)) st.(login_attempts) in
  count c.(username_window) (Attempts.username_failure username) s'
    = count c.(username_window) (Attempts.username_failure username) s
  /\ count c.(ip_window) (Attempts.ip_failure ip) s' = count c.(ip_window) (Attempts.ip_failure ip) s
  /\ (forall r, registration = Some r -> r.(reg_ip_limit_enabled) = true ->
      count r.(reg_ip_window) (Attempts.ip_registration ip) s'
        = count r.(reg_ip_window) (Attempts.ip_registration ip) s)
  /\ s'.(account_lockouts) = s.(account_lockouts).
Proof.
  intros Ht s' count. subst s' count. cbn.
  assert (Hh : Z.max c.(username_window) c.(ip_window) <= prune_horizon c registration).
  { unfold prune_horizon. repeat case_match; lia. }
  split_and!; [| | |done].
  - apply count_where_filter. unfold Attempts.username_failure. intros r.
    rewrite !andb_true_iff, !negb_true_iff, Z.leb_le, Z.ltb_ge. lia.
  - apply count_where_filter. unfold Attempts.ip_failure. intros r.
    rewrite !andb_true_iff, !negb_true_iff, Z.leb_le, Z.ltb_ge. lia.
  - intros g -> Hg. apply count_where_filter. unfold Attempts.ip_registration. intros r.
    rewrite !andb_true_iff, !negb_true_iff, Z.leb_le, Z.ltb_ge.
    unfold prune_horizon in *. rewrite Hg in *. lia.
Qed.
