(* ===== verification/Login.v ===== *)
(** * Login and open registration

    [identity/application/login.py] and [RegisterUser] of
    [identity/application/register_user.py]: the use cases that combine the
    accounts, the sessions and the brute-force store.  A login checks the
    credentials in one transaction and stores the session in another; the two
    are separate definitions, so that anything may be placed between them. *)
From Stdlib Require Import ZArith NArith Lia String.
From stdpp Require Import base gmap strings list fin_maps.
From S2P Require Import Prelude PyString Uow Uuid Calendar IdentityStore PasswordPolicy.
From S2P Require Import Accounts Sessions BruteForce.

Open Scope Z_scope.

(** The identity tables and the brute-force tables commit independently. *)
Record World := { w_db : Db; w_store : Store }.

Abbreviation WM := (M World identity_error).

Definition on_db {A} (m : IM A) : WM A := fun w =>
  let '(r, db) := m w.(w_db) in (r, {| w_db := db; w_store := w.(w_store) |}).

Definition on_store {A} (m : Attempts.SM A) : WM A := fun w =>
  let '(r, s) := m w.(w_store) in (r, {| w_db := w.(w_db); w_store := s |}).

(** [math.ceil(d.total_seconds())] and [int(d.total_seconds())]. *)
Definition ceil_seconds (d : timedelta) : Z := - ((- d) / second).
Definition int_seconds (d : timedelta) : Z := Z.quot d second.

Section Login.
Context `{PyStr, PyChar}.
Context (verify : string -> string -> bool).
Context (brute_force : BruteForceConfig) (registration : option RegistrationConfig).
Context (refresh_ttl : timedelta).

Definition _blocked_reason (username : string) (ip : option string) (now : datetime)
    : WM (option (failure_reason * Z)) :=
  throttled ← match ip with
              | Some ip =>
                  ip_failures ← on_store (Attempts.count_ip_failures ip
                                            (now - brute_force.(BruteForce.ip_window)));
                  mret (brute_force.(BruteForce.ip_threshold) <=? ip_failures)
              | None => mret false
              end;
  if (throttled : bool) then
    mret (Some (REASON_IP_THROTTLED, int_seconds brute_force.(BruteForce.ip_window)))
  else
    lockout ← on_store (Attempts.get_lockout username);
    match lockout with
    | Some l =>
        match l.(locked_until) with
        | Some until =>
            if is_locked (Some until) now
            then mret (Some (REASON_LOCKED, Z.max 1 (ceil_seconds (until - now))))
            else mret None
        | None => mret None
        end
    | None => mret None
    end.

Definition _maybe_lock (username : string) (now : datetime) : WM unit :=
  existing ← on_store (Attempts.get_lockout username);
  if is_locked (existing ≫= locked_until) now then mret tt
  else
    failures ← on_store (Attempts.count_username_failures username
                           (now - brute_force.(username_window)));
    if failures <? brute_force.(username_threshold) then mret tt
    else
      let prior := match existing with Some l => l.(lockout_count) | None => 0 end in
      let duration := backoff_duration prior brute_force.(lockout_base) brute_force.(lockout_max) in
      let cap := backoff_cap_count brute_force.(lockout_base) brute_force.(lockout_max) in
      on_store (Attempts.lock username (now + duration) (Z.min (prior + 1) cap)).

Definition _fail {A} (username : string) (ip : option string) (reason : failure_reason)
    (now : datetime) (retry_after : option Z) : WM A :=
  _ ← (if brute_force.(bf_enabled) then
         _ ← on_store (Attempts.record_attempt username ip false (Some reason) now);
         _maybe_lock username now
       else mret tt);
  raise (InvalidCredentialsError retry_after).

Definition _refusal (checked : User) (current : option User) : option failure_reason :=
  match current with
  | None => Some REASON_UNKNOWN_USER
  | Some c =>
      if negb (String.eqb c.(us_password_hash) checked.(us_password_hash))
      then Some REASON_WRONG_PASSWORD
      else if negb c.(us_active) then Some REASON_DEACTIVATED else None
  end.

(** The call up to the end of its first transaction. *)
Definition login_check (name : Username) (password : string) (ip : option string)
    (now : datetime) : WM User :=
  let username := key name in
  _ ← (if brute_force.(bf_enabled) then
         blocked ← _blocked_reason username ip now;
         match blocked with
         | Some (reason, retry_after) => _fail username ip reason now (Some retry_after)
         | None => mret tt
         end
       else mret tt);
  user ← on_db (uow (on (Users.get_by_username name)));
  match user with
  | None => _fail username ip REASON_UNKNOWN_USER now None
  | Some user =>
      if negb (verify password user.(us_password_hash))
      then _fail username ip REASON_WRONG_PASSWORD now None
      else if negb user.(us_active) then _fail username ip REASON_DEACTIVATED now None
      else mret user
  end.

(** The session's transaction, under the user's session lock. *)
Definition login_session (user : User) (f : fresh) (chain_id : uuid) (now : datetime)
    : IM (failure_reason + TokenPair) :=
  uow (
    current ← on (Users.get_by_id user.(us_id));
    match _refusal user current with
    | Some refusal => mret (inl refusal)
    | None =>
        issued ← issue_token_pair f user.(us_id) chain_id now refresh_ttl;
        _ ← commit;
        mret (inr issued)
    end).

Definition login_store (name : Username) (user : User) (ip : option string) (f : fresh)
    (chain_id : uuid) (now : datetime) : WM (TokenPair * uuid) :=
  let username := key name in
  outcome ← on_db (login_session user f chain_id now);
  match outcome with
  | inl refusal => _fail username ip refusal now None
  | inr issued =>
      _ ← (if brute_force.(bf_enabled) then
             _ ← on_store (Attempts.record_attempt username ip true None now);
             _ ← on_store (Attempts.clear_lockout username);
             on_store (Attempts.prune_attempts (now - prune_horizon brute_force registration))
           else mret tt);
      mret (issued, user.(us_id))
  end.

Definition Login (username password : string) (ip : option string) (f : fresh) (chain_id : uuid)
    (now : datetime) : WM (TokenPair * uuid) :=
  name ← lift (Username_new username);
  user ← login_check name password ip now;
  login_store name user ip f chain_id now.

(** ** Open registration *)

Definition _enforce_ip_limit (reg : RegistrationConfig) (ip : option string) (now : datetime)
    : WM unit :=
  match ip with
  | Some ip =>
      if reg.(reg_ip_limit_enabled) then
        count ← on_store (Attempts.count_ip_registrations ip (now - reg.(reg_ip_window)));
        if reg.(reg_ip_threshold) <=? count then raise RegistrationThrottledError
        else on_store (Attempts.record_registration ip now)
      else mret tt
  | None => mret tt
  end.

Definition _users_exist : WM bool :=
  n ← on_db (uow (on Users.count_all));
  mret (0 <? n).

Definition RegisterUser (policy : PasswordPolicy) (reg : RegistrationConfig)
    (username email password : string) (ip : option string) (user_id : uuid)
    (password_hash : string) (now : datetime) : WM User :=
  exist ← (if reg.(reg_open) then mret false else _users_exist);
  _ ← guard_not exist RegistrationDisabledError;
  _ ← (if reg.(reg_open) then _enforce_ip_limit reg ip now else mret tt);
  on_db (persist_new_user policy username email password user_id password_hash now reg.(reg_open)).
End Login.

(** ** Every transaction of the context *)

Section IdentityRuns.
Context `{PyStr, PyChar}.
Context (verify : string -> string -> bool) (hash_refresh_token : string -> string).

Inductive identity_op :=
| OpAccount (op : account_op)
| OpSession (op : session_op)
| OpLoginSession (refresh_ttl : timedelta) (user : User) (f : fresh) (chain_id : uuid)
    (now : datetime).

Definition run_identity (op : identity_op) (db : Db) : Db :=
  match op with
  | OpAccount op => run_account verify op db
  | OpSession op => run_session hash_refresh_token op db
  | OpLoginSession ttl user f chain_id now => snd (login_session ttl user f chain_id now db)
  end.

Definition run_all (ops : list identity_op) (db : Db) : Db := foldl (fun db op => run_identity op db) db ops.

(** The hash a transaction may newly store; the token service draws it at random. *)
Definition op_fresh (op : identity_op) : option string :=
  match op with
  | OpAccount _ => None
  | OpSession op => session_fresh op
  | OpLoginSession _ _ f _ _ => Some f.(fr_token_hash)
  end.

Definition no_collision (h : string) (ops : list identity_op) : Prop :=
  Forall (fun op => op_fresh op <> Some h) ops.

(** The token rows change by a family revocation, a cascade, or not at all. *)
Inductive cascade (m : gmap string RefreshToken) : gmap string RefreshToken -> Prop :=
| cascade_same : cascade m m
| cascade_family u now :
    cascade m (Tokens.revoke_scope (Tokens.of_user u) now REVOKED_FAMILY <$> m)
| cascade_delete u now :
    cascade m (filter (fun kt : string * RefreshToken => kt.2.(rt_user_id) <> u)
                 (Tokens.revoke_scope (Tokens.of_user u) now REVOKED_FAMILY <$> m)).

Lemma cascade_evolves m m' h : cascade m m' -> evolves h m m'.
Proof.
  intros []; [done|by apply evolves_revoke_scope|].
  etransitivity; [|apply evolves_filter]. by apply evolves_revoke_scope.
Qed.

Lemma cascade_wf m m' : cascade m m' -> tokens_wf m -> tokens_wf m'.
Proof. intros [] ?; [done|by apply tokens_wf_scope|by apply tokens_wf_filter, tokens_wf_scope]. Qed.

Lemma run_account_cascade op db :
  cascade db.(refresh_tokens) (run_account verify op db).(refresh_tokens).
Proof.
  destruct op; simpl;
    unfold persist_new_user, UpdateProfile, ChangePassword, change_password_check,
      SetUserActive, SetPlatformAdmin, DeleteAccount, AdminDeleteUser, AuthenticateRequest;
    unfold change_password_write, delete_locked, last_admin_guard; run_tx;
    repeat (case_match; simplify_eq/=); constructor.
Qed.

Lemma login_session_cases ttl user f chain_id now db r db' :
  login_session ttl user f chain_id now db = (r, db') ->
  match r with
  | Ok (inr p) => exists current,
      db.(users) !! user.(us_id) = Some current
      /\ current.(us_password_hash) = user.(us_password_hash) /\ current.(us_active) = true
      /\ db.(refresh_tokens) !! f.(fr_token_hash) = None
      /\ p = {| access_token := f.(fr_access_token); refresh_token := f.(fr_secret) |}
      /\ db' = set_tokens <[f.(fr_token_hash) :=
           {| rt_id := f.(fr_token_id); rt_user_id := user.(us_id); rt_chain_id := chain_id;
              rt_token_hash := f.(fr_token_hash); rt_issued_at := now;
              rt_expires_at := now + ttl; rt_revoked_at := None; rt_revoked_reason := None |}]> db
  | _ => db' = db
  end.
Proof.
  unfold login_session, issue_token_pair. run_tx. unfold _refusal.
  destruct (users db !! us_id user) as [c|] eqn:Ec; [|by intros [= <- <-]].
  destruct (String.eqb_spec (us_password_hash c) (us_password_hash user)); simpl;
    [|by intros [= <- <-]].
  destruct (us_active c) eqn:Ea; simpl; [|by intros [= <- <-]].
  cbn [rt_token_hash rt_user_id]. destruct (_ !! fr_token_hash f) eqn:En; [by intros [= <- <-]|].
  destruct (any_row _ _); [by intros [= <- <-]|]. rewrite Ec. intros [= <- <-]. by exists c.
Qed.

Lemma run_identity_evolves op db h :
  tokens_wf db.(refresh_tokens) -> op_fresh op <> Some h ->
  evolves h db.(refresh_tokens) (run_identity op db).(refresh_tokens)
  /\ tokens_wf (run_identity op db).(refresh_tokens).
Proof.
  intros Hwf Hh. destruct op as [op|op|ttl user f chain_id now]; simpl in *.
  - pose proof (run_account_cascade op db). split; [by apply cascade_evolves|by eapply cascade_wf].
  - by apply run_session_evolves.
  - destruct (login_session _ _ _ _ _ _) as [r db'] eqn:E. apply login_session_cases in E.
    destruct r as [[?|p]|?]; simpl; try by rewrite E.
    destruct E as (c & _ & _ & _ & _ & _ & ->). simpl.
    split; [apply evolves_insert; congruence|refine (tokens_wf_insert _ (Build_RefreshToken _ _ _ (fr_token_hash f) _ _ _ _) Hwf _); done].
Qed.

Lemma run_all_evolves ops : forall db h,
  tokens_wf db.(refresh_tokens) -> no_collision h ops ->
  evolves h db.(refresh_tokens) (run_all ops db).(refresh_tokens)
  /\ tokens_wf (run_all ops db).(refresh_tokens).
Proof.
  induction ops as [|op ops IH]; intros db h Hwf Hh; simpl; [done|].
  inversion Hh as [|? ? Hop Hops]; subst.
  destruct (run_identity_evolves op db h Hwf Hop) as [Hev Hwf'].
  destruct (IH (run_identity op db) h Hwf' Hops) as [Hev2 Hwf2].
  split; [by etransitivity|done].
Qed.
End IdentityRuns.

(** ** Revocation is final *)

Section Finality.
Context `{PyStr, PyChar}.
Context (verify : string -> string -> bool) (hash_refresh_token : string -> string).

(** No later presentation of the token [secret] is answered with a new pair,
    whatever the cookie, the configured lifetimes and the instant. *)
Definition never_refreshes (secret : string) (db : Db) : Prop :=
  forall ttl grace f cookie now,
    is_ok (fst (RefreshSession hash_refresh_token ttl grace f secret cookie now db)) = false.

Lemma dead_is_final ops db secret t :
  tokens_wf db.(refresh_tokens) -> no_collision (hash_refresh_token secret) ops ->
  db.(refresh_tokens) !! hash_refresh_token secret = Some t -> dead t ->
  never_refreshes secret (run_all verify hash_refresh_token ops db).
Proof.
  intros Hwf Hnc Ht Hd ttl grace f cookie now.
  destruct (run_all_evolves verify hash_refresh_token ops db _ Hwf Hnc) as [Hev _].
  unfold evolves in Hev. rewrite Ht in Hev.
  destruct (refresh_tokens (run_all _ _ _ _) !! _) as [t'|] eqn:Et'.
  - apply dead_not_refreshed with t'; [done|]. by rewrite (token_le_dead t t' Hev Hd).
  - by apply absent_not_refreshed.
Qed.

Lemma revoke_scope_dead scope at_ reason t :
  (t.(rt_revoked_at) = None <-> t.(rt_revoked_reason) = None) ->
  reason <> REVOKED_ROTATED -> scope t = true -> dead (Tokens.revoke_scope scope at_ reason t).
Proof.
  intros Hwf Hr Hs. unfold Tokens.revoke_scope. rewrite Hs. simpl.
  destruct (Tokens.unrevoked_or_rotated t) eqn:E.
  - split; simpl; [by eexists|congruence].
  - unfold Tokens.unrevoked_or_rotated in E. apply orb_false_iff in E as [E1 E2].
    apply bool_decide_eq_false in E1, E2. split; [|done].
    destruct (rt_revoked_at t); [by eexists|done].
Qed.

Lemma scope_final ops db m scope at_ reason secret t :
  tokens_wf m -> reason <> REVOKED_ROTATED ->
  db.(refresh_tokens) = Tokens.revoke_scope scope at_ reason <$> m ->
  no_collision (hash_refresh_token secret) ops ->
  m !! hash_refresh_token secret = Some t -> scope t = true ->
  never_refreshes secret (run_all verify hash_refresh_token ops db).
Proof.
  intros Hwf Hr Hdb Hnc Ht Hs. eapply dead_is_final; [|done| |].
  - rewrite Hdb. by apply tokens_wf_scope.
  - rewrite Hdb, lookup_fmap, Ht. done.
  - apply revoke_scope_dead; [|done|done]. by apply Hwf in Ht as [_ ?].
Qed.

(** C11: A replay detected as theft ends every session its user had: none of the
    tokens stored at that instant is ever refreshed again. *)
Theorem theft_ends_every_session ops db db1 ttl grace f token cookie now user_id secret t :
  tokens_wf db.(refresh_tokens) ->
  RefreshSession hash_refresh_token ttl grace f token cookie now db
    = (Err (RefreshTokenReuseError user_id), db1) ->
  no_collision (hash_refresh_token secret) ops ->
  db.(refresh_tokens) !! hash_refresh_token secret = Some t -> t.(rt_user_id) = user_id ->
  never_refreshes secret (run_all verify hash_refresh_token ops db1).
Proof.
  intros Hwf Hr Hnc Ht Hu. apply RefreshSession_cases in Hr as (t0 & _ & _ & _ & _ & ->).
  eapply scope_final; [exact Hwf| |reflexivity|done|exact Ht|]; [done|].
  by apply bool_decide_eq_true.
Qed.

(** A logout ends the presented token's session: no token of its rotation
    chain, successors included, is ever refreshed again; tokens of other chains
    are untouched when no cookie is superseded. *)
Theorem logout_ends_session ops db token now t0 :
  tokens_wf db.(refresh_tokens) ->
  db.(refresh_tokens) !! hash_refresh_token token = Some t0 ->
  let db1 := snd (Logout hash_refresh_token token None now db) in
  (forall secret t, no_collision (hash_refresh_token secret) ops ->
     db.(refresh_tokens) !! hash_refresh_token secret = Some t ->
     t.(rt_chain_id) = t0.(rt_chain_id) ->
     never_refreshes secret (run_all verify hash_refresh_token ops db1))
  /\ (forall h t, db.(refresh_tokens) !! h = Some t -> t.(rt_chain_id) <> t0.(rt_chain_id) ->
      db1.(refresh_tokens) !! h = Some t).
Proof.
  intros Hwf Ht0 db1. subst db1. rewrite Logout_run, Ht0. simpl. split.
  - intros secret t Hnc Ht Hc. eapply scope_final; [exact Hwf| |reflexivity|done|exact Ht|]; [done|].
    by apply bool_decide_eq_true.
  - intros h t Ht Hc. rewrite lookup_fmap, Ht. simpl. unfold Tokens.revoke_scope, Tokens.in_chain.
    by rewrite bool_decide_eq_false_2.
Qed.

(** The grace window closes for good: re-presenting a rotated token never moves
    its rotation instant, so past [r + grace] it is refused after any run. *)
Theorem grace_never_rolls ops db secret t r ttl grace f cookie now :
  tokens_wf db.(refresh_tokens) -> no_collision (hash_refresh_token secret) ops ->
  db.(refresh_tokens) !! hash_refresh_token secret = Some t -> t.(rt_revoked_at) = Some r ->
  r + grace < now ->
  is_ok (fst (RefreshSession hash_refresh_token ttl grace f secret cookie now
                (run_all verify hash_refresh_token ops db))) = false.
Proof.
  intros Hwf Hnc Ht Hr Hnow.
  destruct (run_all_evolves verify hash_refresh_token ops db _ Hwf Hnc) as [Hev _].
  unfold evolves in Hev. rewrite Ht in Hev.
  destruct (RefreshSession _ _ _ _ _ _ _ (run_all _ _ _ _)) as [res db'] eqn:E.
  apply RefreshSession_cases in E. destruct res as [p|e]; [|done].
  destruct E as (t' & Ht' & _ & _ & Hre & _). rewrite Ht' in Hev.
  pose proof (token_le_revoked_at _ _ _ Hev Hr) as Hr'.
  apply is_reuse_false in Hre as [?|(r' & ? & _ & ?)]; [congruence|]. simplify_eq. lia.
Qed.

Lemma ChangePassword_ok policy user_id current new new_hash now db db1 :
  users_wf db.(users) ->
  ChangePassword verify policy user_id current new new_hash now db = (Ok tt, db1) ->
  exists u u', db.(users) !! user_id = Some u /\ verify current u.(us_password_hash) = true
    /\ validate policy new u.(us_username) u.(us_email) = Ok tt
    /\ db1.(users) !! user_id = Some u' /\ u'.(us_password_hash) = new_hash
    /\ db1.(refresh_tokens)
       = Tokens.revoke_scope (Tokens.of_user user_id) now REVOKED_FAMILY <$> db.(refresh_tokens).
Proof.
  intros [Hid _]. unfold ChangePassword, change_password_check, change_password_write. run_tx.
  destruct (users db !! user_id) as [u|] eqn:Eu; [|done]. pose proof (Hid _ _ Eu) as Hu.
  destruct (verify current (us_password_hash u)) eqn:Ev; simpl; [|done].
  destruct (validate policy new (us_username u) (us_email u)) as [[]|] eqn:Evl; [|done].
  simpl. rewrite Hu, Eu, String.eqb_refl. simpl. intros [= <-]. simpl. eexists u, _.
  rewrite lookup_insert_eq. done.
Qed.

(** C24: A password change ends every session of the user and beats every login in
    flight: tokens stored before it never refresh again, and a login whose
    credentials were checked against another hash stores no session after it. *)
Theorem password_change_ends_sessions ops db db1 policy user_id current new new_hash now :
  users_wf db.(users) -> tokens_wf db.(refresh_tokens) ->
  ChangePassword verify policy user_id current new new_hash now db = (Ok tt, db1) ->
  (forall secret t, no_collision (hash_refresh_token secret) ops ->
     db.(refresh_tokens) !! hash_refresh_token secret = Some t -> t.(rt_user_id) = user_id ->
     never_refreshes secret (run_all verify hash_refresh_token ops db1))
  /\ (forall ttl checked f chain_id at_, checked.(us_id) = user_id ->
      checked.(us_password_hash) <> new_hash ->
      login_session ttl checked f chain_id at_ db1 = (Ok (inl REASON_WRONG_PASSWORD), db1)).
Proof.
  intros Hu Hwf Hc. destruct (ChangePassword_ok _ _ _ _ _ _ _ _ Hu Hc)
    as (u & u' & _ & _ & _ & Hu' & Hh & Htok). split.
  - intros secret t Hnc Ht Hut.
    eapply scope_final; [exact Hwf| |exact Htok|done|exact Ht|]; [done|by apply bool_decide_eq_true].
  - intros ttl checked f chain_id at_ Hid Hne. unfold login_session, _refusal. run_tx.
    rewrite Hid, Hu', Hh. by rewrite (proj2 (String.eqb_neq _ _)) by congruence.
Qed.

(** A deactivation ends every session of the user, refuses logins in flight, and
    every request until the account is reactivated. *)
Theorem deactivation_ends_sessions ops db db1 actor_id target_id now :
  users_wf db.(users) -> tokens_wf db.(refresh_tokens) ->
  SetUserActive actor_id target_id false now db = (Ok tt, db1) ->
  (forall secret t, no_collision (hash_refresh_token secret) ops ->
     db.(refresh_tokens) !! hash_refresh_token secret = Some t -> t.(rt_user_id) = target_id ->
     never_refreshes secret (run_all verify hash_refresh_token ops db1))
  /\ (forall ttl checked f chain_id at_, checked.(us_id) = target_id ->
      exists reason, login_session ttl checked f chain_id at_ db1 = (Ok (inl reason), db1))
  /\ (forall expires_at,
      fst (AuthenticateRequest (Ok (target_id, expires_at)) db1) = Err InvalidAccessTokenError).
Proof.
  intros [Hid _] Hwf Hc. unfold SetUserActive, last_admin_guard in Hc. revert Hc. run_tx.
  case_bool_decide; simpl; [done|].
  destruct (users db !! target_id) as [u|] eqn:Eu; [|done]. pose proof (Hid _ _ Eu) as Hu.
  destruct (_ && _ && _); simpl; [done|]. rewrite Hu, Eu. simpl. intros [= <-]. split_and!.
  - intros secret t Hnc Ht Hut.
    eapply scope_final; [exact Hwf| |reflexivity|done|exact Ht|]; [done|by apply bool_decide_eq_true].
  - intros ttl checked f chain_id at_ Hch. unfold login_session, _refusal. run_tx.
    rewrite Hch, lookup_insert_eq. simpl. destruct (negb _); eauto.
  - intros e. unfold AuthenticateRequest. run_tx. by rewrite lookup_insert_eq.
Qed.
End Finality.

(** ** Lockout *)

Section Lockout.
Context `{PyStr, PyChar}.
Context (verify : string -> string -> bool).
Context (brute_force : BruteForceConfig) (registration : option RegistrationConfig).
Context (refresh_ttl : timedelta).

Abbreviation lockouts w := (account_lockouts (w_store w)).

Ltac run_world :=
  cbv [on_db on_store mbind mret M_bind M_ret lift raise gets modify guard_not
       Attempts.record_attempt Attempts.append Attempts.count_username_failures
       Attempts.count_ip_failures Attempts.get_lockout Attempts.lock Attempts.clear_lockout
       Attempts.prune_attempts];
  cbn [fst snd w_db w_store login_attempts account_lockouts].

(** The row a failure appends, and the lockout it may start. *)
Definition failure_row (k : string) (ip : option string) (reason : failure_reason)
    (now : datetime) : LoginAttempt :=
  {| la_username := k; la_ip := ip; la_success := false; la_failure_reason := Some reason;
     la_created_at := now |}.

Definition prior_count (w : World) (k : string) : Z :=
  match lockouts w !! k with Some l => l.(lockout_count) | None => 0 end.

Definition next_lockout (w : World) (k : string) (now : datetime) : Lockout :=
  {| locked_until := Some (now + backoff_duration (prior_count w k) brute_force.(lockout_base)
                                   brute_force.(lockout_max));
     lockout_count := Z.min (prior_count w k + 1)
                        (backoff_cap_count brute_force.(lockout_base) brute_force.(lockout_max)) |}.

Definition locked_at (w : World) (k : string) (now : datetime) : bool :=
  is_locked (lockouts w !! k ≫= locked_until) now.

Definition failures (w : World) (k : string) (now : datetime) : Z :=
  Attempts.count_where (Attempts.username_failure k (now - brute_force.(username_window)))
    (w_store w).(login_attempts).

Lemma fail_run {A} k ip reason now retry w :
  exists w', _fail (A := A) brute_force k ip reason now retry w
             = (Err (InvalidCredentialsError retry), w')
    /\ w_db w' = w_db w
    /\ (brute_force.(bf_enabled) = true ->
        (w_store w').(login_attempts) = (w_store w).(login_attempts) ++ [failure_row k ip reason now]
        /\ lockouts w' =
             (if locked_at w k now || (failures w' k now <? brute_force.(username_threshold))
              then lockouts w else <[k := next_lockout w k now]> (lockouts w)))
    /\ (brute_force.(bf_enabled) = false -> w' = w).
Proof.
  unfold _fail, _maybe_lock, locked_at, failures, next_lockout, prior_count.
  destruct w as [db [rows locks]]. run_world. destruct (bf_enabled brute_force).
  2:{ eexists. split; [reflexivity|]. done. }
  cbn. destruct (is_locked _ now) eqn:El.
  { eexists. split; [reflexivity|]. cbn. by rewrite ?El. }
  destruct (_ <? _) eqn:Ef; cbn in Ef; (eexists; split; [reflexivity|]); cbn; by rewrite ?El, ?Ef.
Qed.

(** A failure leaves the other accounts' lockouts alone, and an active one. *)
Lemma fail_keeps {A} k ip reason now retry w k' l :
  lockouts w !! k' = Some l -> k' <> k \/ is_locked l.(locked_until) now = true ->
  lockouts (snd (_fail (A := A) brute_force k ip reason now retry w)) !! k' = Some l.
Proof.
  intros Hl Hk. destruct (fail_run (A := A) k ip reason now retry w) as (w' & -> & _ & He & Hd).
  simpl. destruct (bf_enabled brute_force); [|by rewrite (Hd eq_refl)].
  destruct (He eq_refl) as [_ ->]. destruct (locked_at w k now || _) eqn:E; [done|].
  apply orb_false_iff in E as [E _]. rewrite lookup_insert_ne; [done|]. intros <-.
  destruct Hk as [?|Hk]; [done|]. unfold locked_at in E. rewrite Hl in E. simpl in E. congruence.
Qed.

Lemma fail_db {A} k ip reason now retry w :
  w_db (snd (_fail (A := A) brute_force k ip reason now retry w)) = w_db w
  /\ is_ok (fst (_fail (A := A) brute_force k ip reason now retry w)) = false.
Proof. by destruct (fail_run (A := A) k ip reason now retry w) as (w' & -> & ? & _). Qed.

Record login_call := {
  lc_username : string;
  lc_password : string;
  lc_ip : option string;
  lc_fresh : fresh;
  lc_chain : uuid;
  lc_now : datetime
}.

Definition login (c : login_call) : WM (TokenPair * uuid) :=
  Login verify brute_force registration refresh_ttl c.(lc_username) c.(lc_password) c.(lc_ip)
    c.(lc_fresh) c.(lc_chain) c.(lc_now).

(** The call is for the account [k]. *)
Definition targets (k : string) (c : login_call) : Prop :=
  exists name, Username_new c.(lc_username) = Ok name /\ key name = k.

Lemma blocked_reason_run k ip now w :
  exists b, _blocked_reason brute_force k ip now w = (Ok b, w)
    /\ (locked_at w k now = true -> b <> None).
Proof.
  unfold _blocked_reason, locked_at. destruct w as [db [rows locks]]. run_world.
  destruct ip as [ip|]; cbn; [case_match; [by eexists|]|]; cbn;
    (destruct (locks !! k) as [l|]; cbn; [|by eexists]);
    (destruct (locked_until l) as [t|]; cbn; [|by eexists]);
    destruct (now <? t); by eexists.
Qed.

Lemma fail_eq {A} k ip reason now retry w :
  _fail (A := A) brute_force k ip reason now retry w
  = (Err (InvalidCredentialsError retry),
     snd (_fail (A := unit) brute_force k ip reason now retry w)).
Proof.
  destruct (fail_run (A := unit) k ip reason now retry w) as (w' & E & _). rewrite E. revert E.
  unfold _fail. unfold mbind, M_bind, raise.
  match goal with |- context [match ?x with (_, _) => _ end] => destruct x as [[?|?] ?] end;
    intros; by simplify_eq/=.
Qed.

(** A check fails through the common exit or leaves everything as it was. *)
Lemma login_check_run name password ip now w :
  (exists reason retry, login_check verify brute_force name password ip now w
                        = _fail brute_force (key name) ip reason now retry w)
  \/ (exists user, login_check verify brute_force name password ip now w = (Ok user, w)
       /\ (brute_force.(bf_enabled) = true -> locked_at w (key name) now = false)
       /\ find_row (fun v => String.eqb (str_lower v.(us_username).(un_value))
                                        (str_lower name.(un_value))) (w_db w).(users) = Some user
       /\ verify password user.(us_password_hash) = true /\ user.(us_active) = true).
Proof.
  unfold login_check.
  destruct (blocked_reason_run (key name) ip now w) as (b & Hb & Hlk).
  assert (Hfind : on_db (uow (on (Users.get_by_username name))) w
    = (Ok (find_row (fun v => String.eqb (str_lower v.(us_username).(un_value))
                                         (str_lower name.(un_value))) (w_db w).(users)), w)).
  { unfold on_db. rewrite uow_read. by destruct w. }
  set (rest := mbind _ (on_db _)).
  assert (Hrest : (exists reason retry, rest w = _fail brute_force (key name) ip reason now retry w)
     \/ (exists user, rest w = (Ok user, w)
       /\ find_row (fun v => String.eqb (str_lower v.(us_username).(un_value))
                                        (str_lower name.(un_value))) (w_db w).(users) = Some user
       /\ verify password user.(us_password_hash) = true /\ user.(us_active) = true)).
  { unfold rest. rewrite (M_bind_run _ _ _ _ _ Hfind).
    destruct (find_row _ _) as [user|]; [|left; by eexists _, _].
    destruct (verify password (us_password_hash user)) eqn:Ev; simpl; [|left; by eexists _, _].
    destruct (us_active user) eqn:Ea; simpl; [|left; by eexists _, _]. right. by exists user. }
  clearbody rest. destruct (bf_enabled brute_force) eqn:He.
  - destruct b as [[reason retry]|].
    + left. exists reason, (Some retry). rewrite (fail_eq (A := User)).
      apply (M_bind_run _ (fun _ => rest) w (Err (InvalidCredentialsError (Some retry)))).
      rewrite (M_bind_run _ _ _ _ _ Hb). apply (fail_eq (A := unit)).
    + rewrite (M_bind_run _ _ w (Ok tt) w); [|by rewrite (M_bind_run _ _ _ _ _ Hb)].
      destruct Hrest as [?|(user & ? & ?)]; [by left|right]. exists user. split; [done|].
      split; [|done]. intros _. destruct (locked_at w (key name) now); [|done]. by destruct Hlk.
  - rewrite (M_bind_run _ _ w (Ok tt) w) by done.
    destruct Hrest as [?|(user & ? & ?)]; [by left|right]. by exists user.
Qed.

(** What the storing half does to the lockouts: a failure, a success that clears
    the account's own, or nothing. *)
Lemma login_store_run name user ip f chain_id now w :
  let out := login_store brute_force registration refresh_ttl name user ip f chain_id now w in
  (exists reason, out = _fail brute_force (key name) ip reason now None w)
  \/ (is_ok (fst out) = false /\ snd out = w)
  \/ (lockouts (snd out) = if bf_enabled brute_force then delete (key name) (lockouts w)
                           else lockouts w).
Proof.
  unfold login_store. destruct (login_session refresh_ttl user f chain_id now (w_db w)) as [r db'] eqn:E.
  assert (Hon : on_db (login_session refresh_ttl user f chain_id now) w
                = (r, {| w_db := db'; w_store := w_store w |})) by (unfold on_db; by rewrite E).
  cbv zeta. rewrite (M_bind_run _ _ _ _ _ Hon). apply login_session_cases in E.
  destruct r as [[reason|p]|e].
  - left. exists reason. subst. by destruct w.
  - right; right. run_world. by destruct (bf_enabled brute_force).
  - right; left. subst. by destruct w.
Qed.

(** The account [k] is locked until [t]. *)
Definition locked_until_at (w : World) (k : string) (t : datetime) : Prop :=
  exists l, lockouts w !! k = Some l /\ l.(locked_until) = Some t.

Lemma login_locked c w k t :
  brute_force.(bf_enabled) = true ->
  locked_until_at w k t -> c.(lc_now) < t ->
  locked_until_at (snd (login c w)) k t /\ (targets k c -> is_ok (fst (login c w)) = false).
Proof.
  intros He (l & Hl & Ht) Hnow.
  assert (Hlk : is_locked l.(locked_until) c.(lc_now) = true) by (rewrite Ht; by apply Z.ltb_lt).
  assert (Hfail : forall A k' ip reason retry,
    locked_until_at (snd (_fail (A := A) brute_force k' ip reason c.(lc_now) retry w)) k t).
  { intros A k' ip reason retry. exists l. split; [|done]. apply fail_keeps; auto. }
  unfold login, Login. destruct (Username_new (lc_username c)) as [name|e] eqn:En.
  2:{ cbn. split; [by exists l|]. by intros (name & Hn & _). }
  rewrite (M_bind_run (lift (Ok name)) _ w (Ok name) w) by done.
  destruct (login_check_run name (lc_password c) (lc_ip c) (lc_now c) w)
    as [(reason & retry & E)|(user & E & Hnl & _)].
  - rewrite fail_eq in E. rewrite (M_bind_run _ _ _ _ _ E). cbn. split; [apply Hfail|done].
  - rewrite (M_bind_run _ _ _ _ _ E). specialize (Hnl He).
    assert (Hk : key name <> k).
    { intros <-. unfold locked_at in Hnl. rewrite Hl in Hnl. simpl in Hnl. congruence. }
    split.
    + destruct (login_store_run name user (lc_ip c) (lc_fresh c) (lc_chain c) (lc_now c) w)
        as [(reason & ->)|[[_ ->]|Hd]]; [apply Hfail|by exists l|].
      exists l. split; [|done]. rewrite Hd, He. by rewrite lookup_delete_ne.
    + intros (name' & Hn' & Hk'). rewrite En in Hn'. injection Hn' as ->. done.
Qed.

(** A run of login calls, with the calls that were granted a session. *)
Fixpoint run_logins (calls : list login_call) (w : World) : list login_call * World :=
  match calls with
  | [] => ([], w)
  | c :: calls' =>
      let '(r, w1) := login c w in
      let '(granted, w2) := run_logins calls' w1 in
      (if is_ok r then c :: granted else granted, w2)
  end.

Lemma run_logins_locked calls : forall w k t,
  brute_force.(bf_enabled) = true -> locked_until_at w k t ->
  Forall (fun c => c.(lc_now) < t) calls ->
  locked_until_at (snd (run_logins calls w)) k t
  /\ forall c, c ∈ fst (run_logins calls w) -> ~ targets k c.
Proof.
  induction calls as [|c calls IH]; intros w k t He Hl Ht; simpl.
  { split; [done|]. by intros c ?%not_elem_of_nil. }
  inversion Ht as [|? ? Hc Hcs]; subst. destruct (login_locked c w k t He Hl Hc) as [Hl1 Hno].
  destruct (login c w) as [r w1]. simpl in *. destruct (IH w1 k t He Hl1 Hcs) as [Hl2 Hno2].
  destruct (run_logins calls w1) as [granted w2]. simpl in *. split; [done|].
  intros c'. destruct (is_ok r) eqn:Hr; [|apply Hno2].
  intros [->|Hin]%elem_of_cons; [|by apply Hno2]. intros Htg. by specialize (Hno Htg).
Qed.

(** While an account is locked no login for it is granted, whatever the
    password, however logins of this and other accounts interleave, and none of
    them shortens the lockout. *)
Theorem locked_account_grants_nothing calls w k t :
  brute_force.(bf_enabled) = true -> locked_until_at w k t ->
  Forall (fun c => c.(lc_now) < t) calls ->
  locked_until_at (snd (run_logins calls w)) k t
  /\ forall c, c ∈ fst (run_logins calls w) -> ~ targets k c.
Proof. apply run_logins_locked. Qed.

End Lockout.

(** ** The back-off count *)

Section Saturation.
Context `{PyStr, PyChar}.
Context (verify : string -> string -> bool).
Context (brute_force : BruteForceConfig) (registration : option RegistrationConfig).
Context (refresh_ttl : timedelta).

Definition counts_bounded (w : World) : Prop :=
  forall k l, (account_lockouts (w_store w)) !! k = Some l ->
    0 <= l.(lockout_count) <= backoff_cap_count brute_force.(lockout_base) brute_force.(lockout_max).

Lemma cap_positive :
  config_valid brute_force = true ->
  1 <= backoff_cap_count brute_force.(lockout_base) brute_force.(lockout_max).
Proof.
  unfold config_valid. rewrite !andb_true_iff. intros Hv.
  assert (0 < lockout_max brute_force / lockout_base brute_force) by (apply Z.div_str_pos; lia).
  unfold backoff_cap_count, bit_length. destruct (Z.eqb_spec (lockout_max brute_force / lockout_base brute_force) 0); [lia|].
  pose proof (Z.log2_nonneg (Z.abs (lockout_max brute_force / lockout_base brute_force))). lia.
Qed.

Lemma fail_bounded {A} k ip reason now retry w :
  config_valid brute_force = true -> counts_bounded w ->
  counts_bounded (snd (_fail (A := A) brute_force k ip reason now retry w)).
Proof.
  intros Hv Hb. destruct (fail_run brute_force (A := A) k ip reason now retry w) as (w' & -> & _ & He & Hd).
  simpl. destruct (bf_enabled brute_force); [|by rewrite (Hd eq_refl)].
  destruct (He eq_refl) as [_ Hl]. unfold counts_bounded. rewrite Hl. case_match; [done|].
  intros k' l [[<- <-]|[_ Hk']]%lookup_insert_Some; [|by apply (Hb k')]. simpl.
  pose proof (cap_positive Hv).
  assert (0 <= prior_count w k); [|lia]. unfold prior_count. case_match; [by eapply Hb|done].
Qed.

Lemma login_bounded c w :
  config_valid brute_force = true -> counts_bounded w ->
  counts_bounded (snd (login verify brute_force registration refresh_ttl c w)).
Proof.
  intros Hv Hb. unfold login, Login. destruct (Username_new (lc_username c)) as [name|e]; [|done].
  rewrite (M_bind_run (lift (Ok name)) _ w (Ok name) w) by done.
  destruct (login_check_run verify brute_force name (lc_password c) (lc_ip c) (lc_now c) w)
    as [(reason & retry & E)|(user & E & _)].
  - rewrite fail_eq in E. rewrite (M_bind_run _ _ _ _ _ E). simpl. by apply fail_bounded.
  - rewrite (M_bind_run _ _ _ _ _ E).
    destruct (login_store_run brute_force registration refresh_ttl name user (lc_ip c) (lc_fresh c)
                (lc_chain c) (lc_now c) w) as [(reason & ->)|[[_ ->]|Hd]]; [by apply fail_bounded|done|].
    unfold counts_bounded. rewrite Hd. destruct (bf_enabled brute_force); [|done].
    intros k l [_ Hk]%lookup_delete_Some. by eapply Hb.
Qed.

(** However long an attack lasts, the persisted back-off count of every account
    stays within the cap: it cannot grow, nor ever overflow its column. *)
Theorem lockout_counts_saturate calls w :
  config_valid brute_force = true -> counts_bounded w ->
  counts_bounded (snd (run_logins verify brute_force registration refresh_ttl calls w)).
Proof.
  revert w. induction calls as [|c calls IH]; intros w Hv Hb; simpl; [done|].
  pose proof (login_bounded c w Hv Hb) as Hb'. destruct (login _ _ _ _ c w) as [r w1].
  specialize (IH w1 Hv Hb'). by destruct (run_logins _ _ _ _ calls w1).
Qed.
End Saturation.

(** ** The context's invariant *)

Section Invariant.
Context `{PyStr, PyChar}.
Context (verify : string -> string -> bool) (hash_refresh_token : string -> string).

(** Every session belongs to a stored user. *)
Definition referential (us : gmap uuid User) (m : gmap string RefreshToken) : Prop :=
  forall h t, m !! h = Some t -> is_Some (us !! t.(rt_user_id)).

Lemma referential_insert_user us m k u : referential us m -> referential (<[k := u]> us) m.
Proof. intros Hr h t Ht. rewrite lookup_insert. case_decide; [by eexists|by eapply Hr]. Qed.

Lemma referential_scope us m scope at_ reason :
  referential us m -> referential us (Tokens.revoke_scope scope at_ reason <$> m).
Proof.
  intros Hr h t. rewrite lookup_fmap. destruct (m !! h) as [t'|] eqn:E; [|done]. intros [= <-].
  unfold Tokens.revoke_scope. case_match; exact (Hr h t' E).
Qed.

Lemma referential_alter us m k reason at_ :
  referential us m -> referential us (alter (Tokens.stamp reason at_) k m).
Proof.
  intros Hr h t. destruct (decide (h = k)) as [->|Hne].
  - rewrite lookup_alter_eq. destruct (m !! k) as [t'|] eqn:E; [|done]. intros [= <-].
    exact (Hr k t' E).
  - rewrite lookup_alter_ne by done. apply Hr.
Qed.

Lemma referential_supersede us s used now m :
  referential us m -> referential us (supersede s used now m).
Proof.
  intros Hr. unfold supersede. repeat case_match; try done; [by apply referential_alter|].
  by apply referential_scope.
Qed.

Lemma referential_delete us m k :
  referential us m ->
  referential (delete k us) (filter (fun kt : string * RefreshToken => kt.2.(rt_user_id) <> k) m).
Proof.
  intros Hr h t [Ht Hne]%map_lookup_filter_Some. rewrite lookup_delete_ne by (simpl in Hne; congruence).
  by eapply Hr.
Qed.

Lemma run_account_referential op db :
  referential db.(users) db.(refresh_tokens) ->
  referential (run_account verify op db).(users) (run_account verify op db).(refresh_tokens).
Proof.
  intros Hr. destruct op; simpl;
    unfold persist_new_user, UpdateProfile, ChangePassword, change_password_check,
      SetUserActive, SetPlatformAdmin, DeleteAccount, AdminDeleteUser, AuthenticateRequest;
    unfold change_password_write, delete_locked, last_admin_guard; run_tx;
    repeat (case_match; simplify_eq/=);
    try apply referential_insert_user; try apply referential_delete; try apply referential_scope; done.
Qed.

Lemma run_identity_referential op db :
  referential db.(users) db.(refresh_tokens) ->
  referential (run_identity verify hash_refresh_token op db).(users)
              (run_identity verify hash_refresh_token op db).(refresh_tokens).
Proof.
  intros Hr. destruct op as [op|op|ttl user f chain_id now]; simpl.
  - by apply run_account_referential.
  - rewrite run_session_users. destruct op; simpl.
    + destruct (RefreshSession _ _ _ _ _ _ _ _) as [r db'] eqn:E. apply RefreshSession_cases in E.
      destruct r as [p|[]]; simpl; try (by rewrite E).
      * destruct E as (t0 & _ & _ & _ & _ & _ & Hu & _ & ->). simpl.
        apply referential_supersede. intros h t [[<- <-]|[_ Ht]]%lookup_insert_Some; [done|].
        revert Ht. unfold retire. case_match; [apply Hr|]. by apply referential_alter.
      * destruct E as (t0 & _ & _ & _ & _ & ->). simpl. by apply referential_scope.
    + rewrite Logout_run. simpl. unfold end_chain.
      repeat case_match; try done; repeat apply referential_scope; done.
    + unfold RestoreSession. run_tx. by repeat case_match; simplify_eq/=.
    + unfold RevokeSession. run_tx. repeat case_match; simplify_eq/=; try done.
      by apply referential_scope.
    + by apply referential_scope.
    + done.
  - destruct (login_session _ _ _ _ _ _) as [r db'] eqn:E. apply login_session_cases in E.
    destruct r as [[?|p]|?]; simpl; try by rewrite E.
    destruct E as (c & Hc & _ & _ & _ & _ & ->). simpl.
    intros h t [[<- <-]|[_ Ht]]%lookup_insert_Some; [by eexists|by eapply Hr].
Qed.

Lemma run_identity_users op db :
  users_wf db.(users) ->
  users_change db.(users) (run_identity verify hash_refresh_token op db).(users).
Proof.
  intros Hwf. destruct op as [op|op|ttl user f chain_id now]; simpl.
  - by apply run_account_step.
  - rewrite run_session_users. constructor.
  - destruct (login_session _ _ _ _ _ _) as [r db'] eqn:E. apply login_session_cases in E.
    destruct r as [[?|p]|?]; simpl; try (rewrite E; constructor).
    destruct E as (c & _ & _ & _ & _ & _ & ->). constructor.
Qed.

Definition identity_inv (db : Db) : Prop :=
  users_wf db.(users) /\ admin_inv db.(users) /\ tokens_wf db.(refresh_tokens)
  /\ referential db.(users) db.(refresh_tokens).

(** Some hash is not the one the transaction stores, so the evolution applies. *)
Lemma run_identity_tokens_wf op db :
  tokens_wf db.(refresh_tokens) ->
  tokens_wf (run_identity verify hash_refresh_token op db).(refresh_tokens).
Proof.
  intros Hwf. destruct (op_fresh op) as [h|] eqn:E.
  - apply (run_identity_evolves verify hash_refresh_token op db (String.append "x" h)); [done|].
    rewrite E. intros [= Heq]. apply (f_equal String.length) in Heq. simpl in Heq. apply (Nat.neq_succ_diag_r _ Heq).
  - apply (run_identity_evolves verify hash_refresh_token op db ""); [done|]. by rewrite E.
Qed.

Lemma run_all_inv ops : forall db,
  identity_inv db -> identity_inv (run_all verify hash_refresh_token ops db).
Proof.
  induction ops as [|op ops' IH]; intros db (Hu & Ha & Ht & Hr); simpl; [done|].
  pose proof (run_identity_users op db Hu) as Hc. apply IH. split_and!.
  - by eapply users_change_wf.
  - by eapply users_change_admin_inv.
  - by apply run_identity_tokens_wf.
  - by apply run_identity_referential.
Qed.

Definition empty_db : Db := {| users := ∅; refresh_tokens := ∅ |}.

Lemma empty_identity_inv : identity_inv empty_db.
Proof. split_and!; [apply empty_users_wf|by left|..]; intros h t; simpl; by rewrite lookup_empty. Qed.

(** C15: From an empty database, every interleaving of registrations, logins,
    rotations, logouts, revocations and account administration keeps: rows at
    their keys, unique folded names and emails, an active platform administrator
    whenever there is any account, a recorded reason exactly with a revocation,
    and an existing owner for every session. *)
Theorem identity_invariant ops : identity_inv (run_all verify hash_refresh_token ops empty_db).
Proof. apply run_all_inv, empty_identity_inv. Qed.
End Invariant.
