(* ===== verification/IdentityScenario.v ===== *)
(** * A concrete run of the identity context

    One account, its sessions and a failed login, evaluated: the theorems of
    [BruteForce], [Accounts], [Sessions] and [Login] applied to them. *)
From Stdlib Require Import ZArith NArith Lia String.
From stdpp Require Import base gmap strings list fin_maps.
From S2P Require Import Prelude PyString Uow Uuid Calendar IdentityStore PasswordPolicy.
From S2P Require Import Accounts Sessions BruteForce Login.

Open Scope Z_scope.

#[local] Existing Instance ascii_strings.
#[local] Existing Instance ascii_chars.

(** The stored hashes of the run are the secret with a prefix. *)
Definition sample_hash (s : string) : string := String.append "#" s.
Definition sample_verify (password hash : string) : bool := String.eqb (sample_hash password) hash.

Definition sample_policy : PasswordPolicy := _build_password_policy preset_low 128 false ∅.

Definition sample_fresh (n : uuid) (secret : string) : fresh :=
  {| fr_token_id := n; fr_access_token := "access"; fr_secret := secret;
     fr_token_hash := sample_hash secret |}.

(** Two accounts; the first signs in twice. *)
Definition alice : User :=
  {| us_id := 1; us_username := {| un_value := "alice" |};
     us_email := {| em_value := "alice@example.com" |};
     us_password_hash := sample_hash "correct horse"; us_created_at := 0; us_updated_at := 0;
     us_is_platform_admin := true; us_active := true |}.

Definition sample_run : list identity_op :=
  [ OpAccount (OpPersistNewUser sample_policy "alice" "alice@example.com" "correct horse" 1
      (sample_hash "correct horse") 0 true);
    OpAccount (OpPersistNewUser sample_policy "bob" "bob@example.com" "battery staple" 2
      (sample_hash "battery staple") 1 true);
    OpLoginSession 1000 alice (sample_fresh 10 "s1") 100 2;
    OpLoginSession 1000 alice (sample_fresh 11 "s2") 101 3 ].

Definition sample_db : Db := run_all sample_verify sample_hash sample_run empty_db.

Lemma sample_inv : identity_inv sample_db.
Proof. apply run_all_inv, empty_identity_inv. Qed.

Definition sample_token : RefreshToken :=
  {| rt_id := 10; rt_user_id := 1; rt_chain_id := 100; rt_token_hash := "#s1"; rt_issued_at := 2;
     rt_expires_at := 1002; rt_revoked_at := None; rt_revoked_reason := None |}.

Lemma sample_token_stored : refresh_tokens sample_db !! sample_hash "s1" = Some sample_token.
Proof. vm_compute. reflexivity. Qed.

Lemma refresh_rotates_witness :
  exists t, refresh_tokens sample_db !! sample_hash "s1" = Some t /\ 5 < t.(rt_expires_at).
Proof.
  destruct (refresh_rotates sample_hash 1000 10 (sample_fresh 12 "s3") "s1" None 5 sample_db
    {| access_token := "access"; refresh_token := "s3" |}
    (snd (RefreshSession sample_hash 1000 10 (sample_fresh 12 "s3") "s1" None 5 sample_db)))
    as (t & Ht & Hnow & _).
  - apply sample_inv.
  - lia.
  - vm_compute. reflexivity.
  - exists t. split; [exact Ht|exact Hnow].
Defined.

(** The rotated token comes back after the grace window: theft. *)
Definition rotated_db : Db :=
  snd (RefreshSession sample_hash 1000 10 (sample_fresh 12 "s3") "s1" None 5 sample_db).

Lemma rotated_inv : identity_inv rotated_db.
Proof.
  apply (run_all_inv sample_verify sample_hash
    [OpSession (OpRefreshSession 1000 10 (sample_fresh 12 "s3") "s1" None 5)] _ sample_inv).
Qed.

Lemma theft_ends_every_session_witness :
  is_ok (fst (RefreshSession sample_hash 1000 10 (sample_fresh 13 "s4") "s2" None 20 rotated_db)) = true
  /\ never_refreshes sample_hash "s2"
       (snd (RefreshSession sample_hash 1000 10 (sample_fresh 13 "s4") "s1" None 20 rotated_db)).
Proof.
  split; [vm_compute; reflexivity|].
  apply (theft_ends_every_session sample_verify sample_hash [] rotated_db
    (snd (RefreshSession sample_hash 1000 10 (sample_fresh 13 "s4") "s1" None 20 rotated_db))
    1000 10 (sample_fresh 13 "s4") "s1" None 20 1 "s2"
    {| rt_id := 11; rt_user_id := 1; rt_chain_id := 101; rt_token_hash := "#s2"; rt_issued_at := 3;
       rt_expires_at := 1003; rt_revoked_at := None; rt_revoked_reason := None |}).
  - apply rotated_inv.
  - vm_compute. reflexivity.
  - constructor.
  - vm_compute. reflexivity.
  - reflexivity.
Defined.

Lemma logout_ends_session_witness :
  never_refreshes sample_hash "s1" (snd (Logout sample_hash "s1" None 6 sample_db)).
Proof.
  destruct (logout_ends_session sample_verify sample_hash [] sample_db "s1" 6 sample_token) as [Hend _].
  - apply sample_inv.
  - apply sample_token_stored.
  - apply (Hend "s1" sample_token); [constructor|apply sample_token_stored|reflexivity].
Defined.

Lemma grace_never_rolls_witness :
  is_ok (fst (RefreshSession sample_hash 1000 10 (sample_fresh 13 "s4") "s1" None 16 rotated_db)) = false.
Proof.
  apply (grace_never_rolls sample_verify sample_hash [] rotated_db "s1"
    {| rt_id := 10; rt_user_id := 1; rt_chain_id := 100; rt_token_hash := "#s1"; rt_issued_at := 2;
       rt_expires_at := 1002; rt_revoked_at := Some 5; rt_revoked_reason := Some REVOKED_ROTATED |}
    5 1000 10 (sample_fresh 13 "s4") None 16).
  - apply rotated_inv.
  - constructor.
  - vm_compute. reflexivity.
  - reflexivity.
  - lia.
Defined.

Lemma password_change_ends_sessions_witness :
  never_refreshes sample_hash "s1"
    (snd (ChangePassword sample_verify sample_policy 1 "correct horse" "another secret"
            (sample_hash "another secret") 6 sample_db)).
Proof.
  destruct (password_change_ends_sessions sample_verify sample_hash [] sample_db
    (snd (ChangePassword sample_verify sample_policy 1 "correct horse" "another secret"
            (sample_hash "another secret") 6 sample_db))
    sample_policy 1 "correct horse" "another secret" (sample_hash "another secret") 6) as [Hend _].
  - apply sample_inv.
  - apply sample_inv.
  - vm_compute. reflexivity.
  - apply (Hend "s1" sample_token); [constructor|apply sample_token_stored|reflexivity].
Defined.

Lemma deactivation_ends_sessions_witness :
  fst (AuthenticateRequest (Ok (2%N, 1000)) (snd (SetUserActive 1 2 false 6 sample_db)))
  = Err InvalidAccessTokenError.
Proof.
  destruct (deactivation_ends_sessions sample_verify sample_hash [] sample_db
    (snd (SetUserActive 1 2 false 6 sample_db)) 1 2 6) as (_ & _ & Hreq).
  - apply sample_inv.
  - apply sample_inv.
  - vm_compute. reflexivity.
  - apply Hreq.
Defined.

Lemma users_never_empty_again_witness :
  let register := OpPersistNewUser sample_policy "alice" "alice@example.com" "correct horse" 1
      (sample_hash "correct horse") 0 true in
  users (foldl (fun db op => run_account sample_verify op db) empty_db
    [register; OpDeleteAccount false 1 "correct horse" 5]) <> ∅.
Proof.
  intros register.
  apply (users_never_empty_again sample_verify [register] [OpDeleteAccount false 1 "correct horse" 5] ∅).
  refine (proj1 (bool_decide_eq_true _) _). vm_compute. reflexivity.
Defined.

(** ** Lockout *)

Definition sample_bf : BruteForceConfig :=
  {| bf_enabled := true; username_threshold := 2; username_window := 100; ip_threshold := 50;
     ip_window := 100; lockout_base := 60; lockout_max := 3600 |}.

Definition sample_world : World :=
  {| w_db := sample_db; w_store := {| login_attempts := []; account_lockouts := ∅ |} |}.

Definition sample_call (password : string) (now : datetime) : login_call :=
  {| lc_username := "alice"; lc_password := password; lc_ip := None;
     lc_fresh := sample_fresh 20 "s9"; lc_chain := 200; lc_now := now |}.

Definition sample_login (c : login_call) (w : World) :=
  login sample_verify sample_bf None 1000 c w.

(** One wrong password, and the second one reaches the threshold. *)
Definition failed_once : World := snd (sample_login (sample_call "guess" 10) sample_world).


(** The right password does not help before instant 71. *)
Lemma locked_account_grants_nothing_witness :
  let out := run_logins sample_verify sample_bf None 1000 [sample_call "correct horse" 30]
    (snd (sample_login (sample_call "guess" 11) failed_once)) in
  locked_until_at (snd out) "alice" 71 /\ forall c, c ∈ fst out -> ~ targets "alice" c.
Proof.
  apply (locked_account_grants_nothing sample_verify sample_bf None 1000
    [sample_call "correct horse" 30]).
  - reflexivity.
  - eexists. split; [vm_compute; reflexivity|reflexivity].
  - repeat constructor.
Defined.

Lemma lockout_counts_saturate_witness :
  counts_bounded sample_bf (snd (run_logins sample_verify sample_bf None 1000
    [sample_call "guess" 10; sample_call "guess" 11] sample_world)).
Proof.
  apply (lockout_counts_saturate sample_verify sample_bf None 1000).
  - reflexivity.
  - intros k l Hl. vm_compute in Hl. discriminate.
Defined.

Lemma prune_preserves_windows_witness :
  let s := w_store failed_once in
  Attempts.count_where (Attempts.username_failure "alice" (15 - 100))
    (login_attempts (snd (prune_tick sample_bf None 12 s)))
  = Attempts.count_where (Attempts.username_failure "alice" (15 - 100)) (login_attempts s).
Proof.
  intros s. destruct (prune_preserves_windows sample_bf None 12 15 s "alice" "::1") as [Hu _]; [lia|].
  exact Hu.
Defined.
