(* ===== verification/Permissions.v ===== *)
(** * The permission catalog

    [community/domain/permissions.py] and [Permission] of
    [community/domain/value_objects.py]. *)
From Stdlib Require Import String Ascii.
From stdpp Require Import base gmap strings list fin_sets.
From S2P Require Import Prelude PyString Uow Uuid.

(** Errors of the community context ([community/domain/errors.py]); the last is
    a constraint violation no domain error is mapped to. *)
Inductive community_error : Type :=
| InvalidCommunityNameError
| InvalidRoleNameError
| InvalidPermissionError
| UnknownPermissionError (code : string)
| CommunityAlreadyExistsError
| RoleAlreadyExistsError
| MembershipAlreadyExistsError
| ResourceGrantAlreadyExistsError
| OwnerUserNotFoundError
| MemberUserNotFoundError
| CommunityNotFoundError
| CommunityHasServersError
| MembershipNotFoundError
| RoleNotFoundError
| PresetRoleNotEditableError
| InvalidGrantResourceTypeError
| GrantTargetNotMemberError
| GrantResourceNotFoundError
| ResourceGrantNotFoundError
| PermissionCeilingExceededError (exceeded : gset string)
| LastOwnerRemovalError
| RawIntegrityError.

(** A permission is its code, once its shape was checked. *)
Abbreviation Permission := string.

Definition Permission_new `{PyStr} (value : string) : result community_error Permission :=
  let '(resource, sep, action) := partition ":" value in
  if negb sep || String.eqb resource "" || String.eqb action "" || contains_char ":" action
  then Err InvalidPermissionError
  else if negb (String.eqb value (str_strip value)) then Err InvalidPermissionError
  else Ok value.

Definition community_codes : list Permission :=
  [ "server:create"; "server:read"; "server:update"; "server:delete"; "server:start";
    "server:stop"; "server:restart"; "server:command"; "file:read"; "file:edit"; "file:history";
    "file:rollback"; "backup:create"; "backup:read"; "backup:restore"; "backup:delete";
    "backup:schedule"; "member:read"; "member:add"; "member:remove"; "role:read"; "role:manage";
    "grant:read"; "grant:manage"; "group:read"; "group:manage"; "community:read";
    "community:update"; "community:delete"; "audit:read"; "session:read"; "plugin:read";
    "plugin:manage"; "schedule:read"; "schedule:manage" ]%string.

Definition COMMUNITY_PERMISSIONS : gset Permission := list_to_set community_codes.

Definition platform_codes : list Permission :=
  ["worker:manage"; "community:provision"; "platform:monitor"]%string.

Definition PLATFORM_ADMIN_PERMISSIONS : gset Permission := list_to_set platform_codes.

Definition ALL_PERMISSIONS : gset Permission := COMMUNITY_PERMISSIONS ∪ PLATFORM_ADMIN_PERMISSIONS.

Definition OWNER_ROLE_NAME : string := "Owner".

Definition is_known_permission (p : Permission) : bool := bool_decide (p ∈ ALL_PERMISSIONS).

Definition is_platform_admin_permission (p : Permission) : bool :=
  bool_decide (p ∈ PLATFORM_ADMIN_PERMISSIONS).

Definition require_known_permission (p : Permission) : result community_error Permission :=
  if bool_decide (p ∈ ALL_PERMISSIONS) then Ok p else Err (UnknownPermissionError p).

Definition require_community_permission (p : Permission) : result community_error Permission :=
  if bool_decide (p ∈ COMMUNITY_PERMISSIONS) then Ok p else Err (UnknownPermissionError p).

(** [p.value.split(":", 1)[0]]. *)
Definition family (p : Permission) : string := let '(resource, _, _) := partition ":" p in resource.

Definition GRANT_PERMISSIONS_BY_RESOURCE_TYPE (resource_type : string) : option (gset Permission) :=
  if String.eqb resource_type "server" then
    Some (list_to_set (List.filter (fun p => existsb (String.eqb (family p))
      ["server"; "file"; "backup"; "plugin"; "schedule"]%string) community_codes))
  else None.

Definition require_grant_permission (p : Permission) (resource_type : string)
    : result community_error Permission :=
  if bool_decide (p ∈ default ∅ (GRANT_PERMISSIONS_BY_RESOURCE_TYPE resource_type))
  then Ok p else Err (UnknownPermissionError p).

#[global] Opaque COMMUNITY_PERMISSIONS PLATFORM_ADMIN_PERMISSIONS ALL_PERMISSIONS
  GRANT_PERMISSIONS_BY_RESOURCE_TYPE.

(** Validating a set comprehension: the first offending code raises, and which
    one a set yields first is not observed. *)
Definition validate_all (check : Permission -> result community_error Permission)
    (permissions : gset Permission) : result community_error (gset Permission) :=
  match filterM (fun p => _ ← check p; Ok true) (elements permissions) with
  | Ok _ => Ok permissions
  | Err e => Err e
  end.

Lemma filterM_true_ok {E A} (check : A -> result E A) l r :
  filterM (fun p => _ ← check p; Ok true) l = Ok r -> forall p, p ∈ l -> is_ok (check p) = true.
Proof.
  revert r. induction l as [|x l IH]; intros r; [by intros _ p ?%not_elem_of_nil|]. simpl.
  destruct (check x) as [a|e] eqn:Ex; [|done]. simpl.
  intros (r' & Hr' & _)%bind_ok p [->|Hp]%elem_of_cons; [by rewrite Ex|by eapply IH].
Qed.

Lemma validate_all_ok check permissions v :
  validate_all check permissions = Ok v ->
  v = permissions /\ forall p, p ∈ permissions -> is_ok (check p) = true.
Proof.
  unfold validate_all. destruct (filterM _ _) as [r|e] eqn:E; [|done]. intros [= <-].
  split; [done|]. intros p Hp. eapply filterM_true_ok; [done|]. by apply elem_of_elements.
Qed.

Lemma require_community_permission_ok p :
  is_ok (require_community_permission p) = true <-> p ∈ COMMUNITY_PERMISSIONS.
Proof. unfold require_community_permission. case_bool_decide; simpl; intuition discriminate. Qed.

Lemma codes_disjoint p : p ∈ community_codes -> p ∉ platform_codes.
Proof.
  intros Hc Hp.
  assert (Hf : List.filter (fun q => existsb (String.eqb q) community_codes) platform_codes = [])
    by (vm_compute; reflexivity).
  assert (Hin : In p (List.filter (fun q => existsb (String.eqb q) community_codes) platform_codes)).
  { apply filter_In. split; [by apply list_elem_of_In|]. apply existsb_exists. exists p.
    split; [by apply list_elem_of_In|apply String.eqb_refl]. }
  by rewrite Hf in Hin.
Qed.

(** The two axes share no code. *)
Lemma axes_disjoint p : p ∈ COMMUNITY_PERMISSIONS -> p ∉ PLATFORM_ADMIN_PERMISSIONS.
Proof.
  Transparent COMMUNITY_PERMISSIONS PLATFORM_ADMIN_PERMISSIONS.
  unfold COMMUNITY_PERMISSIONS, PLATFORM_ADMIN_PERMISSIONS. rewrite !elem_of_list_to_set.
  apply codes_disjoint.
Qed.

Lemma all_permissions p :
  p ∈ ALL_PERMISSIONS <-> p ∈ COMMUNITY_PERMISSIONS \/ p ∈ PLATFORM_ADMIN_PERMISSIONS.
Proof. Transparent ALL_PERMISSIONS. unfold ALL_PERMISSIONS. apply elem_of_union. Qed.

(** A grant carries community-scoped codes only. *)
Lemma require_grant_permission_ok p t :
  is_ok (require_grant_permission p t) = true -> p ∈ COMMUNITY_PERMISSIONS.
Proof.
  Transparent GRANT_PERMISSIONS_BY_RESOURCE_TYPE COMMUNITY_PERMISSIONS.
  unfold require_grant_permission. case_bool_decide as Hp; simpl; [|discriminate]. intros _.
  unfold GRANT_PERMISSIONS_BY_RESOURCE_TYPE in Hp. destruct (String.eqb t "server");
    cbv [from_option id] in Hp; [|set_solver].
  apply elem_of_list_to_set in Hp. apply elem_of_filter_bool in Hp as [Hp _].
  by apply elem_of_list_to_set.
Qed.

#[global] Opaque COMMUNITY_PERMISSIONS PLATFORM_ADMIN_PERMISSIONS ALL_PERMISSIONS
  GRANT_PERMISSIONS_BY_RESOURCE_TYPE.
