(* ===== verification/CommunityStore.v ===== *)
(** * Communities: data and tables

    [community/domain/entities.py], the value objects, and the statements of
    [community/adapters/repositories.py] and [community/adapters/unit_of_work.py]
    on the community tables, with the tables' constraints and cascades
    ([community/adapters/models.py], [community/adapters/integrity.py]).  The
    users and the servers other contexts own appear as the foreign keys see
    them. *)
From Stdlib Require Import ZArith NArith Lia String.
From stdpp Require Import base gmap strings list fin_maps fin_sets.
From S2P Require Import Prelude PyString Uow Uuid Calendar Permissions.

Open Scope Z_scope.

(** ** Values and entities *)

Definition CommunityName_new `{PyStr} (value : string) : result community_error string :=
  let trimmed := str_strip value in
  if String.eqb trimmed "" then Err InvalidCommunityNameError else Ok trimmed.

Definition RoleName_new `{PyStr} (value : string) : result community_error string :=
  let trimmed := str_strip value in
  if String.eqb trimmed "" then Err InvalidRoleNameError else Ok trimmed.

Record AuthUser := { au_user_id : uuid; au_is_platform_admin : bool }.

Record ResourceRef := {
  rr_community_id : uuid;
  rr_resource_type : option string;
  rr_resource_id : option uuid
}.

Record Community := {
  co_id : uuid;
  co_name : string;
  co_created_at : datetime;
  co_updated_at : datetime;
  co_max_servers : option Z;
  co_max_members : option Z
}.

Record Membership := {
  me_id : uuid;
  me_user_id : uuid;
  me_community_id : uuid;
  me_created_at : datetime
}.

Record Role := {
  ro_id : uuid;
  ro_community_id : uuid;
  ro_name : string;
  ro_permissions : gset Permission;
  ro_created_at : datetime;
  ro_updated_at : datetime;
  ro_is_preset : bool
}.

Record ResourceGrant := {
  rg_id : uuid;
  rg_membership_id : uuid;
  rg_user_id : uuid;
  rg_community_id : uuid;
  rg_resource_type : string;
  rg_resource_id : uuid;
  rg_permissions : gset Permission;
  rg_created_at : datetime;
  rg_updated_at : datetime
}.

(** ** The tables

    [membership_role] is a set of (membership, role) pairs; [known_users] and
    [servers] (a server's community) are other contexts' tables. *)
Record CDb := {
  communities : gmap uuid Community;
  memberships : gmap uuid Membership;
  roles : gmap uuid Role;
  membership_roles : gset (uuid * uuid);
  grants : gmap uuid ResourceGrant;
  known_users : gset uuid;
  servers : gmap uuid uuid
}.

Definition set_memberships (m : gmap uuid Membership) (db : CDb) : CDb :=
  {| communities := db.(communities); memberships := m; roles := db.(roles);
     membership_roles := db.(membership_roles); grants := db.(grants);
     known_users := db.(known_users); servers := db.(servers) |}.
Definition set_communities (m : gmap uuid Community) (db : CDb) : CDb :=
  {| communities := m; memberships := db.(memberships); roles := db.(roles);
     membership_roles := db.(membership_roles); grants := db.(grants);
     known_users := db.(known_users); servers := db.(servers) |}.
Definition set_roles (m : gmap uuid Role) (db : CDb) : CDb :=
  {| communities := db.(communities); memberships := db.(memberships); roles := m;
     membership_roles := db.(membership_roles); grants := db.(grants);
     known_users := db.(known_users); servers := db.(servers) |}.
Definition set_membership_roles (s : gset (uuid * uuid)) (db : CDb) : CDb :=
  {| communities := db.(communities); memberships := db.(memberships); roles := db.(roles);
     membership_roles := s; grants := db.(grants);
     known_users := db.(known_users); servers := db.(servers) |}.
Definition set_grants (m : gmap uuid ResourceGrant) (db : CDb) : CDb :=
  {| communities := db.(communities); memberships := db.(memberships); roles := db.(roles);
     membership_roles := db.(membership_roles); grants := m;
     known_users := db.(known_users); servers := db.(servers) |}.

Abbreviation CM := (M CDb community_error).

(** ** [SqlAlchemyCommunityRepository] *)

Module Communities.

Definition named (name : string) (c : Community) : bool := String.eqb c.(co_name) name.

Definition add (c : Community) : CM unit := try_modify (fun db =>
  match db.(communities) !! c.(co_id) with
  | Some _ => Err RawIntegrityError
  | None =>
      if any_row (named c.(co_name)) db.(communities) then Err CommunityAlreadyExistsError
      else Ok (set_communities (<[c.(co_id) := c]> db.(communities)) db)
  end).

Definition get_by_id (community_id : uuid) : CM (option Community) :=
  gets (fun db => db.(communities) !! community_id).

Definition get_by_name (name : string) : CM (option Community) :=
  gets (fun db => find_row (named name) db.(communities)).

(** The rename: only the name and [updated_at] are written. *)
Definition update (community_id : uuid) (name : string) (updated_at : datetime) : CM unit :=
  try_modify (fun db =>
    match db.(communities) !! community_id with
    | None => Err CommunityNotFoundError
    | Some c =>
        if any_row (named name) (delete community_id db.(communities))
        then Err CommunityAlreadyExistsError
        else Ok (set_communities (<[community_id :=
               {| co_id := c.(co_id); co_name := name; co_created_at := c.(co_created_at);
                  co_updated_at := updated_at; co_max_servers := c.(co_max_servers);
                  co_max_members := c.(co_max_members) |}]> db.(communities)) db)
    end).

(** [ON DELETE RESTRICT] from [server], [ON DELETE CASCADE] from the others. *)
Definition delete_community (community_id : uuid) : CM unit := try_modify (fun db =>
  if any_row (fun c => bool_decide (c = community_id)) db.(servers)
  then Err CommunityHasServersError
  else
    let ms := filter (fun km : uuid * Membership => km.2.(me_community_id) <> community_id)
                db.(memberships) in
    let rs := filter (fun kr : uuid * Role => kr.2.(ro_community_id) <> community_id) db.(roles) in
    Ok {| communities := delete community_id db.(communities);
          memberships := ms;
          roles := rs;
          membership_roles :=
            filter (fun mr : uuid * uuid => is_Some (ms !! mr.1) /\ is_Some (rs !! mr.2))
              db.(membership_roles);
          grants := filter (fun kg : uuid * ResourceGrant =>
                      kg.2.(rg_community_id) <> community_id
                      /\ is_Some (ms !! kg.2.(rg_membership_id))) db.(grants);
          known_users := db.(known_users);
          servers := db.(servers) |}).
End Communities.

(** ** [SqlAlchemyMembershipRepository] *)

Module Memberships.

Definition of_pair (user_id community_id : uuid) (m : Membership) : bool :=
  bool_decide (m.(me_user_id) = user_id) && bool_decide (m.(me_community_id) = community_id).

Definition add (m : Membership) : CM unit := try_modify (fun db =>
  match db.(memberships) !! m.(me_id), db.(communities) !! m.(me_community_id) with
  | Some _, _ => Err RawIntegrityError
  | None, None => Err RawIntegrityError
  | None, Some _ =>
      if negb (bool_decide (m.(me_user_id) ∈ db.(known_users))) then Err RawIntegrityError
      else if any_row (of_pair m.(me_user_id) m.(me_community_id)) db.(memberships)
      then Err MembershipAlreadyExistsError
      else Ok (set_memberships (<[m.(me_id) := m]> db.(memberships)) db)
  end).

Definition by_pair (db : CDb) (user_id community_id : uuid) : option Membership :=
  find_row (of_pair user_id community_id) db.(memberships).

Definition get_by_user_and_community (user_id community_id : uuid) : CM (option Membership) :=
  gets (fun db => by_pair db user_id community_id).

(** [FOR UPDATE]. *)
Definition lock_by_user_and_community := get_by_user_and_community.

Definition list_for_user (user_id : uuid) : CM (list Membership) :=
  gets (fun db => List.filter (fun m => bool_decide (m.(me_user_id) = user_id))
                    (map snd (map_to_list db.(memberships)))).

(** The users' memberships in the community, in ascending id order. *)
Definition hold_for_users (community_id : uuid) (user_ids : list uuid) : CM (list Membership) :=
  gets (fun db => sort_by N.ltb me_id
    (List.filter (fun m => bool_decide (m.(me_community_id) = community_id)
                           && bool_decide (m.(me_user_id) ∈ user_ids))
       (map snd (map_to_list db.(memberships))))).

(** The join rows and the grants reference the membership with a cascade. *)
Definition delete_membership (membership_id : uuid) : CM unit := modify (fun db =>
  {| communities := db.(communities); memberships := delete membership_id db.(memberships);
     roles := db.(roles);
     membership_roles := filter (fun mr : uuid * uuid => mr.1 <> membership_id)
                           db.(membership_roles);
     grants := filter (fun kg : uuid * ResourceGrant => kg.2.(rg_membership_id) <> membership_id)
                 db.(grants);
     known_users := db.(known_users); servers := db.(servers) |}).

Definition assign_role (membership_id role_id : uuid) : CM unit := try_modify (fun db =>
  match db.(memberships) !! membership_id, db.(roles) !! role_id with
  | Some _, Some _ =>
      if bool_decide ((membership_id, role_id) ∈ db.(membership_roles)) then Err RawIntegrityError
      else Ok (set_membership_roles ({[(membership_id, role_id)]} ∪ db.(membership_roles)) db)
  | _, _ => Err RawIntegrityError
  end).

Definition unassign_role (membership_id role_id : uuid) : CM unit := modify (fun db =>
  set_membership_roles (db.(membership_roles) ∖ {[(membership_id, role_id)]}) db).

(** The roles assigned to a membership. *)
Definition role_ids (db : CDb) (membership_id : uuid) : gset uuid :=
  set_map snd (filter (fun mr : uuid * uuid => mr.1 = membership_id) db.(membership_roles)).

Definition list_role_ids (membership_id : uuid) : CM (gset uuid) :=
  gets (fun db => role_ids db membership_id).

(** The assignments among [role_ids], share-locked. *)
Definition lock_role_ids (membership_id : uuid) (ids : gset uuid) : CM (gset uuid) :=
  gets (fun db => role_ids db membership_id ∩ ids).

(** The memberships of the community holding [role_id], their rows locked. *)
Definition holders (db : CDb) (community_id role_id : uuid) : gset uuid :=
  filter (fun m => me_community_id <$> db.(memberships) !! m = Some community_id)
    (set_map fst (filter (fun mr : uuid * uuid => mr.2 = role_id) db.(membership_roles))).

Definition lock_owner_role_holders (community_id role_id : uuid) : CM (gset uuid) :=
  gets (fun db => holders db community_id role_id).
End Memberships.

(** ** [SqlAlchemyRoleRepository] *)

Module Roles.

Definition same_name (community_id : uuid) (name : string) (r : Role) : bool :=
  bool_decide (r.(ro_community_id) = community_id) && String.eqb r.(ro_name) name.

Definition add (r : Role) : CM unit := try_modify (fun db =>
  match db.(roles) !! r.(ro_id), db.(communities) !! r.(ro_community_id) with
  | Some _, _ => Err RawIntegrityError
  | None, None => Err RawIntegrityError
  | None, Some _ =>
      if any_row (same_name r.(ro_community_id) r.(ro_name)) db.(roles)
      then Err RoleAlreadyExistsError
      else Ok (set_roles (<[r.(ro_id) := r]> db.(roles)) db)
  end).

Definition get_by_id (role_id : uuid) : CM (option Role) := gets (fun db => db.(roles) !! role_id).

(** [FOR UPDATE]. *)
Definition lock_by_id := get_by_id.

(** The existing roles among [ids]. *)
Definition by_ids (db : CDb) (ids : gset uuid) : gmap uuid Role :=
  filter (fun kr : uuid * Role => kr.1 ∈ ids) db.(roles).

Definition get_by_ids (ids : gset uuid) : CM (gmap uuid Role) := gets (fun db => by_ids db ids).

(** Locked one at a time in ascending id order. *)
Definition lock_by_ids (ids : gset uuid) (for_update : option uuid) : CM (gmap uuid Role) :=
  gets (fun db => by_ids db (ids ∪ match for_update with Some r => {[r]} | None => ∅ end)).

Definition list_for_community (community_id : uuid) : CM (gmap uuid Role) :=
  gets (fun db => filter (fun kr : uuid * Role => kr.2.(ro_community_id) = community_id) db.(roles)).

Definition update (role_id : uuid) (name : option string) (permissions : option (gset Permission))
    (updated_at : datetime) : CM Role := fun db =>
  match db.(roles) !! role_id with
  | None => (Err RoleNotFoundError, db)
  | Some r =>
      let r' := {| ro_id := r.(ro_id); ro_community_id := r.(ro_community_id);
                   ro_name := default r.(ro_name) name;
                   ro_permissions := default r.(ro_permissions) permissions;
                   ro_created_at := r.(ro_created_at); ro_updated_at := updated_at;
                   ro_is_preset := r.(ro_is_preset) |} in
      if any_row (same_name r'.(ro_community_id) r'.(ro_name)) (delete role_id db.(roles))
      then (Err RoleAlreadyExistsError, db)
      else (Ok r', set_roles (<[role_id := r']> db.(roles)) db)
  end.

(** [membership_role] references the role with a cascade. *)
Definition delete_role (role_id : uuid) : CM unit := modify (fun db =>
  {| communities := db.(communities); memberships := db.(memberships);
     roles := delete role_id db.(roles);
     membership_roles := filter (fun mr : uuid * uuid => mr.2 <> role_id) db.(membership_roles);
     grants := db.(grants); known_users := db.(known_users); servers := db.(servers) |}).
End Roles.

(** ** [SqlAlchemyResourceGrantRepository] and the resource check *)

Module Grants.

Definition for_resource (user_id : uuid) (resource_type : string) (resource_id : uuid)
    (g : ResourceGrant) : bool :=
  bool_decide (g.(rg_user_id) = user_id) && String.eqb g.(rg_resource_type) resource_type
  && bool_decide (g.(rg_resource_id) = resource_id).

(** The membership the composite foreign key names. *)
Definition backed (db : CDb) (g : ResourceGrant) : bool :=
  match db.(memberships) !! g.(rg_membership_id) with
  | Some m => Memberships.of_pair g.(rg_user_id) g.(rg_community_id) m
  | None => false
  end.

Definition add (g : ResourceGrant) : CM unit := try_modify (fun db =>
  match db.(grants) !! g.(rg_id) with
  | Some _ => Err RawIntegrityError
  | None =>
      if any_row (for_resource g.(rg_user_id) g.(rg_resource_type) g.(rg_resource_id)) db.(grants)
      then Err ResourceGrantAlreadyExistsError
      else if negb (backed db g) then Err GrantTargetNotMemberError
      else match db.(servers) !! g.(rg_resource_id) with
           | None => Err GrantResourceNotFoundError
           | Some _ => Ok (set_grants (<[g.(rg_id) := g]> db.(grants)) db)
           end
  end).

Definition get_by_id (grant_id : uuid) : CM (option ResourceGrant) :=
  gets (fun db => db.(grants) !! grant_id).

Definition in_community (user_id community_id : uuid) (resource_type : string) (resource_id : uuid)
    (g : ResourceGrant) : bool :=
  for_resource user_id resource_type resource_id g
  && bool_decide (g.(rg_community_id) = community_id).

Definition user_resource (db : CDb) (user_id community_id : uuid) (resource_type : string)
    (resource_id : uuid) : option ResourceGrant :=
  find_row (in_community user_id community_id resource_type resource_id) db.(grants).

Definition get_for_user_resource (user_id community_id : uuid) (resource_type : string)
    (resource_id : uuid) : CM (option ResourceGrant) :=
  gets (fun db => user_resource db user_id community_id resource_type resource_id).

(** [FOR SHARE]. *)
Definition lock_for_user_resource := get_for_user_resource.

Definition list_for_community (community_id : uuid) (user_id : option uuid)
    : CM (gmap uuid ResourceGrant) :=
  gets (fun db => filter (fun kg : uuid * ResourceGrant =>
    kg.2.(rg_community_id) = community_id
    /\ (user_id = None \/ user_id = Some kg.2.(rg_user_id))) db.(grants)).

Definition delete_grant (grant_id : uuid) : CM unit := modify (fun db =>
  set_grants (delete grant_id db.(grants)) db).

(** [SqlAlchemyResourceExistenceChecker.exists]. *)
Definition resource_exists (community_id : uuid) (resource_type : string) (resource_id : uuid)
    : CM bool :=
  gets (fun db => String.eqb resource_type "server"
                  && bool_decide (db.(servers) !! resource_id = Some community_id)).
End Grants.

(** ** Rows other contexts write

    What the community tables see of an account or a server that comes or goes:
    the cascades of the foreign keys on [user.id] and [server.id]. *)

Module Foreign.

Definition user_registered (user_id : uuid) : CM unit := modify (fun db =>
  {| communities := db.(communities); memberships := db.(memberships); roles := db.(roles);
     membership_roles := db.(membership_roles); grants := db.(grants);
     known_users := {[user_id]} ∪ db.(known_users); servers := db.(servers) |}).

Definition user_deleted (user_id : uuid) : CM unit := modify (fun db =>
  let ms := filter (fun km : uuid * Membership => km.2.(me_user_id) <> user_id)
              db.(memberships) in
  {| communities := db.(communities);
     memberships := ms;
     roles := db.(roles);
     membership_roles := filter (fun mr : uuid * uuid => is_Some (ms !! mr.1))
                           db.(membership_roles);
     grants := filter (fun kg : uuid * ResourceGrant =>
                 kg.2.(rg_user_id) <> user_id /\ is_Some (ms !! kg.2.(rg_membership_id)))
                 db.(grants);
     known_users := db.(known_users) ∖ {[user_id]};
     servers := db.(servers) |}).

(** A new server row references its community. *)
Definition server_created (server_id community_id : uuid) : CM unit := try_modify (fun db =>
  match db.(servers) !! server_id, db.(communities) !! community_id with
  | None, Some _ =>
      Ok {| communities := db.(communities); memberships := db.(memberships);
            roles := db.(roles); membership_roles := db.(membership_roles);
            grants := db.(grants); known_users := db.(known_users);
            servers := <[server_id := community_id]> db.(servers) |}
  | _, _ => Err RawIntegrityError
  end).

Definition server_deleted (server_id : uuid) : CM unit := modify (fun db =>
  {| communities := db.(communities); memberships := db.(memberships); roles := db.(roles);
     membership_roles := db.(membership_roles);
     grants := filter (fun kg : uuid * ResourceGrant => kg.2.(rg_resource_id) <> server_id)
                 db.(grants);
     known_users := db.(known_users); servers := delete server_id db.(servers) |}).
End Foreign.

(** ** Running a use case's code on a symbolic database *)
Ltac run_ctx :=
  cbv [uow on commit mbind mret M_bind M_ret lift raise gets modify guard_not try_modify
       result_bind result_ret
       Communities.add Communities.get_by_id Communities.get_by_name Communities.update
       Communities.delete_community
       Memberships.add Memberships.get_by_user_and_community Memberships.list_for_user
       Memberships.lock_by_user_and_community Memberships.hold_for_users
       Memberships.delete_membership Memberships.assign_role Memberships.unassign_role
       Memberships.list_role_ids Memberships.lock_role_ids Memberships.lock_owner_role_holders
       Roles.add Roles.get_by_id Roles.lock_by_id Roles.get_by_ids Roles.lock_by_ids
       Roles.list_for_community Roles.update Roles.delete_role
       Grants.add Grants.get_by_id Grants.get_for_user_resource Grants.lock_for_user_resource
       Grants.list_for_community Grants.delete_grant Grants.resource_exists
       Foreign.user_registered Foreign.user_deleted Foreign.server_created Foreign.server_deleted];
  cbn [fst snd work durable].
