(* ===== verification/Community.v ===== *)
(** * Communities: the use cases

    [community/application]: provisioning, roles, memberships, resource grants
    and the permission ceiling, and the two-layer authorization of
    [community/adapters/permission_checker.py].  A transaction is one step of the
    tables. *)
From Stdlib Require Import ZArith NArith Lia String.
From stdpp Require Import base gmap strings list fin_maps fin_sets.
From S2P Require Import Prelude PyString Uow Uuid Calendar Permissions CommunityStore.

Open Scope Z_scope.

Abbreviation CTx := (M (tx CDb) community_error).

(** ** Authorization *)

(** [RepositoryMembershipVisibility.is_member]. *)
Definition is_member (user_id community_id : uuid) : CM bool :=
  m ← uow (on (Memberships.get_by_user_and_community user_id community_id));
  mret (match m with Some _ => true | None => false end).

(** The union of the permissions of some roles. *)
Definition permissions_of (rs : gmap uuid Role) : gset Permission :=
  map_fold (fun _ r acc => r.(ro_permissions) ∪ acc) ∅ rs.

Definition _effective_permissions (user_id : uuid) (resource : ResourceRef) : CM (gset Permission) :=
  uow (
    membership ← on (Memberships.get_by_user_and_community user_id resource.(rr_community_id));
    match membership with
    | None => mret ∅
    | Some membership =>
        ids ← on (Memberships.list_role_ids membership.(me_id));
        rs ← on (Roles.get_by_ids ids);
        let effective := permissions_of rs in
        match resource.(rr_resource_type), resource.(rr_resource_id) with
        | Some t, Some i =>
            grant ← on (Grants.get_for_user_resource user_id resource.(rr_community_id) t i);
            mret (match grant with
                  | Some g => effective ∪ g.(rg_permissions)
                  | None => effective
                  end)
        | _, _ => mret effective
        end
    end).

(** [RoleGrantPermissionChecker.can]. *)
Definition can (user : AuthUser) (operation : Permission) (resource : ResourceRef) : CM bool :=
  _ ← lift (require_known_permission operation);
  if is_platform_admin_permission operation then mret user.(au_is_platform_admin)
  else
    effective ← _effective_permissions user.(au_user_id) resource;
    mret (bool_decide (operation ∈ effective)).

(** ** The permission ceiling *)

Definition lock_actor_ceiling (actor_id community_id : uuid)
    (resource : option (string * uuid)) (role_to_update : option uuid)
    (roles_to_share : gset uuid) : CTx (gset Permission) :=
  held_memberships ← on (Memberships.hold_for_users community_id [actor_id]);
  let membership := head (held_memberships : list Membership) in
  ids ← match membership with
        | None => mret ∅
        | Some m => on (Memberships.list_role_ids m.(me_id))
        end;
  rs ← on (Roles.lock_by_ids (ids ∪ roles_to_share) role_to_update);
  ceiling ← match membership with
            | None => mret ∅
            | Some m =>
                held ← on (Memberships.lock_role_ids m.(me_id) (dom (rs : gmap uuid Role)));
                mret (permissions_of
                  (filter (fun kr : uuid * Role => kr.1 ∈ (held : gset uuid)) (rs : gmap uuid Role)))
            end;
  match resource with
  | None => mret ceiling
  | Some (t, i) =>
      actor_grant ← on (Grants.lock_for_user_resource actor_id community_id t i);
      mret (match actor_grant with
            | Some g => ceiling ∪ g.(rg_permissions)
            | None => ceiling
            end)
  end.

Definition check_permission_ceiling (ceiling conferred : gset Permission) : CTx unit :=
  let exceeded := conferred ∖ ceiling in
  guard_not (negb (bool_decide (exceeded = ∅))) (PermissionCeilingExceededError exceeded).

Definition enforce_permission_ceiling (actor_id community_id : uuid) (conferred : gset Permission)
    (resource : option (string * uuid)) : CTx unit :=
  if bool_decide (conferred = ∅) then mret tt
  else
    ceiling ← lock_actor_ceiling actor_id community_id resource None ∅;
    check_permission_ceiling ceiling conferred.

(** ** Roles *)

Definition _validate_permissions (permissions : gset Permission)
    : result community_error (gset Permission) :=
  validate_all require_community_permission permissions.

Definition ListRoles (community_id : uuid) : CM (gmap uuid Role) :=
  uow (on (Roles.list_for_community community_id)).

Definition ReadRole (community_id role_id : uuid) : CM Role :=
  role ← uow (on (Roles.get_by_id role_id));
  match role with
  | Some r => if bool_decide (r.(ro_community_id) = community_id) then mret r
              else raise RoleNotFoundError
  | None => raise RoleNotFoundError
  end.

Section UseCases.
Context `{PyStr}.

(** [role_id] is what [RoleId.new] answered. *)
Definition CreateRole (community_id actor_id : uuid) (name : string)
    (permissions : gset Permission) (role_id : uuid) (now : datetime) : CM Role :=
  role_name ← lift (RoleName_new name);
  validated ← lift (_validate_permissions permissions);
  let role := {| ro_id := role_id; ro_community_id := community_id; ro_name := role_name;
                 ro_permissions := validated; ro_created_at := now; ro_updated_at := now;
                 ro_is_preset := false |} in
  uow (
    _ ← enforce_permission_ceiling actor_id community_id validated None;
    _ ← on (Roles.add role);
    _ ← commit;
    mret role).

Definition UpdateRole (community_id role_id actor_id : uuid) (name : option string)
    (permissions : option (gset Permission)) (now : datetime) : CM Role :=
  uow (
    '(ceiling, role) ←
      match permissions with
      | None => role ← on (Roles.get_by_id role_id); mret (∅, role)
      | Some _ =>
          ceiling ← lock_actor_ceiling actor_id community_id None (Some role_id) ∅;
          role ← on (Roles.lock_by_id role_id);
          mret (ceiling, role)
      end;
    match (role : option Role) with
    | None => raise RoleNotFoundError
    | Some role =>
        _ ← guard_not (negb (bool_decide (role.(ro_community_id) = community_id))) RoleNotFoundError;
        _ ← guard_not role.(ro_is_preset) PresetRoleNotEditableError;
        new_name ← lift (match name with
                         | Some n => n' ← RoleName_new n; Ok (Some n')
                         | None => Ok None
                         end);
        validated ← match permissions with
                    | None => mret None
                    | Some p =>
                        validated ← lift (_validate_permissions p);
                        _ ← check_permission_ceiling ceiling (validated ∖ role.(ro_permissions));
                        mret (Some validated)
                    end;
        updated ← on (Roles.update role_id new_name validated now);
        _ ← commit;
        mret updated
    end).

Definition DeleteRole (community_id role_id : uuid) : CM unit :=
  uow (
    role ← on (Roles.get_by_id role_id);
    match role with
    | None => raise RoleNotFoundError
    | Some role =>
        _ ← guard_not (negb (bool_decide (role.(ro_community_id) = community_id))) RoleNotFoundError;
        _ ← guard_not role.(ro_is_preset) PresetRoleNotEditableError;
        _ ← on (Roles.delete_role role_id);
        commit
    end).

(** ** Memberships *)

Definition _is_preset_owner (r : Role) : bool :=
  r.(ro_is_preset) && String.eqb r.(ro_name) OWNER_ROLE_NAME.

Definition _guard_last_owner (community_id : uuid) (membership : Membership) : CTx unit :=
  rs ← on (Roles.list_for_community community_id);
  match find_row _is_preset_owner (rs : gmap uuid Role) with
  | None => mret tt
  | Some owner_role =>
      holders ← on (Memberships.lock_owner_role_holders community_id owner_role.(ro_id));
      guard_not (bool_decide (membership.(me_id) ∈ (holders : gset uuid))
                 && negb (1 <? Z.of_nat (size (holders : gset uuid)))) LastOwnerRemovalError
  end.

(** [resolve_username] is the identity context's lookup. *)
Definition AddMember (resolve_username : string -> option uuid) (community_id : uuid)
    (user_id : option uuid) (username : option string) (membership_id : uuid) (now : datetime)
    : CM Membership :=
  user_id ← match username with
            | Some name =>
                match resolve_username name with
                | Some u => mret u
                | None => raise MemberUserNotFoundError
                end
            | None =>
                match user_id with
                | None => raise MemberUserNotFoundError
                | Some u =>
                    known ← gets (fun db => bool_decide (u ∈ db.(known_users)));
                    if (known : bool) then mret u else raise MemberUserNotFoundError
                end
            end;
  let membership := {| me_id := membership_id; me_user_id := user_id;
                       me_community_id := community_id; me_created_at := now |} in
  uow (_ ← on (Memberships.add membership);
       _ ← commit;
       mret membership).

Definition RemoveMember (community_id user_id : uuid) : CM unit :=
  uow (
    membership ← on (Memberships.lock_by_user_and_community user_id community_id);
    match membership with
    | None => raise MembershipNotFoundError
    | Some membership =>
        _ ← _guard_last_owner community_id membership;
        _ ← on (Memberships.delete_membership membership.(me_id));
        commit
    end).

(** The recipient's row among the two held ones. *)
Definition recipient (user_id : uuid) (held : list Membership) : option Membership :=
  List.find (fun m => bool_decide (m.(me_user_id) = user_id)) held.

Definition AssignRole (community_id user_id role_id actor_id : uuid) : CM unit :=
  uow (
    held ← on (Memberships.hold_for_users community_id [user_id; actor_id]);
    match recipient user_id held with
    | None => raise MembershipNotFoundError
    | Some membership =>
        ceiling ← lock_actor_ceiling actor_id community_id None None {[role_id]};
        rs ← on (Roles.lock_by_ids {[role_id]} None);
        match (rs : gmap uuid Role) !! role_id with
        | None => raise RoleNotFoundError
        | Some role =>
            _ ← guard_not (negb (bool_decide (role.(ro_community_id) = community_id)))
                  RoleNotFoundError;
            _ ← check_permission_ceiling ceiling role.(ro_permissions);
            ids ← on (Memberships.list_role_ids membership.(me_id));
            if bool_decide (role_id ∈ (ids : gset uuid)) then mret tt
            else
              _ ← on (Memberships.assign_role membership.(me_id) role_id);
              commit
        end
    end).

Definition UnassignRole (community_id user_id role_id : uuid) : CM unit :=
  uow (
    membership ← on (Memberships.get_by_user_and_community user_id community_id);
    match membership with
    | None => raise MembershipNotFoundError
    | Some membership =>
        role ← on (Roles.get_by_id role_id);
        match role with
        | None => raise RoleNotFoundError
        | Some role =>
            _ ← guard_not (negb (bool_decide (role.(ro_community_id) = community_id)))
                  RoleNotFoundError;
            _ ← (if _is_preset_owner role then _guard_last_owner community_id membership
                 else mret tt);
            _ ← on (Memberships.unassign_role membership.(me_id) role_id);
            commit
        end
    end).

(** [CommunityBackedOwnership.owns_any_community], which the account use cases
    consult before they delete an account. *)
Fixpoint owns_among (ms : list Membership) : CTx bool :=
  match ms with
  | [] => mret false
  | membership :: ms' =>
      rs ← on (Roles.list_for_community membership.(me_community_id));
      match find_row _is_preset_owner (rs : gmap uuid Role) with
      | None => owns_among ms'
      | Some owner_role =>
          held ← on (Memberships.list_role_ids membership.(me_id));
          if bool_decide (owner_role.(ro_id) ∈ (held : gset uuid)) then mret true
          else owns_among ms'
      end
  end.

Definition owns_any_community (user_id : uuid) : CM bool :=
  uow (ms ← on (Memberships.list_for_user user_id); owns_among ms).

(** An account deletion as the community tables see it: the ownership check, then
    the cascade, taken as one step.  [DeleteAccount] and [AdminDeleteUser] run them
    in two transactions; [Authority] shows what may come between. *)
Definition account_deletion (user_id : uuid) : CM unit :=
  owns ← owns_any_community user_id;
  if (owns : bool) then mret tt else Foreign.user_deleted user_id.

(** ** Resource grants *)

Definition ListGrants (community_id : uuid) (user_id : option uuid) : CM (gmap uuid ResourceGrant) :=
  uow (on (Grants.list_for_community community_id user_id)).

Definition CreateGrant (community_id actor_id user_id : uuid) (resource_type : string)
    (resource_id : uuid) (permissions : gset Permission) (grant_id : uuid) (now : datetime)
    : CM ResourceGrant :=
  _ ← guard_not (match GRANT_PERMISSIONS_BY_RESOURCE_TYPE resource_type with
                 | None => true | Some _ => false end) InvalidGrantResourceTypeError;
  validated ← lift (validate_all (fun p => require_grant_permission p resource_type) permissions);
  uow (
    held ← on (Memberships.hold_for_users community_id [user_id; actor_id]);
    match recipient user_id held with
    | None => raise GrantTargetNotMemberError
    | Some membership =>
        let grant := {| rg_id := grant_id; rg_membership_id := membership.(me_id);
                        rg_user_id := user_id; rg_community_id := community_id;
                        rg_resource_type := resource_type; rg_resource_id := resource_id;
                        rg_permissions := validated; rg_created_at := now; rg_updated_at := now |} in
        exist ← on (Grants.resource_exists community_id resource_type resource_id);
        _ ← guard_not (negb exist) GrantResourceNotFoundError;
        _ ← enforce_permission_ceiling actor_id community_id validated
              (Some (resource_type, resource_id));
        _ ← on (Grants.add grant);
        _ ← commit;
        mret grant
    end).

Definition RevokeGrant (community_id grant_id : uuid) : CM unit :=
  uow (
    grant ← on (Grants.get_by_id grant_id);
    match grant with
    | None => raise ResourceGrantNotFoundError
    | Some grant =>
        _ ← guard_not (negb (bool_decide (grant.(rg_community_id) = community_id)))
              ResourceGrantNotFoundError;
        _ ← on (Grants.delete_grant grant_id);
        commit
    end).

(** ** Communities *)

Definition ProvisionCommunity (name : string) (owner_user_id : uuid)
    (community_id role_id membership_id : uuid) (now : datetime) : CM Community :=
  community_name ← lift (CommunityName_new name);
  known ← gets (fun db => bool_decide (owner_user_id ∈ db.(known_users)));
  _ ← guard_not (negb known) OwnerUserNotFoundError;
  let community := {| co_id := community_id; co_name := community_name; co_created_at := now;
                      co_updated_at := now; co_max_servers := None; co_max_members := None |} in
  let owner_role := {| ro_id := role_id; ro_community_id := community_id;
                       ro_name := OWNER_ROLE_NAME; ro_permissions := COMMUNITY_PERMISSIONS;
                       ro_created_at := now; ro_updated_at := now; ro_is_preset := true |} in
  let membership := {| me_id := membership_id; me_user_id := owner_user_id;
                       me_community_id := community_id; me_created_at := now |} in
  uow (
    other ← on (Communities.get_by_name community_name);
    _ ← guard_not (match other with Some _ => true | None => false end) CommunityAlreadyExistsError;
    _ ← on (Communities.add community);
    _ ← on (Roles.add owner_role);
    _ ← on (Memberships.add membership);
    _ ← on (Memberships.assign_role membership_id role_id);
    _ ← commit;
    mret community).

Definition ReadCommunity (community_id : uuid) : CM Community :=
  c ← uow (on (Communities.get_by_id community_id));
  match c with Some c => mret c | None => raise CommunityNotFoundError end.

Definition RenameCommunity (community_id : uuid) (name : string) (now : datetime) : CM Community :=
  new_name ← lift (CommunityName_new name);
  uow (
    community ← on (Communities.get_by_id community_id);
    match community with
    | None => raise CommunityNotFoundError
    | Some community =>
        existing ← on (Communities.get_by_name new_name);
        _ ← guard_not (match existing with
                       | Some e => negb (bool_decide (e.(co_id) = community_id))
                       | None => false
                       end) CommunityAlreadyExistsError;
        _ ← on (Communities.update community_id new_name now);
        _ ← commit;
        mret {| co_id := community.(co_id); co_name := new_name;
                co_created_at := community.(co_created_at); co_updated_at := now;
                co_max_servers := community.(co_max_servers);
                co_max_members := community.(co_max_members) |}
    end).

Definition DeleteCommunity (community_id : uuid) : CM unit :=
  uow (
    community ← on (Communities.get_by_id community_id);
    match community with
    | None => raise CommunityNotFoundError
    | Some _ => _ ← on (Communities.delete_community community_id); commit
    end).
End UseCases.

(** [ReadMyEffectivePermissions]. *)
Definition ReadMyEffectivePermissions (user : AuthUser) (community_id : uuid)
    : CM (gset Permission * gmap uuid ResourceGrant) :=
  uow (
    gs ← on (Grants.list_for_community community_id (Some user.(au_user_id)));
    membership ← on (Memberships.get_by_user_and_community user.(au_user_id) community_id);
    permissions ← match membership with
                  | None => mret ∅
                  | Some m =>
                      ids ← on (Memberships.list_role_ids m.(me_id));
                      rs ← on (Roles.get_by_ids ids);
                      mret (permissions_of rs)
                  end;
    mret (permissions, gs)).
