(* ===== verification/CommunityInv.v ===== *)
(** * Communities: well-formed tables and what a user holds in them

    The invariant of the community tables (the schema's keys, the permission
    catalog, the Owner role), the permissions a user holds by it, and the changes
    one transaction may make.  [Authority] proves that the use cases make no
    others. *)
From Stdlib Require Import ZArith NArith Lia String.
From stdpp Require Import base gmap strings list fin_maps fin_sets.
From S2P Require Import Prelude PyString Uow Uuid Calendar Permissions CommunityStore Community.

Open Scope Z_scope.

(** ** Well-formed tables *)

(** The constraints a subset of the rows inherits. *)
Record rows_ok (db : CDb) : Prop := {
  community_keys : forall k c, db.(communities) !! k = Some c -> c.(co_id) = k;
  membership_keys : forall k m, db.(memberships) !! k = Some m -> m.(me_id) = k;
  role_keys : forall k r, db.(roles) !! k = Some r -> r.(ro_id) = k;
  grant_keys : forall k g, db.(grants) !! k = Some g -> g.(rg_id) = k;
  one_membership : forall k k' m m',
    db.(memberships) !! k = Some m -> db.(memberships) !! k' = Some m' ->
    m.(me_user_id) = m'.(me_user_id) -> m.(me_community_id) = m'.(me_community_id) -> k = k';
  one_role_name : forall k k' r r',
    db.(roles) !! k = Some r -> db.(roles) !! k' = Some r' ->
    r.(ro_community_id) = r'.(ro_community_id) -> r.(ro_name) = r'.(ro_name) -> k = k';
  one_grant : forall k k' g g',
    db.(grants) !! k = Some g -> db.(grants) !! k' = Some g' ->
    g.(rg_user_id) = g'.(rg_user_id) -> g.(rg_resource_type) = g'.(rg_resource_type) ->
    g.(rg_resource_id) = g'.(rg_resource_id) -> k = k';
  same_community : forall mk rk m r,
    (mk, rk) ∈ db.(membership_roles) -> db.(memberships) !! mk = Some m ->
    db.(roles) !! rk = Some r -> m.(me_community_id) = r.(ro_community_id);
  role_catalog : forall k r, db.(roles) !! k = Some r -> r.(ro_permissions) ⊆ COMMUNITY_PERMISSIONS;
  grant_catalog : forall k g, db.(grants) !! k = Some g ->
    g.(rg_permissions) ⊆ COMMUNITY_PERMISSIONS;
  preset_owner : forall k r, db.(roles) !! k = Some r -> r.(ro_is_preset) = true ->
    r.(ro_name) = OWNER_ROLE_NAME /\ r.(ro_permissions) = COMMUNITY_PERMISSIONS
}.

(** The foreign keys. *)
Record keys_ok (db : CDb) : Prop := {
  membership_fk : forall k m, db.(memberships) !! k = Some m ->
    m.(me_user_id) ∈ db.(known_users) /\ is_Some (db.(communities) !! m.(me_community_id));
  role_fk : forall k r, db.(roles) !! k = Some r ->
    is_Some (db.(communities) !! r.(ro_community_id));
  assignment_fk : forall mk rk, (mk, rk) ∈ db.(membership_roles) ->
    is_Some (db.(memberships) !! mk) /\ is_Some (db.(roles) !! rk);
  grant_fk : forall k g, db.(grants) !! k = Some g ->
    Grants.backed db g = true
    /\ db.(servers) !! g.(rg_resource_id) = Some g.(rg_community_id);
  server_fk : forall k c, db.(servers) !! k = Some c -> is_Some (db.(communities) !! c)
}.

(** A member holding the community's Owner role. *)
Definition owner_pair (db : CDb) (c mk rk : uuid) : Prop :=
  (exists r, db.(roles) !! rk = Some r /\ r.(ro_community_id) = c /\ r.(ro_is_preset) = true)
  /\ (exists m, db.(memberships) !! mk = Some m /\ m.(me_community_id) = c)
  /\ (mk, rk) ∈ db.(membership_roles).

Definition owned (db : CDb) : Prop := forall c, is_Some (db.(communities) !! c) ->
  exists mk rk, owner_pair db c mk rk.

Record community_wf (db : CDb) : Prop := {
  wf_rows : rows_ok db;
  wf_keys : keys_ok db;
  wf_owned : owned db
}.

Lemma of_pair_true u c m :
  Memberships.of_pair u c m = true <-> m.(me_user_id) = u /\ m.(me_community_id) = c.
Proof.
  unfold Memberships.of_pair. rewrite andb_true_iff, !bool_decide_eq_true. done.
Qed.

Lemma backed_true db g :
  Grants.backed db g = true <-> exists m, db.(memberships) !! g.(rg_membership_id) = Some m
    /\ m.(me_user_id) = g.(rg_user_id) /\ m.(me_community_id) = g.(rg_community_id).
Proof.
  unfold Grants.backed. destruct (_ !! _) as [m|]; [|naive_solver].
  rewrite of_pair_true. naive_solver.
Qed.

Lemma in_community_true u c t i g :
  Grants.in_community u c t i g = true <->
  g.(rg_user_id) = u /\ g.(rg_resource_type) = t /\ g.(rg_resource_id) = i
  /\ g.(rg_community_id) = c.
Proof.
  unfold Grants.in_community, Grants.for_resource.
  rewrite !andb_true_iff, !bool_decide_eq_true, String.eqb_eq. tauto.
Qed.

(** ** The permissions a user holds *)

Lemma elem_of_permissions_of rs p :
  p ∈ permissions_of rs <-> exists k r, rs !! k = Some r /\ p ∈ r.(ro_permissions).
Proof.
  unfold permissions_of. induction rs as [|k r rs Hk IH] using map_ind.
  - rewrite map_fold_empty. split; [set_solver|]. by intros (k & r & Hk & _).
  - rewrite (map_fold_insert_L _ _ k r rs); [|set_solver|done].
    rewrite elem_of_union, IH. split.
    + intros [Hp|(k' & r' & Hk' & Hp)]; [exists k, r; by rewrite lookup_insert_eq|].
      exists k', r'. rewrite lookup_insert_ne; [done|congruence].
    + intros (k' & r' & [[-> ->]|[Hne Hk']]%lookup_insert_Some & Hp); [by left|right]. eauto.
Qed.

Definition role_permissions (db : CDb) (user_id community_id : uuid) : gset Permission :=
  match Memberships.by_pair db user_id community_id with
  | None => ∅
  | Some m => permissions_of (Roles.by_ids db (Memberships.role_ids db m.(me_id)))
  end.

(** [_effective_permissions] as a function of the tables. *)
Definition effective (db : CDb) (user_id : uuid) (res : ResourceRef) : gset Permission :=
  role_permissions db user_id res.(rr_community_id) ∪
  match Memberships.by_pair db user_id res.(rr_community_id),
        res.(rr_resource_type), res.(rr_resource_id) with
  | Some _, Some t, Some i =>
      match Grants.user_resource db user_id res.(rr_community_id) t i with
      | Some g => g.(rg_permissions)
      | None => ∅
      end
  | _, _, _ => ∅
  end.

Lemma effective_run db u res : _effective_permissions u res db = (Ok (effective db u res), db).
Proof.
  unfold _effective_permissions, effective, role_permissions. run_ctx.
  destruct (Memberships.by_pair _ _ _) as [m|]; [|by rewrite (right_id_L ∅ (∪))]. run_ctx.
  destruct (rr_resource_type res) as [t|], (rr_resource_id res) as [i|];
    try (by rewrite (right_id_L ∅ (∪))).
  run_ctx. destruct (Grants.user_resource _ _ _ _ _) as [g|]; [done|by rewrite (right_id_L ∅ (∪))].
Qed.

(** What gives a user a permission: a role of the community, or a grant on the
    resource. *)
Definition by_role (db : CDb) (u c : uuid) (p : Permission) : Prop :=
  exists mk m rk r, db.(memberships) !! mk = Some m /\ m.(me_user_id) = u
    /\ m.(me_community_id) = c /\ (mk, rk) ∈ db.(membership_roles)
    /\ db.(roles) !! rk = Some r /\ p ∈ r.(ro_permissions).

Definition by_grant (db : CDb) (u : uuid) (res : ResourceRef) (p : Permission) : Prop :=
  exists k g t i, res.(rr_resource_type) = Some t /\ res.(rr_resource_id) = Some i
    /\ db.(grants) !! k = Some g /\ g.(rg_user_id) = u
    /\ g.(rg_community_id) = res.(rr_community_id)
    /\ g.(rg_resource_type) = t /\ g.(rg_resource_id) = i /\ p ∈ g.(rg_permissions).

Lemma elem_of_role_ids db mk rk :
  rk ∈ Memberships.role_ids db mk <-> (mk, rk) ∈ db.(membership_roles).
Proof.
  unfold Memberships.role_ids. rewrite elem_of_map. setoid_rewrite elem_of_filter. split.
  - by intros ([mk' rk'] & -> & [<- Hin]).
  - intros Hin. by exists (mk, rk).
Qed.

Section Holding.
Context (db : CDb) (Hrows : rows_ok db).

Lemma by_pair_Some u c m :
  Memberships.by_pair db u c = Some m <->
  db.(memberships) !! m.(me_id) = Some m /\ m.(me_user_id) = u /\ m.(me_community_id) = c.
Proof using Hrows.
  unfold Memberships.by_pair. split.
  - intros (k & Hk & [Hu Hc]%of_pair_true)%find_row_Some.
    by rewrite (membership_keys _ Hrows _ _ Hk).
  - intros (Hm & Hu & Hc). destruct (find_row _ _) as [m'|] eqn:E.
    + apply find_row_Some in E as (k & Hk & [Hu' Hc']%of_pair_true).
      assert (k = me_id m) as -> by (apply (one_membership _ Hrows _ _ m' m); congruence).
      congruence.
    + assert (Memberships.of_pair u c m = false) as Hf by (by eapply find_row_None).
      apply not_true_iff_false in Hf. destruct Hf. by apply of_pair_true.
Qed.

Lemma by_pair_None u c :
  Memberships.by_pair db u c = None <->
  forall k m, db.(memberships) !! k = Some m -> ~ (m.(me_user_id) = u /\ m.(me_community_id) = c).
Proof using.
  unfold Memberships.by_pair. split.
  - intros E k m Hk. rewrite <- of_pair_true. by rewrite (find_row_None _ _ _ _ E Hk).
  - intros Hn. destruct (find_row _ _) as [m|] eqn:E; [|done].
    apply find_row_Some in E as (k & Hk & ?%of_pair_true). by apply Hn in Hk.
Qed.

Lemma elem_of_role_permissions u c p : p ∈ role_permissions db u c <-> by_role db u c p.
Proof using Hrows.
  unfold role_permissions, by_role. destruct (Memberships.by_pair _ _ _) as [m|] eqn:E.
  - apply by_pair_Some in E as (Hm & Hu & Hc). rewrite elem_of_permissions_of.
    unfold Roles.by_ids. setoid_rewrite map_lookup_filter_Some.
    setoid_rewrite elem_of_role_ids. split; [naive_solver|].
    intros (mk & m' & rk & r & Hm' & Hu' & Hc' & Hmr & Hr & Hp).
    assert (mk = me_id m) as -> by (apply (one_membership _ Hrows _ _ m' m); congruence).
    exists rk, r. naive_solver.
  - split; [set_solver|]. intros (mk & m & _ & _ & Hm & Hu & Hc & _).
    by destruct (proj1 (by_pair_None _ _) E mk m Hm).
Qed.

Lemma user_resource_Some u c t i g :
  Grants.user_resource db u c t i = Some g <->
  db.(grants) !! g.(rg_id) = Some g /\ g.(rg_user_id) = u /\ g.(rg_resource_type) = t
  /\ g.(rg_resource_id) = i /\ g.(rg_community_id) = c.
Proof using Hrows.
  unfold Grants.user_resource. split.
  - intros (k & Hk & Hg%in_community_true)%find_row_Some.
    by rewrite (grant_keys _ Hrows _ _ Hk).
  - intros (Hg & Hin). destruct (find_row _ _) as [g'|] eqn:E.
    + apply find_row_Some in E as (k & Hk & Hg'%in_community_true).
      assert (k = rg_id g) as -> by (apply (one_grant _ Hrows _ _ g' g); naive_solver congruence).
      congruence.
    + assert (Grants.in_community u c t i g = false) as Hf by (by eapply find_row_None).
      apply not_true_iff_false in Hf. destruct Hf. by apply in_community_true.
Qed.

Context (Hkeys : keys_ok db).

Lemma elem_of_effective u res p :
  p ∈ effective db u res <-> by_role db u res.(rr_community_id) p \/ by_grant db u res p.
Proof using Hrows Hkeys.
  unfold effective. rewrite elem_of_union, elem_of_role_permissions.
  apply or_iff_compat_l. unfold by_grant. split.
  - destruct (Memberships.by_pair _ _ _) as [m|] eqn:E; [|set_solver].
    destruct (rr_resource_type res) as [t|], (rr_resource_id res) as [i|]; try set_solver.
    destruct (Grants.user_resource _ _ _ _ _) as [g|] eqn:Eg; [|set_solver].
    apply user_resource_Some in Eg. intros Hp. exists (rg_id g), g, t, i. naive_solver.
  - intros (k & g & t & i & -> & -> & Hk & Hu & Hc & Ht & Hi & Hp).
    destruct (grant_fk _ Hkeys _ _ Hk) as [(m & Hm & Hmu & Hmc)%backed_true _].
    destruct (Memberships.by_pair _ _ _) as [m'|] eqn:E.
    + assert (Grants.user_resource db u (rr_community_id res) t i = Some g) as ->; [|done].
      apply user_resource_Some. by rewrite (grant_keys _ Hrows _ _ Hk).
    + exfalso. eapply (proj1 (by_pair_None _ _) E); [exact Hm|]. split; congruence.
Qed.
End Holding.

(** ** Effects of one transaction

    What a transaction may do, with the community it is about, the actor whose
    authority it uses and the community it creates. *)

(** The rows that decide what is held in a community are the same. *)
Definition rows_agree (c : uuid) (db db' : CDb) : Prop :=
  (forall k m, m.(me_community_id) = c ->
     db.(memberships) !! k = Some m <-> db'.(memberships) !! k = Some m)
  /\ (forall k r, r.(ro_community_id) = c ->
        db.(roles) !! k = Some r <-> db'.(roles) !! k = Some r)
  /\ (forall mk rk m, db.(memberships) !! mk = Some m -> m.(me_community_id) = c ->
        (mk, rk) ∈ db.(membership_roles) <-> (mk, rk) ∈ db'.(membership_roles))
  /\ (forall k g, g.(rg_community_id) = c ->
        db.(grants) !! k = Some g <-> db'.(grants) !! k = Some g).

Record effect_ok (target actor creates : option uuid) (db db' : CDb) : Prop := {
  eff_wf : community_wf db';
  eff_local : forall c c', target = Some c -> c' <> c -> rows_agree c' db db';
  eff_gain : forall u res p, creates <> Some res.(rr_community_id) ->
    p ∈ effective db' u res ->
    p ∈ effective db u res \/ exists a, actor = Some a /\ p ∈ effective db a res
}.

Lemma rows_agree_refl c db : rows_agree c db db.
Proof. done. Qed.

Lemma effect_refl target actor creates db : community_wf db -> effect_ok target actor creates db db.
Proof. split; [done|by intros ? ? _ _|by left]. Qed.

Lemma rows_agree_sub c db db' u res p :
  community_wf db -> community_wf db' -> rows_agree c db db' -> res.(rr_community_id) = c ->
  p ∈ effective db u res -> p ∈ effective db' u res.
Proof.
  intros [R K _] [R' K' _] (Hm & Hr & Hmr & Hg) Hc.
  rewrite !elem_of_effective by done. rewrite Hc. unfold by_role, by_grant.
  intros [(mk & m & rk & r & Hmk & Hu & Hmc & Hin & Hrk & Hp)|Hgr]; [left|right].
  - pose proof (same_community _ R _ _ _ _ Hin Hmk Hrk) as Heq.
    exists mk, m, rk, r. split_and!; try done.
    + by apply Hm.
    + by apply (Hmr _ _ _ Hmk).
    + apply Hr; [congruence|done].
  - destruct Hgr as (k & g & t & i & Ht & Hi & Hk & Hu & Hgc & Hrest).
    exists k, g, t, i. split_and!; try done; try apply Hrest. apply Hg; [congruence|done].
Qed.

Lemma rows_agree_sym c db db' : rows_agree c db db' -> rows_agree c db' db.
Proof.
  intros (Hm & Hr & Hmr & Hg). split_and!.
  - intros. by rewrite Hm.
  - intros. by rewrite Hr.
  - intros mk rk m Hmk Hc. symmetry. apply (Hmr mk rk m); [by apply Hm|done].
  - intros. by rewrite Hg.
Qed.

Lemma rows_agree_effective c db db' u res :
  community_wf db -> community_wf db' -> rows_agree c db db' -> res.(rr_community_id) = c ->
  effective db' u res = effective db u res.
Proof.
  intros W W' Ha Hc. apply set_eq. intros p. split.
  - eapply rows_agree_sub; [done|done|by apply rows_agree_sym|done].
  - by eapply rows_agree_sub.
Qed.

(** ** Removing rows *)

Record db_sub (db' db : CDb) : Prop := {
  sub_communities : forall k v, db'.(communities) !! k = Some v -> db.(communities) !! k = Some v;
  sub_memberships : forall k v, db'.(memberships) !! k = Some v -> db.(memberships) !! k = Some v;
  sub_roles : forall k v, db'.(roles) !! k = Some v -> db.(roles) !! k = Some v;
  sub_assignments : forall mr, mr ∈ db'.(membership_roles) -> mr ∈ db.(membership_roles);
  sub_grants : forall k v, db'.(grants) !! k = Some v -> db.(grants) !! k = Some v
}.

Lemma rows_ok_sub db db' : rows_ok db -> db_sub db' db -> rows_ok db'.
Proof. intros [] []. split; eauto. Qed.

Lemma holding_sub db db' u res p :
  db_sub db' db ->
  by_role db' u res.(rr_community_id) p \/ by_grant db' u res p ->
  by_role db u res.(rr_community_id) p \/ by_grant db u res p.
Proof. intros []. unfold by_role, by_grant. naive_solver. Qed.

Lemma effect_shrink target actor creates db db' :
  community_wf db -> db_sub db' db -> keys_ok db' -> owned db' ->
  (forall c c', target = Some c -> c' <> c -> rows_agree c' db db') ->
  effect_ok target actor creates db db'.
Proof.
  intros [R K O] Hsub K' O' Hloc. assert (R' : rows_ok db') by by eapply rows_ok_sub.
  split; [done|done|]. intros u res p _. rewrite !elem_of_effective by done.
  intros Hp. left. by eapply holding_sub.
Qed.

(** An owner that stays keeps its community owned. *)
Lemma owned_keep db db' :
  owned db -> (forall c, is_Some (db'.(communities) !! c) -> is_Some (db.(communities) !! c)) ->
  (forall c mk rk, is_Some (db'.(communities) !! c) -> owner_pair db c mk rk ->
     exists mk' rk', owner_pair db' c mk' rk') ->
  owned db'.
Proof. intros Ho Hc Hk c Hs. destruct (Ho c (Hc c Hs)) as (mk & rk & Hp). by eapply Hk. Qed.

(** Unassigning a role, of which the community keeps an owner. *)
Lemma effect_unassign actor creates db c mk rk m :
  community_wf db -> db.(memberships) !! mk = Some m -> m.(me_community_id) = c ->
  (forall rk', owner_pair db c mk rk' -> rk' = rk ->
     exists mk', mk' <> mk /\ owner_pair db c mk' rk) ->
  effect_ok (Some c) actor creates db
    (set_membership_roles (db.(membership_roles) ∖ {[(mk, rk)]}) db).
Proof.
  intros W Hm Hc Hother. destruct (W) as [R K O]. apply effect_shrink; [done|..].
  - split; simpl; try done. set_solver.
  - destruct K. split; simpl; try done. set_solver.
  - eapply owned_keep; [done|done|]. intros c' mk' rk' _ Hp.
    destruct (decide ((mk', rk') = (mk, rk))) as [[= -> ->]|Hne].
    + assert (c' = c) as ->.
      { destruct Hp as (_ & (m' & Hm' & <-) & _). congruence. }
      destruct (Hother rk Hp eq_refl) as (mk'' & Hne & Hr & Hm'' & Hin).
      exists mk'', rk. split_and!; [done|done|]. simpl. set_solver.
    + destruct Hp as (Hr & Hm' & Hin). exists mk', rk'. split_and!; [done|done|]. simpl. set_solver.
  - intros c1 c' [= <-] Hne. split_and!; try done. simpl. intros mk' rk' m' Hm' Hc'.
    rewrite elem_of_difference, elem_of_singleton. split; [|tauto]. intros Hin. split; [done|].
    intros [= -> ->]. congruence.
Qed.

(** Removing a member beside an owner. *)
Lemma effect_remove_member actor creates db c mk m :
  community_wf db -> db.(memberships) !! mk = Some m -> m.(me_community_id) = c ->
  (forall rk, owner_pair db c mk rk -> exists mk', mk' <> mk /\ owner_pair db c mk' rk) ->
  effect_ok (Some c) actor creates db (snd (Memberships.delete_membership mk db)).
Proof.
  intros W Hm Hc Hother. destruct (W) as [R K O]. cbn. apply effect_shrink; [done|..].
  - split; simpl; try done; [by intros k v [_ ?]%lookup_delete_Some|set_solver|].
    by intros k v [? _]%map_lookup_filter_Some.
  - destruct K as [Kmf Krf Kaf Kgf Ksf]. split; simpl; try done.
    + intros k m' [_ Hk]%lookup_delete_Some. by apply (Kmf k).
    + intros mk' rk' [Hne Hin]%elem_of_filter. simpl in Hne. rewrite lookup_delete_ne by done. auto.
    + intros k g [Hk Hne]%map_lookup_filter_Some. simpl in Hne.
      destruct (Kgf _ _ Hk) as [(m' & Hm' & Hb)%backed_true Hs].
      split; [|done]. apply backed_true. simpl. exists m'. by rewrite lookup_delete_ne.
  - eapply owned_keep; [done|done|]. intros c' mk' rk' _ Hp.
    assert (Hkeep : forall c0 mk0, mk0 <> mk -> owner_pair db c0 mk0 rk' ->
      owner_pair (snd (Memberships.delete_membership mk db)) c0 mk0 rk').
    { intros c0 mk0 Hne (Hr & (m0 & Hm0 & Hc0) & Hin). split_and!; [done| |set_solver].
      exists m0. simpl. by rewrite lookup_delete_ne. }
    destruct (decide (mk' = mk)) as [->|Hne]; [|eauto].
    assert (c' = c) as -> by (destruct Hp as (_ & (m' & Hm' & <-) & _); congruence).
    destruct (Hother rk' Hp) as (mk'' & Hne & Hp'). eauto.
  - intros c1 c' [= <-] Hne. split_and!; simpl; try done.
    + intros k m' Hc'. rewrite lookup_delete_Some. split; [|tauto]. intros Hk.
      split; [|done]. intros ->. congruence.
    + intros mk' rk' m' Hm' Hc'. rewrite elem_of_filter. simpl. split; [|tauto].
      intros Hin. split; [|done]. intros ->. congruence.
    + intros k g Hg. rewrite map_lookup_filter_Some. simpl. split; [|tauto]. intros Hk.
      split; [done|]. intros <-.
      destruct (grant_fk _ K _ _ Hk) as [(m' & Hm' & _ & Hmc)%backed_true _]. congruence.
Qed.

Lemma effect_delete_role actor creates db c rk r :
  community_wf db -> db.(roles) !! rk = Some r -> r.(ro_community_id) = c ->
  r.(ro_is_preset) = false ->
  effect_ok (Some c) actor creates db (snd (Roles.delete_role rk db)).
Proof.
  intros W Hr Hc Hpre. destruct (W) as [R K O]. cbn. apply effect_shrink; [done|..].
  - split; simpl; try done; [by intros k v [_ ?]%lookup_delete_Some|set_solver].
  - destruct K as [Kmf Krf Kaf Kgf Ksf]. split; simpl; try done.
    + intros k r' [_ Hk]%lookup_delete_Some. by apply (Krf k).
    + intros mk' rk' [Hne Hin]%elem_of_filter. simpl in Hne. rewrite lookup_delete_ne by done. auto.
  - eapply owned_keep; [done|done|]. intros c' mk' rk' _ ((r' & Hr' & Hc' & Hp) & Hm & Hin).
    assert (rk' <> rk) as Hne by (intros ->; congruence).
    exists mk', rk'. split_and!; [|done|simpl; set_solver]. exists r'. simpl.
    by rewrite lookup_delete_ne.
  - intros c1 c' [= <-] Hne. split_and!; simpl; try done.
    + intros k r' Hc'. rewrite lookup_delete_Some. split; [|tauto]. intros Hk.
      split; [|done]. intros ->. congruence.
    + intros mk' rk' m' Hm' Hc'. rewrite elem_of_filter. simpl. split; [|tauto].
      intros Hin. split; [|done]. intros ->.
      pose proof (same_community _ R _ _ _ _ Hin Hm' Hr). congruence.
Qed.

Lemma effect_delete_grant actor creates db c gk g :
  community_wf db -> db.(grants) !! gk = Some g -> g.(rg_community_id) = c ->
  effect_ok (Some c) actor creates db (snd (Grants.delete_grant gk db)).
Proof.
  intros W Hg Hc. destruct (W) as [R K O]. cbn. apply effect_shrink; [done|..].
  - split; simpl; try done. by intros k v [_ ?]%lookup_delete_Some.
  - destruct K as [Kmf Krf Kaf Kgf Ksf]. split; simpl; try done.
    intros k g' [_ Hk]%lookup_delete_Some. by apply (Kgf k).
  - eapply owned_keep; [done|done|]. intros c' mk' rk' _ Hp. by exists mk', rk'.
  - intros c1 c' [= <-] Hne. split_and!; simpl; try done.
    intros k g' Hc'. rewrite lookup_delete_Some. split; [|tauto]. intros Hk.
    split; [|done]. intros ->. congruence.
Qed.

Lemma effect_delete_community actor creates db c :
  community_wf db ->
  effect_ok (Some c) actor creates db (snd (Communities.delete_community c db)).
Proof.
  intros W. destruct (W) as [R K O]. cbv [Communities.delete_community try_modify].
  destruct (any_row _ _) eqn:Es; [by apply effect_refl|]. rewrite any_row_false in Es. cbn [snd].
  apply effect_shrink; [done|..].
  - split; simpl.
    + by intros k v [_ ?]%lookup_delete_Some.
    + by intros k v [? _]%map_lookup_filter_Some.
    + by intros k v [? _]%map_lookup_filter_Some.
    + intros mr. by rewrite elem_of_filter; intros [_ ?].
    + by intros k v [? _]%map_lookup_filter_Some.
  - destruct K as [Kmf Krf Kaf Kgf Ksf]. split; simpl.
    + intros k m [Hk Hne]%map_lookup_filter_Some. simpl in Hne.
      rewrite lookup_delete_ne by done. by apply (Kmf k).
    + intros k r [Hk Hne]%map_lookup_filter_Some. simpl in Hne.
      rewrite lookup_delete_ne by done. by apply (Krf k).
    + by intros mk rk [Hin _]%elem_of_filter.
    + intros k g [Hk [Hne Hs]]%map_lookup_filter_Some. simpl in Hne, Hs.
      destruct (Kgf _ _ Hk) as [(m & Hm & Hb)%backed_true Hsv]. split; [|done].
      apply backed_true. exists m. split; [|done]. simpl. destruct Hs as [m' Hm'].
      pose proof Hm' as [Hm'' _]%map_lookup_filter_Some. congruence.
    + intros k c' Hk. rewrite lookup_delete_ne; [by apply (Ksf k)|].
      intros ->. specialize (Es _ _ Hk). by apply bool_decide_eq_false in Es.
  - eapply owned_keep; [done|intros c' [co Hco]; simpl in Hco; apply lookup_delete_Some in Hco as [_ ?]; by exists co|].
    intros c' mk rk [co Hco]. simpl in Hco. apply lookup_delete_Some in Hco as [Hne _].
    intros ((r & Hr & Hrc & Hp) & (m & Hm & Hmc) & Hin). exists mk, rk. split_and!.
    + exists r. simpl. rewrite map_lookup_filter_Some. naive_solver.
    + exists m. simpl. rewrite map_lookup_filter_Some. naive_solver.
    + simpl. rewrite elem_of_filter. split; [|done]. simpl. split.
      * exists m. rewrite map_lookup_filter_Some. naive_solver.
      * exists r. rewrite map_lookup_filter_Some. naive_solver.
  - intros c1 c' [= <-] Hne. split_and!; simpl.
    + intros k m Hc'. rewrite map_lookup_filter_Some. simpl. naive_solver.
    + intros k r Hc'. rewrite map_lookup_filter_Some. simpl. naive_solver.
    + intros mk rk m Hm Hc'. rewrite elem_of_filter. simpl. split; [|tauto]. intros Hin.
      split; [|done]. destruct (assignment_fk _ K _ _ Hin) as [_ [r Hr]].
      pose proof (same_community _ R _ _ _ _ Hin Hm Hr). split.
      * exists m. rewrite map_lookup_filter_Some. naive_solver.
      * exists r. rewrite map_lookup_filter_Some. split; [done|]. simpl. congruence.
    + intros k g Hg. rewrite map_lookup_filter_Some. simpl. split; [|tauto]. intros Hk.
      split; [done|]. split; [congruence|].
      destruct (grant_fk _ K _ _ Hk) as [(m & Hm & _ & Hmc)%backed_true _].
      exists m. rewrite map_lookup_filter_Some. split; [done|]. simpl. congruence.
Qed.

Lemma effect_user_deleted actor creates db u :
  community_wf db ->
  (forall c mk rk m, owner_pair db c mk rk -> db.(memberships) !! mk = Some m ->
     m.(me_user_id) <> u) ->
  effect_ok None actor creates db (snd (Foreign.user_deleted u db)).
Proof.
  intros W Hno. destruct (W) as [R K O]. cbn. apply effect_shrink; [done|..].
  - split; simpl; try done.
    + by intros k v [? _]%map_lookup_filter_Some.
    + intros mr. by rewrite elem_of_filter; intros [_ ?].
    + by intros k v [? _]%map_lookup_filter_Some.
  - destruct K as [Kmf Krf Kaf Kgf Ksf]. split; simpl; try done.
    + intros k m [Hk Hne]%map_lookup_filter_Some. simpl in Hne.
      destruct (Kmf _ _ Hk) as [Hu Hc]. split; [set_solver|done].
    + intros mk rk [Hs Hin]%elem_of_filter. split; [done|]. by apply (Kaf mk).
    + intros k g [Hk [Hne Hs]]%map_lookup_filter_Some. simpl in Hne, Hs.
      destruct (Kgf _ _ Hk) as [(m & Hm & Hb)%backed_true Hsv]. split; [|done].
      apply backed_true. exists m. split; [|done]. simpl. destruct Hs as [m' Hm'].
      pose proof Hm' as [Hm'' _]%map_lookup_filter_Some. congruence.
  - eapply owned_keep; [done|done|]. intros c mk rk _ Hp.
    pose proof Hp as (Hr & (m & Hm & Hmc) & Hin). exists mk, rk.
    assert (Hm' : filter (fun km : uuid * Membership => km.2.(me_user_id) <> u)
                    db.(memberships) !! mk = Some m).
    { rewrite map_lookup_filter_Some. split; [done|]. simpl. by eapply Hno. }
    split_and!; [done|by exists m|]. simpl. rewrite elem_of_filter. split; [by exists m|done].
  - done.
Qed.

Lemma effect_server_deleted actor creates db s :
  community_wf db -> effect_ok None actor creates db (snd (Foreign.server_deleted s db)).
Proof.
  intros W. destruct (W) as [R K O]. cbn. apply effect_shrink; [done|..].
  - split; simpl; try done. by intros k v [? _]%map_lookup_filter_Some.
  - destruct K as [Kmf Krf Kaf Kgf Ksf]. split; simpl; try done.
    + intros k g [Hk Hne]%map_lookup_filter_Some. simpl in Hne.
      destruct (Kgf _ _ Hk) as [Hb Hs]. split; [done|]. by rewrite lookup_delete_ne.
    + intros k c [_ Hk]%lookup_delete_Some. by apply (Ksf k).
  - eapply owned_keep; [done|done|]. intros c mk rk _ Hp. by exists mk, rk.
  - done.
Qed.

(** ** Adding and rewriting rows *)

Lemma effect_user_registered actor creates db u :
  community_wf db -> effect_ok None actor creates db (snd (Foreign.user_registered u db)).
Proof.
  intros W. destruct (W) as [R K O]. cbn. apply effect_shrink; [done|by split|..].
  - destruct K as [Kmf Krf Kaf Kgf Ksf]. split; simpl; try done.
    intros k m Hk. destruct (Kmf _ _ Hk). set_solver.
  - eapply owned_keep; [done|done|]. intros c mk rk _ Hp. by exists mk, rk.
  - done.
Qed.

Lemma effect_server_created actor creates db s c :
  community_wf db -> effect_ok None actor creates db (snd (Foreign.server_created s c db)).
Proof.
  intros W. destruct (W) as [R K O]. cbv [Foreign.server_created try_modify].
  destruct (servers db !! s) eqn:Es; [by apply effect_refl|].
  destruct (communities db !! c) as [co|] eqn:Ec; [|by apply effect_refl]. cbn [snd].
  apply effect_shrink; [done|by split|..].
  - destruct K as [Kmf Krf Kaf Kgf Ksf]. split; simpl; try done.
    + intros k g Hk. destruct (Kgf _ _ Hk) as [Hb Hs]. split; [done|].
      rewrite lookup_insert_ne; [done|congruence].
    + intros k c' [[_ <-]|[_ Hk]]%lookup_insert_Some; [by exists co|by apply (Ksf k)].
  - eapply owned_keep; [done|done|]. intros c' mk rk _ Hp. by exists mk, rk.
  - done.
Qed.

Lemma effect_rename actor creates db c co :
  community_wf db -> db.(communities) !! c = Some co -> forall co', co'.(co_id) = c ->
  effect_ok (Some c) actor creates db (set_communities (<[c := co']> db.(communities)) db).
Proof.
  intros W Hco co' Hid. destruct (W) as [R K O].
  assert (Hsome : forall k, is_Some (<[c := co']> db.(communities) !! k) <->
                            is_Some (db.(communities) !! k)).
  { intros k. destruct (decide (k = c)) as [->|Hne]; [rewrite lookup_insert_eq, Hco; split; eauto|].
    by rewrite lookup_insert_ne. }
  assert (W' : community_wf (set_communities (<[c := co']> db.(communities)) db)).
  { split.
    - destruct R. split; simpl; try done.
      intros k v [[<- <-]|[_ ?]]%lookup_insert_Some; auto.
    - destruct K. split; simpl; intros; rewrite ?Hsome; eauto.
    - intros k Hk%Hsome. apply (O k Hk). }
  assert (Ha : forall c', rows_agree c' db (set_communities (<[c := co']> db.(communities)) db))
    by (intros c'; by split_and!).
  split; [done|by intros|]. intros u res p _ Hp. left.
  by rewrite (rows_agree_effective _ _ _ _ _ W W' (Ha _) eq_refl) in Hp.
Qed.

(** A transaction that confers permissions: the changed rows are well formed, the
    other communities see nothing, and what is gained is the actor's. *)
Lemma effect_intro target actor creates db db' :
  community_wf db -> rows_ok db' -> keys_ok db' -> owned db' ->
  (forall c c', target = Some c -> c' <> c -> rows_agree c' db db') ->
  (forall u res p, creates <> Some res.(rr_community_id) ->
     by_role db' u res.(rr_community_id) p \/ by_grant db' u res p ->
     by_role db u res.(rr_community_id) p \/ by_grant db u res p
     \/ exists a, actor = Some a /\ p ∈ effective db a res) ->
  effect_ok target actor creates db db'.
Proof.
  intros [R K O] R' K' O' Hl Hg. split; [done|done|]. intros u res p Hc.
  rewrite !elem_of_effective by done. intros Hp. destruct (Hg u res p Hc Hp); tauto.
Qed.

Lemma role_permissions_effective db a res p :
  p ∈ role_permissions db a res.(rr_community_id) -> p ∈ effective db a res.
Proof. unfold effective. set_solver. Qed.

Lemma effect_add_role actor creates db r :
  community_wf db -> db.(roles) !! r.(ro_id) = None ->
  is_Some (db.(communities) !! r.(ro_community_id)) ->
  any_row (Roles.same_name r.(ro_community_id) r.(ro_name)) db.(roles) = false ->
  r.(ro_permissions) ⊆ COMMUNITY_PERMISSIONS -> r.(ro_is_preset) = false ->
  effect_ok (Some r.(ro_community_id)) actor creates db
    (set_roles (<[r.(ro_id) := r]> db.(roles)) db).
Proof.
  intros W Hnew Hco Hname Hcat Hpre. destruct (W) as [R K O]. rewrite any_row_false in Hname.
  assert (Hn : forall k r', db.(roles) !! k = Some r' -> r'.(ro_community_id) = r.(ro_community_id) ->
                 r'.(ro_name) <> r.(ro_name)).
  { intros k r' Hk Hc Hn. specialize (Hname _ _ Hk). unfold Roles.same_name in Hname.
    rewrite bool_decide_true, Hn, String.eqb_refl in Hname by done. done. }
  assert (Hold : forall mk rk, (mk, rk) ∈ db.(membership_roles) -> rk <> r.(ro_id)).
  { intros mk rk Hin ->. destruct (assignment_fk _ K _ _ Hin) as [_ [? ?]]. congruence. }
  apply effect_intro; [done|..].
  - destruct R as [R1 R2 R3 R4 R5 R6 R7 R8 R9 R10 R11]. split; simpl; try done.
    + intros k v [[<- <-]|[_ ?]]%lookup_insert_Some; auto.
    + intros k k' v v' [[<- <-]|[_ Hk]]%lookup_insert_Some [[<- <-]|[_ Hk']]%lookup_insert_Some Hc Hv;
        [done| | |by eapply R6].
      * by destruct (Hn _ _ Hk').
      * by destruct (Hn _ _ Hk).
    + intros mk rk m v Hin Hm. rewrite lookup_insert_ne; [by eapply R8|]. by eapply not_eq_sym, Hold.
    + intros k v [[<- <-]|[_ ?]]%lookup_insert_Some; eauto.
    + intros k v [[<- <-]|[_ ?]]%lookup_insert_Some; [congruence|eauto].
  - destruct K as [Kmf Krf Kaf Kgf Ksf]. split; simpl; try done.
    + intros k v [[<- <-]|[_ ?]]%lookup_insert_Some; eauto.
    + intros mk rk Hin. rewrite lookup_insert_ne; [by apply Kaf|]. by eapply not_eq_sym, Hold.
  - eapply owned_keep; [done|done|]. intros c mk rk _ ((r' & Hr' & Hrest) & Hm & Hin).
    exists mk, rk. split_and!; [|done|done]. exists r'. simpl.
    rewrite lookup_insert_ne; [done|]. by eapply not_eq_sym, Hold.
  - intros c c' [= <-] Hne. split_and!; simpl; try done. intros k r' Hc'.
    rewrite lookup_insert_Some. split; [|naive_solver]. intros Hk. right. split; [congruence|done].
  - intros u res p _ [(mk & m & rk & r' & Hm & Hu & Hc & Hin & Hr' & Hp)|Hp]; [left|by right; left].
    exists mk, m, rk, r'. split_and!; try done. simpl in Hr', Hin.
    rewrite lookup_insert_ne in Hr'; [done|]. by eapply not_eq_sym, Hold.
Qed.

Lemma effect_add_member actor creates db m :
  community_wf db -> db.(memberships) !! m.(me_id) = None ->
  is_Some (db.(communities) !! m.(me_community_id)) -> m.(me_user_id) ∈ db.(known_users) ->
  any_row (Memberships.of_pair m.(me_user_id) m.(me_community_id)) db.(memberships) = false ->
  effect_ok (Some m.(me_community_id)) actor creates db
    (set_memberships (<[m.(me_id) := m]> db.(memberships)) db).
Proof.
  intros W Hnew Hco Huser Hpair. destruct (W) as [R K O]. rewrite any_row_false in Hpair.
  assert (Hn : forall k m', db.(memberships) !! k = Some m' ->
    m'.(me_user_id) = m.(me_user_id) -> m'.(me_community_id) = m.(me_community_id) -> False).
  { intros k m' Hk Hu Hc. specialize (Hpair _ _ Hk). apply not_true_iff_false in Hpair.
    rewrite of_pair_true in Hpair. tauto. }
  assert (Hold : forall mk rk, (mk, rk) ∈ db.(membership_roles) -> m.(me_id) <> mk).
  { intros mk rk Hin <-. destruct (assignment_fk _ K _ _ Hin) as [[? ?] _]. congruence. }
  apply effect_intro; [done|..].
  - destruct R as [R1 R2 R3 R4 R5 R6 R7 R8 R9 R10 R11]. split; simpl; try done.
    + intros k v [[<- <-]|[_ ?]]%lookup_insert_Some; auto.
    + intros k k' v v' [[<- <-]|[_ Hk]]%lookup_insert_Some [[<- <-]|[_ Hk']]%lookup_insert_Some Hu Hc;
        [done| | |by eapply R5].
      * by destruct (Hn _ _ Hk').
      * by destruct (Hn _ _ Hk).
    + intros mk rk v r Hin. rewrite lookup_insert_ne; [by eapply R8|by eapply Hold].
  - destruct K as [Kmf Krf Kaf Kgf Ksf]. split; simpl; try done.
    + intros k v [[<- <-]|[_ ?]]%lookup_insert_Some; eauto.
    + intros mk rk Hin. rewrite lookup_insert_ne; [by apply Kaf|by eapply Hold].
    + intros k g Hk. destruct (Kgf _ _ Hk) as [(m' & Hm' & Hb)%backed_true Hs]. split; [|done].
      apply backed_true. exists m'. simpl. rewrite lookup_insert_ne; [done|congruence].
  - eapply owned_keep; [done|done|]. intros c mk rk _ (Hr & (m' & Hm' & Hc) & Hin).
    exists mk, rk. split_and!; [done| |done]. exists m'. simpl.
    rewrite lookup_insert_ne; [done|by eapply Hold].
  - intros c c' [= <-] Hne. split_and!; simpl; try done. intros k m' Hc'.
    rewrite lookup_insert_Some. split; [|naive_solver]. intros Hk. right. split; [congruence|done].
  - intros u res p _ [(mk & m' & rk & r & Hm & Hu & Hc & Hin & Hr & Hp)|Hp]; [left|by right; left].
    exists mk, m', rk, r. split_and!; try done. simpl in Hm, Hin.
    rewrite lookup_insert_ne in Hm; [done|by eapply Hold].
Qed.

Lemma effect_assign a creates db c mk rk m r :
  community_wf db -> db.(memberships) !! mk = Some m -> m.(me_community_id) = c ->
  db.(roles) !! rk = Some r -> r.(ro_community_id) = c ->
  r.(ro_permissions) ⊆ role_permissions db a c ->
  effect_ok (Some c) (Some a) creates db
    (set_membership_roles ({[(mk, rk)]} ∪ db.(membership_roles)) db).
Proof.
  intros W Hm Hmc Hr Hrc Hsub. destruct (W) as [R K O]. apply effect_intro; [done|..].
  - destruct R as [R1 R2 R3 R4 R5 R6 R7 R8 R9 R10 R11]. split; simpl; try done.
    intros mk' rk' m' r' [[= -> ->]%elem_of_singleton|Hin]%elem_of_union Hm' Hr';
      [congruence|by eapply R8].
  - destruct K as [Kmf Krf Kaf Kgf Ksf]. split; simpl; try done.
    intros mk' rk' [[= -> ->]%elem_of_singleton|Hin]%elem_of_union; [eauto|by apply Kaf].
  - eapply owned_keep; [done|done|]. intros c' mk' rk' _ (Hr' & Hm' & Hin).
    exists mk', rk'. split_and!; [done|done|]. simpl. set_solver.
  - intros c1 c' [= <-] Hne. split_and!; simpl; try done. intros mk' rk' m' Hm' Hc'.
    rewrite elem_of_union, elem_of_singleton. split; [by right|]. intros [[= -> ->]|Hin]; congruence.
  - intros u res p _ [(mk' & m' & rk' & r' & Hm' & Hu & Hc & Hin & Hr' & Hp)|Hp];
      [|by right; left]. simpl in *.
    apply elem_of_union in Hin as [[= -> ->]%elem_of_singleton|Hin].
    + right. right. exists a. split; [done|]. apply role_permissions_effective.
      assert (r' = r) as -> by congruence. assert (m' = m) as -> by congruence.
      rewrite <- Hc, Hmc. by apply Hsub.
    + left. by exists mk', m', rk', r'.
Qed.

Lemma effect_update_role a creates db c rk r r' :
  community_wf db -> db.(roles) !! rk = Some r ->
  r.(ro_community_id) = c -> r'.(ro_id) = rk -> r'.(ro_community_id) = c ->
  r.(ro_is_preset) = false -> r'.(ro_is_preset) = false ->
  any_row (Roles.same_name c r'.(ro_name)) (delete rk db.(roles)) = false ->
  r'.(ro_permissions) ⊆ COMMUNITY_PERMISSIONS ->
  r'.(ro_permissions) ∖ r.(ro_permissions) ⊆ role_permissions db a c ->
  effect_ok (Some c) (Some a) creates db (set_roles (<[rk := r']> db.(roles)) db).
Proof.
  intros W Hr Hrc Hid Hrc' Hpre Hpre' Hname Hcat Hsub. destruct (W) as [R K O].
  rewrite any_row_false in Hname.
  assert (Hn : forall k v, db.(roles) !! k = Some v -> k <> rk -> v.(ro_community_id) = c ->
                 v.(ro_name) <> r'.(ro_name)).
  { intros k v Hk Hne Hc Hn. specialize (Hname k v).
    rewrite lookup_delete_ne in Hname by done. specialize (Hname Hk). unfold Roles.same_name in Hname.
    rewrite bool_decide_true, Hn, String.eqb_refl in Hname by done. done. }
  apply effect_intro; [done|..].
  - destruct R as [R1 R2 R3 R4 R5 R6 R7 R8 R9 R10 R11]. split; simpl; try done.
    + intros k v [[<- <-]|[_ ?]]%lookup_insert_Some; auto.
    + intros k k' v v' [[<- <-]|[Hne Hk]]%lookup_insert_Some
        [[<- <-]|[Hne' Hk']]%lookup_insert_Some Hc Hv; [done| | |by eapply R6].
      * destruct (Hn _ _ Hk'); congruence.
      * destruct (Hn _ _ Hk); congruence.
    + intros mk rk' m v Hin Hm [[<- <-]|[_ ?]]%lookup_insert_Some; [|by eapply R8].
      rewrite Hrc', <- Hrc. by eapply R8.
    + intros k v [[<- <-]|[_ ?]]%lookup_insert_Some; eauto.
    + intros k v [[<- <-]|[_ ?]]%lookup_insert_Some; [congruence|eauto].
  - destruct K as [Kmf Krf Kaf Kgf Ksf]. split; simpl; try done.
    + intros k v [[<- <-]|[_ ?]]%lookup_insert_Some; [|eauto]. rewrite Hrc', <- Hrc. eauto.
    + intros mk rk' Hin. split; [by eapply Kaf|].
      destruct (decide (rk' = rk)) as [->|Hne]; [by rewrite lookup_insert_eq|].
      rewrite lookup_insert_ne by done. by eapply Kaf.
  - eapply owned_keep; [done|done|]. intros c' mk rk' _ ((v & Hv & Hvc & Hp) & Hm & Hin).
    exists mk, rk'. split_and!; [|done|done]. exists v. simpl.
    rewrite lookup_insert_ne; [done|congruence].
  - intros c1 c' [= <-] Hne. split_and!; simpl; try done. intros k v Hc'.
    rewrite lookup_insert_Some. split; [|naive_solver]. intros Hk. right. split; [congruence|done].
  - intros u res p _ [(mk & m & rk' & v & Hm & Hu & Hc & Hin & Hv & Hp)|Hp];
      [|by right; left]. simpl in *. apply lookup_insert_Some in Hv as [[<- <-]|[Hne Hv]].
    + destruct (decide (p ∈ r.(ro_permissions))) as [Ho|Ho].
      * left. by exists mk, m, rk, r.
      * right. right. exists a. split; [done|]. apply role_permissions_effective.
        pose proof (same_community _ R _ _ _ _ Hin Hm Hr).
        replace (rr_community_id res) with c by congruence. set_solver.
    + left. by exists mk, m, rk', v.
Qed.

Lemma effect_add_grant a creates db g :
  community_wf db -> db.(grants) !! g.(rg_id) = None ->
  any_row (Grants.for_resource g.(rg_user_id) g.(rg_resource_type) g.(rg_resource_id)) db.(grants)
  = false ->
  Grants.backed db g = true -> db.(servers) !! g.(rg_resource_id) = Some g.(rg_community_id) ->
  g.(rg_permissions) ⊆ COMMUNITY_PERMISSIONS ->
  g.(rg_permissions) ⊆ effective db a {| rr_community_id := g.(rg_community_id);
    rr_resource_type := Some g.(rg_resource_type); rr_resource_id := Some g.(rg_resource_id) |} ->
  effect_ok (Some g.(rg_community_id)) (Some a) creates db
    (set_grants (<[g.(rg_id) := g]> db.(grants)) db).
Proof.
  intros W Hnew Hone Hb Hs Hcat Hsub. destruct (W) as [R K O]. rewrite any_row_false in Hone.
  assert (Hn : forall k v, db.(grants) !! k = Some v -> v.(rg_user_id) = g.(rg_user_id) ->
    v.(rg_resource_type) = g.(rg_resource_type) -> v.(rg_resource_id) = g.(rg_resource_id) -> False).
  { intros k v Hk Hu Ht Hi. specialize (Hone _ _ Hk). unfold Grants.for_resource in Hone.
    rewrite Hu, Ht, Hi, !bool_decide_true, String.eqb_refl in Hone by done. done. }
  apply effect_intro; [done|..].
  - destruct R as [R1 R2 R3 R4 R5 R6 R7 R8 R9 R10 R11]. split; simpl; try done.
    + intros k v [[<- <-]|[_ ?]]%lookup_insert_Some; auto.
    + intros k k' v v' [[<- <-]|[_ Hk]]%lookup_insert_Some [[<- <-]|[_ Hk']]%lookup_insert_Some Hu Ht Hi;
        [done| | |by eapply R7].
      * by destruct (Hn _ _ Hk').
      * by destruct (Hn _ _ Hk).
    + intros k v [[<- <-]|[_ ?]]%lookup_insert_Some; eauto.
  - destruct K as [Kmf Krf Kaf Kgf Ksf]. split; simpl; try done.
    intros k v [[<- <-]|[_ ?]]%lookup_insert_Some; [done|by apply (Kgf k)].
  - eapply owned_keep; [done|done|]. intros c mk rk _ Hp. by exists mk, rk.
  - intros c c' [= <-] Hne. split_and!; simpl; try done. intros k v Hc'.
    rewrite lookup_insert_Some. split; [|naive_solver]. intros Hk. right. split; [congruence|done].
  - intros u res p _ [Hp|(k & v & t & i & Ht & Hi & Hk & Hu & Hc & Hvt & Hvi & Hp)]; [by left|].
    simpl in Hk. apply lookup_insert_Some in Hk as [[<- <-]|[_ Hk]].
    + right. right. exists a. split; [done|]. specialize (Hsub p Hp).
      destruct res as [rc rt ri]. simpl in *. by subst.
    + right. left. by exists k, v, t, i.
Qed.

Section Provision.
Context (db : CDb) (co : Community) (r : Role) (m : Membership).
Context (R : rows_ok db) (K : keys_ok db) (O : owned db).
Context (Hco : db.(communities) !! co.(co_id) = None).
Context (Hrc : r.(ro_community_id) = co.(co_id)) (Hpre : r.(ro_is_preset) = true).
Context (Hrn : r.(ro_name) = OWNER_ROLE_NAME) (Hrp : r.(ro_permissions) = COMMUNITY_PERMISSIONS).
Context (Hr : db.(roles) !! r.(ro_id) = None) (Hm : db.(memberships) !! m.(me_id) = None).
Context (Hmc : m.(me_community_id) = co.(co_id)) (Hu : m.(me_user_id) ∈ db.(known_users)).

Definition provisioned : CDb :=
  {| communities := <[co.(co_id) := co]> db.(communities);
     memberships := <[m.(me_id) := m]> db.(memberships);
     roles := <[r.(ro_id) := r]> db.(roles);
     membership_roles := {[(m.(me_id), r.(ro_id))]} ∪ db.(membership_roles);
     grants := db.(grants); known_users := db.(known_users); servers := db.(servers) |}.

Lemma provision_other_member k v :
  db.(memberships) !! k = Some v -> v.(me_community_id) <> co.(co_id) /\ m.(me_id) <> k.
Proof using All.
  intros Hk. destruct (membership_fk _ K _ _ Hk) as [_ [? ?]]. split; congruence.
Qed.

Lemma provision_other_role k v :
  db.(roles) !! k = Some v -> v.(ro_community_id) <> co.(co_id) /\ r.(ro_id) <> k.
Proof using All.
  intros Hk. destruct (role_fk _ K _ _ Hk) as [? ?]. split; congruence.
Qed.

Lemma provision_other_assignment mk rk :
  (mk, rk) ∈ db.(membership_roles) -> m.(me_id) <> mk /\ r.(ro_id) <> rk.
Proof using All.
  intros Hin. destruct (assignment_fk _ K _ _ Hin) as [[? Hk] [? Hk']].
  apply provision_other_member in Hk as [_ ?]. by apply provision_other_role in Hk' as [_ ?].
Qed.

Lemma provision_rows : rows_ok provisioned.
Proof using All.
  destruct R as [R1 R2 R3 R4 R5 R6 R7 R8 R9 R10 R11]. split; simpl; try done.
  - intros k v [[<- <-]|[_ ?]]%lookup_insert_Some; auto.
  - intros k v [[<- <-]|[_ ?]]%lookup_insert_Some; auto.
  - intros k v [[<- <-]|[_ ?]]%lookup_insert_Some; auto.
  - intros k k' v v' [[<- <-]|[_ Hk]]%lookup_insert_Some [[<- <-]|[_ Hk']]%lookup_insert_Some Hvu Hc;
      [done| | |by eapply R5].
    + destruct (provision_other_member _ _ Hk'). congruence.
    + destruct (provision_other_member _ _ Hk). congruence.
  - intros k k' v v' [[<- <-]|[_ Hk]]%lookup_insert_Some [[<- <-]|[_ Hk']]%lookup_insert_Some Hc Hv;
      [done| | |by eapply R6].
    + destruct (provision_other_role _ _ Hk'). congruence.
    + destruct (provision_other_role _ _ Hk). congruence.
  - intros mk rk mv rv [[= -> ->]%elem_of_singleton|Hin]%elem_of_union;
      [rewrite !lookup_insert_eq; congruence|].
    destruct (provision_other_assignment _ _ Hin). rewrite !lookup_insert_ne by done. by apply R8.
  - intros k v [[<- <-]|[_ ?]]%lookup_insert_Some; [by rewrite Hrp|eauto].
  - intros k v [[<- <-]|[_ ?]]%lookup_insert_Some; eauto.
Qed.

Lemma provision_keys : keys_ok provisioned.
Proof using All.
  assert (Hcs : forall k, is_Some (db.(communities) !! k) ->
    is_Some (<[co.(co_id) := co]> db.(communities) !! k)).
  { intros k Hk. rewrite lookup_insert_ne; [done|]. intros <-. rewrite Hco in Hk. by destruct Hk. }
  pose proof provision_other_member as Hom. pose proof provision_other_assignment as Hoa.
  destruct K as [Kmf Krf Kaf Kgf Ksf]. split; simpl.
  - intros k v [[<- <-]|[_ Hk]]%lookup_insert_Some.
    + split; [done|]. by rewrite Hmc, lookup_insert_eq.
    + destruct (Kmf _ _ Hk). auto.
  - intros k v [[<- <-]|[_ Hk]]%lookup_insert_Some; [by rewrite Hrc, lookup_insert_eq|eauto].
  - intros mk rk [[= -> ->]%elem_of_singleton|Hin]%elem_of_union; [by rewrite !lookup_insert_eq|].
    destruct (Hoa _ _ Hin). rewrite !lookup_insert_ne by done. by apply Kaf.
  - intros k g Hk. destruct (Kgf _ _ Hk) as [(v & Hv & Hb)%backed_true Hs]. split; [|done].
    apply backed_true. exists v. simpl. rewrite lookup_insert_ne; [done|by eapply Hom].
  - eauto.
Qed.

Lemma provision_owned : owned provisioned.
Proof using All.
  intros c [v Hv]. simpl in Hv. apply lookup_insert_Some in Hv as [[<- <-]|[Hne Hc]].
  - exists m.(me_id), r.(ro_id). split_and!; simpl.
    + exists r. by rewrite lookup_insert_eq.
    + exists m. by rewrite lookup_insert_eq.
    + set_solver.
  - destruct (O c (ex_intro _ v Hc)) as (mk & rk & (r' & Hr' & ?) & (m' & Hm' & ?) & Hin).
    destruct (provision_other_assignment _ _ Hin). exists mk, rk. split_and!; simpl.
    + exists r'. by rewrite lookup_insert_ne.
    + exists m'. by rewrite lookup_insert_ne.
    + set_solver.
Qed.

Lemma provision_agree c' : c' <> co.(co_id) -> rows_agree c' db provisioned.
Proof using All.
  intros Hne. split_and!; simpl; try done.
  - intros k v Hc. rewrite lookup_insert_Some. split; [|naive_solver]. intros Hk. right.
    split; [by eapply provision_other_member|done].
  - intros k v Hc. rewrite lookup_insert_Some. split; [|naive_solver]. intros Hk. right.
    split; [by eapply provision_other_role|done].
  - intros mk rk v Hk Hc. rewrite elem_of_union, elem_of_singleton. split; [by right|].
    intros [[= -> ->]|?]; congruence.
Qed.

Lemma effect_provision actor :
  effect_ok (Some co.(co_id)) actor (Some co.(co_id)) db provisioned.
Proof using All.
  assert (W : community_wf db) by by split.
  assert (W' : community_wf provisioned)
    by (split; [apply provision_rows|apply provision_keys|apply provision_owned]).
  split; [done|intros c c' [= <-]; apply provision_agree|].
  intros u res p Hne Hp. left.
  rewrite (rows_agree_effective _ _ _ _ _ W W' (provision_agree _ (fun E => Hne (f_equal Some (eq_sym E)))) eq_refl) in Hp.
  done.
Qed.
End Provision.
