(* ===== verification/Authority.v ===== *)
(** * Communities: what the use cases guarantee

    Every use case of [Community], and every change another context makes to the
    rows it references, is an [effect_ok] transaction of the tables
    ([CommunityInv]).  Over runs: the tables stay well formed and every community
    keeps an owner; no set of actors confers more than it holds; a community's
    use cases change nothing in another one; the authorization check answers from
    exactly what the ceiling locks. *)
From Stdlib Require Import ZArith NArith Lia String.
From stdpp Require Import base gmap strings list fin_maps fin_sets.
From S2P Require Import Prelude PyString Uow Uuid Calendar Permissions CommunityStore Community.
From S2P Require Import CommunityInv.

Open Scope Z_scope.

(** ** The rows a ceiling reads *)

Section Ceiling.
Context (db : CDb) (Hrows : rows_ok db).

Lemma elem_of_held c ids held d m :
  Memberships.hold_for_users c ids d = (Ok held, d) ->
  m ∈ held <-> (exists k, d.(memberships) !! k = Some m)
               /\ m.(me_community_id) = c /\ m.(me_user_id) ∈ ids.
Proof using.
  intros [= <-]. rewrite (sort_by_perm N.ltb me_id), elem_of_filter_bool, andb_true_iff.
  rewrite !bool_decide_eq_true, list_elem_of_fmap. split.
  - intros [([k v] & -> & Hk%elem_of_map_to_list) [? ?]]. split_and!; [by exists k|done|done].
  - intros ((k & Hk) & ? & ?). split; [|done]. exists (k, m).
    by rewrite elem_of_map_to_list.
Qed.

(** The only held row of one user is the user's membership. *)
Lemma hold_one u c : exists held, Memberships.hold_for_users c [u] db = (Ok held, db)
  /\ head held = Memberships.by_pair db u c.
Proof using Hrows.
  eexists. split; [done|].
  match goal with |- head ?l = _ => set (held := l) end.
  assert (Hin : forall m, m ∈ held <-> (exists k, db.(memberships) !! k = Some m)
      /\ m.(me_community_id) = c /\ m.(me_user_id) ∈ [u]) by (intros; by eapply elem_of_held).
  destruct held as [|m held]; simpl; symmetry.
  - apply by_pair_None. intros k m Hk [Hu Hc]. destruct (not_elem_of_nil m). apply Hin.
    split_and!; [by exists k|done|by rewrite Hu; left].
  - destruct (Hin m) as [[(k & Hk) [Hc Hu]] _]; [by left|]. apply list_elem_of_singleton in Hu.
    apply by_pair_Some; [done|]. by rewrite (membership_keys _ Hrows _ _ Hk).
Qed.

Lemma recipient_spec u a c : exists held, Memberships.hold_for_users c [u; a] db = (Ok held, db)
  /\ recipient u held = Memberships.by_pair db u c.
Proof using Hrows.
  eexists. split; [done|].
  match goal with |- recipient _ ?l = _ => set (held := l) end.
  assert (Hin : forall m, m ∈ held <-> (exists k, db.(memberships) !! k = Some m)
      /\ m.(me_community_id) = c /\ m.(me_user_id) ∈ [u; a]) by (intros; by eapply elem_of_held).
  unfold recipient. destruct (List.find _ held) as [m|] eqn:E; symmetry.
  - apply find_some in E as [Hm Hu%bool_decide_eq_true].
    apply list_elem_of_In, Hin in Hm as ((k & Hk) & Hc & _).
    apply by_pair_Some; [done|]. by rewrite (membership_keys _ Hrows _ _ Hk).
  - apply by_pair_None. intros k m Hk [Hu Hc].
    assert (Hm : m ∈ held) by (apply Hin; split_and!; [by exists k|done|by rewrite Hu; left]).
    apply list_elem_of_In in Hm. pose proof (find_none _ _ E _ Hm) as Hf. simpl in Hf.
    by apply bool_decide_eq_false in Hf.
Qed.

(** Locking more roles than the actor's, and keeping those the actor still holds,
    reads the actor's roles. *)
Lemma locked_roles mk (extra : gset uuid) for_update :
  let ids := Memberships.role_ids db mk in
  let rs := Roles.by_ids db (ids ∪ extra ∪ match for_update with Some r => {[r]} | None => ∅ end) in
  filter (fun kr : uuid * Role => kr.1 ∈ ids ∩ dom rs) rs = Roles.by_ids db ids.
Proof using Hrows.
  simpl. apply map_eq. intros k. apply option_eq. intros r. unfold Roles.by_ids.
  rewrite !map_lookup_filter_Some, elem_of_intersection, elem_of_dom. simpl. split.
  - intros [[Hk _] [Hin _]]. done.
  - intros [Hk Hin]. split; [split; [done|set_solver]|]. split; [done|].
    exists r. apply map_lookup_filter_Some. split; [done|]. simpl. set_solver.
Qed.

Context (Hkeys : keys_ok db).

Definition resource_in (community_id : uuid) (resource : option (string * uuid)) : ResourceRef :=
  {| rr_community_id := community_id; rr_resource_type := fst <$> resource;
     rr_resource_id := snd <$> resource |}.

Lemma effective_unscoped u c : effective db u (resource_in c None) = role_permissions db u c.
Proof using.
  unfold effective. simpl. destruct (Memberships.by_pair db u c); by rewrite (right_id_L ∅ (∪)).
Qed.

(** A grant is always backed by a membership, so the ceiling need not look. *)
Lemma no_member_no_grant u c t i :
  Memberships.by_pair db u c = None -> Grants.user_resource db u c t i = None.
Proof using Hrows Hkeys.
  intros E. destruct (Grants.user_resource db u c t i) as [g|] eqn:Eg; [|done].
  apply user_resource_Some in Eg as (Hg & Hu & Ht & Hi & Hc); [|done].
  destruct (grant_fk _ Hkeys _ _ Hg) as [(m & Hm & Hmu & Hmc)%backed_true _].
  destruct (proj1 (by_pair_None _ _ _) E _ _ Hm). split; congruence.
Qed.

Lemma lock_actor_ceiling_run a c resource for_update extra d :
  lock_actor_ceiling a c resource for_update extra (Tx db d)
  = (Ok (effective db a (resource_in c resource)), Tx db d).
Proof using Hrows Hkeys.
  unfold lock_actor_ceiling, effective, role_permissions. simpl.
  destruct (hold_one a c) as (held & Hh & Hhead). pose proof (no_member_no_grant a c) as Hng.
  rewrite (M_bind_run _ _ _ _ _ (on_run _ _ d _ _ Hh)). simpl. rewrite Hhead.
  destruct (Memberships.by_pair db a c) as [m|]; simpl.
  - run_ctx. rewrite locked_roles. destruct resource as [[t i]|]; simpl; run_ctx.
    + destruct (Grants.user_resource db a c t i); [done|]. by rewrite (right_id_L ∅ (∪)).
    + by rewrite (right_id_L ∅ (∪)).
  - run_ctx. destruct resource as [[t i]|]; simpl; run_ctx.
    + rewrite Hng by done. by rewrite (right_id_L ∅ (∪)).
    + by rewrite (right_id_L ∅ (∪)).
Qed.
End Ceiling.

Lemma check_permission_ceiling_ok ceiling conferred t u t' :
  check_permission_ceiling ceiling conferred t = (Ok u, t') -> conferred ⊆ ceiling /\ t' = t.
Proof.
  unfold check_permission_ceiling. intros [Hb ->]%guard_not_ok. bsimp. split; [set_solver|done].
Qed.

(** ** Each use case is one effect *)

Section Steps.
Context `{PyStr} (db : CDb) (W : community_wf db).

Let R := wf_rows _ W.
Let K := wf_keys _ W.

Ltac no_effect :=
  repeat (case_match; repeat match goal with
            | H : context [lock_actor_ceiling] |- _ => rewrite (lock_actor_ceiling_run db R K) in H
            end; simplify_eq/=; try by apply effect_refl).

Lemma CreateRole_effect c a name permissions rid now creates :
  effect_ok (Some c) (Some a) creates db (snd (CreateRole c a name permissions rid now db)).
Proof using W.
  unfold CreateRole, enforce_permission_ceiling, check_permission_ceiling. run_ctx.
  destruct (RoleName_new name) as [n|e]; [|by apply effect_refl].
  unfold _validate_permissions.
  destruct (validate_all require_community_permission permissions) as [v|e] eqn:Ev; [|by apply effect_refl].
  apply validate_all_ok in Ev as [-> Hv].
  assert (Hcat : permissions ⊆ COMMUNITY_PERMISSIONS).
  { intros p Hp. by apply require_community_permission_ok, Hv. }
  no_effect.
  all: match goal with |- effect_ok _ _ _ _ (set_roles (<[_ := ?r]> _) _) =>
         apply (effect_add_role _ _ db r) end; simpl; eauto.
Qed.

Lemma UpdateRole_effect c rid a name permissions now creates :
  effect_ok (Some c) (Some a) creates db (snd (UpdateRole c rid a name permissions now db)).
Proof using W.
  unfold UpdateRole, check_permission_ceiling, _validate_permissions. run_ctx.
  destruct permissions as [p|]; run_ctx; [rewrite (lock_actor_ceiling_run db R K)|];
    simpl; destruct (roles db !! rid) as [r|] eqn:Er; try by apply effect_refl.
  all: case_bool_decide as Hc; [|by apply effect_refl].
  all: simpl; destruct (ro_is_preset r) eqn:Hpre; [by apply effect_refl|].
  all: match goal with |- context [match ?m with Ok _ => _ | Err _ => _ end] =>
         destruct m as [n|e]; [|by apply effect_refl] end.
  - destruct (validate_all _ _) as [v|e] eqn:Ev; [|by apply effect_refl]; simpl.
    apply validate_all_ok in Ev as [-> Hv].
    case_bool_decide as Hx; [|by apply effect_refl]; simpl. rewrite Er.
    match goal with |- context [any_row ?f ?m] => destruct (any_row f m) eqn:Ha end;
      [by apply effect_refl|].
    apply (effect_update_role _ _ db c rid r); try done; simpl; try congruence; eauto using role_keys.
    + intros q Hq. by apply require_community_permission_ok, Hv.
    + rewrite effective_unscoped in Hx. set_solver.
  - simpl. rewrite Er. match goal with |- context [any_row ?f ?m] => destruct (any_row f m) eqn:Ha end;
      [by apply effect_refl|].
    apply (effect_update_role _ _ db c rid r); try done; simpl; try congruence; eauto using role_keys.
    + by eapply role_catalog.
    + set_solver.
Qed.

Lemma DeleteRole_effect c rid actor creates :
  effect_ok (Some c) actor creates db (snd (DeleteRole c rid db)).
Proof using W.
  unfold DeleteRole. run_ctx. no_effect. bsimp. by eapply effect_delete_role.
Qed.

Lemma AddMember_effect resolve c user_id username mid now actor creates :
  effect_ok (Some c) actor creates db (snd (AddMember resolve c user_id username mid now db)).
Proof using W.
  unfold AddMember. run_ctx. no_effect; bsimp.
  all: match goal with |- effect_ok _ _ _ _ (set_memberships (<[_ := ?m]> _) _) =>
         apply (effect_add_member _ _ _ m) end; simpl; eauto.
Qed.

Lemma elem_of_holders c rk mk :
  mk ∈ Memberships.holders db c rk <->
  (exists m, db.(memberships) !! mk = Some m /\ m.(me_community_id) = c)
  /\ (mk, rk) ∈ db.(membership_roles).
Proof using.
  unfold Memberships.holders. rewrite elem_of_filter, elem_of_map, fmap_Some.
  setoid_rewrite elem_of_filter. split.
  - intros [(m & Hm & ->) ([mk' rk'] & Hmk & Hrk & Hin)]. simpl in *. subst. eauto.
  - intros [(m & Hm & <-) Hin]. split; [by exists m|]. by exists (mk, rk).
Qed.

(** A community's preset owner role is unique. *)
Lemma owner_role_unique c k o mk rk :
  filter (fun kr : uuid * Role => kr.2.(ro_community_id) = c) db.(roles) !! k = Some o ->
  _is_preset_owner o = true -> owner_pair db c mk rk -> rk = o.(ro_id) /\ k = o.(ro_id).
Proof using W.
  intros [Hk Hc]%map_lookup_filter_Some Ho ((r & Hr & Hrc & Hpre) & _). simpl in Hc.
  unfold _is_preset_owner in Ho. bsimp. pose proof (role_keys _ R _ _ Hk) as Hid.
  split; [|done]. rewrite Hid. eapply (one_role_name _ R); [done|done|congruence|].
  destruct (preset_owner _ R _ _ Hr Hpre) as [-> _].
  by destruct (preset_owner _ R _ _ Hk) as [-> _].
Qed.

Lemma owner_role_found c mk rk :
  find_row _is_preset_owner
    (filter (fun kr : uuid * Role => kr.2.(ro_community_id) = c) db.(roles)) = None ->
  owner_pair db c mk rk -> False.
Proof using W.
  intros E ((r & Hr & Hrc & Hpre) & _).
  assert (_is_preset_owner r = false) as Hf.
  { eapply (find_row_None _ _ rk); [done|]. apply map_lookup_filter_Some. done. }
  unfold _is_preset_owner in Hf. destruct (preset_owner _ R _ _ Hr Hpre) as [Hn _].
  by rewrite Hpre, Hn, String.eqb_refl in Hf.
Qed.

(** The guard passes only beside another owner. *)
Lemma guard_last_owner_run c m d u t' :
  _guard_last_owner c m (Tx db d) = (Ok u, t') ->
  t' = Tx db d
  /\ forall rk, owner_pair db c m.(me_id) rk ->
       exists mk', mk' <> m.(me_id) /\ owner_pair db c mk' rk.
Proof using W.
  unfold _guard_last_owner. run_ctx. destruct (find_row _ _) as [o|] eqn:E; run_ctx.
  - intros Hg. destruct (_ && _) eqn:Eg in Hg; [done|]. injection Hg as <- <-. split; [done|].
    intros rk Hp. apply find_row_Some in E as (k & Hk & Ho).
    destruct (owner_role_unique _ _ _ _ _ Hk Ho Hp) as [-> ->]. apply andb_false_iff in Eg.
    pose proof Hp as (Hr & Hm & Hin).
    assert (Hh : m.(me_id) ∈ Memberships.holders db c o.(ro_id)) by (by apply elem_of_holders).
    rewrite bool_decide_true in Eg by done. destruct Eg as [?|Eg]; [done|]. bsimp.
    set (X := Memberships.holders db c o.(ro_id)) in *.
    assert (X ∖ {[m.(me_id)]} <> ∅) as Hne.
    { intros He. assert (size (X ∖ {[m.(me_id)]}) = 0)%nat as Hz by (by rewrite He, size_empty).
      rewrite size_difference in Hz by set_solver. rewrite size_singleton in Hz. lia. }
    apply set_choose_L in Hne as [mk' [Hmk' Hd]%elem_of_difference].
    apply elem_of_holders in Hmk' as [Hm' Hin']. exists mk'. split; [set_solver|]. by split_and!.
  - intros [= <- <-]. split; [done|]. intros rk Hp. destruct (owner_role_found _ _ _ E Hp).
Qed.

Lemma guard_last_owner_reads c m d : snd (_guard_last_owner c m (Tx db d)) = Tx db d.
Proof using.
  unfold _guard_last_owner. run_ctx. destruct (find_row _ _); run_ctx; [|done].
  by destruct (_ && _).
Qed.

Lemma RemoveMember_effect c u actor creates :
  effect_ok (Some c) actor creates db (snd (RemoveMember c u db)).
Proof using W.
  unfold RemoveMember. run_ctx. destruct (Memberships.by_pair db u c) as [m|] eqn:E; [|by apply effect_refl].
  apply by_pair_Some in E as (Hm & Hu & Hc); [|done]. run_ctx.
  pose proof (guard_last_owner_reads c m db) as Hsnd. simpl in *.
  destruct (_guard_last_owner c m _) as [[[]|e] t] eqn:Eg; simpl in *; subst t;
    [|by apply effect_refl].
  apply guard_last_owner_run in Eg as [_ Hother]. by eapply effect_remove_member.
Qed.

Lemma AssignRole_effect c u rid a creates :
  effect_ok (Some c) (Some a) creates db (snd (AssignRole c u rid a db)).
Proof using W.
  unfold AssignRole, check_permission_ceiling.
  destruct (recipient_spec db R u a c) as (held & Hh & Hrec).
  unfold uow. rewrite (M_bind_run _ _ _ _ _ (on_run _ _ db _ _ Hh)). rewrite Hrec.
  destruct (Memberships.by_pair db u c) as [m|] eqn:E; [|by apply effect_refl].
  apply by_pair_Some in E as (Hm & Hu & Hc); [|done].
  rewrite (M_bind_run _ _ _ _ _ (lock_actor_ceiling_run db R K _ _ _ _ _ _)).
  run_ctx. destruct (Roles.by_ids _ _ !! rid) as [r|] eqn:Er; [|by apply effect_refl].
  apply map_lookup_filter_Some in Er as [Er _].
  case_bool_decide as Hrc; [|by apply effect_refl]. simpl.
  case_bool_decide as Hx; [|by apply effect_refl]. simpl.
  case_bool_decide as Hin; [by apply effect_refl|]. run_ctx. simpl. rewrite Hm, Er.
  case_bool_decide as Hin2; [by apply effect_refl|]. simpl.
  rewrite effective_unscoped in Hx.
  eapply effect_assign; [done|done|done|exact Er|done|set_solver].
Qed.

Lemma UnassignRole_effect c u rid actor creates :
  effect_ok (Some c) actor creates db (snd (UnassignRole c u rid db)).
Proof using W.
  unfold UnassignRole. run_ctx.
  destruct (Memberships.by_pair db u c) as [m|] eqn:E; [|by apply effect_refl].
  apply by_pair_Some in E as (Hm & Hu & Hc); [|done]. run_ctx. simpl.
  destruct (roles db !! rid) as [r|] eqn:Er; [|by apply effect_refl].
  case_bool_decide as Hrc; [|by apply effect_refl]. simpl.
  destruct (_is_preset_owner r) eqn:Ho.
  - pose proof (guard_last_owner_reads c m db) as Hsnd.
    destruct (_guard_last_owner c m _) as [[[]|e] t] eqn:Eg; simpl in *; subst t;
      [|by apply effect_refl].
    apply guard_last_owner_run in Eg as [_ Hother]. eapply effect_unassign; [done|done|done|].
    intros rk' Hp ->. by apply Hother.
  - simpl. eapply effect_unassign; [done|done|done|]. intros rk' Hp ->.
    destruct Hp as ((r' & Hr' & _ & Hpre) & _). assert (r' = r) as -> by congruence.
    destruct (preset_owner _ R _ _ Er Hpre) as [Hn _].
    unfold _is_preset_owner in Ho. by rewrite Hpre, Hn, String.eqb_refl in Ho.
Qed.

Lemma CreateGrant_effect c a u t i permissions gid now creates :
  effect_ok (Some c) (Some a) creates db (snd (CreateGrant c a u t i permissions gid now db)).
Proof using W.
  unfold CreateGrant, enforce_permission_ceiling, check_permission_ceiling.
  destruct (GRANT_PERMISSIONS_BY_RESOURCE_TYPE t) as [allowed|]; [|by apply effect_refl].
  destruct (validate_all _ _) as [v|e] eqn:Ev; [|by apply effect_refl].
  apply validate_all_ok in Ev as [-> Hv].
  assert (Hcat : permissions ⊆ COMMUNITY_PERMISSIONS).
  { intros p Hp. by eapply require_grant_permission_ok, Hv. }
  destruct (recipient_spec db R u a c) as (held & Hh & Hrec).
  cbv [guard_not lift mbind M_bind mret M_ret]. unfold uow.
  rewrite (on_run _ _ db _ _ Hh). rewrite Hrec.
  destruct (Memberships.by_pair db u c) as [m|] eqn:E; [|by apply effect_refl].
  apply by_pair_Some in E as (Hm & Hu & Hc); [|done]. run_ctx. simpl.
  destruct (String.eqb t "server") eqn:Et; [|by apply effect_refl].
  apply String.eqb_eq in Et as ->. simpl.
  case_bool_decide as Hs; [|by apply effect_refl]. simpl.
  assert (Hb : permissions = ∅ \/ permissions ⊆ effective db a (resource_in c (Some ("server"%string, i))) ->
    effect_ok (Some c) (Some a) creates db (snd (uow (
      _ ← on (Grants.add {| rg_id := gid; rg_membership_id := m.(me_id); rg_user_id := u;
             rg_community_id := c; rg_resource_type := "server"; rg_resource_id := i;
             rg_permissions := permissions; rg_created_at := now; rg_updated_at := now |});
      commit) db))).
  { intros Hsub. run_ctx. no_effect. bsimp.
    match goal with |- effect_ok _ _ _ _ (set_grants (<[_ := ?g]> _) _) =>
      apply (effect_add_grant _ _ _ g) end; simpl; [done..|].
    destruct Hsub as [->|Hsub]; [apply empty_subseteq|exact Hsub]. }
  case_bool_decide as He; simpl.
  - specialize (Hb (or_introl He)). revert Hb. run_ctx. simpl. by no_effect.
  - rewrite (lock_actor_ceiling_run db R K). simpl. case_bool_decide as Hx; [|by apply effect_refl].
    simpl. apply empty_difference_subseteq_L in Hx. specialize (Hb (or_intror Hx)). revert Hb. run_ctx. simpl. by no_effect.
Qed.

Lemma RevokeGrant_effect c gid actor creates :
  effect_ok (Some c) actor creates db (snd (RevokeGrant c gid db)).
Proof using W.
  unfold RevokeGrant. run_ctx. no_effect. bsimp. by eapply effect_delete_grant.
Qed.

Lemma ProvisionCommunity_effect name owner c rid mid now actor :
  effect_ok (Some c) actor (Some c) db (snd (ProvisionCommunity name owner c rid mid now db)).
Proof using W.
  unfold ProvisionCommunity. run_ctx. no_effect. bsimp.
  set (co := {| co_id := c; co_name := _ |}). set (r0 := {| ro_id := rid; ro_name := _ |}).
  set (m0 := {| me_id := mid; me_user_id := _ |}).
  match goal with |- effect_ok _ _ _ ?d _ =>
    change (effect_ok (Some co.(co_id)) actor (Some co.(co_id)) d (provisioned d co r0 m0)) end.
  apply effect_provision; try done; apply W.
Qed.

Lemma RenameCommunity_effect c name now actor creates :
  effect_ok (Some c) actor creates db (snd (RenameCommunity c name now db)).
Proof using W.
  unfold RenameCommunity. run_ctx. no_effect.
  all: eapply effect_rename; [done|eassumption|]; simpl; eapply (community_keys _ R); eassumption.
Qed.

Lemma DeleteCommunity_effect c actor creates :
  effect_ok (Some c) actor creates db (snd (DeleteCommunity c db)).
Proof using W.
  unfold DeleteCommunity. cbv [uow on commit mbind M_bind mret M_ret gets raise Communities.get_by_id].
  simpl. destruct (communities db !! c) as [co|]; [|by apply effect_refl].
  pose proof (effect_delete_community actor creates db c W) as He.
  destruct (Communities.delete_community c db) as [[u|e] db'] eqn:E;
    simpl; rewrite E; [done|by apply effect_refl].
Qed.

(** Nobody who still owns a community is deleted. *)
Lemma owns_among_run ms d :
  (forall m, m ∈ ms -> db.(memberships) !! m.(me_id) = Some m) ->
  exists b, owns_among ms (Tx db d) = (Ok b, Tx db d)
  /\ (b = false -> forall m c rk, m ∈ ms -> ~ owner_pair db c m.(me_id) rk).
Proof using W.
  induction ms as [|m ms IH]; intros Hms; simpl.
  - exists false. split; [done|]. by intros _ m c rk ?%not_elem_of_nil.
  - destruct IH as (b & Hb & Hno); [intros; apply Hms; by right|]. run_ctx.
    assert (Hc : forall c rk, owner_pair db c m.(me_id) rk -> c = m.(me_community_id)).
    { intros c rk (_ & (m' & Hm' & <-) & _). pose proof (Hms m ltac:(by left)). congruence. }
    destruct (find_row _ _) as [o|] eqn:E.
    + run_ctx. case_bool_decide as Ho; [by exists true|]. exists b. split; [done|].
      intros -> m' c rk [->|Hin]%elem_of_cons Hp; [|by eapply Hno].
      apply find_row_Some in E as (k & Hk & Hpre). pose proof (Hc _ _ Hp) as ->.
      destruct (owner_role_unique _ _ _ _ _ Hk Hpre Hp) as [-> _].
      apply Ho, elem_of_role_ids, Hp.
    + exists b. split; [done|]. intros -> m' c rk [->|Hin]%elem_of_cons Hp; [|by eapply Hno].
      pose proof (Hc _ _ Hp) as ->. by eapply owner_role_found.
Qed.

Lemma owns_any_community_run u :
  exists b, owns_any_community u db = (Ok b, db)
  /\ (b = false -> forall c mk rk m, owner_pair db c mk rk ->
        db.(memberships) !! mk = Some m -> m.(me_user_id) <> u).
Proof using W.
  unfold owns_any_community. cbv [uow on mbind M_bind gets Memberships.list_for_user]. simpl.
  match goal with |- context [owns_among ?l _] => set (ms := l) end.
  assert (Hms : forall m, m ∈ ms <-> db.(memberships) !! m.(me_id) = Some m /\ m.(me_user_id) = u).
  { intros m. unfold ms. rewrite elem_of_filter_bool, bool_decide_eq_true, list_elem_of_fmap.
    apply and_iff_compat_r. split.
    - intros ([k v] & -> & Hk%elem_of_map_to_list). simpl. by rewrite (membership_keys _ R _ _ Hk).
    - intros Hk. exists (m.(me_id), m). by rewrite elem_of_map_to_list. }
  destruct (owns_among_run ms db) as (b & -> & Hno); [intros m Hm; by apply Hms|].
  exists b. split; [done|]. intros Hb c mk rk m Hp Hm Hu.
  pose proof (membership_keys _ R _ _ Hm) as Hid. subst mk. by eapply (Hno Hb m); [apply Hms|].
Qed.

Lemma account_deletion_effect u actor creates :
  effect_ok None actor creates db (snd (account_deletion u db)).
Proof using W.
  unfold account_deletion. destruct (owns_any_community_run u) as (b & Hb & Hno).
  rewrite (M_bind_run _ _ _ _ _ Hb). destruct b; [by apply effect_refl|].
  by apply effect_user_deleted, Hno.
Qed.
End Steps.

(** ** Runs of transactions *)

(** [RegisterServer] and [DropServer] stand for the servers context's rows,
    [RegisterUser] and [DropUser] for the identity context's. *)
Inductive community_op :=
| OpCreateRole (c actor : uuid) (name : string) (permissions : gset Permission) (role_id : uuid)
    (now : datetime)
| OpUpdateRole (c role_id actor : uuid) (name : option string)
    (permissions : option (gset Permission)) (now : datetime)
| OpDeleteRole (c role_id : uuid)
| OpAddMember (resolve : string -> option uuid) (c : uuid) (user_id : option uuid)
    (username : option string) (membership_id : uuid) (now : datetime)
| OpRemoveMember (c user_id : uuid)
| OpAssignRole (c user_id role_id actor : uuid)
| OpUnassignRole (c user_id role_id : uuid)
| OpCreateGrant (c actor user_id : uuid) (resource_type : string) (resource_id : uuid)
    (permissions : gset Permission) (grant_id : uuid) (now : datetime)
| OpRevokeGrant (c grant_id : uuid)
| OpProvision (name : string) (owner c role_id membership_id : uuid) (now : datetime)
| OpRename (c : uuid) (name : string) (now : datetime)
| OpDeleteCommunity (c : uuid)
| RegisterUser (user_id : uuid)
| DropUser (user_id : uuid)
| RegisterServer (server_id c : uuid)
| DropServer (server_id : uuid).

(** The community a use case is about, whose authority it uses, and the community
    it creates. *)
Definition op_target (op : community_op) : option uuid :=
  match op with
  | OpCreateRole c _ _ _ _ _ | OpUpdateRole c _ _ _ _ _ | OpDeleteRole c _
  | OpAddMember _ c _ _ _ _ | OpRemoveMember c _ | OpAssignRole c _ _ _ | OpUnassignRole c _ _
  | OpCreateGrant c _ _ _ _ _ _ _ | OpRevokeGrant c _ | OpProvision _ _ c _ _ _
  | OpRename c _ _ | OpDeleteCommunity c => Some c
  | RegisterUser _ | DropUser _ | RegisterServer _ _ | DropServer _ => None
  end.

Definition op_actor (op : community_op) : option uuid :=
  match op with
  | OpCreateRole _ a _ _ _ _ | OpUpdateRole _ _ a _ _ _ | OpAssignRole _ _ _ a
  | OpCreateGrant _ a _ _ _ _ _ _ => Some a
  | _ => None
  end.

Definition op_creates (op : community_op) : option uuid :=
  match op with OpProvision _ _ c _ _ _ => Some c | _ => None end.

Section Runs.
Context `{PyStr}.

Definition run_op (op : community_op) (db : CDb) : CDb :=
  match op with
  | OpCreateRole c a name p rid now => snd (CreateRole c a name p rid now db)
  | OpUpdateRole c rid a name p now => snd (UpdateRole c rid a name p now db)
  | OpDeleteRole c rid => snd (DeleteRole c rid db)
  | OpAddMember resolve c u name mid now => snd (AddMember resolve c u name mid now db)
  | OpRemoveMember c u => snd (RemoveMember c u db)
  | OpAssignRole c u rid a => snd (AssignRole c u rid a db)
  | OpUnassignRole c u rid => snd (UnassignRole c u rid db)
  | OpCreateGrant c a u t i p gid now => snd (CreateGrant c a u t i p gid now db)
  | OpRevokeGrant c gid => snd (RevokeGrant c gid db)
  | OpProvision name owner c rid mid now => snd (ProvisionCommunity name owner c rid mid now db)
  | OpRename c name now => snd (RenameCommunity c name now db)
  | OpDeleteCommunity c => snd (DeleteCommunity c db)
  | RegisterUser u => snd (Foreign.user_registered u db)
  | DropUser u => snd (account_deletion u db)
  | RegisterServer s c => snd (Foreign.server_created s c db)
  | DropServer s => snd (Foreign.server_deleted s db)
  end.

Definition run_ops (ops : list community_op) (db : CDb) : CDb :=
  foldl (fun db op => run_op op db) db ops.

Definition empty_tables : CDb :=
  {| communities := ∅; memberships := ∅; roles := ∅; membership_roles := ∅; grants := ∅;
     known_users := ∅; servers := ∅ |}.

Lemma run_op_effect op db :
  community_wf db -> effect_ok (op_target op) (op_actor op) (op_creates op) db (run_op op db).
Proof.
  intros W. destruct op; simpl.
  - by apply CreateRole_effect.
  - by apply UpdateRole_effect.
  - by apply DeleteRole_effect.
  - by apply AddMember_effect.
  - by apply RemoveMember_effect.
  - by apply AssignRole_effect.
  - by apply UnassignRole_effect.
  - by apply CreateGrant_effect.
  - by apply RevokeGrant_effect.
  - by apply ProvisionCommunity_effect.
  - by apply RenameCommunity_effect.
  - by apply DeleteCommunity_effect.
  - by apply effect_user_registered.
  - by apply account_deletion_effect.
  - by apply effect_server_created.
  - by apply effect_server_deleted.
Qed.

Lemma run_ops_wf ops db : community_wf db -> community_wf (run_ops ops db).
Proof.
  revert db. induction ops as [|op ops IH]; intros db W; [done|].
  apply IH. by eapply eff_wf, run_op_effect.
Qed.

Lemma empty_tables_wf : community_wf empty_tables.
Proof.
  split; [split|split|]; simpl; try set_solver. intros c [? ?]. simpl in *. set_solver.
Qed.

Lemma reachable_wf ops : community_wf (run_ops ops empty_tables).
Proof. apply run_ops_wf, empty_tables_wf. Qed.

(** The actors whose authority a run uses on a community. *)
Definition actors_on (c : uuid) (ops : list community_op) : list uuid :=
  omap (fun op => if bool_decide (op_target op = Some c) then op_actor op else None) ops.

Lemma run_op_gain op db u res p :
  community_wf db -> op_creates op <> Some res.(rr_community_id) ->
  p ∈ effective (run_op op db) u res ->
  p ∈ effective db u res
  \/ exists a, a ∈ actors_on res.(rr_community_id) [op] /\ p ∈ effective db a res.
Proof.
  intros W Hc Hp. destruct (run_op_effect op db W) as [W' Hl Hg].
  destruct (decide (op_target op = Some res.(rr_community_id))) as [Ht|Ht].
  - destruct (Hg u res p Hc Hp) as [?|(a & Ha & Hpa)]; [by left|]. right. exists a.
    split; [|done]. unfold actors_on. simpl. rewrite bool_decide_true, Ha by done. by left.
  - left. destruct (op_target op) as [c|] eqn:Et.
    + assert (Hne : rr_community_id res <> c) by (intros E; apply Ht; by rewrite E).
      by rewrite (rows_agree_effective _ _ _ _ _ W W' (Hl c _ eq_refl Hne) eq_refl) in Hp.
    + destruct (Hg u res p Hc Hp) as [?|(a & Ha & _)]; [done|]. by destruct op.
Qed.

Lemma actors_on_cons c op ops a :
  a ∈ actors_on c (op :: ops) <-> a ∈ actors_on c [op] \/ a ∈ actors_on c ops.
Proof.
  unfold actors_on. rewrite !list_elem_of_omap. set_solver.
Qed.
End Runs.

Section Guarantees.
Context `{PyStr}.

Lemma gain_over_run ops db u res p :
  community_wf db -> Forall (fun op => op_creates op <> Some res.(rr_community_id)) ops ->
  p ∈ effective (run_ops ops db) u res ->
  p ∈ effective db u res
  \/ exists a, a ∈ actors_on res.(rr_community_id) ops /\ p ∈ effective db a res.
Proof.
  revert db u. induction ops as [|op ops IH]; intros db u W Hno Hp; [by left|].
  apply Forall_cons in Hno as [Hc Hno].
  assert (W1 : community_wf (run_op op db)) by by eapply eff_wf, run_op_effect.
  assert (Hone : forall v, p ∈ effective (run_op op db) v res -> p ∈ effective db v res
    \/ exists a, a ∈ actors_on res.(rr_community_id) (op :: ops) /\ p ∈ effective db a res).
  { intros v Hv. destruct (run_op_gain op db v res p W Hc Hv) as [?|(a & Ha & Hpa)]; [by left|].
    right. exists a. split; [apply actors_on_cons; by left|done]. }
  destruct (IH (run_op op db) u W1 Hno Hp) as [Hu|(a & Ha & Hpa)]; [by apply Hone|].
  destruct (Hone a Hpa) as [Hold|?]; right; [|done].
  exists a. split; [apply actors_on_cons; by right|done].
Qed.

Lemma can_run user op res db :
  op ∈ COMMUNITY_PERMISSIONS ->
  can user op res db = (Ok (bool_decide (op ∈ effective db user.(au_user_id) res)), db).
Proof.
  intros Hop. unfold can, require_known_permission, is_platform_admin_permission.
  assert (op ∈ ALL_PERMISSIONS) as Hall by (by apply all_permissions; left).
  rewrite (bool_decide_true (op ∈ ALL_PERMISSIONS)) by done.
  rewrite (bool_decide_false (op ∈ PLATFORM_ADMIN_PERMISSIONS)) by (by apply axes_disjoint).
  cbv [mbind M_bind lift]. by rewrite effective_run.
Qed.


(** C3: a run never confers more than its actors held: a permission a user holds
    in a community afterwards was held before by that user, or by one of the actors
    whose use cases ran on that community. *)
Theorem no_privilege_escalation ops db u res p :
  community_wf db -> Forall (fun op => op_creates op <> Some res.(rr_community_id)) ops ->
  p ∈ effective (run_ops ops db) u res ->
  p ∈ effective db u res
  \/ exists a, a ∈ actors_on res.(rr_community_id) ops /\ p ∈ effective db a res.
Proof. apply gain_over_run. Qed.


(** what the ceiling locks is what the checker answers from: an actor may
    confer exactly the community permissions the actor may use. *)
Theorem ceiling_is_the_checker db actor c resource for_update extra admin :
  community_wf db ->
  exists ceiling,
    lock_actor_ceiling actor c resource for_update extra (Tx db db) = (Ok ceiling, Tx db db)
    /\ forall p, p ∈ COMMUNITY_PERMISSIONS ->
         can {| au_user_id := actor; au_is_platform_admin := admin |} p (resource_in c resource) db
         = (Ok (bool_decide (p ∈ ceiling)), db).
Proof.
  intros W. eexists. split; [by apply lock_actor_ceiling_run; apply W|].
  intros p Hp. by rewrite can_run.
Qed.

(** C23: use cases on other communities leave what anyone holds in a community
    unchanged. *)
Theorem communities_are_isolated ops db c u res :
  community_wf db -> Forall (fun op => exists c', op_target op = Some c' /\ c' <> c) ops ->
  res.(rr_community_id) = c ->
  effective (run_ops ops db) u res = effective db u res.
Proof.
  intros W Hops Hc. revert db W. induction Hops as [|op ops (c' & Ht & Hne) Hops IH]; intros db W; [done|].
  simpl. destruct (run_op_effect op db W) as [W1 Hl _]. rewrite IH by done.
  eapply rows_agree_effective; [done|done| |done]. by eapply Hl.
Qed.

(** the two axes never mix: on reachable tables no role or grant gives a
    platform operation, which only the flag decides; and the flag gives no
    community operation. *)
Theorem permission_axes_separate ops u res p :
  let db := run_ops ops empty_tables in
  (p ∈ PLATFORM_ADMIN_PERMISSIONS ->
     p ∉ effective db u res
     /\ forall admin, can {| au_user_id := u; au_is_platform_admin := admin |} p res db
                      = (Ok admin, db))
  /\ (p ∈ COMMUNITY_PERMISSIONS ->
        can {| au_user_id := u; au_is_platform_admin := true |} p res db
        = can {| au_user_id := u; au_is_platform_admin := false |} p res db)
  /\ (p ∉ ALL_PERMISSIONS -> forall user, can user p res db = (Err (UnknownPermissionError p), db)).
Proof.
  intros db. pose proof (reachable_wf ops) as W. fold db in W. split_and!.
  - intros Hp. split.
    + intros [(mk & m & rk & r & _ & _ & _ & _ & Hr & Hin)|(k & g & t & i & _ & _ & Hg & _ & _ & _ & _ & Hin)]
        %elem_of_effective; try apply W.
      * by apply (axes_disjoint p); [eapply role_catalog; [apply W|done|done]|].
      * by apply (axes_disjoint p); [eapply grant_catalog; [apply W|done|done]|].
    + intros admin. unfold can, require_known_permission, is_platform_admin_permission.
      rewrite (bool_decide_true (p ∈ ALL_PERMISSIONS)) by (apply all_permissions; by right).
      by rewrite (bool_decide_true (p ∈ PLATFORM_ADMIN_PERMISSIONS)).
  - intros Hp. by rewrite !can_run.
  - intros Hp user. unfold can, require_known_permission. by rewrite bool_decide_false.
Qed.

Lemma not_a_member_holds_nothing db u res :
  community_wf db -> Memberships.by_pair db u res.(rr_community_id) = None ->
  effective db u res = ∅.
Proof.
  intros W Hn. unfold effective, role_permissions. rewrite Hn. set_solver.
Qed.

Lemma RemoveMember_run c u db db' :
  community_wf db -> RemoveMember c u db = (Ok tt, db') ->
  community_wf db' /\ Memberships.by_pair db' u c = None.
Proof.
  intros W Hrun. assert (W' : community_wf db').
  { pose proof (eff_wf _ _ _ _ _ (RemoveMember_effect db W c u None None)) as W'.
    by rewrite Hrun in W'. }
  split; [done|]. revert Hrun. unfold RemoveMember. run_ctx.
  destruct (Memberships.by_pair db u c) as [m|] eqn:E; [|done].
  apply by_pair_Some in E as (Hm & Hu & Hc); [|apply W]. run_ctx. simpl.
  pose proof (guard_last_owner_reads db c m db) as Hsnd.
  destruct (_guard_last_owner c m _) as [[[]|e] t]; simpl in *; subst t; [|done].
  intros [= <-]. apply by_pair_None. intros k m' Hk [Hu' Hc'].
  simpl in Hk. apply lookup_delete_Some in Hk as [Hne Hk].
  apply Hne. apply (one_membership _ (wf_rows _ W) _ _ m m'); congruence.
Qed.

(** removing a member takes everything away: no permission is left in the
    community, on any of its resources, and adding the user again brings none of
    it back. *)
Theorem removal_is_complete c u db db' :
  community_wf db -> RemoveMember c u db = (Ok tt, db') ->
  is_member u c db' = (Ok false, db')
  /\ (forall res, res.(rr_community_id) = c -> effective db' u res = ∅)
  /\ (forall resolve username mid now m db2,
        AddMember resolve c (Some u) username mid now db' = (Ok m, db2) ->
        forall res, res.(rr_community_id) = c -> effective db2 u res = ∅).
Proof.
  intros W Hrun. destruct (RemoveMember_run _ _ _ _ W Hrun) as [W' Hn]. split_and!.
  - unfold is_member. run_ctx. by rewrite Hn.
  - intros res <-. by apply not_a_member_holds_nothing.
  - intros resolve username mid now m db2 Hadd res <-. apply set_eq. intros p.
    split; [|set_solver]. intros Hp.
    pose proof (AddMember_effect db' W' resolve (rr_community_id res) (Some u) username mid now None None)
      as [_ _ Hg]. rewrite Hadd in Hg.
    destruct (Hg u res p (fun E => ltac:(discriminate E)) Hp) as [Hold|(a & ? & _)]; [|done].
    by rewrite not_a_member_holds_nothing in Hold.
Qed.

(** The only holder of a community's Owner role. *)
Definition sole_owner (db : CDb) (c u : uuid) : Prop :=
  exists mk rk m, owner_pair db c mk rk /\ db.(memberships) !! mk = Some m /\ m.(me_user_id) = u
    /\ forall mk', owner_pair db c mk' rk -> mk' = mk.

Lemma sole_owner_guarded db c u :
  community_wf db -> sole_owner db c u ->
  exists m rk, Memberships.by_pair db u c = Some m /\ owner_pair db c m.(me_id) rk
    /\ _guard_last_owner c m (Tx db db) = (Err LastOwnerRemovalError, Tx db db).
Proof.
  intros W (mk & rk & m & Hp & Hm & Hu & Honly).
  pose proof (membership_keys _ (wf_rows _ W) _ _ Hm) as <-.
  pose proof Hp as (_ & (m' & Hm' & Hc) & _). assert (m' = m) as -> by congruence.
  exists m, rk. split_and!; [by apply by_pair_Some; [apply W|]|done|].
  pose proof (guard_last_owner_reads db c m db) as Hsnd.
  destruct (_guard_last_owner c m _) as [[[]|e] t] eqn:Eg; simpl in Hsnd; subst t.
  - apply guard_last_owner_run in Eg as [_ Hother]; [|done].
    destruct (Hother rk Hp) as (mk' & Hne & Hp'). by destruct (Hne (Honly _ Hp')).
  - revert Eg. unfold _guard_last_owner. run_ctx. destruct (find_row _ _); [|done]. run_ctx.
    by destruct (_ && _); [intros [= <-]|].
Qed.

(** the last owner stays: removing or demoting the only holder of a
    community's Owner role is refused, deleting the account is too, and nothing
    changes. *)
Theorem last_owner_stays db c u :
  community_wf db -> sole_owner db c u ->
  RemoveMember c u db = (Err LastOwnerRemovalError, db)
  /\ (forall mk rk m, db.(memberships) !! mk = Some m -> m.(me_user_id) = u ->
        owner_pair db c mk rk -> UnassignRole c u rk db = (Err LastOwnerRemovalError, db))
  /\ owns_any_community u db = (Ok true, db)
  /\ run_op (DropUser u) db = db.
Proof.
  intros W Hsole. destruct (sole_owner_guarded _ _ _ W Hsole) as (m & rk & Hm & Hp & Hg).
  assert (Howns : owns_any_community u db = (Ok true, db)).
  { destruct (owns_any_community_run db W u) as ([] & Hb & Hno); [done|]. exfalso.
    apply by_pair_Some in Hm as (Hm & Hu & _); [|apply W]. by eapply Hno. }
  split_and!.
  - unfold RemoveMember. run_ctx. rewrite Hm. run_ctx. simpl. by rewrite Hg.
  - intros mk rk' m' Hm' Hu' Hp'. unfold UnassignRole. run_ctx. rewrite Hm. run_ctx. simpl.
    pose proof Hp' as ((r & Hr & Hrc & Hpre) & _). rewrite Hr.
    rewrite (bool_decide_true _ Hrc). simpl.
    destruct (preset_owner _ (wf_rows _ W) _ _ Hr Hpre) as [Hn _].
    unfold _is_preset_owner. rewrite Hpre, Hn, String.eqb_refl. simpl. by rewrite Hg.
  - done.
  - simpl. unfold account_deletion. by rewrite (M_bind_run _ _ _ _ _ Howns).
Qed.
End Guarantees.

(** ** A concrete run *)

(** User 1 owns community 10; user 2 joins, gets a role and a grant on server 50. *)
Definition sample_ops : list community_op :=
  [ RegisterUser 1%N; RegisterUser 2%N;
    OpProvision "guild" 1%N 10%N 20%N 30%N 0;
    OpAddMember (fun _ => None) 10%N (Some 2%N) None 31%N 1;
    RegisterServer 50%N 10%N;
    OpCreateRole 10%N 1%N "ops" {["server:start"%string]} 21%N 2;
    OpAssignRole 10%N 2%N 21%N 1%N;
    OpCreateGrant 10%N 1%N 2%N "server" 50%N {["file:edit"%string]} 60%N 3 ].

Definition sample_tables : CDb := run_ops (H := ascii_strings) sample_ops empty_tables.

Ltac decide_now := refine (proj1 (bool_decide_eq_true _) _); vm_compute; reflexivity.

Lemma sample_wf : community_wf sample_tables.
Proof. apply (reachable_wf (H := ascii_strings)). Qed.

Definition on_server (c s : uuid) : ResourceRef :=
  {| rr_community_id := c; rr_resource_type := Some "server"%string; rr_resource_id := Some s |}.

(** The last step gives user 2 what user 1 held. *)
Lemma no_privilege_escalation_witness :
  let before := run_ops (H := ascii_strings) (take 7 sample_ops) empty_tables in
  let last := drop 7 sample_ops in
  "file:edit"%string ∉ effective before 2%N (on_server 10%N 50%N)
  /\ exists a, a ∈ actors_on 10%N last
       /\ "file:edit"%string ∈ effective before a (on_server 10%N 50%N).
Proof.
  intros before last.
  assert (Hno : "file:edit"%string ∉ effective before 2%N (on_server 10%N 50%N)) by decide_now.
  split; [done|].
  destruct (no_privilege_escalation (H := ascii_strings) last before 2%N (on_server 10%N 50%N) "file:edit")
    as [Hold|Hactor].
  - apply (reachable_wf (H := ascii_strings)).
  - repeat constructor; discriminate.
  - decide_now.
  - by destruct (Hno Hold).
  - exact Hactor.
Defined.


Lemma ceiling_is_the_checker_witness :
  exists ceiling,
    lock_actor_ceiling 2%N 10%N (Some ("server"%string, 50%N)) None ∅ (Tx sample_tables sample_tables)
    = (Ok ceiling, Tx sample_tables sample_tables)
    /\ can {| au_user_id := 2%N; au_is_platform_admin := false |} "file:edit"
         (resource_in 10%N (Some ("server"%string, 50%N))) sample_tables
       = (Ok (bool_decide ("file:edit"%string ∈ ceiling)), sample_tables).
Proof.
  destruct (ceiling_is_the_checker sample_tables 2%N 10%N (Some ("server"%string, 50%N)) None ∅ false)
    as (ceiling & Hrun & Hcan); [apply sample_wf|]. exists ceiling. split; [exact Hrun|].
  apply Hcan. decide_now.
Defined.

(** Community 11 comes and goes without a trace in community 10. *)
Lemma communities_are_isolated_witness :
  effective (run_ops (H := ascii_strings)
    [OpProvision "other" 2%N 11%N 22%N 32%N 4; OpDeleteCommunity 11%N] sample_tables)
    2%N (on_server 10%N 50%N)
  = effective sample_tables 2%N (on_server 10%N 50%N).
Proof.
  apply (communities_are_isolated (H := ascii_strings) _ _ 10%N); [apply sample_wf| |reflexivity].
  repeat constructor; exists 11%N; split; [reflexivity|discriminate|reflexivity|discriminate].
Defined.

Lemma removal_is_complete_witness :
  let db' := snd (RemoveMember 10%N 2%N sample_tables) in
  "file:edit"%string ∈ effective sample_tables 2%N (on_server 10%N 50%N)
  /\ effective db' 2%N (on_server 10%N 50%N) = ∅.
Proof.
  split; [decide_now|].
  destruct (removal_is_complete 10%N 2%N sample_tables
    (snd (RemoveMember 10%N 2%N sample_tables))) as (_ & Hnone & _).
  - apply sample_wf.
  - vm_compute. reflexivity.
  - by apply Hnone.
Defined.

Lemma last_owner_stays_witness :
  sole_owner sample_tables 10%N 1%N
  /\ RemoveMember 10%N 1%N sample_tables = (Err LastOwnerRemovalError, sample_tables).
Proof.
  assert (Hs : sole_owner sample_tables 10%N 1%N).
  { eexists 30%N, 20%N, _. split_and!.
    - split_and!; [eexists; split; [vm_compute; reflexivity|split; reflexivity]
                  |eexists; split; [vm_compute; reflexivity|reflexivity]|decide_now].
    - vm_compute. reflexivity.
    - reflexivity.
    - intros mk' (_ & (m & Hm & Hc) & Hin).
      assert (Hall : set_Forall (fun mr : uuid * uuid => mr.2 = 20%N -> mr.1 = 30%N)
                       (membership_roles sample_tables)) by decide_now.
      by apply (Hall (mk', 20%N)). }
  split; [exact Hs|].
  by destruct (last_owner_stays (H := ascii_strings) sample_tables 10%N 1%N sample_wf Hs).
Defined.

(** User 2 becomes the only owner of community 10, and is then deleted. *)
Definition orphaned_tables : CDb := snd (Foreign.user_deleted 2%N (run_ops (H := ascii_strings)
  [OpAssignRole 10%N 2%N 20%N 1%N; OpRemoveMember 10%N 1%N] sample_tables)).

Lemma orphaned_tables_empty k : memberships orphaned_tables !! k = None.
Proof.
  assert (E : memberships orphaned_tables = ∅) by (vm_compute; reflexivity).
  rewrite E. apply lookup_empty.
Qed.

(** the ownership check of an account deletion runs in its own transaction:
    the account may become the only owner before the deletion commits, which then
    leaves a community nobody belongs to. *)
Theorem deletion_race_orphans_a_community : exists db ops u c,
  community_wf db
  /\ owns_any_community u db = (Ok false, db)
  /\ let db' := snd (Foreign.user_deleted u (run_ops (H := ascii_strings) ops db)) in
     is_Some (db'.(communities) !! c)
     /\ forall v, Memberships.by_pair db' v c = None.
Proof.
  exists sample_tables, [OpAssignRole 10%N 2%N 20%N 1%N; OpRemoveMember 10%N 1%N], 2%N, 10%N.
  fold orphaned_tables. split_and!; [apply sample_wf| |split].
  - destruct (owns_any_community_run sample_tables sample_wf 2%N) as (b & Hb & _).
    assert (E : fst (owns_any_community 2%N sample_tables) = Ok false) by (vm_compute; reflexivity).
    rewrite Hb in E |- *. simpl in E. by injection E as ->.
  - decide_now.
  - intros v. apply by_pair_None. intros k m Hk. by rewrite orphaned_tables_empty in Hk.
Qed.
