(* ===== verification/Program.v ===== *)
(** * Coroutines

    The shape of a use case that awaits: a tree of the events it performs (a
    database transaction, a command to a Worker, a synchronous call on a shared
    object), each followed by what it does with the reply, a value or a raised
    exception.  Between two events other coroutines may run; an event itself is
    one step of the event loop.  [safe] checks a tree against a monitor that
    reads its events and replies, and is the way every property of all the runs
    of a use case is proved here. *)
From Stdlib Require Import ZArith.
From stdpp Require Import base list.
From S2P Require Import Prelude.

Section Program.
Context {E : Type -> Type} {X : Type}.

Inductive prog (A : Type) : Type :=
| Ret (a : A)
| Raise (e : X)
| Vis {T : Type} (ev : E T) (k : result X T -> prog A).
Arguments Ret {A} a.
Arguments Raise {A} e.
Arguments Vis {A T} ev k.

Fixpoint prog_bind {A B} (f : A -> prog B) (p : prog A) : prog B :=
  match p with
  | Ret a => f a
  | Raise e => Raise e
  | Vis ev k => Vis ev (fun r => prog_bind f (k r))
  end.

(** [try: p except BaseException as e: h(e)]. *)
Fixpoint try_ {A} (p : prog A) (h : X -> prog A) : prog A :=
  match p with
  | Ret a => Ret a
  | Raise e => h e
  | Vis ev k => Vis ev (fun r => try_ (k r) h)
  end.

(** The call of one event: its value, or the exception it raises. *)
Definition call {T} (ev : E T) : prog T :=
  Vis ev (fun r => match r with Ok x => Ret x | Err e => Raise e end).

(** A call that may raise but performs no event. *)
Definition pure {A} (r : result X A) : prog A :=
  match r with Ok a => Ret a | Err e => Raise e end.

(** How a call left: its value or its exception, as a value. *)
Fixpoint attempt {A} (p : prog A) : prog (result X A) :=
  match p with
  | Ret a => Ret (Ok a)
  | Raise e => Ret (Err e)
  | Vis ev k => Vis ev (fun r => attempt (k r))
  end.

(** [try: p finally: q]. *)
Definition finally {A} (p : prog A) (q : prog unit) : prog A :=
  prog_bind (fun r => prog_bind (fun _ => pure r) q) (attempt p).
End Program.
Arguments prog E X A : clear implicits.
Arguments Ret {E X A} a.
Arguments Raise {E X A} e.
Arguments Vis {E X A T} ev k.

#[global] Instance prog_ret {E X} : MRet (prog E X) := fun A a => Ret a.
#[global] Instance prog_mbind {E X} : MBind (prog E X) := fun A B f p => prog_bind f p.

(** ** Runs *)

Section Runs.
Context {E : Type -> Type} {X : Type}.

(** The replies an event may have, whatever the rest of the system does. *)
Context (may_reply : forall T, E T -> result X T -> Prop).

Record label := Label { l_type : Type; l_event : E l_type; l_reply : result X l_type }.

(** [p] performs exactly the events [tr], with these replies, and leaves with [res]. *)
Fixpoint runs {A} (p : prog E X A) (tr : list label) (res : result X A) : Prop :=
  match p with
  | Ret a => tr = [] /\ res = Ok a
  | Raise e => tr = [] /\ res = Err e
  | @Vis _ _ _ T ev k =>
      exists r tr', may_reply T ev r /\ tr = Label T ev r :: tr' /\ runs (k r) tr' res
  end.

(** *** Monitors *)

Section Monitor.
Context {Q : Type} (ok : forall T, Q -> E T -> Prop)
  (next : forall T, Q -> E T -> result X T -> Q).

Fixpoint safe {A} (p : prog E X A) (q : Q) (post : result X A -> Q -> Prop) : Prop :=
  match p with
  | Ret a => post (Ok a) q
  | Raise e => post (Err e) q
  | @Vis _ _ _ T ev k =>
      ok T q ev /\ forall r, may_reply T ev r -> safe (k r) (next T q ev r) post
  end.

Lemma safe_mono {A} (p : prog E X A) q (post post' : result X A -> Q -> Prop) :
  safe p q post -> (forall r q', post r q' -> post' r q') -> safe p q post'.
Proof.
  revert q. induction p as [a|e|T ev k IH]; intros q H Hpost; simpl in *; [auto..|].
  destruct H as [Hok Hk]. split; [done|]. intros r Hr. by apply IH; [apply Hk|].
Qed.

Lemma safe_bind {A B} (p : prog E X A) (f : A -> prog E X B) q post :
  safe p q (fun r q' => match r with Ok a => safe (f a) q' post | Err e => post (Err e) q' end) ->
  safe (mbind f p) q post.
Proof.
  unfold mbind, prog_mbind. revert q. induction p as [a|e|T ev k IH]; intros q H; simpl in *; [done..|].
  destruct H as [Hok Hk]. split; [done|]. intros r Hr. by apply IH, Hk.
Qed.

Lemma safe_try {A} (p : prog E X A) h q post :
  safe p q (fun r q' => match r with Ok a => post (Ok a) q' | Err e => safe (h e) q' post end) ->
  safe (try_ p h) q post.
Proof.
  revert q. induction p as [a|e|T ev k IH]; intros q H; simpl in *; [done..|].
  destruct H as [Hok Hk]. split; [done|]. intros r Hr. by apply IH, Hk.
Qed.

Lemma safe_attempt {A} (p : prog E X A) q post :
  safe p q (fun r q' => post (Ok r) q') -> safe (attempt p) q post.
Proof.
  revert q. induction p as [a|e|T ev k IH]; intros q H; simpl in *; [done..|].
  destruct H as [Hok Hk]. split; [done|]. intros r Hr. by apply IH, Hk.
Qed.

Lemma safe_pure {A} (r : result X A) q post : post r q -> safe (pure r) q post.
Proof. by destruct r. Qed.

Lemma safe_call {T} (ev : E T) q (post : result X T -> Q -> Prop) :
  ok T q ev -> (forall r, may_reply T ev r -> post r (next T q ev r)) -> safe (call ev) q post.
Proof. intros Hok Hr. split; [done|]. intros [x|e] H; simpl; by apply Hr. Qed.

Lemma safe_finally {A} (p : prog E X A) c q post :
  safe p q (fun r q' => safe c q' (fun rc q'' =>
    match rc with Ok _ => post r q'' | Err e => post (Err e) q'' end)) ->
  safe (finally p c) q post.
Proof.
  intros H. apply safe_bind, safe_attempt. eapply safe_mono; [exact H|]. simpl.
  intros r q' Hc. apply safe_bind. eapply safe_mono; [exact Hc|]. simpl.
  intros [[]|e] q'' Hp; [by apply safe_pure|done].
Qed.

(** *** Coroutines that leave the monitor where they found it *)

Definition keeps (q : Q) {A} (p : prog E X A) : Prop := safe p q (fun _ q' => q' = q).

Section Keeps.
Context (q : Q) {A : Type}.

Lemma keeps_ret (a : A) : keeps q (Ret a).
Proof. done. Qed.

Lemma keeps_raise e : keeps q (@Raise E X A e).
Proof. done. Qed.

Lemma keeps_pure (r : result X A) : keeps q (pure r).
Proof. by destruct r. Qed.

Lemma keeps_call (ev : E A) :
  ok A q ev -> (forall r, may_reply A ev r -> next A q ev r = q) -> keeps q (call ev).
Proof. intros Hok Hr. by apply safe_call. Qed.

Lemma keeps_bind {B} (p : prog E X A) (f : A -> prog E X B) :
  keeps q p -> (forall a, keeps q (f a)) -> keeps q (mbind f p).
Proof.
  intros Hp Hf. apply safe_bind. eapply safe_mono; [exact Hp|]. intros [a|e] q' ->; [apply Hf|done].
Qed.

(** The continuation knows its value was a possible reply. *)
Lemma keeps_bind_call {B} (ev : E A) (f : A -> prog E X B) :
  ok A q ev -> (forall r, may_reply A ev r -> next A q ev r = q) ->
  (forall a, may_reply A ev (Ok a) -> keeps q (f a)) -> keeps q (mbind f (call ev)).
Proof.
  intros Hok Hn Hf. apply safe_bind, safe_call; [done|]. intros [a|e] Hr; rewrite Hn by done; [by apply Hf|done].
Qed.

Lemma keeps_try (p : prog E X A) h :
  keeps q p -> (forall e, keeps q (h e)) -> keeps q (try_ p h).
Proof.
  intros Hp Hh. apply safe_try. eapply safe_mono; [exact Hp|]. intros [a|e] q' ->; [done|apply Hh].
Qed.

Lemma keeps_attempt (p : prog E X A) : keeps q p -> keeps q (attempt p).
Proof. intros Hp. apply safe_attempt. eapply safe_mono; [exact Hp|done]. Qed.

Lemma keeps_finally (p : prog E X A) c : keeps q p -> keeps q c -> keeps q (finally p c).
Proof.
  intros Hp Hc. apply safe_finally. eapply safe_mono; [exact Hp|]. intros r q' ->.
  eapply safe_mono; [exact Hc|]. by intros [] q' ->.
Qed.
End Keeps.

(** The state of the monitor after a run, and the events it allowed. *)
Definition follow (q : Q) (tr : list label) : Q :=
  foldl (fun q l => next _ q l.(l_event) l.(l_reply)) q tr.

Fixpoint allowed (q : Q) (tr : list label) : Prop :=
  match tr with
  | [] => True
  | l :: tr' => ok _ q l.(l_event) /\ allowed (next _ q l.(l_event) l.(l_reply)) tr'
  end.

Lemma allowed_app q tr1 tr2 :
  allowed q (tr1 ++ tr2) <-> allowed q tr1 /\ allowed (follow q tr1) tr2.
Proof.
  revert q. induction tr1 as [|l tr1 IH]; intros q; simpl; [naive_solver|].
  unfold follow. simpl. rewrite IH. unfold follow. naive_solver.
Qed.

Lemma safe_runs {A} (p : prog E X A) q post tr res :
  safe p q post -> runs p tr res -> allowed q tr /\ post res (follow q tr).
Proof.
  revert q tr. induction p as [a|e|T ev k IH]; intros q tr H Hr; simpl in *.
  - by destruct Hr as [-> ->].
  - by destruct Hr as [-> ->].
  - destruct Hr as (r & tr' & Hrep & -> & Hr). destruct H as [Hok Hk].
    destruct (IH r (next T q ev r) tr' (Hk r Hrep) Hr) as [Ha Hp]. done.
Qed.
End Monitor.

Lemma runs_bind {A B} (p : prog E X A) (f : A -> prog E X B) tr res :
  runs (mbind f p) tr res <->
  exists tr1 tr2 r, tr = tr1 ++ tr2 /\ runs p tr1 r /\
    match r with Ok a => runs (f a) tr2 res | Err e => tr2 = [] /\ res = Err e end.
Proof.
  unfold mbind, prog_mbind. revert tr. induction p as [a|e|T ev k IH]; intros tr; simpl.
  - split; [intros H; by exists [], tr, (Ok a)|].
    intros (tr1 & tr2 & r & -> & [-> ->] & H). done.
  - split; [intros [-> ->]; by exists [], [], (Err e)|].
    intros (tr1 & tr2 & r & -> & [-> ->] & [-> ->]). done.
  - split.
    + intros (r & tr' & Hr & -> & H). apply IH in H as (tr1 & tr2 & r' & -> & Hp & Hf).
      exists (Label T ev r :: tr1), tr2, r'. split_and!; [done| |done]. by exists r, tr1.
    + intros (tr1 & tr2 & r' & -> & (r & tr' & Hr & -> & Hp) & Hf).
      exists r, (tr' ++ tr2). split_and!; [done..|]. apply IH. by exists tr', tr2, r'.
Qed.
End Runs.
Arguments Label {E X} l_type l_event l_reply.
Arguments label E X : clear implicits.
