(* ===== verification/ServerRow.v ===== *)
(** * Servers: the row, its configuration blob and its table

    [servers/domain/entities.py], [domain/value_objects.py], the config
    validators [domain/memory_limit.py] and [domain/cpu_allocation.py], the
    committed accounting of [domain/committed_resources.py], and the statements
    of [servers/adapters/repositories.py] that the lifecycle and the reconciler
    run.  A status frame staged by a write is kept with the write's transaction
    and leaves it with its commit. *)
From Stdlib Require Import ZArith NArith Lia String.
From stdpp Require Import base gmap strings list fin_maps.
From S2P Require Import Prelude Uow Uuid Calendar Retention Registry ControlPlane.

Open Scope Z_scope.

(** ** Values and the entity *)

Inductive ServerType : Set := VANILLA | PAPER | FABRIC | FORGE.

Inductive DesiredState : Set := D_RUNNING | D_STOPPED.

Inductive ObservedState : Set :=
| STARTING | RUNNING | STOPPING | STOPPED | RESTARTING | CRASHED | UNKNOWN.

#[global] Instance ServerType_eq_dec : EqDecision ServerType.
Proof. solve_decision. Defined.
#[global] Instance DesiredState_eq_dec : EqDecision DesiredState.
Proof. solve_decision. Defined.
#[global] Instance ObservedState_eq_dec : EqDecision ObservedState.
Proof. solve_decision. Defined.

Record Server := mkServer {
  s_id : uuid;
  s_community_id : uuid;
  s_name : string;
  s_mc_edition : string;
  s_mc_version : string;
  s_server_type : ServerType;
  s_config : gmap string json;
  s_desired_state : DesiredState;
  s_observed_state : ObservedState;
  s_observed_at : option datetime;
  s_assigned_worker_id : option uuid;
  s_created_at : datetime;
  s_updated_at : datetime;
  s_game_port : option Z;
  s_bedrock_port : option Z;
  s_slug : string;
  s_backup_retention : option json
}.

(** Assignments to the attributes the lifecycle writes. *)
Definition set_lifecycle (d : DesiredState) (a : option uuid) (config : gmap string json)
    (at_ : datetime) (r : Server) : Server :=
  mkServer r.(s_id) r.(s_community_id) r.(s_name) r.(s_mc_edition) r.(s_mc_version)
    r.(s_server_type) config d r.(s_observed_state) r.(s_observed_at) a r.(s_created_at) at_
    r.(s_game_port) r.(s_bedrock_port) r.(s_slug) r.(s_backup_retention).

Definition set_observed (o : ObservedState) (at_ : option datetime) (r : Server) : Server :=
  mkServer r.(s_id) r.(s_community_id) r.(s_name) r.(s_mc_edition) r.(s_mc_version)
    r.(s_server_type) r.(s_config) r.(s_desired_state) o at_ r.(s_assigned_worker_id)
    r.(s_created_at) r.(s_updated_at) r.(s_game_port) r.(s_bedrock_port) r.(s_slug)
    r.(s_backup_retention).

Definition set_assigned (a : option uuid) (r : Server) : Server :=
  set_lifecycle r.(s_desired_state) a r.(s_config) r.(s_updated_at) r.

Definition is_at_rest (r : Server) : bool :=
  bool_decide (r.(s_desired_state) = D_STOPPED)
  && bool_decide (r.(s_observed_state) ∈ [STOPPED; UNKNOWN; CRASHED]).

(** ** The configuration blob *)

Definition JAR_KEY_CONFIG_FIELD : string := "resolved_jar_sha256".
Definition JAR_SOURCE_CONFIG_FIELD : string := "resolved_jar_source".
Definition MEMORY_LIMIT_CONFIG_KEY : string := "memory_limit_mb".
Definition CPU_ALLOCATION_CONFIG_KEY : string := "cpu_millis".

Definition MEMORY_LIMIT_FLOOR_MB : Z := 512.
Definition MEMORY_LIMIT_CEILING_MB : Z := 1024 * 1024.
Definition CPU_ALLOCATION_FLOOR_MILLIS : Z := 100.
Definition CPU_ALLOCATION_CEILING_MILLIS : Z := 128000.

Inductive config_error : Set := InvalidMemoryLimitError | InvalidCpuAllocationError.
#[global] Instance config_error_eq_dec : EqDecision config_error.
Proof. solve_decision. Defined.

Definition memory_limit_from_config (config : gmap string json) (ceiling_mb : option Z)
    : result config_error (option Z) :=
  let effective_ceiling := default MEMORY_LIMIT_CEILING_MB ceiling_mb in
  match config !! MEMORY_LIMIT_CONFIG_KEY with
  | None => Ok None
  | Some (JInt value) =>
      if (value <? MEMORY_LIMIT_FLOOR_MB) || (effective_ceiling <? value)
      then Err InvalidMemoryLimitError else Ok (Some value)
  | Some _ => Err InvalidMemoryLimitError
  end.

Definition cpu_allocation_from_config (config : gmap string json)
    : result config_error (option Z) :=
  match config !! CPU_ALLOCATION_CONFIG_KEY with
  | None => Ok None
  | Some (JInt value) =>
      if (value <? CPU_ALLOCATION_FLOOR_MILLIS) || (CPU_ALLOCATION_CEILING_MILLIS <? value)
      then Err InvalidCpuAllocationError else Ok (Some value)
  | Some _ => Err InvalidCpuAllocationError
  end.

(** The per-worker sums; the first invalid blob raises. *)
Fixpoint committed_cpu (servers : list Server) (cpu : list (uuid * Z))
    : result config_error (list (uuid * Z)) :=
  match servers with
  | [] => Ok cpu
  | server :: servers' =>
      match server.(s_assigned_worker_id) with
      | None => committed_cpu servers' cpu
      | Some worker_id =>
          c ← cpu_allocation_from_config server.(s_config);
          committed_cpu servers'
            (od_set worker_id (default 0 (od_get worker_id cpu) + default 0 c) cpu)
      end
  end.

Definition committed_resources_by_worker (servers : list Server)
    : result config_error (list (uuid * CommittedResources)) :=
  cpu ← committed_cpu servers [];
  Ok (map (fun p => (p.1, {| cpu_millis := p.2 |})) cpu).

(** ** The table *)

(** A status event: the new intent alone, or the new observed state. *)
Inductive frame : Type :=
| DesiredFrame (server_id : uuid) (d : DesiredState)
| StateFrame (server_id : uuid) (o : ObservedState) (detail reason : string)
    (emitted_at : option datetime).

Inductive GroupKind : Set := OP | WHITELIST.
#[global] Instance GroupKind_eq_dec : EqDecision GroupKind.
Proof. solve_decision. Defined.

Record PendingGroupSync := { pg_kind : GroupKind; pg_token : uuid }.

(** The tables as one transaction sees them, with the frames it has staged. *)
Record sdb := {
  servers : gmap uuid Server;
  sync_pending : list (uuid * PendingGroupSync);
  staged : list frame
}.

Definition set_servers (m : gmap uuid Server) (d : sdb) : sdb :=
  {| servers := m; sync_pending := d.(sync_pending); staged := d.(staged) |}.

Definition stage (l : list frame) (d : sdb) : sdb :=
  {| servers := d.(servers); sync_pending := d.(sync_pending); staged := d.(staged) ++ l |}.

Section Repository.
Context {E : Type}.

Definition get_by_id (server_id : uuid) : M sdb E (option Server) :=
  gets (fun d => d.(servers) !! server_id).

(** [UPDATE ... WHERE id AND desired_state = expected_from [AND assigned IS NULL]]. *)
Definition update_lifecycle (server : Server) (expected_from : DesiredState)
    (require_unassigned : bool) : M sdb E bool := fun d =>
  match d.(servers) !! server.(s_id) with
  | Some row =>
      if bool_decide (row.(s_desired_state) = expected_from)
         && (negb require_unassigned || bool_decide (row.(s_assigned_worker_id) = None))
      then
        let row' := set_lifecycle server.(s_desired_state) server.(s_assigned_worker_id)
                      server.(s_config) server.(s_updated_at) row in
        (Ok true, stage (if bool_decide (server.(s_desired_state) = expected_from) then []
                         else [DesiredFrame server.(s_id) server.(s_desired_state)])
                    (set_servers (<[server.(s_id) := row']> d.(servers)) d))
      else (Ok false, d)
  | None => (Ok false, d)
  end.

(** The one write of [observed_state]: the rows matching [p], with [assigned] set
    in the same statement when [unassign]; a row it does not change stages a
    frame only when the write explains itself. *)
Definition _write_observed_state (p : Server -> bool) (observed_state : ObservedState)
    (observed_at : datetime) (unassign : bool) (detail reason : string)
    (emitted_at : option datetime) : M sdb E Z := fun d =>
  let locked := filter (fun kv : uuid * Server => p kv.2 = true) d.(servers) in
  let write row :=
    let row' := set_observed observed_state (Some observed_at) row in
    if unassign then set_assigned None row' else row' in
  let changed (kv : uuid * Server) :=
    negb (bool_decide (kv.2.(s_observed_state) = observed_state)
          && String.eqb detail "" && String.eqb reason "") in
  (Ok (Z.of_nat (size locked)),
   stage (map (fun kv => StateFrame kv.1 observed_state detail reason emitted_at)
            (List.filter changed (map_to_list locked)))
     (set_servers ((write <$> locked) ∪ d.(servers)) d)).

Definition record_observed_state (server_id : uuid) (observed_state : ObservedState)
    (observed_at : datetime) (unassign : bool) (expected_worker : option uuid)
    (detail reason : string) (emitted_at : option datetime) : M sdb E bool :=
  written ← _write_observed_state (fun row =>
      bool_decide (row.(s_id) = server_id)
      && match row.(s_observed_at) with None => true | Some t => t <? observed_at end
      && match expected_worker with
         | None => true
         | Some w => bool_decide (row.(s_assigned_worker_id) = Some w)
         end)
    observed_state observed_at unassign detail reason emitted_at;
  mret (written =? 1).

Definition clear_assignment_after_final_snapshot (server_id worker_id : uuid)
    : M sdb E bool := fun d =>
  match d.(servers) !! server_id with
  | Some row =>
      if bool_decide (row.(s_desired_state) = D_STOPPED)
         && bool_decide (row.(s_assigned_worker_id) = Some worker_id)
      then (Ok true, set_servers (<[server_id := set_assigned None row]> d.(servers)) d)
      else (Ok false, d)
  | None => (Ok false, d)
  end.

Definition mark_worker_servers_unknown (worker_id : uuid) (observed_at : datetime)
    : M sdb E unit :=
  _ ← _write_observed_state (fun row => bool_decide (row.(s_assigned_worker_id) = Some worker_id))
        UNKNOWN observed_at false "" "" None;
  mret tt.

Definition reset_unverifiable_observed_states (observed_at : datetime) : M sdb E Z :=
  _write_observed_state (fun row =>
      negb (bool_decide (row.(s_assigned_worker_id) = None))
      && bool_decide (row.(s_observed_state) ∈ [STARTING; RUNNING; STOPPING; RESTARTING]))
    UNKNOWN observed_at false "" "" None.

(** [SELECT * FROM server WHERE p]. *)
Definition select_servers (p : Server -> bool) : M sdb E (list Server) :=
  gets (fun d => List.filter p (map snd (map_to_list d.(servers)))).

Definition list_desired_running_assigned : M sdb E (list Server) :=
  select_servers (fun row =>
    bool_decide (row.(s_desired_state) = D_RUNNING)
    && negb (bool_decide (row.(s_assigned_worker_id) = None))).

Definition reconcilable (row : Server) : bool :=
  let running := bool_decide (row.(s_desired_state) = D_RUNNING) in
  let stopped := bool_decide (row.(s_desired_state) = D_STOPPED) in
  let observed o := bool_decide (row.(s_observed_state) = o) in
  let assigned := negb (bool_decide (row.(s_assigned_worker_id) = None)) in
  (running && negb (bool_decide (row.(s_observed_state) ∈ [STARTING; RUNNING])))
  || (running && negb assigned)
  || (stopped && observed RUNNING)
  || (stopped && observed STOPPED && assigned)
  || (stopped && observed UNKNOWN && assigned)
  || (stopped && observed CRASHED && assigned)
  || (stopped && observed STOPPING && assigned).

Definition list_reconcilable : M sdb E (list Server) := select_servers reconcilable.

(** [running_assignment_ids_for_worker]: the tally a reconnected worker's load is
    rebuilt from. *)
Definition running_assignment_ids_for_worker (worker_id : uuid)
    : M sdb E (result config_error (list (uuid * Z))) :=
  rows ← select_servers (fun row =>
           bool_decide (row.(s_assigned_worker_id) = Some worker_id)
           && bool_decide (row.(s_desired_state) = D_RUNNING));
  mret (foldr (fun row acc => l ← acc; m ← memory_limit_from_config row.(s_config) None;
                              Ok ((row.(s_id), default 0 m) :: l)) (Ok []) rows).

(** [server_group_sync_pending] *)
Definition list_sync_pending (server_id : uuid) : M sdb E (list PendingGroupSync) :=
  gets (fun d => map snd (List.filter (fun p => bool_decide (p.1 = server_id)) d.(sync_pending))).

(** [DELETE ... WHERE server_id AND kind AND token], for each applied mark. *)
Definition clear_sync_pending (server_id : uuid) (applied : list PendingGroupSync)
    : M sdb E unit :=
  modify (fun d =>
    {| servers := d.(servers);
       sync_pending := List.filter (fun p => negb (bool_decide (p.1 = server_id)
         && existsb (fun a => bool_decide (a.(pg_kind) = p.2.(pg_kind))
                              && bool_decide (a.(pg_token) = p.2.(pg_token))) applied))
         d.(sync_pending);
       staged := d.(staged) |}).
End Repository.
