(* ===== verification/Backoff.v ===== *)
(** * The reconciler's memory of failures

    The in-memory backoff map of [servers/application/reconciler.py]
    ([_Backoff], [_record_failure], [_forgive_settled], [_expire_stale]), the
    instants a divergence is measured from, and what they guarantee: delays
    double from the base to the cap and never shrink while the server keeps
    failing, and only a full settled window forgives them. *)
From Stdlib Require Import ZArith NArith Lia.
From stdpp Require Import base gmap list fin_maps.
From S2P Require Import Prelude Uow Uuid Calendar ServerRow.

Open Scope Z_scope.

Record settings := {
  grace_seconds : Z;
  held_start_grace_seconds : Z;
  refused_stop_grace_seconds : Z;
  restart_timeout_seconds : Z;
  backoff_base_seconds : Z;
  backoff_max_seconds : Z
}.

(** [dt.timedelta(seconds=n)]. *)
Definition seconds (n : Z) : timedelta := n * 1000000.

Record _Backoff := {
  failures : Z;
  next_eligible_at : datetime;
  delay : timedelta;
  settled_since : option datetime;
  last_settled_at : option datetime
}.

Definition _is_settled (server : Server) : bool :=
  match server.(s_desired_state) with
  | D_RUNNING => bool_decide (server.(s_observed_state) = RUNNING)
                 && negb (bool_decide (server.(s_assigned_worker_id) = None))
  | D_STOPPED => bool_decide (server.(s_assigned_worker_id) = None) && is_at_rest server
  end.

Definition _since (server : Server) : datetime :=
  Z.max server.(s_updated_at) (default server.(s_updated_at) server.(s_observed_at)).

Definition _within_grace (server : Server) (now grace : Z) : bool :=
  now - _since server <? seconds grace.

Section Memory.
Context (cfg : settings).

Definition _record_failure (server_id : uuid) (now : datetime) (attempts : gmap uuid _Backoff)
    : gmap uuid _Backoff :=
  let n := match attempts !! server_id with Some previous => previous.(failures) | None => 0 end + 1 in
  let d := seconds (Z.min (cfg.(backoff_base_seconds) * 2 ^ (n - 1)) cfg.(backoff_max_seconds)) in
  <[server_id := {| failures := n; next_eligible_at := now + d; delay := d;
                    settled_since := None; last_settled_at := None |}]> attempts.

(** One entry of [_forgive_settled]; [row] is what [tracked] holds of its server:
    nothing, a deleted row, or the row. *)
Definition forgive (row : option (option Server)) (now : datetime) (attempt : _Backoff)
    : option _Backoff :=
  let with_since since last :=
    {| failures := attempt.(failures); next_eligible_at := attempt.(next_eligible_at);
       delay := attempt.(delay); settled_since := since; last_settled_at := last |} in
  match row with
  | Some None => None
  | None => Some (with_since None attempt.(last_settled_at))
  | Some (Some server) =>
      if _is_settled server then
        let since := default now attempt.(settled_since) in
        if attempt.(delay) <=? now - since then None
        else Some (with_since (Some since) (Some now))
      else Some (with_since None attempt.(last_settled_at))
  end.

Definition _forgive_settled (tracked : gmap uuid (option Server)) (now : datetime)
    (attempts : gmap uuid _Backoff) : gmap uuid _Backoff :=
  map_imap (fun server_id attempt => forgive (tracked !! server_id) now attempt) attempts.

Definition expires_at (attempt : _Backoff) : datetime :=
  Z.max attempt.(next_eligible_at) (default attempt.(next_eligible_at) attempt.(last_settled_at))
  + seconds cfg.(backoff_max_seconds).

Definition _expire_stale (now : datetime) (attempts : gmap uuid _Backoff) : gmap uuid _Backoff :=
  filter (fun kv : uuid * _Backoff => now < expires_at kv.2) attempts.

(** ** A server's history as the reconciler sees it *)

(** What a tick does to one server's entry: a failed action, a tick that found it
    [row], an action that succeeded. *)
Inductive memory_event : Type :=
| Failed (now : datetime)
| Ticked (row : option (option Server)) (now : datetime)
| Succeeded.

Definition remember (server_id : uuid) (ev : memory_event) (attempts : gmap uuid _Backoff)
    : gmap uuid _Backoff :=
  match ev with
  | Failed now => _record_failure server_id now attempts
  | Ticked row now =>
      _expire_stale now (_forgive_settled
        (match row with Some r => <[server_id := r]> ∅ | None => ∅ end) now attempts)
  | Succeeded => delete server_id attempts
  end.

Fixpoint remember_all (server_id : uuid) (evs : list memory_event)
    (attempts : gmap uuid _Backoff) : gmap uuid _Backoff :=
  match evs with
  | [] => attempts
  | ev :: evs' => remember_all server_id evs' (remember server_id ev attempts)
  end.

Definition backoff_delay (n : Z) : timedelta :=
  seconds (Z.min (cfg.(backoff_base_seconds) * 2 ^ (n - 1)) cfg.(backoff_max_seconds)).

(** The entry is the one its [n]th consecutive failure, at [at_], armed. *)
Definition armed (n : Z) (at_ : datetime) (attempt : _Backoff) : Prop :=
  attempt.(failures) = n /\ attempt.(delay) = backoff_delay n
  /\ attempt.(next_eligible_at) = at_ + backoff_delay n.

Lemma remember_lookup server_id ev attempts :
  remember server_id ev attempts !! server_id =
  match ev with
  | Failed now => _record_failure server_id now attempts !! server_id
  | Ticked row now =>
      match attempts !! server_id with
      | None => None
      | Some a => match forgive row now a with
                  | Some a' => if decide (now < expires_at a') then Some a' else None
                  | None => None
                  end
      end
  | Succeeded => None
  end.
Proof.
  destruct ev as [now|row now|]; cbn [remember].
  - done.
  - unfold _expire_stale, _forgive_settled. rewrite map_lookup_filter, map_lookup_imap.
    assert (match row with Some r => <[server_id := r]> ∅ | None => (∅ : gmap uuid (option Server)) end
            !! server_id = row) as ->.
    { destruct row; [apply lookup_insert_eq|done]. }
    destruct (attempts !! server_id) as [a|]; simpl; [|done].
    destruct (forgive row now a) as [a'|]; simpl; [|done].
    unfold guard. simpl. by case_decide.
  - apply lookup_delete_eq.
Qed.

(** Between two failures the entry still records the last one, as long as no
    tick forgot it. *)
Lemma forgive_armed row now a a' n t :
  forgive row now a = Some a' -> armed n t a -> armed n t a'.
Proof.
  unfold forgive, armed. intros H Ha. destruct row as [[server|]|]; [|done|].
  - destruct (_is_settled server); [destruct (_ <=? _); [done|]|]; by injection H as <-.
  - by injection H as <-.
Qed.

Lemma record_failure_armed server_id now attempts :
  exists a, _record_failure server_id now attempts !! server_id = Some a
    /\ armed (match attempts !! server_id with Some p => p.(failures) | None => 0 end + 1) now a.
Proof. eexists. split; [apply lookup_insert_eq|]. done. Qed.
End Memory.

(** ** Delays double, and stop at the cap *)

Lemma backoff_delay_le cfg n : 0 <= cfg.(backoff_max_seconds) ->
  backoff_delay cfg n <= seconds cfg.(backoff_max_seconds).
Proof. unfold backoff_delay, seconds. lia. Qed.

Lemma backoff_delay_mono cfg n m : 0 <= cfg.(backoff_base_seconds) -> 1 <= n <= m ->
  backoff_delay cfg n <= backoff_delay cfg m.
Proof.
  intros Hb Hnm. unfold backoff_delay, seconds.
  assert (2 ^ (n - 1) <= 2 ^ (m - 1)) by (apply Z.pow_le_mono_r; lia).
  assert (cfg.(backoff_base_seconds) * 2 ^ (n - 1) <= cfg.(backoff_base_seconds) * 2 ^ (m - 1))
    by (by apply Z.mul_le_mono_nonneg_l). lia.
Qed.

(** A failure at [t], then ticks that do not find the row healthy: the window of
    a server that keeps failing. *)
Record round := { failed_at : datetime; ticks : list (option (option Server) * datetime) }.

Definition unhealthy (row : option (option Server)) : Prop :=
  match row with
  | None => True
  | Some None => False
  | Some (Some server) => _is_settled server = false
  end.

Definition flapping (cfg : settings) (n : Z) (r : round) : Prop :=
  Forall (fun p => unhealthy p.1 /\
    p.2 < r.(failed_at) + backoff_delay cfg n + seconds cfg.(backoff_max_seconds)) r.(ticks).

Definition round_events (r : round) : list memory_event :=
  Failed r.(failed_at) :: map (fun p => Ticked p.1 p.2) r.(ticks).

(** The rounds follow one another from the [n]th failure on. *)
Fixpoint flapping_from (cfg : settings) (n : Z) (rs : list round) : Prop :=
  match rs with
  | [] => True
  | r :: rs' => flapping cfg n r /\ flapping_from cfg (n + 1) rs'
  end.

Lemma remember_all_app cfg i evs1 evs2 m :
  remember_all cfg i (evs1 ++ evs2) m = remember_all cfg i evs2 (remember_all cfg i evs1 m).
Proof. revert m. induction evs1 as [|ev evs1 IH]; intros m; simpl; [done|apply IH]. Qed.

Lemma unhealthy_forgive row now a : unhealthy row ->
  exists a', forgive row now a = Some a' /\ a'.(next_eligible_at) = a.(next_eligible_at).
Proof.
  unfold forgive, unhealthy. intros H. destruct row as [[server|]|]; [rewrite H|done|]; eauto.
Qed.

Lemma flapping_ticks cfg i n t ts m a :
  0 <= cfg.(backoff_max_seconds) ->
  Forall (fun p => unhealthy p.1 /\
    p.2 < t + backoff_delay cfg n + seconds cfg.(backoff_max_seconds)) ts ->
  m !! i = Some a -> armed cfg n t a ->
  exists a', remember_all cfg i (map (fun p => Ticked p.1 p.2) ts) m !! i = Some a'
    /\ armed cfg n t a'.
Proof.
  intros Hmax Hts. revert m a. induction Hts as [|[row now] ts [Hu Hlt] Hts IH]; intros m a Hm Ha; simpl.
  - by exists a.
  - destruct (unhealthy_forgive row now a Hu) as (a1 & Hf & Hn).
    apply (IH (remember cfg i (Ticked row now) m) a1); [|by eapply forgive_armed].
    rewrite remember_lookup, Hm, Hf. case_decide as Hc; [done|]. exfalso. apply Hc.
    unfold expires_at. rewrite Hn. destruct Ha as (_ & _ & ->). simpl in Hlt. lia.
Qed.

Lemma flapping_rounds cfg i rs n m t0 :
  0 <= cfg.(backoff_max_seconds) -> 0 <= n ->
  match m !! i with Some p => p.(failures) | None => 0 end = n ->
  flapping_from cfg (n + 1) rs ->
  rs = [] \/ exists a, remember_all cfg i (concat (map round_events rs)) m !! i = Some a
    /\ armed cfg (n + Z.of_nat (length rs)) (from_option failed_at t0 (last rs)) a.
Proof.
  intros Hmax. revert n m. induction rs as [|r rs IH]; intros n m Hn Hm Hf; [by left|right].
  destruct Hf as [Hr Hrs]. cbn [map concat]. unfold round_events at 1.
  rewrite <- app_comm_cons. cbn [remember_all]. rewrite remember_all_app.
  destruct (record_failure_armed cfg i r.(failed_at) m) as (a & Ha & Harm). rewrite Hm in Harm.
  destruct (flapping_ticks cfg i (n + 1) r.(failed_at) r.(ticks) _ a Hmax Hr Ha Harm) as (a1 & Ha1 & Harm1).
  destruct rs as [|r2 rs]; [by exists a1|].
  destruct (IH (n + 1) (remember_all cfg i (map (fun p => Ticked p.1 p.2) r.(ticks))
      (_record_failure cfg i r.(failed_at) m))) as [?|(a2 & Ha2 & Harm2)]; [lia| |done|done|].
  - rewrite Ha1. apply Harm1.
  - exists a2. split; [done|].
    replace (n + Z.of_nat (length (r :: r2 :: rs))) with (n + 1 + Z.of_nat (length (r2 :: rs)))
      by (simpl; lia).
    done.
Qed.

(** C39: The doubling backoff of a server that keeps failing: after any number of
    rounds, a failed action and then ticks that read the row diverged, gone from
    the candidates or unsettled, the entry is the one the last failure armed,
    with a window of [base * 2 ^ (failures - 1)] seconds capped at the maximum;
    windows never shrink on the way there. *)
Theorem crash_loop_backs_off cfg server_id rs t0 :
  0 <= cfg.(backoff_base_seconds) -> 0 <= cfg.(backoff_max_seconds) ->
  rs <> [] -> flapping_from cfg 1 rs ->
  exists a, remember_all cfg server_id (concat (map round_events rs)) ∅ !! server_id = Some a
    /\ armed cfg (Z.of_nat (length rs)) (from_option failed_at t0 (last rs)) a
    /\ (forall n, 1 <= n <= Z.of_nat (length rs) -> backoff_delay cfg n <= a.(delay))
    /\ a.(delay) <= seconds cfg.(backoff_max_seconds).
Proof.
  intros Hb Hmax Hne Hf.
  destruct (flapping_rounds cfg server_id rs 0 ∅ t0 Hmax ltac:(done) eq_refl Hf)
    as [?|(a & Ha & Harm)]; [done|].
  exists a. split; [done|]. split; [done|]. destruct Harm as (_ & -> & _).
  split; [intros n Hn; by apply backoff_delay_mono|by apply backoff_delay_le].
Qed.

(** ** What forgives an entry *)

Definition settled_row (row : option (option Server)) : Prop :=
  exists server, row = Some (Some server) /\ _is_settled server = true.

(** A run of ticks that all read the row settled, at least [d] from end to end. *)
Definition settled_window (d : timedelta) (run : list (option (option Server) * datetime)) : Prop :=
  Forall (fun p => settled_row p.1) run
  /\ exists first lst, head run = Some first /\ last run = Some lst /\ d <= lst.2 - first.2.

(** The current settled run of an entry, among the ticks seen so far. *)
Definition run_of (seen : list (option (option Server) * datetime)) (a : _Backoff) : Prop :=
  match a.(settled_since) with
  | None => True
  | Some s => exists pre run, seen = pre ++ run /\ Forall (fun p => settled_row p.1) run
      /\ exists first, head run = Some first /\ first.2 = s
  end.

Lemma run_of_step seen row now a a' :
  run_of seen a -> forgive row now a = Some a' -> run_of (seen ++ [(row, now)]) a'.
Proof.
  unfold run_of, forgive. intros Ha H. destruct row as [[server|]|]; [|done|by injection H as <-].
  destruct (_is_settled server) eqn:Es; [|by injection H as <-].
  destruct (_ <=? _); [done|]. injection H as <-. simpl.
  assert (settled_row (Some (Some server))) by (by exists server).
  destruct (a.(settled_since)) as [s|]; simpl.
  - destruct Ha as (pre & run & -> & Hrun & first & Hhd & Hs). exists pre, (run ++ [(Some (Some server), now)]).
    split; [by rewrite app_assoc|]. split; [apply Forall_app; by repeat constructor|].
    exists first. split; [|done]. by destruct run.
  - exists seen, [(Some (Some server), now)]. split_and!; [done|by repeat constructor|].
    by eexists.
Qed.

Lemma forgive_None seen row now a :
  run_of seen a -> forgive row now a = None ->
  row = Some None \/ exists pre run, seen ++ [(row, now)] = pre ++ run /\ settled_window a.(delay) run.
Proof.
  unfold run_of, forgive. intros Ha H. destruct row as [[server|]|]; [|by left|done]. right.
  destruct (_is_settled server) eqn:Es; [|done]. destruct (_ <=? _) eqn:El; [|done].
  assert (settled_row (Some (Some server))) by (by exists server).
  apply Z.leb_le in El. destruct (a.(settled_since)) as [s|]; simpl in El.
  - destruct Ha as (pre & run & -> & Hrun & first & Hhd & <-). exists pre, (run ++ [(Some (Some server), now)]).
    split; [by rewrite app_assoc|]. split; [apply Forall_app; by repeat constructor|].
    exists first, (Some (Some server), now). split_and!; [by destruct run|by rewrite last_snoc|done].
  - exists seen, [(Some (Some server), now)]. split; [done|]. split; [by repeat constructor|].
    by eexists _, _.
Qed.

Lemma forgotten_ticks cfg i n t ts seen m a :
  0 <= cfg.(backoff_max_seconds) -> m !! i = Some a -> armed cfg n t a -> run_of seen a ->
  remember_all cfg i (map (fun p => Ticked p.1 p.2) ts) m !! i = None ->
  exists now ts1 ts2 row, ts = ts1 ++ (row, now) :: ts2 /\
    (row = Some None
     \/ (exists pre run, seen ++ ts1 ++ [(row, now)] = pre ++ run
           /\ settled_window (backoff_delay cfg n) run)
     \/ t + backoff_delay cfg n + seconds cfg.(backoff_max_seconds) <= now).
Proof.
  intros Hmax. revert seen m a. induction ts as [|[row now] ts IH]; intros seen m a Hm Ha Hrun H; simpl in H.
  { congruence. }
  destruct (forgive row now a) as [a1|] eqn:Ef.
  - destruct (decide (now < expires_at cfg a1)) as [Hlt|Hge].
    + destruct (IH (seen ++ [(row, now)]) (remember cfg i (Ticked row now) m) a1)
        as (now' & ts1 & ts2 & row' & -> & Hcase).
      * rewrite remember_lookup, Hm, Ef. by rewrite decide_True.
      * by eapply forgive_armed.
      * by eapply run_of_step.
      * done.
      * exists now', ((row, now) :: ts1), ts2, row'. split; [done|].
        by rewrite <- app_assoc in Hcase.
    + exists now, [], ts, row. split; [done|]. do 2 right.
      apply (forgive_armed cfg row now a a1 n t Ef) in Ha as (_ & _ & Hn).
      unfold expires_at in Hge. rewrite Hn in Hge. lia.
  - exists now, [], ts, row. split; [done|]. destruct (forgive_None seen row now a Hrun Ef) as [?|Hw]; [by left|].
    right. left. destruct Ha as (_ & Hd & _). by rewrite Hd in Hw.
Qed.

(** Forgiveness is earned: when the ticks after a failure end up forgetting the
    entry, the row was read deleted, or the failure's window plus the maximal
    backoff has passed, or an unbroken run of consecutive ticks read the row
    settled for at least the window the failure armed. *)
Theorem only_a_settled_window_forgives cfg server_id t ts attempts n :
  0 <= cfg.(backoff_max_seconds) ->
  match attempts !! server_id with Some p => p.(failures) | None => 0 end + 1 = n ->
  remember_all cfg server_id (map (fun p => Ticked p.1 p.2) ts)
    (_record_failure cfg server_id t attempts) !! server_id = None ->
  exists now ts1 ts2 row, ts = ts1 ++ (row, now) :: ts2 /\
    (row = Some None
     \/ (exists pre run, ts1 ++ [(row, now)] = pre ++ run
           /\ settled_window (backoff_delay cfg n) run)
     \/ t + backoff_delay cfg n + seconds cfg.(backoff_max_seconds) <= now).
Proof.
  intros Hmax <- H.
  destruct (record_failure_armed cfg server_id t attempts) as (a & Ha & Harm).
  eapply (forgotten_ticks cfg server_id _ t ts [] _ a Hmax Ha Harm); [|done].
  unfold _record_failure in Ha. rewrite lookup_insert_eq in Ha. by injection Ha as <-.
Qed.
