(* ===== verification/LifecycleSeam.v ===== *)
(** * The lifecycle's seams

    What the lifecycle use cases and the reconciler call: the Worker command
    outcomes ([servers/domain/control_plane.py]) and their failures
    ([application/command_dispatch.py]), the stop-refusal journal
    ([application/stop_dispatch_refusals.py]), the stop-convergence exclusion
    ([application/stop_convergence.py]), the registry behind
    [servers/adapters/control_plane.py], the unit of work and the clock.  Each is
    an event of a coroutine ([Program]); [exec] says what it does to the process
    and the database.  Commands to a Worker, the Storage, the JAR provisioner and
    the relay tunnel answer anything their signatures allow. *)
From Stdlib Require Import ZArith NArith Lia String.
From stdpp Require Import base gmap strings list fin_maps.
From S2P Require Import Prelude Uow Uuid Calendar Retention Registry ControlPlane Program ServerRow Backoff.

Open Scope Z_scope.

(** ** Outcomes and exceptions *)

Inductive CommandStatus : Set :=
| S_OK | SERVER_NOT_FOUND | INVALID_STATE | DRIVER_UNAVAILABLE | FILE_ACCESS_DENIED
| TRANSFER_FAILED | INTERNAL | PORT_CONFLICT | IMAGE_MISSING | BUSY | COMMAND_DROPPED
| SERVER_PROPERTIES_UNREADABLE.

#[global] Instance CommandStatus_eq_dec : EqDecision CommandStatus.
Proof. solve_decision. Defined.

(** The payload fields no caller here reads ([file_content], [listing],
    [file_access_reason]) are left out. *)
Record CommandOutcome := {
  co_status : CommandStatus;
  co_message : string;
  co_output : string;
  co_held_generation : option Z
}.

Definition success (o : CommandOutcome) : bool := bool_decide (o.(co_status) = S_OK).

(** [p in s]. *)
Definition contains (p s : string) : bool :=
  match String.index 0 p s with Some _ => true | None => false end.

Definition _WORKING_SET_ABSENT_MARKER : string := "working dir absent".
Definition _WORKING_SET_ABSENT_REASON : string := "working_set_absent".
Definition WORKER_BUSY_REASON : string := "worker_busy".
Definition FAILED_STOP_ORPHAN_REASON : string := "failed_stop_orphan".

Definition is_working_set_absent_refusal (outcome : CommandOutcome) : bool :=
  bool_decide (outcome.(co_status) = SERVER_NOT_FOUND)
  && contains _WORKING_SET_ABSENT_MARKER outcome.(co_message).

Inductive exn : Type :=
| ServerNotFoundError
| InvalidLifecycleTransitionError
| LifecycleTransitionConflictError
| EulaNotAcceptedError
| NoEligibleWorkerError
| ServerNotRunningError
| CommandDispatchError (reason : option string)
| WorkingSetSeedFailedError
| ServerFileNotFoundError
| ServerBusyError
| ConfigError (e : config_error)
| WorkerUnavailableError (upload_may_be_live : bool)
| Failure
| Cancelled.

#[global] Instance exn_eq_dec : EqDecision exn.
Proof. solve_decision. Defined.

(** [except Exception]: everything but [asyncio.CancelledError]. *)
Definition is_Exception (e : exn) : bool := negb (bool_decide (e = Cancelled)).

Definition _SANITIZED_REASONS (s : CommandStatus) : option string :=
  match s with
  | PORT_CONFLICT => Some "port_conflict"%string
  | IMAGE_MISSING => Some "image_missing"%string
  | BUSY => Some WORKER_BUSY_REASON
  | COMMAND_DROPPED => Some "command_dropped"%string
  | SERVER_PROPERTIES_UNREADABLE => Some "server_properties_unreadable"%string
  | _ => None
  end.

Definition dispatch_failure (outcome : CommandOutcome) (reason : option string) : exn :=
  CommandDispatchError (match reason with
                        | Some r => Some r
                        | None => _SANITIZED_REASONS outcome.(co_status)
                        end).

(** ** What answers from outside the process *)

Record ProvisionedJar := { pj_key : string; pj_source : option string }.

Inductive query : Type :=
| ReadFile (community_id server_id : uuid) (rel_path : string)
| WriteFile (community_id server_id : uuid) (rel_path : string) (content : string)
| GroupFile (server_id : uuid) (kind : GroupKind)
| EnsureJar (server_type : ServerType) (version : string) (known_key known_source : option string)
| CurrentGeneration (community_id server_id : uuid)
| Hydrate (worker_id community_id server_id : uuid)
| Start (worker_id server_id : uuid) (server_type : ServerType)
    (jar_relpath minecraft_version : string) (memory_limit_bytes cpu : Z)
| Stop (worker_id server_id : uuid) (force : bool)
| Snapshot (worker_id community_id server_id : uuid)
| Restart (worker_id server_id : uuid)
| Command (worker_id server_id : uuid) (line : string)
| SyncObserved (server_id worker_id : uuid) (bedrock_port : option Z) (running : bool).

Definition answer (q : query) : Type :=
  match q with
  | ReadFile _ _ _ | GroupFile _ _ => string
  | WriteFile _ _ _ _ | SyncObserved _ _ _ _ => unit
  | EnsureJar _ _ _ _ => ProvisionedJar
  | CurrentGeneration _ _ => Z
  | Hydrate _ _ _ | Start _ _ _ _ _ _ _ | Stop _ _ _ | Snapshot _ _ _ | Restart _ _
  | Command _ _ _ => CommandOutcome
  end.

(** The exceptions of the seam's own: a command finds no live session or times
    out, a file is missing; anything else is [Failure]. *)
Definition raises (q : query) (e : exn) : bool :=
  match q, e with
  | (Hydrate _ _ _ | Start _ _ _ _ _ _ _ | Stop _ _ _ | Snapshot _ _ _ | Restart _ _
     | Command _ _ _), WorkerUnavailableError _ => true
  | ReadFile _ _ _, ServerFileNotFoundError => true
  | _, _ => false
  end.

(** What any await may raise: a failure of the layer below, or the task's
    cancellation. *)
Definition fault (e : exn) : bool :=
  bool_decide (e = Failure) || bool_decide (e = Cancelled).

(** ** The registry's calls, none of which awaits *)

Inductive reg_op : Type -> Type :=
| Place (server_id : uuid) (memory_limit_mb : option Z)
    (committed_by_worker : list (uuid * CommittedResources)) : reg_op (option uuid)
| IsConnected (worker_id : uuid) : reg_op bool
| RecordHeld (worker_id server_id : uuid) (generation : Z) : reg_op unit
| HeldGeneration (worker_id server_id : uuid) : reg_op (option Z)
| HoldsFresh (worker_id server_id : uuid) (store_generation : Z) : reg_op bool
| Increment (worker_id server_id : uuid) : reg_op unit
| ReleaseReservation (worker_id server_id : uuid) : reg_op unit
| Decrement (worker_id server_id : uuid) : reg_op unit.

Definition or_raise (o : option Registry) (r : Registry) : result exn unit * Registry :=
  match o with Some r' => (Ok tt, r') | None => (Err Failure, r) end.

Definition reg_do {T} (op : reg_op T) (now : datetime) (r : Registry) : result exn T * Registry :=
  match op in reg_op T return result exn T * Registry with
  | Place s mem cm =>
      match adapter_place r now s mem cm with
      | (r', PlacedOn w) => (Ok (Some w), r')
      | (r', NoWorker) => (Ok None, r')
      | (r', (RaisedKeyError | RaisedValueError)) => (Err Failure, r')
      end
  | IsConnected w => (match is_worker_connected r now w with Some b => Ok b | None => Err Failure end, r)
  | RecordHeld w s g => (Ok tt, record_held_generation r (_fleet_worker w) (uuid_str s) g)
  | HeldGeneration w s => (Ok (adapter_held_generation r w s), r)
  | HoldsFresh w s g => (Ok (holds_fresh_working_set r w s g), r)
  | Increment w s => or_raise (increment_assignment r (_fleet_worker w) (uuid_str s)) r
  | ReleaseReservation w s => (Ok tt, release_reservation r (_fleet_worker w) (uuid_str s))
  | Decrement w s => or_raise (decrement_assignment r (_fleet_worker w) (uuid_str s)) r
  end.

(** ** The stop-refusal journal and the reconciler's memory *)

Inductive refusal_op : Type -> Type :=
| Forget (server_id : uuid) : refusal_op unit
| RecordRefusal (server_id : uuid) (outcome : CommandOutcome) (at_ : datetime) : refusal_op unit
| RefusedAt (server_id : uuid) : refusal_op (option datetime).

Definition refusal_do {T} (op : refusal_op T) (m : gmap uuid datetime) : T * gmap uuid datetime :=
  match op in refusal_op T return T * gmap uuid datetime with
  | Forget s => (tt, delete s m)
  | RecordRefusal s outcome at_ =>
      (tt, if success outcome || bool_decide (outcome.(co_status) = BUSY) then m
           else <[s := at_]> m)
  | RefusedAt s => (m !! s, m)
  end.

Inductive memory_op : Type -> Type :=
| Entries : memory_op (gmap uuid _Backoff)
| Entry (server_id : uuid) : memory_op (option _Backoff)
| Update (f : gmap uuid _Backoff -> gmap uuid _Backoff) : memory_op unit.

Definition memory_do {T} (op : memory_op T) (m : gmap uuid _Backoff) : T * gmap uuid _Backoff :=
  match op in memory_op T return T * gmap uuid _Backoff with
  | Entries => (m, m)
  | Entry s => (m !! s, m)
  | Update f => (tt, f m)
  end.

(** ** The process and its events *)

Record world := mkWorld {
  w_db : sdb;
  w_bus : list frame;
  w_registry : Registry;
  w_refused_at : gmap uuid datetime;
  w_claims : gset uuid;
  w_shielded : gmap uuid uuid;
  w_outstanding : gset uuid;
  w_locks : gset uuid;
  w_attempts : gmap uuid _Backoff
}.

Inductive event : Type -> Type :=
| Now : event datetime
| Nows : event (nat -> datetime)
| Db {T} (m : M (tx sdb) exn T) : event T
| Reg {T} (op : reg_op T) : event T
| Refusals {T} (op : refusal_op T) : event T
| Attempts {T} (op : memory_op T) : event T
| InFlight (server_id : uuid) : event bool
| Claim (server_id : uuid) : event unit
| Unclaim (server_id : uuid) : event unit
| Shield (server_id worker_id : uuid) : event bool
| Lock (server_id : uuid) : event unit
| Unlock (server_id : uuid) : event unit
| Ask (q : query) : event (answer q).

Abbreviation coroutine := (prog event exn).

Definition set_db (d : sdb) (frames : list frame) (w : world) : world :=
  mkWorld {| servers := d.(servers); sync_pending := d.(sync_pending); staged := [] |}
    (w.(w_bus) ++ frames) w.(w_registry) w.(w_refused_at) w.(w_claims) w.(w_shielded)
    w.(w_outstanding) w.(w_locks) w.(w_attempts).

Definition set_registry (r : Registry) (w : world) : world :=
  mkWorld w.(w_db) w.(w_bus) r w.(w_refused_at) w.(w_claims) w.(w_shielded)
    w.(w_outstanding) w.(w_locks) w.(w_attempts).

Definition set_refused (m : gmap uuid datetime) (w : world) : world :=
  mkWorld w.(w_db) w.(w_bus) w.(w_registry) m w.(w_claims) w.(w_shielded)
    w.(w_outstanding) w.(w_locks) w.(w_attempts).

Definition set_attempts (m : gmap uuid _Backoff) (w : world) : world :=
  mkWorld w.(w_db) w.(w_bus) w.(w_registry) w.(w_refused_at) w.(w_claims) w.(w_shielded)
    w.(w_outstanding) w.(w_locks) m.

Definition set_claims (c : gset uuid) (sh : gmap uuid uuid) (out : gset uuid) (w : world) : world :=
  mkWorld w.(w_db) w.(w_bus) w.(w_registry) w.(w_refused_at) c sh out w.(w_locks) w.(w_attempts).

Definition set_locks (l : gset uuid) (w : world) : world :=
  mkWorld w.(w_db) w.(w_bus) w.(w_registry) w.(w_refused_at) w.(w_claims) w.(w_shielded)
    w.(w_outstanding) l w.(w_attempts).

Definition in_flight (w : world) (server_id : uuid) : bool :=
  bool_decide (server_id ∈ w.(w_claims))
  || bool_decide (is_Some (w.(w_shielded) !! server_id))
  || bool_decide (server_id ∈ w.(w_outstanding)).

(** [_clear_held_assignment]'s transaction. *)
Definition clear_held (server_id worker_id : uuid) : M (tx sdb) exn bool :=
  cleared ← on (clear_assignment_after_final_snapshot server_id worker_id);
  _ ← commit;
  mret cleared.

(** How the outside resolves one event: what the clocks read, the exception an
    await raises, whether the commit it was in landed nevertheless, and the
    answers. *)
Record choice := {
  c_now : nat -> datetime;
  c_fault : option exn;
  c_lost : bool;
  c_answer : forall q, result exn (answer q)
}.

Definition run_db {T} (c : choice) (w : world) (m : M (tx sdb) exn T)
    : option (result exn T * world) :=
  let '(r, d) := uow m w.(w_db) in
  match c.(c_fault) with
  | None => Some (r, set_db d d.(staged) w)
  | Some e =>
      if fault e then Some (Err e, if c.(c_lost) then set_db d [] w else w) else None
  end.

Definition exec (c : choice) (w : world) {T} (ev : event T) : option (result exn T * world) :=
  match ev in event T return option (result exn T * world) with
  | Now => Some (Ok (c.(c_now) 0%nat), w)
  | Nows => Some (Ok c.(c_now), w)
  | Db m => run_db c w m
  | Reg op => let '(r, reg) := reg_do op (c.(c_now) 0%nat) w.(w_registry) in
              Some (r, set_registry reg w)
  | Refusals op => let '(x, m) := refusal_do op w.(w_refused_at) in Some (Ok x, set_refused m w)
  | Attempts op => let '(x, m) := memory_do op w.(w_attempts) in Some (Ok x, set_attempts m w)
  | InFlight s => Some (Ok (in_flight w s), w)
  | Claim s =>
      if in_flight w s then Some (Err LifecycleTransitionConflictError, w)
      else Some (Ok tt, set_claims ({[s]} ∪ w.(w_claims)) w.(w_shielded) w.(w_outstanding) w)
  | Unclaim s => Some (Ok tt, set_claims (w.(w_claims) ∖ {[s]}) w.(w_shielded) w.(w_outstanding) w)
  | Shield s wk =>
      if bool_decide (c.(c_fault) = Some Cancelled)
      then Some (Err Cancelled, set_claims w.(w_claims) (<[s := wk]> w.(w_shielded)) w.(w_outstanding) w)
      else run_db c w (clear_held s wk)
  | Lock s =>
      match c.(c_fault) with
      | Some e => if fault e || bool_decide (e = ServerBusyError) then Some (Err e, w) else None
      | None => if bool_decide (s ∈ w.(w_locks)) then None
                else Some (Ok tt, set_locks ({[s]} ∪ w.(w_locks)) w)
      end
  | Unlock s => Some (Ok tt, set_locks (w.(w_locks) ∖ {[s]}) w)
  | Ask q =>
      let abandoned e :=
        match q, e with
        | Snapshot _ _ s, (Cancelled | WorkerUnavailableError true) =>
            set_claims w.(w_claims) w.(w_shielded) ({[s]} ∪ w.(w_outstanding)) w
        | _, _ => w
        end in
      match c.(c_fault) with
      | Some e => if fault e then Some (Err e, abandoned e) else None
      | None =>
          match c.(c_answer) q with
          | Ok x => Some (Ok x, w)
          | Err e => if raises q e then Some (Err e, abandoned e) else None
          end
      end
  end.

(** Rows are stored under their ids, and no transaction is open. *)
Definition ids_ok (m : gmap uuid Server) : Prop := forall k r, m !! k = Some r -> r.(s_id) = k.

Definition consistent (w : world) : Prop := ids_ok w.(w_db).(servers) /\ w.(w_db).(staged) = [].

(** The replies an event may have in some state of the system. *)
Definition may_reply {T} (ev : event T) (r : result exn T) : Prop :=
  exists c w w', consistent w /\ exec c w ev = Some (r, w').

Definition trace := list (label event exn).

(** [p] performs the events of [tr] and leaves with [res], whatever the rest of
    the system does in between. *)
Definition runs_as {A} (p : coroutine A) (tr : trace) (res : result exn A) : Prop :=
  runs (@may_reply) p tr res.

(** ** Shapes shared by the use cases *)

Definition from_config {A} (r : result config_error A) : coroutine A :=
  pure (match r with Ok x => Ok x | Err e => Err (ConfigError e) end).

(** [try: p except Exception as e: h(e)]. *)
Definition except_Exception {A} (p : coroutine A) (h : exn -> coroutine A) : coroutine A :=
  try_ p (fun e => if is_Exception e then h e else Raise e).

(** [with stop_convergence.claim(server_id): p]. *)
Definition with_claim {A} (server_id : uuid) (p : coroutine A) : coroutine A :=
  _ ← call (Claim server_id);
  finally p (call (Unclaim server_id)).

(** [async with lifecycle_lock.hold(server_id): p]. *)
Definition with_lock {A} (server_id : uuid) (p : coroutine A) : coroutine A :=
  _ ← call (Lock server_id);
  finally p (call (Unlock server_id)).

(** [if b: raise e]. *)
Definition raise_if (b : bool) (e : exn) : coroutine unit := if b then Raise e else Ret tt.
