(* ===== verification/Lifecycle.v ===== *)
(** * The lifecycle use cases

    [servers/application/lifecycle.py]: start, stop, restart, console command and
    drain, with the reconciler's entries into them ([place_and_start],
    [redispatch_start], [redispatch_stop], [clear_stale_assignment]) and the
    late-snapshot release, as coroutines over the events of [LifecycleSeam].  A
    block [async with uow] is one [Db] event; one that awaits something other than
    the database between its statements (the start's) is cut there, its earlier
    statements being reads.  Logging is left out. *)
From Stdlib Require Import ZArith NArith Lia String.
From stdpp Require Import base gmap strings list fin_maps.
From S2P Require Import Prelude Uow Uuid Calendar Retention Registry ControlPlane Program ServerRow LifecycleSeam.

Open Scope Z_scope.

Definition _DEFAULT_JAR_RELPATH : string := "server.jar".

Definition MAX_CONSOLE_LINE_BYTES : Z := 1446.

Definition console_line_bytes (line : string) : Z := Z.of_nat (String.length line).

Definition _load (community_id server_id : uuid) : M (tx sdb) exn Server :=
  server ← on (get_by_id server_id);
  match server with
  | Some server =>
      if bool_decide (server.(s_community_id) = community_id) then mret server
      else raise ServerNotFoundError
  | None => raise ServerNotFoundError
  end.

(** The shared flip, [running -> stopped]; the entity keeps what it was read with. *)
Definition _mark_stopped (server : Server) (at_ : datetime) : M (tx sdb) exn bool :=
  on (update_lifecycle
        (set_lifecycle D_STOPPED server.(s_assigned_worker_id) server.(s_config) at_ server)
        D_RUNNING false).

(** *** What a desired-stopped row is owed *)

Inductive stop_action : Set := redispatch_stop | clear_stale_assignment.

Definition stopped_intent_action (server : Server) : coroutine (option stop_action) :=
  match server.(s_assigned_worker_id) with
  | None => mret None
  | Some w =>
      if bool_decide (server.(s_observed_state) ∈ [STOPPED; CRASHED])
      then mret (Some clear_stale_assignment)
      else if bool_decide (server.(s_observed_state) ∈ [UNKNOWN; STOPPING])
      then b ← call (Reg (IsConnected w));
           mret (Some (if b : bool then redispatch_stop else clear_stale_assignment))
      else b ← call (Reg (IsConnected w));
           mret (if b : bool then Some redispatch_stop else None)
  end.

(** The load of a command that needs the row under [intent] and assigned. *)
Definition load_assigned (community_id server_id : uuid) (intent : DesiredState)
    : M (tx sdb) exn (Server * uuid) :=
  server ← _load community_id server_id;
  match server.(s_assigned_worker_id) with
  | Some worker_id =>
      if bool_decide (server.(s_desired_state) = intent) then mret (server, worker_id)
      else raise InvalidLifecycleTransitionError
  | None => raise InvalidLifecycleTransitionError
  end.

(** A convergence write and its commit. *)
Definition record_observed (server_id : uuid) (o : ObservedState) (at_ : datetime)
    (unassign : bool) (worker_id : uuid) : M (tx sdb) exn bool :=
  applied ← on (record_observed_state server_id o at_ unassign (Some worker_id) "" "" None);
  _ ← commit;
  mret applied.

(** ** Starting *)

Module StartServer.

(** [regenerate_pending_group_files]: the rendered union of the attached groups
    is [GroupFile]. *)
Fixpoint regenerate_marks (community_id server_id : uuid) (owed : list PendingGroupSync)
    : coroutine unit :=
  match owed with
  | [] => Ret tt
  | mark :: owed' =>
      content ← call (Ask (GroupFile server_id mark.(pg_kind)));
      let target_file := match mark.(pg_kind) with
                         | OP => "ops.json"%string | WHITELIST => "whitelist.json"%string end in
      _ ← except_Exception
            (current ← try_ (c ← call (Ask (ReadFile community_id server_id target_file));
                             mret (Some c))
                         (fun e => match e with ServerFileNotFoundError => mret None | _ => Raise e end);
             if bool_decide (current = Some content) then Ret tt
             else call (Ask (WriteFile community_id server_id target_file content)))
            (fun _ => Raise WorkingSetSeedFailedError);
      regenerate_marks community_id server_id owed'
  end.

Definition regenerate_pending_group_files (community_id server_id : uuid)
    : coroutine (list PendingGroupSync) :=
  pending ← call (Db (on (list_sync_pending server_id)));
  _ ← regenerate_marks community_id server_id pending;
  mret pending.

(** [bytes.lower]: ASCII letters only. *)
Definition lower_byte (c : Ascii.ascii) : Ascii.ascii :=
  let n := Ascii.N_of_ascii c in
  if (65 <=? n)%N && (n <=? 90)%N then Ascii.ascii_of_N (n + 32) else c.

Fixpoint bytes_lower (s : string) : string :=
  match s with
  | EmptyString => EmptyString
  | String c s' => String (lower_byte c) (bytes_lower s')
  end.

Definition _check_eula (community_id server_id : uuid) : coroutine unit :=
  content ← try_ (call (Ask (ReadFile community_id server_id "eula.txt")))
              (fun e => Raise match e with
                              | ServerFileNotFoundError => EulaNotAcceptedError | _ => e end);
  raise_if (negb (contains "eula=true" (bytes_lower content))) EulaNotAcceptedError.

(** [config.get(k)] when it is a str. *)
Definition str_field (config : gmap string json) (k : string) : option string :=
  match config !! k with Some (JStr s) => Some s | _ => None end.

Definition _ensure_jar (server : Server) : coroutine ProvisionedJar :=
  call (Ask (EnsureJar server.(s_server_type) server.(s_mc_version)
    (str_field server.(s_config) JAR_KEY_CONFIG_FIELD)
    (str_field server.(s_config) JAR_SOURCE_CONFIG_FIELD))).

Definition _place (server : Server) : coroutine (option uuid) :=
  assigned ← call (Db (on list_desired_running_assigned));
  committed ← from_config (committed_resources_by_worker assigned);
  memory_limit_mb ← from_config (memory_limit_from_config server.(s_config) None);
  call (Reg (Place server.(s_id) memory_limit_mb committed)).

(** The config the start commits: the resolved JAR's key, and its source if known. *)
Definition resolved_config (config : gmap string json) (jar : ProvisionedJar) : gmap string json :=
  let config := <[JAR_KEY_CONFIG_FIELD := JStr jar.(pj_key)]> config in
  match jar.(pj_source) with
  | Some source => <[JAR_SOURCE_CONFIG_FIELD := JStr source]> config
  | None => config
  end.

(** The guarded write of a placement, with the regenerations it settles. *)
Definition commit_placement (server : Server) (server_id : uuid) (expected_from : DesiredState)
    (owed_group_files : list PendingGroupSync) : M (tx sdb) exn unit :=
  applied ← on (update_lifecycle server expected_from true);
  _ ← guard_not (negb applied) LifecycleTransitionConflictError;
  _ ← on (clear_sync_pending server_id owed_group_files);
  commit.

(** The end of the locked block [__call__] and [place_and_start] share: place,
    commit the assignment, confirm the reservation or give it back. *)
Definition place_and_commit (server : Server) (server_id : uuid) (expected_from : DesiredState)
    (owed_group_files : list PendingGroupSync) (provisioned : ProvisionedJar)
    : coroutine (Server * uuid) :=
  placed ← _place server;
  match placed with
  | None => Raise NoEligibleWorkerError
  | Some worker_id =>
      at_ ← call Now;
      let server := set_lifecycle D_RUNNING (Some worker_id)
                      (resolved_config server.(s_config) provisioned) at_ server in
      _ ← try_ (_ ← call (Db (commit_placement server server_id expected_from owed_group_files));
                call (Reg (Increment worker_id server_id)))
            (fun e => _ ← call (Reg (ReleaseReservation worker_id server_id)); Raise e);
      mret (server, worker_id)
  end.

(** *** Launching *)

Definition _generation_before_hydrate (community_id server_id : uuid) : coroutine (option Z) :=
  except_Exception (g ← call (Ask (CurrentGeneration community_id server_id)); mret (Some g))
    (fun _ => mret None).

(** The hydrate leg: the refusing outcome, or [None] once the Worker holds the
    working set and the inventory says so. *)
Definition hydrate_leg (community_id server_id worker_id : uuid) : coroutine (option CommandOutcome) :=
  hydrated_generation ← _generation_before_hydrate community_id server_id;
  hydrate ← call (Ask (Hydrate worker_id community_id server_id));
  if negb (success hydrate) then mret (Some hydrate)
  else
    let recorded_generation := match hydrate.(co_held_generation) with
                               | Some g => Some g | None => hydrated_generation end in
    _ ← match recorded_generation with
        | Some g => call (Reg (RecordHeld worker_id server_id g))
        | None => Ret tt
        end;
    mret None.

Definition start_leg (server : Server) (server_id worker_id : uuid) : coroutine CommandOutcome :=
  memory_limit_mb ← from_config (memory_limit_from_config server.(s_config) None);
  let memory_limit_bytes := match memory_limit_mb with Some mb => mb * 1024 * 1024 | None => 0 end in
  cpu ← from_config (cpu_allocation_from_config server.(s_config));
  call (Ask (Start worker_id server_id server.(s_server_type) _DEFAULT_JAR_RELPATH
               server.(s_mc_version) memory_limit_bytes (default 0 cpu))).

(** How a launch left, with the [_Dispatch] marker it leaves behind. *)
Definition launched := (bool * result exn CommandOutcome)%type.

(** A step of the launch under the marker [attempted]: an exception leaves at once. *)
Definition marked {A} (attempted : bool) (p : coroutine A) (k : A -> coroutine launched)
    : coroutine launched :=
  r ← attempt p;
  match r with Ok x => k x | Err e => mret (attempted, Err e) end.

Definition hydrate_then_start (server : Server) (community_id server_id worker_id : uuid)
    (attempted : bool) : coroutine launched :=
  marked attempted (hydrate_leg community_id server_id worker_id) (fun refused =>
    match refused with
    | Some hydrate => mret (attempted, Ok hydrate)
    | None => marked true (start_leg server server_id worker_id) (fun outcome =>
                mret (true, Ok outcome))
    end).

(** [_launch]; the recursive replay of a refused skip passes [skip_hydrate=False]. *)
Definition _launch (server : Server) (community_id server_id worker_id : uuid)
    (skip_hydrate : bool) : coroutine launched :=
  if skip_hydrate then
    marked true (start_leg server server_id worker_id) (fun outcome =>
      if is_working_set_absent_refusal outcome
      then hydrate_then_start server community_id server_id worker_id true
      else mret (true, Ok outcome))
  else hydrate_then_start server community_id server_id worker_id false.

(** *** Undoing *)

Definition compensate_write (community_id server_id : uuid) (at_ : datetime)
    : M (tx sdb) exn bool :=
  server ← on (get_by_id server_id);
  match server with
  | Some server =>
      if bool_decide (server.(s_community_id) = community_id) then
        reverted ← on (update_lifecycle (set_lifecycle D_STOPPED None server.(s_config) at_ server)
                         D_RUNNING false);
        _ ← commit;
        mret reverted
      else mret false
  | None => mret false
  end.

Definition _compensate (community_id server_id worker_id : uuid) : coroutine unit :=
  at_ ← call Now;
  reverted ← call (Db (compensate_write community_id server_id at_));
  if reverted : bool then call (Reg (Decrement worker_id server_id)) else Ret tt.

Definition unassign_write (community_id server_id worker_id : uuid) (at_ : datetime)
    : M (tx sdb) exn bool :=
  server ← on (get_by_id server_id);
  match server with
  | Some server =>
      if bool_decide (server.(s_community_id) = community_id)
         && bool_decide (server.(s_assigned_worker_id) = Some worker_id) then
        reverted ← on (update_lifecycle
                         (set_lifecycle server.(s_desired_state) None server.(s_config) at_ server)
                         D_RUNNING false);
        _ ← commit;
        mret reverted
      else mret false
  | None => mret false
  end.

Definition _unassign (community_id server_id worker_id : uuid) : coroutine unit :=
  at_ ← call Now;
  reverted ← call (Db (unassign_write community_id server_id worker_id at_));
  if reverted : bool then call (Reg (Decrement worker_id server_id)) else Ret tt.

(** The [INVALID_STATE] arm: the instance is already live. *)
Definition converge_running (server : Server) (server_id worker_id : uuid) : coroutine Server :=
  observed_at ← call Now;
  applied ← call (Db (record_observed server_id RUNNING observed_at false worker_id));
  if applied : bool then
    _ ← call (Ask (SyncObserved server_id worker_id server.(s_bedrock_port) true));
    mret (set_observed RUNNING (Some observed_at) server)
  else mret server.

(** *** The use case and its reconciler entries *)

Definition flip (community_id server_id : uuid) (accept_eula : bool) : coroutine (Server * uuid) :=
  server ← call (Db (_load community_id server_id));
  _ ← raise_if (bool_decide (server.(s_desired_state) = D_RUNNING)) InvalidLifecycleTransitionError;
  _ ← raise_if (negb (bool_decide (server.(s_assigned_worker_id) = None)))
        LifecycleTransitionConflictError;
  _ ← if accept_eula
      then call (Ask (WriteFile community_id server_id "eula.txt" ("eula=true" ++ String (Ascii.ascii_of_N 10) "")))
      else _check_eula community_id server_id;
  owed_group_files ← regenerate_pending_group_files community_id server_id;
  provisioned ← _ensure_jar server;
  place_and_commit server server_id D_STOPPED owed_group_files provisioned.

Definition fresh (held_generation : option Z) (store_generation : Z) : bool :=
  match held_generation with Some g => store_generation <=? g | None => false end.

Definition __call__ (community_id server_id : uuid) (accept_eula : bool) : coroutine Server :=
  '(server, worker_id) ← with_lock server_id (flip community_id server_id accept_eula);
  skip_hydrate ← except_Exception
    (held_generation ← call (Reg (HeldGeneration worker_id server_id));
     store_generation ← call (Ask (CurrentGeneration community_id server_id));
     mret (fresh held_generation store_generation))
    (fun e => _ ← _compensate community_id server_id worker_id; Raise e);
  '(attempted, r) ← _launch server community_id server_id worker_id skip_hydrate;
  match r with
  | Err e =>
      _ ← match e with
          | WorkerUnavailableError _ =>
              if attempted : bool then Ret tt else _compensate community_id server_id worker_id
          | _ => Ret tt
          end;
      Raise e
  | Ok outcome =>
      if success outcome then mret server
      else if attempted && bool_decide (outcome.(co_status) = INVALID_STATE)
      then converge_running server server_id worker_id
      else
        let failure := dispatch_failure outcome None in
        if attempted && bool_decide (outcome.(co_status) = BUSY) then Raise failure
        else _ ← _compensate community_id server_id worker_id; Raise failure
  end.

Definition replace (community_id server_id : uuid) : coroutine (Server * uuid) :=
  server ← call (Db (_load community_id server_id));
  _ ← raise_if (negb (bool_decide (server.(s_desired_state) = D_RUNNING)
                      && bool_decide (server.(s_assigned_worker_id) = None)))
        InvalidLifecycleTransitionError;
  owed_group_files ← regenerate_pending_group_files community_id server_id;
  provisioned ← _ensure_jar server;
  place_and_commit server server_id D_RUNNING owed_group_files provisioned.

Definition place_and_start (community_id server_id : uuid) : coroutine Server :=
  '(server, worker_id) ← with_lock server_id (replace community_id server_id);
  '(attempted, r) ← _launch server community_id server_id worker_id false;
  match r with
  | Err e =>
      _ ← match e with
          | WorkerUnavailableError _ =>
              if attempted : bool then Ret tt else _unassign community_id server_id worker_id
          | _ => Ret tt
          end;
      Raise e
  | Ok outcome =>
      if success outcome then mret server
      else
        _ ← (if attempted : bool then Ret tt else _unassign community_id server_id worker_id);
        Raise (dispatch_failure outcome None)
  end.

Definition redispatch_start (community_id server_id : uuid) (store_generation : option Z)
    : coroutine Server :=
  '(server, worker_id) ← call (Db (load_assigned community_id server_id D_RUNNING));
  held_generation ← call (Reg (HeldGeneration worker_id server_id));
  store_generation ← match store_generation with
                     | Some g => mret g
                     | None => call (Ask (CurrentGeneration community_id server_id))
                     end;
  '(_, r) ← _launch server community_id server_id worker_id (fresh held_generation store_generation);
  match r with
  | Err e => Raise e
  | Ok outcome =>
      if success outcome then mret server
      else if bool_decide (outcome.(co_status) = INVALID_STATE)
      then converge_running server server_id worker_id
      else Raise (dispatch_failure outcome None)
  end.
End StartServer.

(** ** Stopping *)

Module StopServer.

(** [True]: the upload may still be live. *)
Definition _final_snapshot (worker_id community_id server_id : uuid) : coroutine bool :=
  try_ (_ ← call (Ask (Snapshot worker_id community_id server_id)); Ret false)
    (fun e => match e with
              | WorkerUnavailableError upload_may_be_live => Ret upload_may_be_live
              | _ => Raise e
              end).

(** The shielded release; the entity follows it when it landed. *)
Definition _clear_held_assignment (server : Server) (worker_id server_id : uuid) : coroutine Server :=
  cleared ← call (Shield server_id worker_id);
  Ret (if cleared : bool then set_assigned None server else server).

(** The returned entity follows a convergence write that landed. *)
Definition reflect (applied : bool) (o : ObservedState) (at_ : datetime) (server : Server) : Server :=
  if applied then set_observed o (Some at_) server else server.

Definition _record_stopped_then_final_snapshot (server : Server)
    (worker_id community_id server_id : uuid) : coroutine Server :=
  observed_at ← call Now;
  applied ← call (Db (record_observed server_id STOPPED observed_at false worker_id));
  let server := reflect applied STOPPED observed_at server in
  _ ← (if applied : bool
       then call (Ask (SyncObserved server_id worker_id server.(s_bedrock_port) false))
       else Ret tt);
  upload_may_be_live ← _final_snapshot worker_id community_id server_id;
  if upload_may_be_live : bool then Ret server
  else _clear_held_assignment server worker_id server_id.

(** The convergence of a stop answered [SERVER_NOT_FOUND]: a crash stands, anything
    else reads stopped; with the crashed row when it is one. *)
Definition record_unless_crashed (server_id worker_id : uuid) (observed_at : datetime)
    : M (tx sdb) exn (bool * option Server) :=
  current ← on (get_by_id server_id);
  match current with
  | Some row =>
      if bool_decide (row.(s_assigned_worker_id) = Some worker_id)
         && bool_decide (row.(s_observed_state) = CRASHED)
      then _ ← commit; mret (false, Some row)
      else applied ← record_observed server_id STOPPED observed_at false worker_id;
           mret (applied, None)
  | None =>
      applied ← record_observed server_id STOPPED observed_at false worker_id;
      mret (applied, None)
  end.

Definition _release_after_final_snapshot (server : Server)
    (worker_id community_id server_id : uuid) : coroutine Server :=
  observed_at ← call Now;
  '(applied, crashed) ← call (Db (record_unless_crashed server_id worker_id observed_at));
  let server := match crashed with
                | Some row => set_observed row.(s_observed_state) row.(s_observed_at) server
                | None => reflect applied STOPPED observed_at server
                end in
  let at_rest_under_us := applied || bool_decide (is_Some crashed) in
  _ ← (if at_rest_under_us
       then call (Ask (SyncObserved server_id worker_id server.(s_bedrock_port) false))
       else Ret tt);
  upload_may_be_live ← _final_snapshot worker_id community_id server_id;
  if at_rest_under_us && negb upload_may_be_live
  then _clear_held_assignment server worker_id server_id
  else Ret server.

(** The dispatch of a stop and what its answer is owed, shared by [_stop] and
    [_redispatch_stop]. *)
Definition dispatch_stop (server : Server) (worker_id community_id server_id : uuid) (force : bool)
    : coroutine Server :=
  _ ← call (Refusals (Forget server_id));
  outcome ← call (Ask (Stop worker_id server_id force));
  if bool_decide (outcome.(co_status) = SERVER_NOT_FOUND)
  then _release_after_final_snapshot server worker_id community_id server_id
  else if negb (success outcome) then
    at_ ← call Now;
    _ ← call (Refusals (RecordRefusal server_id outcome at_));
    Raise (dispatch_failure outcome None)
  else _record_stopped_then_final_snapshot server worker_id community_id server_id.

Definition _redispatch_stop (community_id server_id : uuid) (force : bool) : coroutine Server :=
  '(server, worker_id) ← call (Db (load_assigned community_id server_id D_STOPPED));
  dispatch_stop server worker_id community_id server_id force.

(** Step A's row: the triple is one of the wedges. *)
Definition load_wedged (community_id server_id : uuid) : M (tx sdb) exn (Server * uuid) :=
  '(server, worker_id) ← load_assigned community_id server_id D_STOPPED;
  if bool_decide (server.(s_observed_state) ∈ [STOPPED; UNKNOWN; CRASHED; STOPPING])
  then mret (server, worker_id) else raise InvalidLifecycleTransitionError.

Definition _clear_stale_assignment (community_id server_id : uuid) : coroutine Server :=
  '(server, worker_id) ← call (Db (load_wedged community_id server_id));
  (* Step A: the worker of a possibly live process must still be gone *)
  _ ← (if bool_decide (server.(s_observed_state) ∈ [UNKNOWN; STOPPING]) then
         connected ← call (Reg (IsConnected worker_id));
         raise_if connected InvalidLifecycleTransitionError
       else Ret tt);
  (* Step B: re-drive the final snapshot of a process that is gone *)
  _ ← (if bool_decide (server.(s_observed_state) ∈ [STOPPED; CRASHED]) then
         connected ← call (Reg (IsConnected worker_id));
         if connected : bool then
           upload_may_be_live ← _final_snapshot worker_id community_id server_id;
           raise_if upload_may_be_live (WorkerUnavailableError true)
         else Ret tt
       else Ret tt);
  (* Step C: clear the assignment *)
  if bool_decide (server.(s_observed_state) = STOPPING) then
    observed_at ← call Now;
    cleared ← call (Db (record_observed server_id UNKNOWN observed_at true worker_id));
    Ret (if cleared : bool then set_assigned None (set_observed UNKNOWN (Some observed_at) server)
         else server)
  else
    cleared ← call (Db (clear_held server_id worker_id));
    Ret (if cleared : bool then set_assigned None server else server).

(** [_stop]'s transaction: the row as read under a stop intent already, or the
    committed flip. *)
Definition flip_stopped (community_id server_id : uuid) (at_ : datetime)
    : M (tx sdb) exn (Server + Server * uuid) :=
  server ← _load community_id server_id;
  if bool_decide (server.(s_desired_state) = D_STOPPED) then mret (inl server)
  else
    match server.(s_assigned_worker_id) with
    | None => raise InvalidLifecycleTransitionError
    | Some worker_id =>
        applied ← _mark_stopped server at_;
        _ ← guard_not (negb applied) LifecycleTransitionConflictError;
        _ ← commit;
        mret (inr (set_lifecycle D_STOPPED (Some worker_id) server.(s_config) at_ server, worker_id))
    end.

Definition _stop (community_id server_id : uuid) (force : bool) : coroutine Server :=
  at_ ← call Now;
  flipped ← call (Db (flip_stopped community_id server_id at_));
  match flipped with
  | inl server =>
      owed ← stopped_intent_action server;
      match owed with
      | None => Raise InvalidLifecycleTransitionError
      | Some redispatch_stop => _redispatch_stop community_id server_id force
      | Some clear_stale_assignment => _clear_stale_assignment community_id server_id
      end
  | inr (server, worker_id) =>
      _ ← call (Reg (Decrement worker_id server_id));
      dispatch_stop server worker_id community_id server_id force
  end.

Definition __call__ (community_id server_id : uuid) (force : bool) : coroutine Server :=
  with_claim server_id (_stop community_id server_id force).

Definition redispatch_stop (community_id server_id : uuid) (force : bool) : coroutine Server :=
  with_claim server_id (_redispatch_stop community_id server_id force).

Definition clear_stale_assignment (community_id server_id : uuid) : coroutine Server :=
  with_claim server_id (_clear_stale_assignment community_id server_id).

Definition clear_late (server_id worker_id : uuid) : M (tx sdb) exn bool :=
  server ← on (get_by_id server_id);
  match server with
  | Some server =>
      if bool_decide (server.(s_desired_state) = D_STOPPED)
         && bool_decide (server.(s_observed_state) ∈ [STOPPED; CRASHED])
         && bool_decide (server.(s_assigned_worker_id) = Some worker_id)
      then clear_held server_id worker_id else mret false
  | None => mret false
  end.

Definition clear_assignment_after_late_snapshot (server_id worker_id : uuid) : coroutine unit :=
  busy ← call (InFlight server_id);
  if busy : bool then Ret tt
  else with_claim server_id (_ ← call (Db (clear_late server_id worker_id)); Ret tt).
End StopServer.

(** ** Draining, restarting, commanding *)

Fixpoint mark_all (assigned : list Server) (clock : nat -> datetime) (i : nat)
    : M (tx sdb) exn (list uuid) :=
  match assigned with
  | [] => mret []
  | server :: assigned' =>
      applied ← _mark_stopped server (clock i);
      stopped ← mark_all assigned' clock (S i);
      mret (if applied : bool then server.(s_id) :: stopped else stopped)
  end.

Definition stop_assigned (worker_id : uuid) (clock : nat -> datetime) : M (tx sdb) exn (list uuid) :=
  running ← on list_desired_running_assigned;
  stopped ← mark_all (List.filter (fun server =>
    bool_decide (server.(s_assigned_worker_id) = Some worker_id)) running) clock 0;
  _ ← commit;
  mret stopped.

Definition StopServersAssignedToWorker (worker_id : uuid) : coroutine (list uuid) :=
  clock ← call Nows;
  call (Db (stop_assigned worker_id clock)).

Definition touch_running (community_id server_id : uuid) (at_ : datetime)
    : M (tx sdb) exn (Server * uuid) :=
  '(server, worker_id) ← load_assigned community_id server_id D_RUNNING;
  let server := set_lifecycle server.(s_desired_state) server.(s_assigned_worker_id)
                  server.(s_config) at_ server in
  applied ← on (update_lifecycle server D_RUNNING false);
  _ ← guard_not (negb applied) LifecycleTransitionConflictError;
  _ ← commit;
  mret (server, worker_id).

Definition RestartServer (community_id server_id : uuid) : coroutine Server :=
  at_ ← call Now;
  '(server, worker_id) ← call (Db (touch_running community_id server_id at_));
  outcome ← call (Ask (Restart worker_id server_id));
  if is_working_set_absent_refusal outcome
  then Raise (dispatch_failure outcome (Some _WORKING_SET_ABSENT_REASON))
  else if bool_decide (outcome.(co_status) = SERVER_NOT_FOUND) then Raise ServerNotRunningError
  else if bool_decide (outcome.(co_status) = INVALID_STATE)
  then Raise (dispatch_failure outcome (Some FAILED_STOP_ORPHAN_REASON))
  else if negb (success outcome) then Raise (dispatch_failure outcome None)
  else Ret server.

Definition load_running (community_id server_id : uuid) : M (tx sdb) exn uuid :=
  server ← _load community_id server_id;
  match server.(s_assigned_worker_id) with
  | Some worker_id =>
      if bool_decide (server.(s_observed_state) = RUNNING) then mret worker_id
      else raise ServerNotRunningError
  | None => raise ServerNotRunningError
  end.

Definition SendServerCommand (community_id server_id : uuid) (line : string) : coroutine string :=
  _ ← raise_if (MAX_CONSOLE_LINE_BYTES <? console_line_bytes line)
        (CommandDispatchError (Some "console_line_too_long"%string));
  worker_id ← call (Db (load_running community_id server_id));
  outcome ← call (Ask (Command worker_id server_id line));
  if bool_decide (outcome.(co_status) = SERVER_NOT_FOUND) then Raise ServerNotRunningError
  else if bool_decide (outcome.(co_status) = INVALID_STATE)
  then Raise (dispatch_failure outcome (Some FAILED_STOP_ORPHAN_REASON))
  else if negb (success outcome) then Raise (dispatch_failure outcome None)
  else Ret outcome.(co_output).

(** ** The Worker's reports: [servers/adapters/server_state_sink.py] *)

Module StateSink.

(** The report of a worker that does not own the row is dropped; the write asserts
    the reporter again. *)
Definition write_report (server_id worker_id : uuid) (observed : ObservedState)
    (detail reason : string) (emitted_at : option datetime) (now : datetime)
    : M (tx sdb) exn (option (bool * Server)) :=
  server ← on (get_by_id server_id);
  match server with
  | Some server =>
      if bool_decide (server.(s_assigned_worker_id) = Some worker_id) then
        applied ← on (record_observed_state server_id observed now false (Some worker_id)
                        detail reason emitted_at);
        _ ← commit;
        mret (Some (applied, server))
      else mret None
  | None => mret None
  end.

Definition record_observed_state (server_id worker_id : string) (observed : ObservedState)
    (detail reason : string) (emitted_at : option datetime) : coroutine bool :=
  match uuid_parse server_id, uuid_parse worker_id with
  | Some parsed, Some parsed_worker =>
      now ← call Now;
      written ← call (Db (write_report parsed parsed_worker observed detail reason emitted_at now));
      match written with
      | Some (applied, server) =>
          _ ← (if applied && negb (bool_decide (server.(s_bedrock_port) = None))
               then call (Ask (SyncObserved parsed parsed_worker server.(s_bedrock_port)
                                 (bool_decide (observed = RUNNING))))
               else Ret tt);
          Ret applied
      | None => Ret false
      end
  | _, _ => Ret false
  end.

Definition mark_worker_servers_unknown (worker_id : string) : coroutine unit :=
  match uuid_parse worker_id with
  | Some parsed =>
      now ← call Now;
      call (Db (_ ← on (mark_worker_servers_unknown parsed now); commit))
  | None => Ret tt
  end.

(** [adapters/late_snapshot_result_sink.py] *)
Definition clear_held_assignment_on_late_snapshot (server_id worker_id : string) : coroutine unit :=
  match uuid_parse server_id, uuid_parse worker_id with
  | Some parsed, Some parsed_worker =>
      StopServer.clear_assignment_after_late_snapshot parsed parsed_worker
  | _, _ => Ret tt
  end.
End StateSink.

(** [application/startup_reset.py]: at boot no Worker session has survived. *)
Definition ResetUnverifiableObservedStates : coroutine Z :=
  now ← call Now;
  call (Db (count ← on (reset_unverifiable_observed_states now); _ ← commit; mret count)).

(** ** Following a coroutine down to its events *)

(** One step of a proof that a coroutine [keeps] a monitor's state: its shape,
    down to the events, which [leaf] settles. *)
Ltac keep_step leaf :=
  match goal with
  | |- keeps _ _ _ _ (mbind _ _) => apply keeps_bind; [|intros ?]
  | |- keeps _ _ _ _ (except_Exception _ _) => unfold except_Exception
  | |- keeps _ _ _ _ (try_ _ _) => apply keeps_try; [|intros ?]
  | |- keeps _ _ _ _ (attempt _) => apply keeps_attempt
  | |- keeps _ _ _ _ (finally _ _) => apply keeps_finally
  | |- keeps _ _ _ _ (with_claim _ _) => unfold with_claim
  | |- keeps _ _ _ _ (with_lock _ _) => unfold with_lock
  | |- keeps _ _ _ _ (raise_if _ _) => unfold raise_if
  | |- keeps _ _ _ _ (from_config _) => apply keeps_pure
  | |- keeps _ _ _ _ (StartServer.marked _ _ _) => unfold StartServer.marked
  | |- keeps _ _ _ _ (match ?x with _ => _ end) => destruct x
  | |- keeps _ _ _ _ (Ret _) => reflexivity
  | |- keeps _ _ _ _ (Raise _) => reflexivity
  | |- keeps _ _ _ _ (call _) => apply keeps_call; try leaf
  | _ => leaf
  end.
