(* ===== verification/Reconciler.v ===== *)
(** * The divergence reconciler

    [servers/application/reconciler.py], [RunReconcilerTick]: the choice of the
    action a diverged row is owed, the grace it waits out, the dispatch, and what
    its outcome does to the backoff map ([Backoff]). *)
From Stdlib Require Import ZArith NArith Lia String.
From stdpp Require Import base gmap strings list fin_maps.
From S2P Require Import Prelude Uow Uuid Calendar Registry ControlPlane Program ServerRow Backoff LifecycleSeam Lifecycle.

Open Scope Z_scope.

Inductive action : Set := Place_and_start | Redispatch_start | Stop_action (a : stop_action).

#[global] Instance stop_action_eq_dec : EqDecision stop_action.
Proof. solve_decision. Defined.
#[global] Instance action_eq_dec : EqDecision action.
Proof. solve_decision. Defined.

Definition _NOT_RUNNING : list ObservedState := [STOPPED; STOPPING; RESTARTING; CRASHED; UNKNOWN].

Definition is_start (a : action) : bool :=
  match a with Stop_action _ => false | _ => true end.

Definition _action_for (server : Server) : coroutine (option action) :=
  match server.(s_desired_state) with
  | D_RUNNING =>
      match server.(s_assigned_worker_id) with
      | None => Ret (Some Place_and_start)
      | Some w =>
          if negb (bool_decide (server.(s_observed_state) ∈ _NOT_RUNNING)) then Ret None
          else connected ← call (Reg (IsConnected w));
               Ret (if connected : bool then Some Redispatch_start else None)
      end
  | D_STOPPED =>
      owed ← stopped_intent_action server;
      Ret (option_map Stop_action owed)
  end.

Record _GraceDecision := { gd_grace_seconds : Z; gd_store_generation : option Z }.

Section Reconciler.
Context (cfg : settings).

Definition _previous_stop_refused (server : Server) : coroutine bool :=
  at_ ← call (Refusals (RefusedAt server.(s_id)));
  Ret match at_ with Some t => _since server <=? t | None => false end.

(** The grace of an action that is not a replayed, refused stop. *)
Definition start_grace (server : Server) (a : action) : coroutine _GraceDecision :=
  match a, server.(s_assigned_worker_id) with
  | Redispatch_start, Some w =>
      let floor := if bool_decide (server.(s_observed_state) = STOPPING)
                   then cfg.(restart_timeout_seconds) else 0 in
      store_generation ← call (Ask (CurrentGeneration server.(s_community_id) server.(s_id)));
      held ← call (Reg (HoldsFresh w server.(s_id) store_generation));
      Ret (if held : bool
           then {| gd_grace_seconds := Z.max cfg.(held_start_grace_seconds) floor;
                   gd_store_generation := Some store_generation |}
           else {| gd_grace_seconds := Z.max cfg.(grace_seconds) floor;
                   gd_store_generation := None |})
  | _, _ => Ret {| gd_grace_seconds := cfg.(grace_seconds); gd_store_generation := None |}
  end.

Definition _grace_for (server : Server) (a : action) : coroutine _GraceDecision :=
  match a with
  | Stop_action redispatch_stop =>
      refused ← _previous_stop_refused server;
      Ret {| gd_grace_seconds := if refused : bool then cfg.(refused_stop_grace_seconds)
                                 else cfg.(grace_seconds);
             gd_store_generation := None |}
  | _ => start_grace server a
  end.

Definition _dispatch (server : Server) (a : action) (store_generation : option Z)
    : coroutine Server :=
  match a with
  | Place_and_start => StartServer.place_and_start server.(s_community_id) server.(s_id)
  | Redispatch_start =>
      StartServer.redispatch_start server.(s_community_id) server.(s_id) store_generation
  | Stop_action clear_stale_assignment =>
      StopServer.clear_stale_assignment server.(s_community_id) server.(s_id)
  | Stop_action redispatch_stop =>
      StopServer.redispatch_stop server.(s_community_id) server.(s_id) false
  end.

Definition fail (server_id : uuid) (now : datetime) : coroutine unit :=
  call (Attempts (Update (fun m => _record_failure cfg server_id now m))).

(** What an exception that reached [_run] does to the backoff: a start refused
    busy and a stop another convergence holds are not failures. *)
Definition counted (a : action) (e : exn) : bool :=
  negb (is_start a && bool_decide (e = CommandDispatchError (Some WORKER_BUSY_REASON)))
  && negb (negb (is_start a) && bool_decide (e = LifecycleTransitionConflictError)).

Definition _run (server : Server) (a : action) (now : datetime) (store_generation : option Z)
    : coroutine unit :=
  left ← attempt (_dispatch server a store_generation);
  match left with
  | Err e =>
      if is_Exception e then if counted a e then fail server.(s_id) now else Ret tt
      else Raise e
  | Ok dispatched =>
      if is_start a && bool_decide (dispatched.(s_observed_state) = CRASHED)
      then fail server.(s_id) now
      else call (Attempts (Update (fun m => delete server.(s_id) m)))
  end.

Definition _consider (server : Server) (now : datetime) : coroutine unit :=
  a ← _action_for server;
  match a with
  | None => Ret tt
  | Some a =>
      decision ← _grace_for server a;
      if _within_grace server now decision.(gd_grace_seconds) then Ret tt
      else
        entry ← call (Attempts (Entry server.(s_id)));
        if match entry with Some b => now <? b.(next_eligible_at) | None => false end then Ret tt
        else _run server a now decision.(gd_store_generation)
  end.

(** The reads of a tick: the candidates, and the rows of the servers with an entry
    they left out. *)
Definition tick_reads (entries : gmap uuid _Backoff)
    : M (tx sdb) exn (list Server * gmap uuid (option Server)) :=
  candidates ← on list_reconcilable;
  let listed := map s_id candidates in
  tracked ← on (gets (fun d => map_imap (fun i _ =>
              if bool_decide (i ∈ listed) then None else Some (d.(servers) !! i)) entries));
  mret (candidates, tracked).

(** [tick] up to its fan-out: the bookkeeping and the candidates. *)
Definition tick : coroutine (list Server * datetime) :=
  now ← call Now;
  entries ← call (Attempts Entries);
  '(candidates, tracked) ← call (Db (tick_reads entries));
  _ ← call (Attempts (Update (fun m => _expire_stale cfg now (_forgive_settled tracked now m))));
  Ret (candidates, now).

(** The fan-out: the candidates' [_consider], which run concurrently, four at a
    time; what escapes one is logged. *)
Definition fan_out (candidates : list Server) (now : datetime) : list (coroutine unit) :=
  map (fun server => try_ (_consider server now) (fun _ => Ret tt)) candidates.
End Reconciler.
