(* ===== verification/LifecycleInv.v ===== *)
(** * The row machine the lifecycle implements

    An abstract specification of what may happen to one server row ([row_step]),
    and the interleaved system the lifecycle's coroutines make: requests are
    served, coroutines advance one event at a time in any order, Workers come and
    go, answers are late, the process dies.  Every interleaving refines the row
    machine, an assignment never moves without being released first, and the
    status frames published to live clients add up to the committed states. *)
From Stdlib Require Import ZArith NArith Lia String.
From stdpp Require Import base gmap strings list fin_maps relations.
From S2P Require Import Prelude Uow Uuid Calendar Retention Registry ControlPlane Program ServerRow Backoff LifecycleSeam Lifecycle Reconciler.

Open Scope Z_scope.

(** ** The specification *)

Definition older (r : Server) (t : datetime) : Prop :=
  match r.(s_observed_at) with None => True | Some t0 => t0 < t end.

(** What one transaction may do to a row. *)
Inductive row_step (r : Server) : Server -> Prop :=
| row_same : row_step r r
| row_place w config t :
    r.(s_assigned_worker_id) = None ->
    row_step r (set_lifecycle D_RUNNING (Some w) config t r)
| row_stop t :
    r.(s_desired_state) = D_RUNNING ->
    row_step r (set_lifecycle D_STOPPED r.(s_assigned_worker_id) r.(s_config) t r)
| row_compensate t :
    r.(s_desired_state) = D_RUNNING ->
    row_step r (set_lifecycle D_STOPPED None r.(s_config) t r)
| row_unassign t :
    r.(s_desired_state) = D_RUNNING ->
    row_step r (set_lifecycle D_RUNNING None r.(s_config) t r)
| row_touch t :
    r.(s_desired_state) = D_RUNNING ->
    row_step r (set_lifecycle D_RUNNING r.(s_assigned_worker_id) r.(s_config) t r)
| row_release :
    r.(s_desired_state) = D_STOPPED -> row_step r (set_assigned None r)
| row_report w o t :
    r.(s_assigned_worker_id) = Some w -> older r t -> row_step r (set_observed o (Some t) r)
| row_abandon w t :
    r.(s_assigned_worker_id) = Some w -> older r t ->
    row_step r (set_assigned None (set_observed UNKNOWN (Some t) r))
| row_invalidate w t :
    r.(s_assigned_worker_id) = Some w -> row_step r (set_observed UNKNOWN (Some t) r).

(** A subscriber's view of a server: it applies the frames of that server. *)
Definition view (r : Server) : DesiredState * ObservedState := (r.(s_desired_state), r.(s_observed_state)).

Definition apply_frame (k : uuid) (v : DesiredState * ObservedState) (f : frame)
    : DesiredState * ObservedState :=
  match f with
  | DesiredFrame k' d => if decide (k = k') then (d, v.2) else v
  | StateFrame k' o _ _ _ => if decide (k = k') then (v.1, o) else v
  end.

Definition apply_frames (k : uuid) (fs : list frame) (v : DesiredState * ObservedState) :=
  foldl (apply_frame k) v fs.

(** ** Transactions *)

(** One transaction took the tables from [d] to [d']: each row by a step, and the
    frames it staged tell the difference. *)
Definition db_step (d d' : sdb) : Prop := forall k,
  match d.(servers) !! k, d'.(servers) !! k with
  | Some r, Some r' => row_step r r' /\ apply_frames k d'.(staged) (view r) = view r'
  | None, None => True
  | _, _ => False
  end.

Definition ok_db {T} (m : M (tx sdb) exn T) : Prop :=
  forall d, ids_ok d.(servers) -> d.(staged) = [] -> db_step d (uow m d).2.

Lemma db_step_refl d : d.(staged) = [] -> db_step d d.
Proof. intros Hs k. destruct (d.(servers) !! k); [|done]. rewrite Hs. by split; [constructor|]. Qed.

Lemma row_step_id r r' : row_step r r' -> r'.(s_id) = r.(s_id).
Proof. by destruct 1. Qed.

Lemma db_step_ids d d' : db_step d d' -> ids_ok d.(servers) -> ids_ok d'.(servers).
Proof.
  intros Hd Hi k r' Hk. specialize (Hd k). rewrite Hk in Hd.
  destruct (d.(servers) !! k) as [r|] eqn:E; [|done]. destruct Hd as [Hr _].
  rewrite (row_step_id _ _ Hr). by apply Hi.
Qed.

(** A further statement of a transaction rewrites a row it has not touched yet. *)
Lemma db_step_extend d w k r r' fs :
  db_step d w -> d.(servers) !! k = Some r -> w.(servers) !! k = Some r ->
  (forall v, apply_frames k w.(staged) v = v) ->
  row_step r r' -> apply_frames k fs (view r) = view r' ->
  (forall k' v, k' <> k -> apply_frames k' fs v = v) ->
  db_step d (stage fs (set_servers (<[k := r']> w.(servers)) w)).
Proof.
  intros Hw Hk Hwk Hn Hr Hf Ho k'. specialize (Hw k'). cbn [servers set_servers stage staged].
  rewrite lookup_insert. case_decide as E.
  - subst. rewrite Hk. split; [done|]. unfold apply_frames in *. by rewrite foldl_app, Hn.
  - destruct (d.(servers) !! k'), (w.(servers) !! k'); try done.
    destruct Hw as [? Hv]. split; [done|]. unfold apply_frames in *. rewrite foldl_app, Hv. by apply Ho.
Qed.

(** A statement that rewrites one row, and the frames it stages. *)
Lemma db_step_row d k r r' fs :
  d.(staged) = [] -> d.(servers) !! k = Some r -> row_step r r' ->
  apply_frames k fs (view r) = view r' ->
  (forall k' v, k' <> k -> apply_frames k' fs v = v) ->
  db_step d (stage fs (set_servers (<[k := r']> d.(servers)) d)).
Proof.
  intros Hs Hk. apply db_step_extend; [by apply db_step_refl|done|done|]. intros v. by rewrite Hs.
Qed.

(** *** The bulk write of the observed state *)

Section Write.
Context (p : Server -> bool) (write : Server -> Server) (m : gmap uuid Server).

Lemma write_lookup k :
  ((write <$> filter (fun kv : uuid * Server => p kv.2 = true) m) ∪ m) !! k =
  (fun row => if p row then write row else row) <$> (m !! k).
Proof.
  rewrite lookup_union, lookup_fmap, map_lookup_filter.
  destruct (m !! k) as [row|]; [|done]. cbn [mbind option_bind snd].
  destruct (p row) eqn:E; [rewrite option_guard_True by done|rewrite option_guard_False by done].
  all: cbn; rewrite ?E; done.
Qed.
End Write.

Lemma write_observed_lookup p o t unassign detail reason at_ (d : sdb) k :
  (@_write_observed_state exn p o t unassign detail reason at_ d).2.(servers) !! k =
  (fun r => if p r then (if unassign : bool then set_assigned None (set_observed o (Some t) r)
                         else set_observed o (Some t) r) else r) <$> d.(servers) !! k.
Proof. unfold _write_observed_state. cbn [snd stage set_servers servers]. by rewrite write_lookup. Qed.

Lemma apply_state_frames k o detail reason at_ (l : list (uuid * Server)) v :
  apply_frames k (map (fun kv => StateFrame kv.1 o detail reason at_) l) v =
  (v.1, if decide (k ∈ l.*1) then o else v.2).
Proof.
  unfold apply_frames. revert v. induction l as [|[k' r] l IH]; intros [dv ov]; cbn [map foldl apply_frame].
  - done.
  - rewrite fmap_cons. cbn [fst]. rewrite IH. repeat case_decide; cbn; try done; exfalso; set_solver.
Qed.

(** The write refines the machine when each row it touches may take its step. *)
Lemma write_observed_ok p o t unassign detail reason at_ (d : sdb) :
  d.(staged) = [] ->
  (forall k r, d.(servers) !! k = Some r -> p r = true ->
     row_step r (if unassign : bool then set_assigned None (set_observed o (Some t) r)
                 else set_observed o (Some t) r)) ->
  db_step d (@_write_observed_state exn p o t unassign detail reason at_ d).2.
Proof.
  intros Hs Hp k. unfold _write_observed_state. cbn [snd stage set_servers servers staged].
  rewrite Hs. cbn [app]. rewrite write_lookup.
  destruct (d.(servers) !! k) as [r|] eqn:E; cbn [fmap option_fmap option_map]; [|done].
  rewrite apply_state_frames.
  assert (Hin : k ∈ (List.filter (fun kv : uuid * Server => negb (bool_decide (s_observed_state kv.2 = o)
       && String.eqb detail "" && String.eqb reason ""))
       (map_to_list (filter (fun kv : uuid * Server => p kv.2 = true) (servers d)))).*1 <->
    p r = true /\ negb (bool_decide (s_observed_state r = o)
       && String.eqb detail "" && String.eqb reason "") = true).
  { rewrite list_elem_of_fmap. split.
    - intros ([k' r'] & -> & [Hk' Hc]%elem_of_filter_bool). simpl in *.
      apply elem_of_map_to_list, map_lookup_filter_Some in Hk' as [Hk' ?]. simpl in *.
      by simplify_eq.
    - intros [Hpr Hc]. exists (k, r). split; [done|]. apply elem_of_filter_bool.
      split; [|done]. by apply elem_of_map_to_list, map_lookup_filter_Some. }
  destruct (p r) eqn:Ep.
  - split; [by eapply Hp|]. unfold view. destruct (decide _) as [Hd|Hd].
    + by destruct unassign.
    + destruct (bool_decide (s_observed_state r = o)) eqn:Eo.
      * apply bool_decide_eq_true in Eo. by destruct unassign; simpl; rewrite Eo.
      * exfalso. apply Hd, Hin. by split.
  - split; [constructor|]. rewrite decide_False; [done|]. rewrite Hin. by intros [? _].
Qed.

(** *** The guarded writes *)

Lemma update_lifecycle_step (d : sdb) server from req :
  d.(staged) = [] ->
  (forall r, d.(servers) !! server.(s_id) = Some r -> r.(s_desired_state) = from ->
     (req = true -> r.(s_assigned_worker_id) = None) ->
     row_step r (set_lifecycle server.(s_desired_state) server.(s_assigned_worker_id)
                   server.(s_config) server.(s_updated_at) r)) ->
  exists b d', update_lifecycle (E := exn) server from req d = (Ok b, d') /\ db_step d d'.
Proof.
  intros Hs Hr. unfold update_lifecycle.
  destruct (d.(servers) !! server.(s_id)) as [r|] eqn:E;
    [|exists false, d; split; [done|by apply db_step_refl]].
  destruct (_ && _) eqn:Eg; [|exists false, d; split; [done|by apply db_step_refl]].
  apply andb_true_iff in Eg as [E1 E2]. apply bool_decide_eq_true in E1.
  exists true. eexists. split; [done|]. eapply db_step_row; [done..| | |].
  - apply Hr; [done|done|]. intros ->. by apply bool_decide_eq_true in E2.
  - clear E2. unfold view. case_bool_decide as Ed; cbn; [congruence|]. by case_decide.
  - clear E2. intros k' v Hne. case_bool_decide; cbn; [done|]. by case_decide.
Qed.

Lemma record_observed_step (d : sdb) s o t unassign w detail reason at_ :
  d.(staged) = [] -> ids_ok d.(servers) -> (unassign = true -> o = UNKNOWN) ->
  exists b d', record_observed_state (E := exn) s o t unassign (Some w) detail reason at_ d = (Ok b, d')
    /\ db_step d d'.
Proof.
  intros Hs Hi Hu. unfold record_observed_state, mbind, M_bind.
  pose proof (write_observed_ok (fun row => bool_decide (s_id row = s)
      && match s_observed_at row with None => true | Some t0 => t0 <? t end
      && bool_decide (s_assigned_worker_id row = Some w)) o t unassign detail reason at_ d Hs) as Hd.
  destruct (_write_observed_state _ _ _ _ _ _ _ d) as [res d'] eqn:E.
  injection E as <- <-. eexists _, _. split; [done|]. apply Hd.
  intros k r _ Hp. apply andb_true_iff in Hp as [Hp Hw]. apply andb_true_iff in Hp as [_ Ht].
  apply bool_decide_eq_true in Hw. assert (older r t).
  { unfold older. destruct (s_observed_at r); [by apply Z.ltb_lt|done]. }
  destruct unassign; [rewrite Hu by done; by eapply row_abandon|by eapply row_report].
Qed.

Lemma clear_held_step (d : sdb) s w :
  d.(staged) = [] ->
  exists b d', clear_assignment_after_final_snapshot (E := exn) s w d = (Ok b, d') /\ db_step d d'.
Proof.
  intros Hs. unfold clear_assignment_after_final_snapshot.
  destruct (d.(servers) !! s) as [r|] eqn:E;
    [|exists false, d; split; [done|by apply db_step_refl]].
  destruct (_ && _) eqn:Eg; [|exists false, d; split; [done|by apply db_step_refl]].
  apply andb_true_iff in Eg as [E1 E2]. apply bool_decide_eq_true in E1.
  exists true. eexists. split; [done|].
  pose proof (db_step_row d s r (set_assigned None r) [] Hs E (row_release r E1) eq_refl) as Hd.
  unfold stage in Hd. cbn in Hd. rewrite app_nil_r in Hd. by apply Hd.
Qed.

(** *** Every transaction of the lifecycle *)

(** Runs a transaction's body; what it reads stays a match. *)
Ltac tx_run :=
  unfold uow, mbind, M_bind, on, commit, get_by_id, gets, raise, guard_not, mret, M_ret;
  cbn [fst snd work durable].

(** Performs the guarded write of lemma [L]; its row condition may be left over. *)
Ltac tx_write L :=
  cbn [fst snd work durable];
  destruct L as (?b & ?d' & -> & ?Hd);
  [.. | cbn [fst snd work durable];
        match goal with b : bool, Hd : db_step _ _ |- _ =>
          destruct b; cbn [fst snd work durable negb]; try done; try (by apply db_step_refl) end].

Lemma read_ok {A} (m : M sdb exn A) : (forall d, (m d).2 = d) -> ok_db (on m).
Proof.
  intros Hm d Hi Hs. tx_run. specialize (Hm d). destruct (m d) as [r d']. cbn in *.
  by apply db_step_refl.
Qed.

(** The row found under the id of the row read is that row. *)
Lemma own_row (m : gmap uuid Server) k r r0 :
  ids_ok m -> m !! k = Some r -> m !! r.(s_id) = Some r0 -> r0 = r.
Proof. intros Hi E. rewrite (Hi _ _ E), E. by intros [= ->]. Qed.

Lemma compensate_ok c s t : ok_db (StartServer.compensate_write c s t).
Proof.
  intros d Hi Hs. unfold StartServer.compensate_write. tx_run.
  destruct (d.(servers) !! s) as [r|] eqn:E; [|by apply db_step_refl].
  case_bool_decide; [|by apply db_step_refl].
  tx_write (update_lifecycle_step d (set_lifecycle D_STOPPED None (s_config r) t r) D_RUNNING false Hs).
  intros r0 Hr0 Hd _. rewrite (own_row _ s r r0 Hi E Hr0) in *. exact (row_compensate r t Hd).
Qed.

Lemma unassign_ok c s w t : ok_db (StartServer.unassign_write c s w t).
Proof.
  intros d Hi Hs. unfold StartServer.unassign_write. tx_run.
  destruct (d.(servers) !! s) as [r|] eqn:E; [|by apply db_step_refl].
  destruct (_ && _); [|by apply db_step_refl].
  tx_write (update_lifecycle_step d (set_lifecycle (s_desired_state r) None (s_config r) t r) D_RUNNING false Hs).
  intros r0 Hr0 Hd _. rewrite (own_row _ s r r0 Hi E Hr0) in *. cbn [s_desired_state set_lifecycle]. rewrite Hd.
  exact (row_unassign r t Hd).
Qed.

Lemma commit_placement_ok server s from owed w :
  server.(s_desired_state) = D_RUNNING -> server.(s_assigned_worker_id) = Some w ->
  ok_db (StartServer.commit_placement server s from owed).
Proof.
  intros Hdes Hw d Hi Hs. unfold StartServer.commit_placement. tx_run.
  tx_write (update_lifecycle_step d server from true Hs).
  intros r _ _ Hn. rewrite Hdes, Hw. apply row_place. by apply Hn.
Qed.

Lemma record_observed_ok s o t unassign w :
  (unassign = true -> o = UNKNOWN) -> ok_db (record_observed s o t unassign w).
Proof.
  intros Hu d Hi Hs. unfold record_observed. tx_run.
  tx_write (record_observed_step d s o t unassign w "" "" None Hs Hi Hu).
Qed.

Lemma observed_ok s o t w : ok_db (record_observed s o t false w).
Proof. by apply record_observed_ok. Qed.

Lemma abandoned_ok s t u w : ok_db (record_observed s UNKNOWN t u w).
Proof. by apply record_observed_ok. Qed.

Lemma clear_held_ok s w : ok_db (clear_held s w).
Proof. intros d Hi Hs. unfold clear_held. tx_run. tx_write (clear_held_step d s w Hs). Qed.

Lemma clear_late_ok s w : ok_db (StopServer.clear_late s w).
Proof.
  intros d Hi Hs. unfold StopServer.clear_late. tx_run.
  destruct (d.(servers) !! s); [|by apply db_step_refl]. destruct (_ && _); [|by apply db_step_refl].
  exact (clear_held_ok s w d Hi Hs).
Qed.

Lemma record_unless_crashed_ok s w t : ok_db (StopServer.record_unless_crashed s w t).
Proof.
  intros d Hi Hs. pose proof (record_observed_ok s STOPPED t false w ltac:(done) d Hi Hs) as Hr.
  unfold StopServer.record_unless_crashed. unfold uow, record_observed in *. revert Hr. tx_run.
  destruct (d.(servers) !! s) as [r|]; [destruct (_ && _); [intros _; by apply db_step_refl|]|].
  all: destruct (ServerRow.record_observed_state _ _ _ _ _ _ _ _ _) as [[b|e] d']; exact (fun H => H).
Qed.

Lemma load_ok c s : ok_db (_load c s).
Proof.
  intros d Hi Hs. unfold _load. tx_run.
  destruct (d.(servers) !! s); [case_bool_decide|]; by apply db_step_refl.
Qed.

Lemma load_run c s (t : tx sdb) :
  exists res, _load c s t = (res, t) /\
    forall server, res = Ok server -> t.(work).(servers) !! s = Some server.
Proof.
  destruct t as [w dd]. unfold _load. tx_run.
  destruct (w.(servers) !! s) as [r|]; [case_bool_decide|].
  all: eexists; split; [done|]; naive_solver.
Qed.

Lemma load_assigned_run c s intent (t : tx sdb) :
  exists res, load_assigned c s intent t = (res, t) /\
    forall server w, res = Ok (server, w) -> t.(work).(servers) !! s = Some server
      /\ server.(s_assigned_worker_id) = Some w /\ server.(s_desired_state) = intent.
Proof.
  unfold load_assigned. destruct (load_run c s t) as (res & Hl & Hres).
  unfold mbind, M_bind. rewrite Hl. destruct res as [server|e]; [|by eexists].
  specialize (Hres server eq_refl).
  destruct (s_assigned_worker_id server) as [w|] eqn:Ew; [|by eexists].
  case_bool_decide as Ed; [|by eexists]. eexists. split; [done|]. intros server' w' [= <- <-]. done.
Qed.

Lemma load_assigned_ok c s intent : ok_db (load_assigned c s intent).
Proof.
  intros d Hi Hs. unfold uow. destruct (load_assigned_run c s intent (Tx d d)) as (res & -> & _).
  by apply db_step_refl.
Qed.

Lemma load_wedged_ok c s : ok_db (StopServer.load_wedged c s).
Proof.
  intros d Hi Hs. unfold uow, StopServer.load_wedged, mbind, M_bind.
  destruct (load_assigned_run c s D_STOPPED (Tx d d)) as (res & -> & _).
  destruct res as [[server w]|e]; [case_bool_decide|]; by apply db_step_refl.
Qed.

Lemma load_running_ok c s : ok_db (load_running c s).
Proof.
  intros d Hi Hs. unfold uow, load_running, mbind, M_bind.
  destruct (load_run c s (Tx d d)) as (res & -> & _).
  destruct res as [server|e]; [destruct (s_assigned_worker_id server); [case_bool_decide|]|];
    by apply db_step_refl.
Qed.

Lemma flip_stopped_ok c s t : ok_db (StopServer.flip_stopped c s t).
Proof.
  intros d Hi Hs. unfold uow, StopServer.flip_stopped. unfold mbind at 1, M_bind at 1.
  destruct (load_run c s (Tx d d)) as (res & -> & Hl).
  destruct res as [r|e]; [|by apply db_step_refl]. specialize (Hl r eq_refl). cbn in Hl.
  case_bool_decide; [by apply db_step_refl|].
  destruct (s_assigned_worker_id r) as [w|] eqn:Ew; [|by apply db_step_refl].
  unfold _mark_stopped. tx_run.
  tx_write (update_lifecycle_step d (set_lifecycle D_STOPPED (s_assigned_worker_id r) (s_config r) t r) D_RUNNING false Hs).
  intros r0 Hr0 Hd _. rewrite (own_row _ s r r0 Hi Hl Hr0) in *. exact (row_stop r t Hd).
Qed.

Lemma touch_running_ok c s t : ok_db (touch_running c s t).
Proof.
  intros d Hi Hs. unfold uow, touch_running. unfold mbind at 1, M_bind at 1.
  destruct (load_assigned_run c s D_RUNNING (Tx d d)) as (res & -> & Hl).
  destruct res as [[r w]|e]; [|by apply db_step_refl].
  destruct (Hl r w eq_refl) as (Hr & _ & Hdes). cbn in Hr. tx_run.
  tx_write (update_lifecycle_step d (set_lifecycle (s_desired_state r) (s_assigned_worker_id r) (s_config r) t r) D_RUNNING false Hs).
  intros r0 Hr0 Hd _. rewrite (own_row _ s r r0 Hi Hr Hr0) in *. cbn [s_desired_state set_lifecycle].
  rewrite Hdes. exact (row_touch r t Hd).
Qed.

Lemma write_report_ok s w o detail reason at_ now :
  ok_db (StateSink.write_report s w o detail reason at_ now).
Proof.
  intros d Hi Hs. unfold StateSink.write_report. tx_run.
  destruct (d.(servers) !! s); [|by apply db_step_refl]. case_bool_decide; [|by apply db_step_refl].
  tx_write (record_observed_step d s o now false w detail reason at_ Hs Hi ltac:(done)).
Qed.

(** The bulk invalidations. *)
Lemma invalidate_ok p t {A} (k : Z -> M (tx sdb) exn A) :
  (forall r, p r = true -> exists w, r.(s_assigned_worker_id) = Some w) ->
  (forall n u, exists a, k n u = (Ok a, u)) ->
  ok_db (n ← on (_write_observed_state p UNKNOWN t false "" "" None); _ ← commit; k n).
Proof.
  intros Hp Hk d Hi Hs. tx_run.
  pose proof (write_observed_ok p UNKNOWN t false "" "" None d Hs) as Hd.
  destruct (_write_observed_state _ _ _ _ _ _ _ d) as [res d'] eqn:E.
  injection E as <- <-. cbn [fst snd work durable].
  match goal with |- context [k ?n ?u] => destruct (Hk n u) as (a & ->) end.
  apply Hd. intros i r _ Hr. destruct (Hp r Hr) as (w & Hw). by eapply row_invalidate.
Qed.

Lemma mark_unknown_ok w t : ok_db (_ ← on (mark_worker_servers_unknown w t); commit).
Proof.
  pose proof (invalidate_ok (fun row => bool_decide (s_assigned_worker_id row = Some w)) t
    (fun _ => mret tt)) as H.
  intros d Hi Hs. refine (_ (H _ _ d Hi Hs)).
  - unfold uow, mark_worker_servers_unknown. tx_run. exact (fun x => x).
  - intros r Hr. exists w. by apply bool_decide_eq_true in Hr.
  - intros n u. by exists tt.
Qed.

Lemma reset_ok t : ok_db (n ← on (reset_unverifiable_observed_states t); _ ← commit; mret n).
Proof.
  apply (invalidate_ok _ t (fun n => mret n)).
  - intros r Hr. apply andb_true_iff in Hr as [Hr _].
    destruct (s_assigned_worker_id r) as [w|] eqn:E; [by exists w|]. done.
  - intros n u. by exists n.
Qed.

Lemma tick_reads_ok entries : ok_db (tick_reads entries).
Proof. intros d Hi Hs. unfold tick_reads, list_reconcilable, select_servers. tx_run. by apply db_step_refl. Qed.

(** The drain's loop: the rows still to flip are as the transaction read them. *)
Lemma mark_all_ok (d w : sdb) l clock i :
  db_step d w -> NoDup (map s_id l) ->
  (forall x, x ∈ l -> d.(servers) !! x.(s_id) = Some x /\ w.(servers) !! x.(s_id) = Some x
     /\ x.(s_desired_state) = D_RUNNING /\ forall v, apply_frames x.(s_id) w.(staged) v = v) ->
  exists ids w', mark_all l clock i (Tx w d) = (Ok ids, Tx w' d) /\ db_step d w'.
Proof.
  revert w i. induction l as [|x l IH]; intros w i Hd Hnd Hl; [by exists [], w|].
  cbn [map] in Hnd. apply NoDup_cons in Hnd as [Hx Hnd].
  destruct (Hl x ltac:(set_solver)) as (Hdx & Hwx & Hrun & Hfx).
  cbn [mark_all]. unfold mbind, M_bind, _mark_stopped, on. cbn [work durable].
  unfold update_lifecycle. cbn [s_id set_lifecycle s_desired_state s_assigned_worker_id s_config s_updated_at].
  rewrite Hwx, Hrun. cbn [negb orb].
  change (bool_decide (D_RUNNING = D_RUNNING) && true) with true.
  change (bool_decide (D_STOPPED = D_RUNNING)) with false. cbn iota.
  set (w1 := stage _ _).
  destruct (IH w1 (S i)) as (ids & w' & -> & Hd'); [|done| |by eexists _, w'].
  - eapply db_step_extend; [done|done|done|done|exact (row_stop x (clock i) Hrun)| |].
    + cbn. by case_decide.
    + intros k' v Hne. cbn. by case_decide.
  - intros y Hy. destruct (Hl y ltac:(set_solver)) as (Hdy & Hwy & Hry & Hfy).
    assert (Hne : y.(s_id) <> x.(s_id)).
    { intros E. apply Hx. rewrite <- E. apply list_elem_of_fmap. by exists y. }
    split_and!; [done| |done|].
    + cbn. by rewrite lookup_insert_ne.
    + intros v. unfold w1, apply_frames. cbn. rewrite foldl_app. cbn.
      rewrite decide_False by done. apply Hfy.
Qed.

Lemma rows_distinct (m : gmap uuid Server) (p q : Server -> bool) :
  ids_ok m -> NoDup (map s_id (List.filter p (List.filter q (map snd (map_to_list m))))).
Proof.
  intros Hi.
  assert (H : map s_id (map snd (map_to_list m)) = map fst (map_to_list m)).
  { rewrite map_map. apply map_ext_in. intros [k r] Hk%list_elem_of_In%elem_of_map_to_list. by apply Hi. }
  assert (Hsub : forall f (l : list Server), NoDup (map s_id l) -> NoDup (map s_id (List.filter f l))).
  { clear. intros f l. induction l as [|x l IH]; simpl; [done|]. intros [Hx Hn]%NoDup_cons.
    destruct (f x); [|by apply IH]. simpl. apply NoDup_cons. split; [|by apply IH].
    rewrite list_elem_of_fmap. intros (y & E & Hy%elem_of_filter_bool). apply Hx.
    rewrite E. apply list_elem_of_fmap. exists y. tauto. }
  do 2 apply Hsub. rewrite H. apply NoDup_fst_map_to_list.
Qed.

Lemma stop_assigned_ok w clock : ok_db (stop_assigned w clock).
Proof.
  intros d Hi Hs. unfold uow, stop_assigned, list_desired_running_assigned, select_servers.
  unfold mbind at 1, M_bind at 1. unfold on at 1, gets at 1. cbn [work durable].
  unfold mbind at 1, M_bind at 1.
  edestruct mark_all_ok as (ids & w' & -> & Hd).
  - by apply (db_step_refl d).
  - by apply rows_distinct.
  - intros x [[Hx Hdes]%elem_of_filter_bool _]%elem_of_filter_bool.
    apply list_elem_of_fmap in Hx as ([k r] & -> & Hk%elem_of_map_to_list). cbn in *.
    rewrite (Hi _ _ Hk). apply andb_true_iff in Hdes as [Hdes _]. apply bool_decide_eq_true in Hdes.
    split_and!; [done..|]. intros v. by rewrite Hs.
  - done.
Qed.

(** ** Coroutines whose transactions all refine the machine *)

Definition ok_event (T : Type) (_ : unit) (ev : event T) : Prop :=
  match ev with Db m => ok_db m | _ => True end.

Abbreviation good := (keeps (@may_reply) ok_event (fun _ q _ _ => q) tt).

Create HintDb good.
#[export] Hint Resolve compensate_ok unassign_ok observed_ok abandoned_ok
  clear_held_ok clear_late_ok record_unless_crashed_ok load_ok load_assigned_ok load_wedged_ok
  load_running_ok flip_stopped_ok touch_running_ok write_report_ok mark_unknown_ok reset_ok
  tick_reads_ok stop_assigned_ok : good.

Ltac good_leaf :=
  cbn [ok_event]; first [ exact I | done | solve [eauto with good] | apply read_ok; done ].
Ltac good := repeat keep_step good_leaf.

Section StartGood.
Context (c s : uuid).

Lemma regenerate_good : good (StartServer.regenerate_pending_group_files c s).
Proof.
  unfold StartServer.regenerate_pending_group_files. good.
  induction a as [|mark owed IH]; cbn [StartServer.regenerate_marks]; good.
Qed.

Lemma place_and_commit_good server from owed jar :
  good (StartServer.place_and_commit server s from owed jar).
Proof.
  unfold StartServer.place_and_commit, StartServer._place. good. by eapply commit_placement_ok.
Qed.

Lemma hydrate_then_start_good server w b : good (StartServer.hydrate_then_start server c s w b).
Proof.
  unfold StartServer.hydrate_then_start, StartServer.hydrate_leg,
    StartServer._generation_before_hydrate, StartServer.start_leg. good.
Qed.

Lemma launch_good server w skip : good (StartServer._launch server c s w skip).
Proof.
  unfold StartServer._launch, StartServer.start_leg. good; apply hydrate_then_start_good.
Qed.

Lemma compensate_good w : good (StartServer._compensate c s w).
Proof. unfold StartServer._compensate. good. Qed.

Lemma unassign_good w : good (StartServer._unassign c s w).
Proof. unfold StartServer._unassign. good. Qed.

Lemma converge_running_good server w : good (StartServer.converge_running server s w).
Proof. unfold StartServer.converge_running. good. Qed.
End StartGood.

#[export] Hint Resolve regenerate_good place_and_commit_good launch_good compensate_good
  unassign_good converge_running_good : good.

Lemma start_good c s eula : good (StartServer.__call__ c s eula).
Proof. unfold StartServer.__call__, StartServer.flip, StartServer._check_eula, StartServer._ensure_jar. good. Qed.

Lemma place_and_start_good c s : good (StartServer.place_and_start c s).
Proof. unfold StartServer.place_and_start, StartServer.replace, StartServer._ensure_jar. good. Qed.

Lemma redispatch_start_good c s g : good (StartServer.redispatch_start c s g).
Proof. unfold StartServer.redispatch_start. good. Qed.

Section StopGood.
Context (c s : uuid).

Lemma final_snapshot_good w : good (StopServer._final_snapshot w c s).
Proof. unfold StopServer._final_snapshot. good. Qed.
Hint Resolve final_snapshot_good : good.

Lemma dispatch_stop_good server w force : good (StopServer.dispatch_stop server w c s force).
Proof.
  unfold StopServer.dispatch_stop, StopServer._release_after_final_snapshot,
    StopServer._record_stopped_then_final_snapshot, StopServer._clear_held_assignment. good.
Qed.
Hint Resolve dispatch_stop_good : good.

Lemma redispatch_stop_good force : good (StopServer._redispatch_stop c s force).
Proof. unfold StopServer._redispatch_stop. good. Qed.

Lemma clear_stale_good : good (StopServer._clear_stale_assignment c s).
Proof. unfold StopServer._clear_stale_assignment. good. Qed.
Hint Resolve redispatch_stop_good clear_stale_good : good.

Lemma stop_good force : good (StopServer._stop c s force).
Proof. unfold StopServer._stop, stopped_intent_action. good. Qed.
End StopGood.

#[export] Hint Resolve start_good place_and_start_good redispatch_start_good redispatch_stop_good
  clear_stale_good stop_good : good.

Lemma late_good s w : good (StopServer.clear_assignment_after_late_snapshot s w).
Proof. unfold StopServer.clear_assignment_after_late_snapshot. good. Qed.
#[export] Hint Resolve late_good : good.

Lemma consider_good cfg server now : good (_consider cfg server now).
Proof.
  unfold _consider, _action_for, stopped_intent_action, _grace_for, _previous_stop_refused,
    start_grace, _run, _dispatch, fail, StopServer.redispatch_stop, StopServer.clear_stale_assignment.
  good.
Qed.

Lemma tick_good cfg : good (tick cfg).
Proof. unfold tick. good. Qed.
#[export] Hint Resolve consider_good tick_good : good.

(** ** The interleaved system *)

(** What the API, the Workers' streams and the loops ask of the lifecycle. *)
Inductive request : Type :=
| StartRequest (community_id server_id : uuid) (accept_eula : bool)
| StopRequest (community_id server_id : uuid) (force : bool)
| RestartRequest (community_id server_id : uuid)
| CommandRequest (community_id server_id : uuid) (line : string)
| DrainRequest (worker_id : uuid)
| Report (server_id worker_id : string) (observed : ObservedState) (detail reason : string)
    (emitted_at : option datetime)
| WorkerGone (worker_id : string)
| LateSnapshot (server_id worker_id : string)
| Boot
| Tick
| Consider (server : Server) (now : datetime).

Definition discard {A} (p : coroutine A) : coroutine unit := _ ← p; Ret tt.

Definition serve (cfg : settings) (r : request) : coroutine unit :=
  match r with
  | StartRequest c s eula => discard (StartServer.__call__ c s eula)
  | StopRequest c s force => discard (StopServer.__call__ c s force)
  | RestartRequest c s => discard (RestartServer c s)
  | CommandRequest c s line => discard (SendServerCommand c s line)
  | DrainRequest w => discard (StopServersAssignedToWorker w)
  | Report s w o detail reason at_ =>
      discard (StateSink.record_observed_state s w o detail reason at_)
  | WorkerGone w => StateSink.mark_worker_servers_unknown w
  | LateSnapshot s w => StateSink.clear_held_assignment_on_late_snapshot s w
  | Boot => discard ResetUnverifiableObservedStates
  | Tick => discard (tick cfg)
  | Consider server now => _consider cfg server now
  end.

Lemma serve_good cfg r : good (serve cfg r).
Proof.
  destruct r; cbn [serve]; unfold discard, StopServer.__call__, RestartServer, SendServerCommand,
    StopServersAssignedToWorker, StateSink.record_observed_state,
    StateSink.mark_worker_servers_unknown, StateSink.clear_held_assignment_on_late_snapshot,
    ResetUnverifiableObservedStates; good.
Qed.

Definition system := (world * list (coroutine unit))%type.

(** The process as it starts, on the tables and the bus it finds. *)
Definition restarted (w : world) (registry : Registry) : world :=
  mkWorld w.(w_db) w.(w_bus) registry ∅ ∅ ∅ ∅ ∅ ∅.

(** One step: a request arrives; a coroutine is resumed with the reply of its
    event; the release a cancelled stop shielded lands; the fleet moves; a final
    snapshot's result is consumed; the process dies.  [lossy]: a commit may land
    though the call that made it raised. *)
Inductive step (cfg : settings) (lossy : bool) : system -> system -> Prop :=
| step_arrive r w l : step cfg lossy (w, l) (w, serve cfg r :: l)
| step_resume c w w' T (ev : event T) k r l1 l2 :
    (c.(c_lost) = true -> lossy = true) ->
    exec c w ev = Some (r, w') ->
    step cfg lossy (w, l1 ++ Vis ev k :: l2) (w', l1 ++ k r :: l2)
| step_shielded c w w' s wk r l :
    (c.(c_lost) = true -> lossy = true) ->
    w.(w_shielded) !! s = Some wk ->
    run_db c w (clear_held s wk) = Some (r, w') ->
    step cfg lossy (w, l) (set_claims w'.(w_claims) (delete s w'.(w_shielded)) w'.(w_outstanding) w', l)
| step_fleet registry w l : step cfg lossy (w, l) (set_registry registry w, l)
| step_settled s w l :
    step cfg lossy (w, l) (set_claims w.(w_claims) w.(w_shielded) (w.(w_outstanding) ∖ {[s]}) w, l)
| step_crash registry w l : step cfg lossy (w, l) (restarted w registry, []).

(** The same rows on both sides, related by [R], each with its new frames. *)
Definition rows_related (R : Server -> Server -> list frame -> uuid -> Prop)
    (w w' : world) : Prop :=
  exists fs, w'.(w_bus) = w.(w_bus) ++ fs /\ forall k,
    match w.(w_db).(servers) !! k, w'.(w_db).(servers) !! k with
    | Some r, Some r' => R r r' fs k
    | None, None => True
    | _, _ => False
    end.

Definition evolves (lossy : bool) : world -> world -> Prop :=
  rows_related (fun r r' fs k =>
    row_step r r' /\ (lossy = false -> apply_frames k fs (view r) = view r')).

Lemma evolves_same lossy w w' :
  w'.(w_db) = w.(w_db) -> w'.(w_bus) = w.(w_bus) -> evolves lossy w w'.
Proof.
  intros Hd Hb. exists []. rewrite app_nil_r. split; [done|]. intros k. rewrite Hd.
  destruct (_ !! k); [|done]. by split; [constructor|].
Qed.

Lemma run_db_evolves {T} lossy c w (m : M (tx sdb) exn T) r w' :
  (c.(c_lost) = true -> lossy = true) -> consistent w -> ok_db m ->
  run_db c w m = Some (r, w') -> evolves lossy w w' /\ consistent w'.
Proof.
  intros Hl [Hi Hs] Hm. unfold run_db. specialize (Hm _ Hi Hs). destruct (uow m _) as [r0 d]. cbn in Hm.
  assert (Hids : ids_ok d.(servers)) by (by eapply db_step_ids).
  destruct (c_fault c) as [e|]; [destruct (fault e); [|done]|].
  - intros [= <- <-]. destruct (c_lost c); [|by split; [apply evolves_same|]].
    split; [|done]. exists []. split; [done|]. intros k. specialize (Hm k). cbn.
    destruct (_ !! k), (d.(servers) !! k); try done. destruct Hm. split; [done|].
    intros Hf. by rewrite Hl in Hf.
  - intros [= <- <-]. split; [|done]. exists d.(staged). split; [done|]. intros k.
    specialize (Hm k). cbn. destruct (_ !! k), (d.(servers) !! k); try done. by destruct Hm.
Qed.

Lemma exec_evolves {T} lossy c w (ev : event T) r w' :
  (c.(c_lost) = true -> lossy = true) -> consistent w -> ok_event T tt ev ->
  exec c w ev = Some (r, w') -> evolves lossy w w' /\ consistent w'.
Proof.
  intros Hl Hw Hev.
  assert (Hsame : forall v, v.(w_db) = w.(w_db) -> v.(w_bus) = w.(w_bus) ->
    evolves lossy w v /\ consistent v).
  { intros v Hd Hb. split; [by apply evolves_same|]. unfold consistent. by rewrite Hd. }
  destruct ev; cbn [exec]; intros H.
  1,2: injection H as <- <-; by apply Hsame.
  - by eapply run_db_evolves.
  - destruct (reg_do _ _ _). injection H as <- <-. by apply Hsame.
  - destruct (refusal_do _ _). injection H as <- <-. by apply Hsame.
  - destruct (memory_do _ _). injection H as <- <-. by apply Hsame.
  - injection H as <- <-. by apply Hsame.
  - destruct (in_flight _ _); injection H as <- <-; by apply Hsame.
  - injection H as <- <-. by apply Hsame.
  - case_bool_decide; [injection H as <- <-; by apply Hsame|].
    eapply run_db_evolves; [done|done|apply clear_held_ok|done].
  - destruct (c_fault c); [destruct (_ || _); [|done]|case_bool_decide; [done|]];
      injection H as <- <-; by apply Hsame.
  - injection H as <- <-. by apply Hsame.
  - destruct (c_fault c) as [e|]; [destruct (fault e); [|done]|destruct (c_answer c q) as [x|e];
      [|destruct (raises q e); [|done]]]; injection H as <- <-; apply Hsame; try done;
      destruct q; try done; destruct e; try done; by destruct upload_may_be_live.
Qed.

(** Every coroutine of the system is [good], and the tables are consistent. *)
Definition invariant (s : system) : Prop := consistent s.1 /\ Forall good s.2.

Lemma step_evolves cfg lossy s s' :
  invariant s -> step cfg lossy s s' -> evolves lossy s.1 s'.1 /\ invariant s'.
Proof.
  intros [Hw Hl] Hs. destruct Hs as [r w l|c w w' T ev k r l1 l2 Hlo He|c w w' s wk r l Hlo Hsh Hr
    |registry w l|s w l|registry w l]; cbn [fst snd] in *.
  - split; [by apply evolves_same|]. split; [done|]. constructor; [apply serve_good|done].
  - apply Forall_app in Hl as [Hl1 [[Hok Hk] Hl2]%Forall_cons].
    destruct (exec_evolves lossy c w ev r w' Hlo Hw Hok He) as [Hev Hw'].
    split; [done|]. split; [done|]. apply Forall_app. split; [done|]. constructor; [|done].
    apply Hk. by exists c, w, w'.
  - destruct (run_db_evolves lossy c w _ r w' Hlo Hw (clear_held_ok s wk) Hr) as [Hev Hw'].
    split; [done|]. by split.
  - split; [by apply evolves_same|]. by split.
  - split; [by apply evolves_same|]. by split.
  - split; [by apply evolves_same|]. by split.
Qed.

Lemma run_invariant cfg lossy s s' : invariant s -> rtc (step cfg lossy) s s' -> invariant s'.
Proof. intros Hi H. induction H as [|s s1 s' Hs _ IH]; [done|]. apply IH. by eapply step_evolves. Qed.

Lemma boot_invariant w : consistent w -> invariant (w, []).
Proof. intros H. by split. Qed.

Definition row (s : system) (k : uuid) : option Server := s.1.(w_db).(servers) !! k.


(** ** What the machine promises *)

(** A row is assigned only when it was unassigned, and to one worker at a time. *)
Lemma row_step_assigned r r' w w' :
  row_step r r' -> r.(s_assigned_worker_id) = Some w -> r'.(s_assigned_worker_id) = Some w' -> w = w'.
Proof. destruct 1; cbn; congruence. Qed.

Lemma step_row cfg lossy s s' k :
  invariant s -> step cfg lossy s s' ->
  match row s k, row s' k with
  | Some r, Some r' => row_step r r'
  | None, None => True
  | _, _ => False
  end.
Proof.
  intros Hi Hstep. destruct (step_evolves _ _ _ _ Hi Hstep) as [(fs & _ & Hk) _].
  specialize (Hk k). unfold row. destruct (_ !! k), (_ !! k); try done. by destruct Hk.
Qed.

(** No second placement over a standing one: between a moment at which a server
    is assigned to one worker and a later one at which it is assigned to another,
    there is a moment at which it is assigned to none. *)
Theorem assignment_never_jumps cfg lossy w0 s1 s2 k r1 r2 w1 w2 :
  consistent w0 -> rtc (step cfg lossy) (w0, []) s1 -> rtc (step cfg lossy) s1 s2 ->
  row s1 k = Some r1 -> row s2 k = Some r2 ->
  r1.(s_assigned_worker_id) = Some w1 -> r2.(s_assigned_worker_id) = Some w2 -> w1 <> w2 ->
  exists s r, rtc (step cfg lossy) s1 s /\ rtc (step cfg lossy) s s2
    /\ row s k = Some r /\ r.(s_assigned_worker_id) = None.
Proof.
  intros H0 Hs1 Hrun. assert (Hi : invariant s1) by (eapply run_invariant; [by apply boot_invariant|done]).
  clear H0 Hs1. revert r1 w1 Hi. induction Hrun as [s|s s' s2 Hs Hrun IH]; intros r1 w1 Hi Hr1 Hr2 Hw1 Hw2 Hne.
  - simplify_eq.
  - pose proof (step_row _ _ _ _ k Hi Hs) as Hk. rewrite Hr1 in Hk.
    destruct (row s' k) as [r|] eqn:Er; [|done].
    destruct (step_evolves _ _ _ _ Hi Hs) as [_ Hi'].
    destruct (r.(s_assigned_worker_id)) as [w|] eqn:Ew.
    + assert (w1 = w) as <- by (by eapply row_step_assigned).
      destruct (IH r w1 Hi' eq_refl Hr2 Ew Hw2 Hne) as (s3 & r3 & ? & ? & ? & ?).
      exists s3, r3. split; [by eapply rtc_l|done].
    + exists s', r. split; [by apply rtc_once|done].
Qed.


(** Reports are ordered and owned: a step that changes a row's observed state or
    its instant either writes a strictly later instant on an assigned row, or
    invalidates an assigned row to [UNKNOWN]. *)
Lemma row_step_observed r r' :
  row_step r r' -> r'.(s_observed_at) <> r.(s_observed_at) \/ r'.(s_observed_state) <> r.(s_observed_state) ->
  exists w t, r.(s_assigned_worker_id) = Some w /\ r'.(s_observed_at) = Some t
    /\ (older r t \/ r'.(s_observed_state) = UNKNOWN).
Proof.
  destruct 1; cbn; intros [Hne|Hne]; try done; exists w, t; auto.
Qed.
