(* ===== verification/StartSafety.v ===== *)
(** * What every run of a start guarantees

    Properties of all the runs of the start coroutines, whatever fails, is
    cancelled or interleaves: the placement reservation is always settled, and
    once the Worker may have applied a start nothing undoes the intent or sends
    another. *)
From Stdlib Require Import ZArith NArith Lia String.
From stdpp Require Import base gmap strings list fin_maps.
From S2P Require Import Prelude Uow Uuid Calendar Retention Registry ControlPlane Program ServerRow Backoff LifecycleSeam Lifecycle Reconciler LifecycleInv.

Open Scope Z_scope.

(** ** Reservations *)

(** The reservations a run has taken and neither confirmed nor released. *)
Definition reservation_next (T : Type) (q : list (uuid * uuid)) (ev : event T) (r : result exn T)
    : list (uuid * uuid) :=
  match ev in event T return result exn T -> list (uuid * uuid) with
  | Reg op =>
      match op in reg_op T return result exn T -> list (uuid * uuid) with
      | Place s _ _ => fun r => match r with Ok (Some w) => (w, s) :: q | _ => q end
      | Increment w s => fun r => match r with Ok _ => list_difference q [(w, s)] | Err _ => q end
      | ReleaseReservation w s => fun _ => list_difference q [(w, s)]
      | _ => fun _ => q
      end
  | _ => fun _ => q
  end r.

Definition open_reservations (tr : trace) : list (uuid * uuid) := follow reservation_next [] tr.

Abbreviation settles := (keeps (@may_reply) (fun _ _ _ => True) reservation_next []).

Ltac settles_leaf := first [ exact I | done | solve [eauto with settles] ].
Ltac settles := repeat keep_step settles_leaf.
Create HintDb settles.

Lemma settled_one (w s : uuid) : list_difference [(w, s)] [(w, s)] = [].
Proof. cbn. destruct (decide_rel _ _ _) as [|Hn]; [done|]. exfalso. apply Hn. set_solver. Qed.

Lemma load_reply c s server : may_reply (Db (_load c s)) (Ok server) -> server.(s_id) = s.
Proof.
  intros (ch & w & w' & [Hi _] & H). cbn in H. unfold run_db in H.
  destruct (load_run c s (Tx w.(w_db) w.(w_db))) as (res & Hl & Hres).
  unfold uow in H. rewrite Hl in H.
  destruct (c_fault ch); [by destruct (fault _)|]. injection H as -> _.
  apply (Hi s). by apply Hres.
Qed.

Lemma place_and_commit_settles server s from owed jar :
  server.(s_id) = s -> settles (StartServer.place_and_commit server s from owed jar).
Proof.
  intros Hs. unfold StartServer.place_and_commit, StartServer._place. apply safe_bind.
  apply safe_bind. apply safe_call; [done|]. intros [assigned|e] _; [|done].
  apply safe_bind, safe_pure. destruct (committed_resources_by_worker _) as [cm|e]; [|done].
  apply safe_bind, safe_pure. destruct (memory_limit_from_config _ _) as [mem|e]; [|done].
  apply safe_call; [done|]. intros [[w|]|e] _; [|done..]. cbn [reservation_next]. rewrite Hs.
  apply safe_bind, safe_call; [done|]. intros [now|e] (ch & ? & ? & _ & Hr); [|done].
  apply safe_bind, safe_try. apply safe_bind. apply safe_call; [done|]. intros [u|e] _.
  - apply safe_call; [done|]. intros [u2|e] _.
    + apply settled_one.
    + split; [done|]. intros [u3|e3] _; apply settled_one.
  - split; [done|]. intros [u3|e3] _; apply settled_one.
Qed.
#[export] Hint Resolve place_and_commit_settles : settles.

Lemma marks_settle c s owed : settles (StartServer.regenerate_marks c s owed).
Proof. induction owed as [|mark owed IH]; cbn [StartServer.regenerate_marks]; settles. Qed.
#[export] Hint Resolve marks_settle : settles.

Lemma regenerate_settles c s : settles (StartServer.regenerate_pending_group_files c s).
Proof. unfold StartServer.regenerate_pending_group_files. settles. Qed.
#[export] Hint Resolve regenerate_settles : settles.

Lemma flip_settles c s eula : settles (StartServer.flip c s eula).
Proof.
  unfold StartServer.flip, StartServer._check_eula, StartServer._ensure_jar.
  apply keeps_bind_call; [done|done|]. intros server Hs%load_reply.
  settles.
Qed.

Lemma replace_settles c s : settles (StartServer.replace c s).
Proof.
  unfold StartServer.replace, StartServer._ensure_jar.
  apply keeps_bind_call; [done|done|]. intros server Hs%load_reply.
  settles.
Qed.

Lemma launch_settles c s server w skip : settles (StartServer._launch server c s w skip).
Proof.
  unfold StartServer._launch, StartServer.hydrate_then_start, StartServer.hydrate_leg,
    StartServer._generation_before_hydrate, StartServer.start_leg. settles.
Qed.
#[export] Hint Resolve flip_settles replace_settles launch_settles : settles.

Lemma start_settles c s eula : settles (StartServer.__call__ c s eula).
Proof. unfold StartServer.__call__, StartServer._compensate, StartServer.converge_running. settles. Qed.

Lemma place_and_start_settles c s : settles (StartServer.place_and_start c s).
Proof. unfold StartServer.place_and_start, StartServer._unassign. settles. Qed.

Lemma redispatch_start_settles c s g : settles (StartServer.redispatch_start c s g).
Proof. unfold StartServer.redispatch_start, StartServer.converge_running. settles. Qed.

Lemma stop_settles c s force : settles (StopServer._stop c s force).
Proof.
  unfold StopServer._stop, stopped_intent_action, StopServer._redispatch_stop,
    StopServer._clear_stale_assignment, StopServer.dispatch_stop,
    StopServer._release_after_final_snapshot, StopServer._record_stopped_then_final_snapshot,
    StopServer._clear_held_assignment, StopServer._final_snapshot. settles.
Qed.

Lemma redispatch_stop_settles c s force : settles (StopServer._redispatch_stop c s force).
Proof.
  unfold StopServer._redispatch_stop, StopServer.dispatch_stop,
    StopServer._release_after_final_snapshot, StopServer._record_stopped_then_final_snapshot,
    StopServer._clear_held_assignment, StopServer._final_snapshot. settles.
Qed.

Lemma clear_stale_settles c s : settles (StopServer._clear_stale_assignment c s).
Proof. unfold StopServer._clear_stale_assignment, StopServer._final_snapshot. settles. Qed.
#[export] Hint Resolve start_settles place_and_start_settles redispatch_start_settles stop_settles
  redispatch_stop_settles clear_stale_settles : settles.

Lemma serve_settles cfg r : settles (serve cfg r).
Proof.
  destruct r; cbn [serve]; unfold discard, StopServer.__call__, RestartServer, SendServerCommand,
    StopServersAssignedToWorker, StateSink.record_observed_state,
    StateSink.mark_worker_servers_unknown, StateSink.clear_held_assignment_on_late_snapshot,
    StopServer.clear_assignment_after_late_snapshot, ResetUnverifiableObservedStates, tick,
    _consider, _action_for, stopped_intent_action, _grace_for, _previous_stop_refused,
    start_grace, _run, _dispatch, fail, StopServer.redispatch_stop, StopServer.clear_stale_assignment;
    settles.
Qed.

(** C10: No placement slot leaks: in every run of every lifecycle operation, each
    reservation a placement took is confirmed or released by the time the
    operation leaves, however it leaves: a lost compare-and-set, a database or
    Storage failure, a commit of unknown outcome, a cancelled request. *)
Theorem reservations_always_settle cfg r tr res :
  runs_as (serve cfg r) tr res -> open_reservations tr = [].
Proof.
  intros H. exact (proj2 (safe_runs _ _ _ _ _ _ _ _ (serve_settles cfg r) H)).
Qed.

(** ** Starts that may have been applied *)

(** The Worker may be running the instance: it said so, or refused because it is
    busy, or no answer came back. *)
Definition uncertain (r : result exn CommandOutcome) : bool :=
  match r with
  | Ok outcome => bool_decide (outcome.(co_status) ∈ [S_OK; INVALID_STATE; BUSY])
  | Err _ => true
  end.

Definition start_next (T : Type) (q : bool) (ev : event T) (r : result exn T) : bool :=
  match ev in event T return result exn T -> bool with
  | Ask qr =>
      match qr return result exn (answer qr) -> bool with
      | Start _ _ _ _ _ _ _ => uncertain
      | _ => fun _ => q
      end
  | _ => fun _ => q
  end r.

(** The transaction leaves every row's intent and assignment alone. *)
Definition keeps_intent {T} (m : M (tx sdb) exn T) : Prop :=
  forall d k r, ids_ok d.(servers) -> d.(staged) = [] -> d.(servers) !! k = Some r ->
    exists r', (uow m d).2.(servers) !! k = Some r'
      /\ r'.(s_desired_state) = r.(s_desired_state)
      /\ r'.(s_assigned_worker_id) = r.(s_assigned_worker_id).

(** Allowed once a start may have been applied. *)
Definition respects_start {T} (ev : event T) : Prop :=
  match ev with
  | Db m => keeps_intent m
  | Shield _ _ => False
  | Ask (Start _ _ _ _ _ _ _) => False
  | _ => True
  end.

Definition start_ok (T : Type) (q : bool) (ev : event T) : Prop := q = true -> respects_start ev.

Ltac start_leaf := first [ intros ?; done | done | solve [eauto with start_safe] ].
Ltac start_safe := repeat keep_step start_leaf.
Create HintDb start_safe.

Abbreviation unsent := (keeps (@may_reply) start_ok start_next false).

Lemma marks_unsent c s owed : unsent (StartServer.regenerate_marks c s owed).
Proof. induction owed as [|mark owed IH]; cbn [StartServer.regenerate_marks]; start_safe. Qed.
#[export] Hint Resolve marks_unsent : start_safe.

Lemma place_and_commit_unsent server s from owed jar :
  unsent (StartServer.place_and_commit server s from owed jar).
Proof. unfold StartServer.place_and_commit, StartServer._place. start_safe. Qed.
#[export] Hint Resolve place_and_commit_unsent : start_safe.

Lemma flip_unsent c s eula : unsent (StartServer.flip c s eula).
Proof.
  unfold StartServer.flip, StartServer._check_eula, StartServer._ensure_jar,
    StartServer.regenerate_pending_group_files. start_safe.
Qed.

Lemma replace_unsent c s : unsent (StartServer.replace c s).
Proof.
  unfold StartServer.replace, StartServer._ensure_jar,
    StartServer.regenerate_pending_group_files. start_safe.
Qed.

Lemma compensate_unsent c s w : unsent (StartServer._compensate c s w).
Proof. unfold StartServer._compensate. start_safe. Qed.

Lemma unassign_unsent c s w : unsent (StartServer._unassign c s w).
Proof. unfold StartServer._unassign. start_safe. Qed.

Lemma hydrate_leg_unsent c s w : unsent (StartServer.hydrate_leg c s w).
Proof. unfold StartServer.hydrate_leg, StartServer._generation_before_hydrate. start_safe. Qed.
#[export] Hint Resolve flip_unsent replace_unsent compensate_unsent unassign_unsent
  hydrate_leg_unsent : start_safe.

(** How a launch leaves: a start that may have been applied is what it reports,
    with the marker set. *)
Definition launch_post (r : result exn StartServer.launched) (q : bool) : Prop :=
  exists attempted out, r = Ok (attempted, out) /\
    (q = true -> attempted = true /\ uncertain out = true).

Abbreviation starts := (safe (@may_reply) start_ok start_next).

Lemma start_leg_starts server s w (k : CommandOutcome -> coroutine StartServer.launched) :
  (forall outcome, uncertain (Ok outcome) = true -> starts (k outcome) true launch_post) ->
  (forall outcome, uncertain (Ok outcome) = false -> starts (k outcome) false launch_post) ->
  starts (StartServer.marked true (StartServer.start_leg server s w) k) false launch_post.
Proof.
  intros Hk1 Hk2. unfold StartServer.marked, StartServer.start_leg.
  apply safe_bind, safe_attempt, safe_bind, safe_pure.
  destruct (memory_limit_from_config _ _) as [mem|e]; [|by eexists _, _].
  apply safe_bind, safe_pure. destruct (cpu_allocation_from_config _) as [cpu|e]; [|by eexists _, _].
  apply safe_call; [done|]. intros [outcome|e] _; cbn [start_next]; [|by eexists _, _].
  destruct (uncertain (Ok outcome)) eqn:E; [by apply Hk1|by apply Hk2].
Qed.

Lemma hydrate_then_start_starts server c s w b :
  starts (StartServer.hydrate_then_start server c s w b) false launch_post.
Proof.
  unfold StartServer.hydrate_then_start. unfold StartServer.marked at 1.
  apply safe_bind, safe_attempt. eapply safe_mono; [apply hydrate_leg_unsent|].
  intros [[hydrate|]|e] q ->; cbn; [by eexists _, _| |by eexists _, _].
  apply start_leg_starts; intros outcome Ho; by eexists _, _.
Qed.

Lemma absent_not_uncertain outcome :
  is_working_set_absent_refusal outcome = true -> uncertain (Ok outcome) = false.
Proof.
  unfold is_working_set_absent_refusal. intros [H%bool_decide_eq_true _]%andb_true_iff.
  cbn. rewrite H. done.
Qed.

Lemma launch_starts server c s w skip :
  starts (StartServer._launch server c s w skip) false launch_post.
Proof.
  unfold StartServer._launch. destruct skip; [|apply hydrate_then_start_starts].
  apply start_leg_starts; intros outcome Ho; destruct (is_working_set_absent_refusal outcome) eqn:E.
  - by rewrite (absent_not_uncertain _ E) in Ho.
  - by eexists _, _.
  - apply hydrate_then_start_starts.
  - by eexists _, _.
Qed.

Lemma observed_keeps_intent s o t w : keeps_intent (record_observed s o t false w).
Proof.
  intros d k r Hi Hs Hk. unfold record_observed, record_observed_state. tx_run.
  match goal with |- context [_write_observed_state ?p _ _ _ _ _ _ d] =>
    pose proof (write_observed_lookup p o t false "" "" None d k) as Hl end.
  destruct (_write_observed_state _ _ _ _ _ _ _ d) as [res d'] eqn:E.
  injection E as <- <-. cbn [fst snd work durable] in *. rewrite Hl, Hk. cbn.
  eexists. split; [done|]. by destruct (_ && _).
Qed.

Lemma converge_running_starts server s w q :
  starts (StartServer.converge_running server s w) q (fun _ _ => True).
Proof.
  unfold StartServer.converge_running. apply safe_bind, safe_call; [by intros _|].
  intros [t|e] _; [|done]. apply safe_bind, safe_call; [intros _; apply observed_keeps_intent|].
  intros [[]|e] _; [|done..]. apply safe_bind, safe_call; [by intros _|]. by intros [] _.
Qed.

(** What comes after a launch: an undo only when no start may have been applied. *)
Lemma after_launch {A} server c s w skip (k : bool -> result exn CommandOutcome -> coroutine A) :
  (forall attempted out, starts (k attempted out) false (fun _ _ => True)) ->
  (forall out, uncertain out = true -> starts (k true out) true (fun _ _ => True)) ->
  starts ('(attempted, out) ← StartServer._launch server c s w skip; k attempted out) false
    (fun _ _ => True).
Proof.
  intros Hk1 Hk2. apply safe_bind. eapply safe_mono; [apply launch_starts|].
  intros r q (attempted & out & -> & Hq). destruct q; [|apply Hk1].
  destruct (Hq eq_refl) as [-> Hu]. by apply Hk2.
Qed.

Lemma unsent_starts {A} (p : coroutine A) : unsent p -> starts p false (fun _ _ => True).
Proof. intros H. by eapply safe_mono. Qed.

Lemma then_starts {A B} (p : coroutine A) (f : A -> coroutine B) :
  unsent p -> (forall a, starts (f a) false (fun _ _ => True)) ->
  starts (mbind f p) false (fun _ _ => True).
Proof.
  intros Hp Hf. apply safe_bind. eapply safe_mono; [exact Hp|]. intros [a|e] q ->; [apply Hf|done].
Qed.

Lemma start_starts c s eula : starts (StartServer.__call__ c s eula) false (fun _ _ => True).
Proof.
  unfold StartServer.__call__. apply then_starts; [start_safe|]. intros [server w].
  apply then_starts; [start_safe|]. intros skip. apply after_launch.
  - intros attempted [outcome|e].
    + destruct (success outcome); [done|]. destruct (_ && _); [apply converge_running_starts|].
      destruct (_ && _); [done|]. apply unsent_starts. start_safe.
    + apply unsent_starts. start_safe.
  - intros [outcome|e] Hu.
    + cbn in Hu. apply bool_decide_eq_true in Hu. unfold success.
      case_bool_decide; [done|]. cbn [andb]. case_bool_decide; [apply converge_running_starts|].
      case_bool_decide; [done|]. exfalso. set_solver.
    + by destruct e.
Qed.

Lemma place_and_start_starts c s : starts (StartServer.place_and_start c s) false (fun _ _ => True).
Proof.
  unfold StartServer.place_and_start. apply then_starts; [start_safe|]. intros [server w].
  apply after_launch.
  - intros attempted out. apply unsent_starts. start_safe.
  - intros [outcome|e] _; [by destruct (success outcome)|by destruct e].
Qed.

Lemma redispatch_start_starts c s g :
  starts (StartServer.redispatch_start c s g) false (fun _ _ => True).
Proof.
  unfold StartServer.redispatch_start. apply then_starts; [start_safe|]. intros [server w].
  apply then_starts; [start_safe|]. intros held. apply then_starts; [start_safe|]. intros store.
  apply safe_bind. eapply safe_mono; [apply launch_starts|].
  intros r q (attempted & out & -> & _). destruct out as [outcome|e]; [|done].
  destruct (success outcome); [done|]. case_bool_decide; [apply converge_running_starts|done].
Qed.

(** The three coroutines that send starts. *)
Inductive start_flow : coroutine Server -> Prop :=
| flow_call c s eula : start_flow (StartServer.__call__ c s eula)
| flow_place c s : start_flow (StartServer.place_and_start c s)
| flow_redispatch c s g : start_flow (StartServer.redispatch_start c s g).

Lemma respects_after (tr : trace) :
  allowed start_ok start_next true tr -> Forall (fun l => respects_start l.(l_event)) tr.
Proof.
  induction tr as [|[T ev r] tr IH]; [constructor|]. intros [Hok Ha]. cbn in *.
  specialize (Hok eq_refl). constructor; [done|]. apply IH.
  destruct ev; try exact Ha. by destruct q.
Qed.

(** C2: Assignment stickiness: in any run of a start flow (the operator's start, the
    reconciler's placement of an orphan, its replay of a start), once the Worker
    answered a start with success, [INVALID_STATE] or [BUSY], or did not answer,
    no later transaction of the flow touches any row's intent or assignment, and
    no other start is sent. *)
Theorem applied_starts_stick p tr1 tr2 res w s ty jar v mem cpu r :
  start_flow p ->
  runs_as p (tr1 ++ Label _ (Ask (Start w s ty jar v mem cpu)) r :: tr2) res ->
  uncertain r = true ->
  Forall (fun l => respects_start l.(l_event)) tr2.
Proof.
  intros Hf Hr Hu.
  assert (Hp : starts p false (fun _ _ => True)).
  { destruct Hf; [apply start_starts|apply place_and_start_starts|apply redispatch_start_starts]. }
  destruct (safe_runs _ _ _ _ _ _ _ _ Hp Hr) as [Ha _].
  apply allowed_app in Ha as [_ Ha]. destruct Ha as [_ Ha]. cbn [l_event l_reply start_next] in Ha.
  rewrite Hu in Ha. by apply respects_after.
Qed.
