(* ===== verification/Convergence.v ===== *)
(** * Convergence of stopped intents

    The actions the reconciler and an operator's stop choose for a row whose
    intent is [stopped] settle it: run without interference, with a Worker that
    answers, they end with the row at rest and unassigned.  [alone] is total
    correctness of a coroutine run to its end: it never blocks, and however the
    admissible choices fall it ends as said. *)
From Stdlib Require Import ZArith NArith Lia String.
From stdpp Require Import base gmap strings list fin_maps.
From S2P Require Import Prelude Uow Uuid Calendar Retention Registry ControlPlane Program ServerRow Backoff LifecycleSeam Lifecycle Reconciler LifecycleInv.

Open Scope Z_scope.

Section Alone.
Context (fair : choice -> Prop).

Fixpoint alone {A} (p : coroutine A) (w : world) (post : result exn A -> world -> Prop) : Prop :=
  match p with
  | Ret a => post (Ok a) w
  | Raise e => post (Err e) w
  | Vis ev k =>
      (exists c r w', fair c /\ exec c w ev = Some (r, w'))
      /\ forall c r w', fair c -> exec c w ev = Some (r, w') -> alone (k r) w' post
  end.

Lemma alone_mono {A} (p : coroutine A) w (post post' : result exn A -> world -> Prop) :
  alone p w post -> (forall r w', post r w' -> post' r w') -> alone p w post'.
Proof.
  revert w. induction p as [a|e|T ev k IH]; intros w H Hp; simpl in *; [auto..|].
  destruct H as [He Hk]. split; [done|]. intros c r w' Hc Hx. by eapply IH; [eapply Hk|].
Qed.

Lemma alone_bind {A B} (p : coroutine A) (f : A -> coroutine B) w post :
  alone p w (fun r w' => match r with Ok a => alone (f a) w' post | Err e => post (Err e) w' end) ->
  alone (mbind f p) w post.
Proof.
  unfold mbind, prog_mbind. revert w. induction p as [a|e|T ev k IH]; intros w H; simpl in *; [done..|].
  destruct H as [He Hk]. split; [done|]. intros c r w' Hc Hx. by eapply IH, Hk.
Qed.

Lemma alone_try {A} (p : coroutine A) h w post :
  alone p w (fun r w' => match r with Ok a => post (Ok a) w' | Err e => alone (h e) w' post end) ->
  alone (try_ p h) w post.
Proof.
  revert w. induction p as [a|e|T ev k IH]; intros w H; simpl in *; [done..|].
  destruct H as [He Hk]. split; [done|]. intros c r w' Hc Hx. by eapply IH, Hk.
Qed.

Lemma alone_attempt {A} (p : coroutine A) w post :
  alone p w (fun r w' => post (Ok r) w') -> alone (attempt p) w post.
Proof.
  revert w. induction p as [a|e|T ev k IH]; intros w H; simpl in *; [done..|].
  destruct H as [He Hk]. split; [done|]. intros c r w' Hc Hx. by eapply IH, Hk.
Qed.

Lemma alone_call {T} (ev : event T) w post :
  (exists c r w', fair c /\ exec c w ev = Some (r, w')) ->
  (forall c r w', fair c -> exec c w ev = Some (r, w') -> post r w') ->
  alone (call ev) w post.
Proof.
  intros He Hk. split; [done|]. intros c r w' Hc Hx. specialize (Hk c r w' Hc Hx). by destruct r.
Qed.
End Alone.

(** ** Answers that let a stop finish *)

(** No failure or cancellation; a clock
    between [t0] and [t1]; a Worker that stops the server
    or no longer has it, and answers the final snapshot whatever it made of it,
    or is gone. *)
Record answers_stops (t0 t1 : datetime) (c : choice) : Prop := {
  as_fault : c.(c_fault) = None;
  as_now : forall n, t0 < c.(c_now) n <= t1;
  as_stop w s force : exists o, c.(c_answer) (Stop w s force) = Ok o
    /\ (o.(co_status) = S_OK \/ o.(co_status) = SERVER_NOT_FOUND);
  as_snapshot w k s : (exists o, c.(c_answer) (Snapshot w k s) = Ok o)
    \/ c.(c_answer) (Snapshot w k s) = Err (WorkerUnavailableError false);
  as_sync s w p b : c.(c_answer) (SyncObserved s w p b) = Ok tt
}.

(** One admissible choice. *)
Definition plain_outcome : CommandOutcome :=
  {| co_status := S_OK; co_message := ""; co_output := ""; co_held_generation := None |}.

Definition plain_answer (q : query) : result exn (answer q) :=
  match q return result exn (answer q) with
  | ReadFile _ _ _ => Ok "eula=true"%string
  | WriteFile _ _ _ _ => Ok tt
  | GroupFile _ _ => Ok ""%string
  | EnsureJar _ _ _ _ => Ok {| pj_key := "jar"; pj_source := None |}
  | CurrentGeneration _ _ => Ok 0
  | SyncObserved _ _ _ _ => Ok tt
  | Hydrate _ _ _ | Start _ _ _ _ _ _ _ | Stop _ _ _ | Snapshot _ _ _ | Restart _ _
  | Command _ _ _ => Ok plain_outcome
  end.

Definition plain (t : datetime) : choice :=
  {| c_now := fun _ => t; c_fault := None; c_lost := false; c_answer := plain_answer |}.

Lemma plain_answers t0 t1 : t0 < t1 -> answers_stops t0 t1 (plain (t0 + 1)).
Proof.
  intros Hlt. split; cbn; [done|intros; lia|intros; eexists; by split; [|left]|intros; left; by eexists|done].
Qed.

(** Memberships among the observed states. *)
Ltac states := set_unfold; intuition congruence.

Section Settling.
Context (t0 t1 : datetime) (Hlt : t0 < t1) (s wk : uuid) (reg : Registry) (connected : bool).
Context (Hconn : forall t, t0 < t <= t1 -> is_worker_connected reg t wk = Some connected).

Abbreviation runs_out := (alone (answers_stops t0 t1)).

(** The state a convergence works on: server [s] is [row], and nothing has moved
    the registry. *)
Definition at_row (row : Server) (w : world) : Prop :=
  consistent w /\ w.(w_db).(servers) !! s = Some row /\ w.(w_registry) = reg.

Lemma out_now w post : (forall t, t0 < t <= t1 -> post (Ok t) w) -> runs_out (call Now) w post.
Proof.
  intros H. apply alone_call.
  - eexists _, _, _. split; [by apply plain_answers|done].
  - intros c r w' Hc [= <- <-]. apply H, (as_now _ _ _ Hc).
Qed.

Lemma out_db {T} (m : M (tx sdb) exn T) w r d post :
  uow m w.(w_db) = (r, d) -> post r (set_db d d.(staged) w) -> runs_out (call (Db m)) w post.
Proof.
  intros Hm Hp. assert (Hx : forall c, answers_stops t0 t1 c -> exec c w (Db m) = Some (r, set_db d d.(staged) w)).
  { intros c Hc. cbn. unfold run_db. by rewrite Hm, (as_fault _ _ _ Hc). }
  apply alone_call.
  - eexists _, _, _. split; [by apply plain_answers|]. by apply Hx, plain_answers.
  - intros c r' w' Hc H. rewrite Hx in H by done. by injection H as <- <-.
Qed.

Lemma out_shield w r d post :
  uow (clear_held s wk) w.(w_db) = (r, d) -> post r (set_db d d.(staged) w) ->
  runs_out (call (Shield s wk)) w post.
Proof.
  intros Hm Hp. assert (Hx : forall c, answers_stops t0 t1 c -> exec c w (Shield s wk) = Some (r, set_db d d.(staged) w)).
  { intros c Hc. cbn. unfold run_db. by rewrite Hm, (as_fault _ _ _ Hc). }
  apply alone_call.
  - eexists _, _, _. split; [by apply plain_answers|]. by apply Hx, plain_answers.
  - intros c r' w' Hc H. rewrite Hx in H by done. by injection H as <- <-.
Qed.

Lemma set_registry_same w : set_registry w.(w_registry) w = w.
Proof. by destruct w. Qed.

Lemma out_connected w post : w.(w_registry) = reg -> post (Ok connected) w ->
  runs_out (call (Reg (IsConnected wk))) w post.
Proof.
  intros Hr Hp.
  assert (Hx : forall c, answers_stops t0 t1 c -> exec c w (Reg (IsConnected wk)) = Some (Ok connected, w)).
  { intros c Hc. cbn. rewrite Hr, Hconn by apply (as_now _ _ _ Hc). by rewrite <- Hr, set_registry_same. }
  apply alone_call.
  - eexists _, _, _. split; [by apply plain_answers|]. by apply Hx, plain_answers.
  - intros c r' w' Hc H. rewrite Hx in H by done. by injection H as <- <-.
Qed.

Lemma out_refusal {T} (op : refusal_op T) w post :
  post (Ok (refusal_do op w.(w_refused_at)).1) (set_refused (refusal_do op w.(w_refused_at)).2 w) ->
  runs_out (call (Refusals op)) w post.
Proof.
  intros Hp. apply alone_call.
  - exists (plain (t0 + 1)). cbn. destruct (refusal_do _ _). eexists _, _. by split; [by apply plain_answers|].
  - intros c r' w' Hc. cbn. destruct (refusal_do _ _). by intros [= <- <-].
Qed.

Lemma out_stop w force post :
  (forall o, o.(co_status) = S_OK \/ o.(co_status) = SERVER_NOT_FOUND -> post (Ok o) w) ->
  runs_out (call (Ask (Stop wk s force))) w post.
Proof.
  intros Hp. apply alone_call.
  - eexists _, _, _. split; [by apply plain_answers|done].
  - intros c r w' Hc. cbn. rewrite (as_fault _ _ _ Hc).
    destruct (as_stop _ _ _ Hc wk s force) as (o & -> & Ho). intros [= <- <-]. by apply Hp.
Qed.

Lemma out_sync p b w post : post (Ok tt) w -> runs_out (call (Ask (SyncObserved s wk p b))) w post.
Proof.
  intros Hp. apply alone_call.
  - eexists _, _, _. split; [by apply plain_answers|done].
  - intros c r w' Hc. cbn. rewrite (as_fault _ _ _ Hc), (as_sync _ _ _ Hc). by intros [= <- <-].
Qed.

Lemma out_final_snapshot k w post : post (Ok false) w ->
  runs_out (StopServer._final_snapshot wk k s) w post.
Proof.
  intros Hp. unfold StopServer._final_snapshot. apply alone_try, alone_bind, alone_call.
  - eexists _, _, _. split; [by apply plain_answers|done].
  - intros c r w' Hc. cbn. rewrite (as_fault _ _ _ Hc).
    destruct (as_snapshot _ _ _ Hc wk k s) as [(o & ->)| ->]; by intros [= <- <-].
Qed.

(** *** The writes of a convergence on its row *)

Lemma at_row_db {T} (m : M (tx sdb) exn T) row w r d row' fs :
  at_row row w -> ok_db m -> uow m w.(w_db) = (r, d) -> d.(servers) !! s = Some row' ->
  at_row row' (set_db d fs w).
Proof.
  intros ([Hi Hs] & Hrow & Hreg) Hm Hu Hr. specialize (Hm _ Hi Hs). rewrite Hu in Hm.
  split; [split; [exact (db_step_ids _ _ Hm Hi)|done]|by split].
Qed.

Lemma own_write row w o t unassign :
  at_row row w -> row.(s_assigned_worker_id) = Some wk ->
  match row.(s_observed_at) with None => True | Some seen => seen < t end ->
  exists d, uow (record_observed s o t unassign wk) w.(w_db) = (Ok true, d)
    /\ d.(servers) !! s = Some (if unassign : bool then set_assigned None (set_observed o (Some t) row)
                               else set_observed o (Some t) row).
Proof.
  intros ([Hi Hs] & Hrow & _) Hwk Ht. unfold record_observed, record_observed_state. tx_run.
  match goal with |- context [_write_observed_state ?p _ _ _ _ _ _ _] =>
    pose proof (write_observed_lookup p o t unassign "" "" None w.(w_db) s) as Hl;
    assert (Hp : p row = true);
    [|assert (Hf : filter (fun kv : uuid * Server => p kv.2 = true) w.(w_db).(servers) = {[s := row]})] end.
  - rewrite (Hi _ _ Hrow), Hwk, !bool_decide_eq_true_2 by done. rewrite andb_true_r. cbn.
    destruct (s_observed_at row); [by apply Z.ltb_lt|done].
  - apply map_eq. intros k. rewrite map_lookup_filter. destruct (decide (k = s)) as [->|Hne].
    + rewrite Hrow, lookup_singleton_eq. cbn. by rewrite option_guard_True.
    + rewrite lookup_singleton_ne by done. destruct (_ !! k) as [r|] eqn:Er; [|done]. cbn.
      rewrite option_guard_False; [done|]. intros Hc. apply andb_true_iff in Hc as [Hc _].
      apply andb_true_iff in Hc as [Hc _]. apply bool_decide_eq_true in Hc.
      by rewrite (Hi _ _ Er) in Hc.
  - rewrite Hrow in Hl. cbn [fmap option_fmap option_map] in Hl. rewrite Hp in Hl.
    unfold _write_observed_state in *. cbn [fst snd work durable] in *. rewrite Hf in *.
    rewrite map_size_singleton. eexists. split; [done|]. exact Hl.
Qed.

Lemma own_clear row w :
  at_row row w -> row.(s_assigned_worker_id) = Some wk -> row.(s_desired_state) = D_STOPPED ->
  exists d, uow (clear_held s wk) w.(w_db) = (Ok true, d)
    /\ d.(servers) !! s = Some (set_assigned None row).
Proof.
  intros (_ & Hrow & _) Hwk Hd. unfold clear_held, clear_assignment_after_final_snapshot. tx_run.
  rewrite Hrow, Hwk, Hd, !bool_decide_eq_true_2 by done. cbn [andb]. eexists. split; [done|].
  cbn. by rewrite lookup_insert_eq.
Qed.

(** *** The flows *)

Context (c : uuid) (row : Server).
Context (Hcomm : row.(s_community_id) = c) (Hdes : row.(s_desired_state) = D_STOPPED)
  (Hwk : row.(s_assigned_worker_id) = Some wk)
  (Hold : match row.(s_observed_at) with None => True | Some seen => seen <= t0 end).

(** The coroutine returned and its row is converged. *)
Definition settled_post {A} (res : result exn A) (w : world) : Prop :=
  is_ok res = true /\
  exists row', w.(w_db).(servers) !! s = Some row' /\ _is_settled row' = true.

Lemma older_than t : t0 < t <= t1 -> match row.(s_observed_at) with None => True | Some seen => seen < t end.
Proof. clear -Hold. destruct (s_observed_at row); [lia|done]. Qed.

Lemma released_settled o at_ :
  o ∈ [STOPPED; UNKNOWN; CRASHED] -> _is_settled (set_assigned None (set_observed o at_ row)) = true.
Proof.
  intros Ho. unfold _is_settled, is_at_rest. cbn. rewrite Hdes.
  by rewrite !bool_decide_eq_true_2.
Qed.

Lemma out_load w post : at_row row w -> post (Ok (row, wk)) w ->
  runs_out (call (Db (load_assigned c s D_STOPPED))) w post.
Proof.
  intros ([Hi Hs] & Hrow & Hreg) Hp. apply (out_db _ w (Ok (row, wk)) w.(w_db)).
  - unfold load_assigned, _load. tx_run. rewrite Hrow, Hcomm, bool_decide_eq_true_2 by done.
    rewrite Hwk, Hdes, bool_decide_eq_true_2 by done. done.
  - rewrite Hs. replace (set_db _ [] w) with w; [done|]. destruct w as [[sv sp st] bus]. cbn in *.
    unfold set_db. cbn. by rewrite Hs, app_nil_r.
Qed.

(** The shielded release of a row whose process is gone. *)
Lemma out_release row1 server w :
  at_row row1 w -> row1.(s_assigned_worker_id) = Some wk -> row1.(s_desired_state) = D_STOPPED ->
  _is_settled (set_assigned None row1) = true ->
  runs_out (StopServer._clear_held_assignment server wk s) w settled_post.
Proof.
  intros Hat Hw1 Hd1 Hset. destruct (own_clear row1 w Hat Hw1 Hd1) as (d & Hu & Hd).
  unfold StopServer._clear_held_assignment. apply alone_bind. eapply out_shield; [exact Hu|].
  split; [done|]. by exists (set_assigned None row1).
Qed.

Lemma out_stopped_then_release server k w :
  at_row row w ->
  runs_out (StopServer._record_stopped_then_final_snapshot server wk k s) w settled_post.
Proof.
  intros Hat. unfold StopServer._record_stopped_then_final_snapshot.
  apply alone_bind, out_now. intros t Ht.
  destruct (own_write row w STOPPED t false Hat Hwk (older_than t Ht)) as (d & Hu & Hd).
  apply alone_bind. eapply out_db; [exact Hu|].
  pose proof (at_row_db _ _ _ _ _ _ d.(staged) Hat (observed_ok s STOPPED t wk) Hu Hd) as Hat1.
  apply alone_bind, out_sync, alone_bind, out_final_snapshot.
  eapply out_release; [exact Hat1|done|done|]. apply released_settled; states.
Qed.

Lemma out_release_after_snapshot server k w :
  at_row row w ->
  runs_out (StopServer._release_after_final_snapshot server wk k s) w settled_post.
Proof.
  intros Hat. unfold StopServer._release_after_final_snapshot.
  apply alone_bind, out_now. intros t Ht. apply alone_bind.
  destruct (decide (row.(s_observed_state) = CRASHED)) as [Hc|Hc].
  - eapply out_db.
    { unfold StopServer.record_unless_crashed. tx_run. destruct Hat as (_ & -> & _).
      rewrite Hwk, Hc, !bool_decide_eq_true_2 by done. done. }
    apply alone_bind, out_sync, alone_bind, out_final_snapshot.
    eapply out_release; [|exact Hwk|exact Hdes|].
    + destruct Hat as ([Hi Hs] & Hrow & Hreg). by repeat split.
    + unfold _is_settled, is_at_rest. cbn. rewrite Hdes, Hc. done.
  - destruct (own_write row w STOPPED t false Hat Hwk (older_than t Ht)) as (d & Hu & Hd).
    assert (Hu2 : uow (StopServer.record_unless_crashed s wk t) (w_db w) = (Ok (true, None), d)).
    { unfold StopServer.record_unless_crashed, record_observed in *. revert Hu. tx_run.
      destruct Hat as (_ & -> & _). rewrite (bool_decide_eq_false_2 _ Hc), andb_false_r.
      destruct (record_observed_state _ _ _ _ _ _ _ _ _) as [[b|e] d2]; [|done].
      cbn. by intros [= -> ->]. }
    eapply out_db; [exact Hu2|].
    pose proof (at_row_db _ _ _ _ _ _ d.(staged) Hat (record_unless_crashed_ok s wk t) Hu2 Hd) as Hat1.
    apply alone_bind, out_sync, alone_bind, out_final_snapshot.
    eapply out_release; [exact Hat1|done|done|]. apply released_settled; states.
Qed.

Lemma at_row_refused m w : at_row row w -> at_row row (set_refused m w).
Proof. by intros. Qed.

Lemma out_redispatch_stop force w :
  at_row row w -> runs_out (StopServer._redispatch_stop c s force) w settled_post.
Proof.
  intros Hat. unfold StopServer._redispatch_stop, StopServer.dispatch_stop.
  apply alone_bind, out_load; [done|]. apply alone_bind, out_refusal.
  apply alone_bind, out_stop. intros o Ho. case_bool_decide.
  - by apply out_release_after_snapshot, at_row_refused.
  - destruct Ho as [Ho|Ho]; [|done]. unfold success. rewrite Ho, bool_decide_eq_true_2 by done.
    by apply out_stopped_then_release, at_row_refused.
Qed.

Lemma out_snapshot_leg k w post :
  at_row row w -> post (Ok tt) w ->
  runs_out (if bool_decide (s_observed_state row ∈ [STOPPED; CRASHED]) then
              b ← call (Reg (IsConnected wk));
              if b : bool then
                live ← StopServer._final_snapshot wk k s;
                raise_if live (WorkerUnavailableError true)
              else Ret tt
            else Ret tt) w post.
Proof.
  intros (_ & _ & Hreg) Hp. case_bool_decide; [|done].
  apply alone_bind, out_connected; [done|]. destruct connected; [|done].
  by apply alone_bind, out_final_snapshot.
Qed.

Lemma out_clear_stale w :
  at_row row w ->
  row.(s_observed_state) ∈ [STOPPED; CRASHED]
  \/ (row.(s_observed_state) ∈ [UNKNOWN; STOPPING] /\ connected = false) ->
  runs_out (StopServer._clear_stale_assignment c s) w settled_post.
Proof.
  intros Hat Hobs. unfold StopServer._clear_stale_assignment, StopServer.load_wedged.
  apply alone_bind. apply (out_db _ w (Ok (row, wk)) w.(w_db)).
  { destruct Hat as ([Hi Hs] & Hrow & Hreg). unfold load_assigned, _load. tx_run.
    rewrite Hrow, Hcomm, bool_decide_eq_true_2 by done.
    rewrite Hwk, Hdes, bool_decide_eq_true_2 by done. rewrite bool_decide_eq_true_2; [done|].
    states. }
  replace (set_db _ _ w) with w.
  2: { destruct Hat as ([Hi Hs] & _). rewrite Hs. destruct w as [[sv sp st] bus]. cbn in *.
    unfold set_db. cbn. by rewrite Hs, app_nil_r. }
  apply alone_bind.
  assert (Hgate : forall post, post (Ok tt) w -> runs_out
    (if bool_decide (s_observed_state row ∈ [UNKNOWN; STOPPING]) then
       b ← call (Reg (IsConnected wk)); raise_if b InvalidLifecycleTransitionError
     else Ret tt) w post).
  { intros post Hp. case_bool_decide as Hu; [|done].
    apply alone_bind, out_connected; [apply Hat|]. destruct Hobs as [Ho|[_ Hc]].
    - clear -Ho Hu. states.
    - by rewrite Hc. }
  apply Hgate. apply alone_bind, out_snapshot_leg; [done|]. clear Hgate. case_bool_decide as Hstop.
  - apply alone_bind, out_now. intros t Ht. apply alone_bind.
    destruct (own_write row w UNKNOWN t true Hat Hwk (older_than t Ht)) as (d & Hu & Hd).
    eapply out_db; [exact Hu|]. split; [done|]. eexists. split; [exact Hd|].
    apply released_settled. states.
  - destruct (own_clear row w Hat Hwk Hdes) as (d & Hu & Hd). apply alone_bind.
    eapply out_db; [exact Hu|]. split; [done|]. eexists. split; [exact Hd|].
    assert (Hr : row.(s_observed_state) ∈ [STOPPED; UNKNOWN; CRASHED]) by states.
    unfold _is_settled, is_at_rest. cbn. by rewrite Hdes, !bool_decide_eq_true_2.
Qed.

Lemma out_with_claim (p : coroutine Server) w :
  at_row row w -> in_flight w s = false ->
  (forall w, at_row row w -> runs_out p w settled_post) ->
  runs_out (with_claim s p) w settled_post.
Proof.
  intros Hat Hfree Hp. unfold with_claim. apply alone_bind, alone_call.
  - eexists _, _, _. split; [by apply plain_answers|]. cbn. by rewrite Hfree.
  - intros ch r w' _. cbn. rewrite Hfree. intros [= <- <-]. unfold finally.
    apply alone_bind, alone_attempt. eapply alone_mono; [by apply Hp|].
    intros r w1 [Hok Hset]. apply alone_bind, alone_call.
    + eexists _, _, _. split; [by apply plain_answers|done].
    + intros ch2 r2 w2 _. cbn. intros [= <- <-]. destruct r; [|done]. by split.
Qed.
End Settling.

(** The action a diverged row is owed, taken at once. *)
Definition reconcile (row : Server) : coroutine unit :=
  a ← _action_for row;
  match a with
  | Some a => _ ← _dispatch row a None; Ret tt
  | None => Ret tt
  end.

(** C5: Every stop intent converges: take a row with intent [stopped] that is still
    assigned, whatever was last reported of it, except for a process the Worker
    may still run while nobody can reach it.  With the Worker answering, no other
    convergence in flight and no failure underneath, the action the reconciler
    chooses for the row runs to its end and leaves it at rest and unassigned. *)
Theorem owed_stops_settle t0 t1 w s row wk connected :
  t0 < t1 ->
  consistent w -> w.(w_db).(servers) !! s = Some row -> in_flight w s = false ->
  row.(s_desired_state) = D_STOPPED -> row.(s_assigned_worker_id) = Some wk ->
  (forall t, t0 < t <= t1 -> is_worker_connected w.(w_registry) t wk = Some connected) ->
  match row.(s_observed_at) with None => True | Some seen => seen <= t0 end ->
  connected = true \/ row.(s_observed_state) ∈ [STOPPED; CRASHED; UNKNOWN; STOPPING] ->
  alone (answers_stops t0 t1) (reconcile row) w (fun res w' =>
    res = Ok tt /\ exists row', w'.(w_db).(servers) !! s = Some row' /\ _is_settled row' = true).
Proof.
  intros Hlt Hcons Hrow Hfree Hdes Hwk Hconn Hold Hreach.
  assert (Hid : row.(s_id) = s) by (by apply Hcons).
  assert (Hat : at_row s w.(w_registry) row w) by done.
  assert (Hdone : forall (p : coroutine Server), 
    alone (answers_stops t0 t1) p w (settled_post s) ->
    alone (answers_stops t0 t1) (_ ← p; Ret tt) w (fun res w' =>
      res = Ok tt /\ exists row', w'.(w_db).(servers) !! s = Some row' /\ _is_settled row' = true)).
  { intros p Hp. apply alone_bind. eapply alone_mono; [exact Hp|].
    intros [v|e] w' [Hok Hset]; [|done]. by split. }
  assert (Hredispatch : alone (answers_stops t0 t1) (_ ← _dispatch row (Stop_action redispatch_stop) None; Ret tt) w
    (fun res w' => res = Ok tt /\ exists row', w'.(w_db).(servers) !! s = Some row' /\ _is_settled row' = true)).
  { apply Hdone. cbn [_dispatch]. rewrite Hid. eapply out_with_claim; [exact Hlt|exact Hat|done|].
    intros w1 Hw1. by eapply out_redispatch_stop. }
  unfold reconcile, _action_for, stopped_intent_action. rewrite Hdes, Hwk.
  assert (Hclear : row.(s_observed_state) ∈ [STOPPED; CRASHED]
      \/ (row.(s_observed_state) ∈ [UNKNOWN; STOPPING] /\ connected = false) ->
    alone (answers_stops t0 t1) (_ ← _dispatch row (Stop_action clear_stale_assignment) None; Ret tt) w
    (fun res w' => res = Ok tt /\ exists row', w'.(w_db).(servers) !! s = Some row' /\ _is_settled row' = true)).
  { intros Hc. apply Hdone. cbn [_dispatch]. rewrite Hid. eapply out_with_claim; [exact Hlt|exact Hat|done|].
    intros w1 Hw1. by eapply out_clear_stale. }
  case_bool_decide as H1; [by apply Hclear; left|].
  case_bool_decide as H2; apply alone_bind, alone_bind, alone_bind;
    (eapply out_connected; [exact Hlt|exact Hconn|done|]); cbn.
  - destruct connected; [exact Hredispatch|]. apply Hclear. by right.
  - destruct Hreach as [->|Ho]; [exact Hredispatch|]. states.
Qed.
