(* ===== verification/ReconcilerSafety.v ===== *)
(** * When the reconciler acts, and on what

    The divergence matrix ([list_reconcilable] against [_action_for] and
    [_is_settled]), and the waits: no command reaches a Worker before the row's
    grace and its server's backoff have lapsed. *)
From Stdlib Require Import ZArith NArith Lia String.
From stdpp Require Import base gmap strings list fin_maps.
From S2P Require Import Prelude Uow Uuid Calendar Registry ControlPlane Program ServerRow Backoff LifecycleSeam Lifecycle Reconciler LifecycleInv.

Open Scope Z_scope.

(** ** The divergence matrix *)

Definition assigned (row : Server) : Prop := row.(s_assigned_worker_id) <> None.

(** Not diverged, not settled: something else will report on the row. *)
Definition in_transit (row : Server) : Prop :=
  (row.(s_desired_state) = D_RUNNING /\ row.(s_observed_state) = STARTING /\ assigned row)
  \/ (row.(s_desired_state) = D_STOPPED
      /\ (row.(s_observed_state) = STARTING \/ row.(s_observed_state) = RESTARTING
          \/ (row.(s_observed_state) = STOPPING /\ ~ assigned row))).

(** The trace of an action choice that asked the registry about [w]. *)
Definition asked (w : uuid) (b : bool) : trace := [Label _ (Reg (IsConnected w)) (Ok b)].

(** What the choice made of a candidate says of it. *)
Definition explains (row : Server) (tr : trace) (a : option action) : Prop :=
  match a with
  | Some Place_and_start => row.(s_desired_state) = D_RUNNING /\ ~ assigned row
  | Some Redispatch_start =>
      row.(s_desired_state) = D_RUNNING /\ row.(s_observed_state) ∉ [STARTING; RUNNING]
      /\ exists w, row.(s_assigned_worker_id) = Some w /\ tr = asked w true
  | Some (Stop_action redispatch_stop) =>
      row.(s_desired_state) = D_STOPPED /\ row.(s_observed_state) ∉ [STOPPED; CRASHED]
      /\ exists w, row.(s_assigned_worker_id) = Some w /\ tr = asked w true
  | Some (Stop_action clear_stale_assignment) =>
      row.(s_desired_state) = D_STOPPED
      /\ exists w, row.(s_assigned_worker_id) = Some w
         /\ (row.(s_observed_state) ∈ [STOPPED; CRASHED]
             \/ row.(s_observed_state) ∈ [UNKNOWN; STOPPING] /\ tr = asked w false)
  | None =>
      (exists w, row.(s_assigned_worker_id) = Some w /\ tr = asked w false)
      \/ (row.(s_desired_state) = D_STOPPED /\ row.(s_observed_state) = RUNNING /\ ~ assigned row)
  end.

Lemma asked_run {A} w (k : bool -> coroutine A) tr a :
  runs_as (mbind k (call (Reg (IsConnected w)))) tr (Ok a) ->
  exists b tr', tr = asked w b ++ tr' /\ runs_as (k b) tr' (Ok a).
Proof.
  unfold runs_as. cbn. intros (r & tr' & _ & -> & H). destruct r as [b|e]; [|by destruct H].
  by exists b, tr'.
Qed.

Lemma stopped_choice row tr a :
  row.(s_desired_state) = D_STOPPED -> reconcilable row = true ->
  runs_as (stopped_intent_action row) tr (Ok a) -> explains row tr (option_map Stop_action a).
Proof.
  intros Hd Hr. unfold stopped_intent_action. destruct (s_assigned_worker_id row) as [w|] eqn:Ew.
  - case_bool_decide as H1.
    { intros [-> E]. injection E as ->. split; [done|]. exists w. auto. }
    case_bool_decide as H2; intros (b & tr' & -> & [-> [= ->]])%asked_run; rewrite app_nil_r.
    + destruct b; cbn; [by eauto|]. split; [done|]. exists w. auto.
    + destruct b; cbn; [by eauto|]. left. by exists w.
  - intros [-> [= ->]]. right. split; [done|]. unfold reconcilable in Hr. rewrite Hd, Ew in Hr.
    cbn in Hr. unfold assigned. rewrite Ew. split; [|by intros []].
    by destruct (s_observed_state row).
Qed.

(** The reconciler's scan and its choice fit each other.  A row the scan leaves
    out is settled or in transit, a settled row is left out, and on a row it
    returns the choice names the arm the row is in; it declines only a row whose
    Worker is away, or one released while it still reads running. *)
Theorem divergence_matrix row tr a :
  (reconcilable row = false -> _is_settled row = true \/ in_transit row)
  /\ (_is_settled row = true -> reconcilable row = false)
  /\ (reconcilable row = true -> runs_as (_action_for row) tr (Ok a) -> explains row tr a).
Proof.
  split; [|split].
  - unfold reconcilable, _is_settled, is_at_rest, in_transit, assigned. intros H.
    destruct (s_desired_state row), (s_observed_state row), (s_assigned_worker_id row);
      cbn in *; try done; try (by left); right; naive_solver.
  - unfold reconcilable, _is_settled, is_at_rest. intros H.
    by destruct (s_desired_state row), (s_observed_state row), (s_assigned_worker_id row).
  - intros Hr. unfold _action_for. destruct (s_desired_state row) eqn:Ed.
    + destruct (s_assigned_worker_id row) as [w|] eqn:Ew.
      * case_bool_decide as Ho; cbn [negb].
        -- intros (b & tr' & -> & [-> [= ->]])%asked_run. rewrite app_nil_r.
           destruct b; cbn; [|left; by exists w]. split_and!; [done| |by exists w].
           destruct (s_observed_state row); set_unfold in Ho; set_unfold; intuition congruence.
        -- intros [-> [= ->]]. exfalso. unfold reconcilable in Hr. rewrite Ed, Ew in Hr. cbn in Hr.
           destruct (s_observed_state row); try done; apply Ho; set_unfold; tauto.
      * intros [-> [= ->]]. cbn. unfold assigned. rewrite Ew. split; [done|by intros []].
    + unfold runs_as. intros (tr1 & tr2 & r & -> & Hp & Hf)%runs_bind.
      destruct r as [owed|e]; [|by destruct Hf]. destruct Hf as [-> [= ->]]. rewrite app_nil_r.
      by apply stopped_choice.
Qed.

(** ** Waiting *)

Definition is_command (q : query) : bool :=
  match q with
  | Hydrate _ _ _ | Start _ _ _ _ _ _ _ | Stop _ _ _ | Snapshot _ _ _ | Restart _ _
  | Command _ _ _ => true
  | _ => false
  end.

Section Waiting.
Context (cfg : settings) (server : Server) (now : datetime).

(** The shortest grace the row may be granted: the short one of a refused stop or
    of a held working set where those apply, never less than a restart's budget
    for a row observed stopping under a running intent. *)
Definition least_grace : Z :=
  match server.(s_desired_state), server.(s_assigned_worker_id) with
  | D_RUNNING, None => cfg.(grace_seconds)
  | D_RUNNING, Some _ =>
      Z.max (Z.min cfg.(held_start_grace_seconds) cfg.(grace_seconds))
        (if bool_decide (server.(s_observed_state) = STOPPING)
         then cfg.(restart_timeout_seconds) else 0)
  | D_STOPPED, _ =>
      if bool_decide (server.(s_observed_state) ∈ [STOPPED; CRASHED]) then cfg.(grace_seconds)
      else Z.min cfg.(refused_stop_grace_seconds) cfg.(grace_seconds)
  end.

Definition grace_lapsed : Prop := seconds least_grace <= now - _since server.

Definition eligible (entry : option _Backoff) : Prop :=
  match entry with Some b => b.(next_eligible_at) <= now | None => True end.

(** The last backoff entry a run has read for the server. *)
Definition entry_next (T : Type) (q : option (option _Backoff)) (ev : event T) (r : result exn T)
    : option (option _Backoff) :=
  match ev in event T return result exn T -> option (option _Backoff) with
  | Attempts op =>
      match op in memory_op T return result exn T -> option (option _Backoff) with
      | Entry s => fun r => match r with Ok e => if decide (s = server.(s_id)) then Some e else q
                                       | Err _ => q end
      | _ => fun _ => q
      end
  | _ => fun _ => q
  end r.

Definition last_entry (tr : trace) : option (option _Backoff) := follow entry_next None tr.

Definition wait_ok (T : Type) (q : option (option _Backoff)) (ev : event T) : Prop :=
  match ev with
  | Ask qr => is_command qr = true -> grace_lapsed /\ exists entry, q = Some entry /\ eligible entry
  | _ => True
  end.

Abbreviation waits := (keeps (@may_reply) wait_ok entry_next).

Ltac wait_leaf := first [ exact I | done | by intros _ | solve [eauto with waits] ].
Ltac waits := repeat keep_step wait_leaf.

Section Act.
Context (entry : option _Backoff) (Hgrace : grace_lapsed) (Hentry : eligible entry).

Lemma acting {T} (ev : event T) : wait_ok T (Some entry) ev.
Proof. destruct ev; try exact I. intros _. split; [done|by exists entry]. Qed.

Lemma acting_call {T} (ev : event T) :
  match ev with Attempts (Entry _) => False | _ => True end -> waits (Some entry) (call ev).
Proof.
  intros Hev. apply keeps_call; [apply acting|]. intros r _. destruct ev; try done. by destruct op.
Qed.

Ltac act_leaf := first [ apply acting | apply acting_call; exact I | done | solve [eauto with waits] ].
Ltac act := repeat keep_step act_leaf.

Lemma marks_wait c s owed : waits (Some entry) (StartServer.regenerate_marks c s owed).
Proof. induction owed as [|mark owed IH]; cbn [StartServer.regenerate_marks]; act. Qed.
Hint Resolve marks_wait : waits.

Lemma hydrate_then_start_waits w c s b :
  waits (Some entry) (StartServer.hydrate_then_start server c s w b).
Proof.
  unfold StartServer.hydrate_then_start, StartServer.hydrate_leg,
    StartServer._generation_before_hydrate, StartServer.start_leg. act.
Qed.

Lemma dispatch_waits a g : waits (Some entry) (_dispatch server a g).
Proof.
  unfold _dispatch, StartServer.place_and_start, StartServer.replace, StartServer._ensure_jar,
    StartServer.regenerate_pending_group_files, StartServer.place_and_commit, StartServer._place,
    StartServer._unassign, StartServer.redispatch_start, StartServer.converge_running,
    StartServer._launch, StartServer.hydrate_then_start, StartServer.hydrate_leg,
    StartServer._generation_before_hydrate, StartServer.start_leg,
    StopServer.redispatch_stop, StopServer.clear_stale_assignment, StopServer._redispatch_stop,
    StopServer._clear_stale_assignment, StopServer.dispatch_stop,
    StopServer._release_after_final_snapshot, StopServer._record_stopped_then_final_snapshot,
    StopServer._clear_held_assignment, StopServer._final_snapshot.
  act.
Qed.

Lemma run_waits a g : waits (Some entry) (_run cfg server a now g).
Proof. unfold _run, fail. pose proof (dispatch_waits a g). act. Qed.
End Act.

(** The row the chosen action is for. *)
Definition suits (a : action) : Prop :=
  match a with
  | Place_and_start => server.(s_desired_state) = D_RUNNING /\ server.(s_assigned_worker_id) = None
  | Redispatch_start => server.(s_desired_state) = D_RUNNING /\ exists w, server.(s_assigned_worker_id) = Some w
  | Stop_action redispatch_stop =>
      server.(s_desired_state) = D_STOPPED /\ server.(s_observed_state) ∉ [STOPPED; CRASHED]
  | Stop_action clear_stale_assignment => server.(s_desired_state) = D_STOPPED
  end.

Abbreviation waiting := (safe (@may_reply) wait_ok entry_next).

Definition same_state {A} (q : option (option _Backoff)) (P : A -> Prop) (r : result exn A)
    (q' : option (option _Backoff)) : Prop :=
  q' = q /\ match r with Ok a => P a | Err _ => True end.

Lemma waiting_connected w q (k : bool -> coroutine (option action)) P :
  (forall b, waiting (k b) q (same_state q P)) ->
  waiting (mbind k (call (Reg (IsConnected w)))) q (same_state q P).
Proof. intros Hk. apply safe_bind, safe_call; [done|]. by intros [b|e] _. Qed.

Lemma action_waits q :
  waiting (_action_for server) q (same_state q (fun a => match a with Some a => suits a | None => True end)).
Proof.
  unfold _action_for. destruct (s_desired_state server) eqn:Ed.
  - destruct (s_assigned_worker_id server) as [w|] eqn:Ew; [|done].
    case_bool_decide; [|done]. apply waiting_connected. intros []; [|done].
    split; [done|]. cbn. split; [done|by exists w].
  - apply safe_bind. unfold stopped_intent_action.
    destruct (s_assigned_worker_id server) as [w|] eqn:Ew; [|done].
    case_bool_decide; [done|]. case_bool_decide; apply safe_bind, safe_call; try done;
      intros [[]|e] _; done.
Qed.

Lemma grace_waits q a :
  suits a -> waiting (_grace_for cfg server a) q
    (same_state q (fun decision => least_grace <= decision.(gd_grace_seconds))).
Proof.
  unfold _grace_for, start_grace, least_grace. destruct a as [| |[|]]; cbn [suits].
  - intros [-> ->]. split; [done|]. cbn. lia.
  - intros [-> [w ->]]. apply safe_bind, safe_call; [done|]. intros [g|e] _; [|done].
    apply safe_bind, safe_call; [done|]. intros [[]|e] _; [| |done]; (split; [done|]; cbn; lia).
  - intros [-> Ho]. apply safe_bind. unfold _previous_stop_refused. apply safe_bind, safe_call; [done|].
    intros [t|e] _; [|done]. rewrite (bool_decide_eq_false_2 _ Ho).
    split; [done|]. cbn. destruct (match t with Some _ => _ | None => _ end); lia.
  - intros ->. destruct (s_assigned_worker_id server); (split; [done|]; cbn; case_bool_decide; lia).
Qed.

Lemma consider_waits : waiting (_consider cfg server now) None (fun _ _ => True).
Proof.
  unfold _consider. apply safe_bind. eapply safe_mono; [apply action_waits|].
  intros [[a|]|e] q [-> Ha]; [|done..]. apply safe_bind. eapply safe_mono; [by apply grace_waits|].
  intros [decision|e] q [-> Hg]; [|done]. destruct (_within_grace _ _ _) eqn:Ew; [done|].
  apply Z.ltb_ge in Ew. apply safe_bind, safe_call; [done|]. intros [entry|e] _; [|done].
  cbn [entry_next]. rewrite decide_True by done.
  destruct (match entry with Some b => _ | None => _ end) eqn:Ee; [done|].
  eapply safe_mono; [apply run_waits|done].
  - unfold grace_lapsed, seconds in *. lia.
  - destruct entry; [|done]. cbn. by apply Z.ltb_ge in Ee.
Qed.
End Waiting.

(** C40: The reconciler never acts early: in any run of its consideration of a row at
    [now], a command (hydrate, start, stop, snapshot, ...) reaches a Worker only
    after the row's grace has lapsed, counted from its last report or intent
    commit, and after it read the server's backoff entry and found it absent or
    past its window. *)
Theorem reconciler_waits cfg server now tr1 tr2 res q r :
  runs_as (_consider cfg server now) (tr1 ++ Label _ (Ask q) r :: tr2) res ->
  is_command q = true ->
  grace_lapsed cfg server now
  /\ exists entry, last_entry server tr1 = Some entry /\ eligible now entry.
Proof.
  intros Hr Hq. destruct (safe_runs _ _ _ _ _ _ _ _ (consider_waits cfg server now) Hr) as [Ha _].
  apply allowed_app in Ha as [_ [Hok _]]. by apply Hok.
Qed.
