(* ===== verification/LifecycleScenario.v ===== *)
(** * A concrete fleet

    One worker, one server and executable schedules of the lifecycle's
    coroutines: the witnesses of the lifecycle's theorems, and the race in which
    one start's compensation reverts another start. *)
From Stdlib Require Import ZArith NArith Lia String.
From stdpp Require Import base gmap strings list fin_maps relations.
From S2P Require Import Prelude Uow Uuid Calendar Retention Placement Registry ControlPlane Program ServerRow Backoff LifecycleSeam Lifecycle Reconciler LifecycleInv StartSafety Convergence ReconcilerSafety.

Open Scope Z_scope.

(** ** Schedules *)

(** Resumes coroutine [i] with the reply [c] resolves its event to. *)
Definition resume (c : choice) (i : nat) (s : system) : option system :=
  match s.2 !! i with
  | Some (Vis ev k) =>
      match exec c s.1 ev with
      | Some (r, w) => Some (w, <[i := k r]> s.2)
      | None => None
      end
  | _ => None
  end.

Fixpoint schedule (l : list (choice * nat)) (s : system) : option system :=
  match l with
  | [] => Some s
  | (c, i) :: l' => match resume c i s with Some s' => schedule l' s' | None => None end
  end.

Lemma resume_step cfg c i s s' :
  c.(c_lost) = false -> resume c i s = Some s' -> step cfg false s s'.
Proof.
  intros Hc. destruct s as [w l]. unfold resume. cbn.
  destruct (l !! i) as [[a|e|T ev k]|] eqn:El; [done..| |done].
  destruct (exec c w ev) as [[r w']|] eqn:Ex; [|done]. intros [= <-].
  rewrite <- (take_drop_middle l i _ El) at 1.
  replace (<[i := k r]> l) with (take i l ++ k r :: drop (S i) l).
  - eapply step_resume; [by rewrite Hc|done].
  - rewrite <- (take_drop_middle l i _ El) at 3. rewrite insert_app_r_alt by (rewrite length_take; lia).
    rewrite length_take_le by (apply lookup_lt_Some in El; lia). by rewrite Nat.sub_diag.
Qed.

Lemma schedule_steps cfg l s s' :
  Forall (fun p => p.1.(c_lost) = false) l -> schedule l s = Some s' -> rtc (step cfg false) s s'.
Proof.
  intros Hl. revert s. induction Hl as [|[c i] l Hc Hl IH]; intros s; simpl.
  - intros [= ->]. done.
  - destruct (resume c i s) as [s1|] eqn:E; [|done]. intros H.
    eapply rtc_l; [by eapply resume_step|by apply IH].
Qed.

Definition landed (l : list (choice * nat)) (s : system) : bool :=
  match schedule l s with Some _ => true | None => false end.

Definition after (l : list (choice * nat)) (s : system) : system := default s (schedule l s).

Lemma after_steps cfg l s :
  forallb (fun p => negb p.1.(c_lost)) l = true -> landed l s = true ->
  rtc (step cfg false) s (after l s).
Proof.
  intros Hl Hs. unfold after, landed in *. destruct (schedule l s) as [s'|] eqn:E; [|done].
  eapply schedule_steps; [|exact E]. apply Forall_forall. intros p Hp.
  rewrite forallb_forall in Hl. apply negb_true_iff, Hl. by apply list_elem_of_In.
Qed.

Lemma after_step cfg c i s :
  c.(c_lost) = false -> landed [(c, i)] s = true -> step cfg false s (after [(c, i)] s).
Proof.
  unfold landed, after. cbn [schedule]. intros Hc.
  destruct (resume c i s) as [s'|] eqn:E; [|done]. intros _. by eapply resume_step.
Qed.

(** ** The fleet and the server *)

Definition scenario_worker (id : uuid) : Worker :=
  {| w_id := _fleet_worker id; w_version := "1.0";
     w_capabilities := {| drivers := {[CONTAINER]}; max_servers := 4;
       resources := {| cpu_cores := 4; memory_bytes := 8192 * 1024 * 1024 |} |};
     w_registered_at := 0; w_last_heartbeat_at := 0; w_disconnected := false;
     w_draining := false |}.

Definition scenario_registry : Registry :=
  (register (init (seconds 1000) ∅) (scenario_worker 7) ∅).1.

Definition scenario_server (d : DesiredState) (o : ObservedState) (a : option uuid) : Server :=
  mkServer 1 9 "lobby" "java" "1.21.4" PAPER ∅ d o (Some 1) a 0 0 (Some 25565) None "lobby" None.

Definition scenario_world (row : Server) : world :=
  mkWorld {| servers := {[1%N := row]}; sync_pending := []; staged := [] |} []
    scenario_registry ∅ ∅ ∅ ∅ ∅ ∅.

Definition scenario_settings : settings :=
  {| grace_seconds := 660; held_start_grace_seconds := 45; refused_stop_grace_seconds := 60;
     restart_timeout_seconds := 300; backoff_base_seconds := 5; backoff_max_seconds := 300 |}.

Lemma scenario_consistent row : row.(s_id) = 1%N -> consistent (scenario_world row).
Proof.
  intros Hid. split; [|done]. intros k r. cbn. intros [<- <-]%lookup_singleton_Some. done.
Qed.

(** [n] resumptions of coroutine [i] at [t]. *)
Definition run_for (n : nat) (c : choice) (i : nat) : list (choice * nat) := repeat (c, i) n.

Definition with_answers (t : datetime) (f : forall q, result exn (answer q)) : choice :=
  {| c_now := fun _ => t; c_fault := None; c_lost := false; c_answer := f |}.

Definition failing (t : datetime) : choice :=
  {| c_now := fun _ => t; c_fault := Some Failure; c_lost := false; c_answer := plain_answer |}.

(** A Worker that holds nothing of the server. *)
Definition not_found : CommandOutcome :=
  {| co_status := SERVER_NOT_FOUND; co_message := "working dir absent"; co_output := "";
     co_held_generation := None |}.

Definition knows_nothing (q : query) : result exn (answer q) :=
  match q return result exn (answer q) with
  | Stop _ _ _ | Snapshot _ _ _ => Ok not_found
  | q => plain_answer q
  end.

(** ** One start's compensation reverts another start *)

Definition at_rest_server : Server := scenario_server D_STOPPED STOPPED None.

Definition race_start : system := (scenario_world at_rest_server, []).

(** The first start is placed and committed, and waits for the store's generation. *)
Definition race_1 : system :=
  after (run_for 12 (plain 10) 0) (race_start.1, [serve scenario_settings (StartRequest 9 1 true)]).

(** The operator stops the server: the Worker has nothing of it, the row is
    released. *)
Definition race_2 : system :=
  after (run_for 12 (with_answers 20 knows_nothing) 0)
    (race_1.1, serve scenario_settings (StopRequest 9 1 false) :: race_1.2).

(** The operator starts it again: the Worker launches it. *)
Definition race_3 : system :=
  after (run_for 17 (plain 30) 0)
    (race_2.1, serve scenario_settings (StartRequest 9 1 true) :: race_2.2).

(** The first start's read of the store fails, and it compensates. *)
Definition race_4 : system :=
  after ((failing 40, 2%nat) :: run_for 3 (plain 40) 2) race_3.

Definition returned (s : system) (i : nat) : bool :=
  match s.2 !! i with Some (Ret _) => true | _ => false end.

Definition intent (s : system) : option (DesiredState * option uuid) :=
  (fun r => (r.(s_desired_state), r.(s_assigned_worker_id))) <$> row s 1.

(** A request arrives and its coroutine is scheduled as [l] says. *)
Lemma served cfg r l s :
  forallb (fun p => negb p.1.(c_lost)) l = true -> landed l (s.1, serve cfg r :: s.2) = true ->
  rtc (step cfg false) s (after l (s.1, serve cfg r :: s.2)).
Proof.
  intros Hl Ha. destruct s as [w ps]. eapply rtc_l; [apply (step_arrive cfg false r)|].
  by apply after_steps.
Qed.

Lemma race_start_to_1 : rtc (step scenario_settings false) race_start race_1.
Proof. apply (served scenario_settings (StartRequest 9 1 true) _ race_start); [done|vm_compute; reflexivity]. Qed.

Lemma race_1_to_2 : rtc (step scenario_settings false) race_1 race_2.
Proof. apply (served scenario_settings (StopRequest 9 1 false) _ race_1); [done|vm_compute; reflexivity]. Qed.

Lemma race_2_to_3 : rtc (step scenario_settings false) race_2 race_3.
Proof. apply (served scenario_settings (StartRequest 9 1 true) _ race_2); [done|vm_compute; reflexivity]. Qed.

Lemma race_start_to_3 : rtc (step scenario_settings false) race_start race_3.
Proof. etrans; [apply race_start_to_1|]. etrans; [apply race_1_to_2|apply race_2_to_3]. Qed.

(** [_compensate] asks the row only for a running intent, not for the start it
    undoes: a start that waits on Storage while its server is stopped, released
    and started again reverts that other start when its read fails.  The second
    start has returned and its instance is live, the row ends stopped and
    unassigned. *)
Theorem compensation_reverts_another_start :
  rtc (step scenario_settings false) race_start race_3
  /\ returned race_3 0 = true
  /\ intent race_3 = Some (D_RUNNING, Some 7%N)
  /\ rtc (step scenario_settings false) race_3 race_4
  /\ intent race_4 = Some (D_STOPPED, None).
Proof.
  split; [apply race_start_to_3|]. split; [vm_compute; reflexivity|].
  split; [vm_compute; reflexivity|]. split; [|vm_compute; reflexivity].
  apply after_steps; [done|vm_compute; reflexivity].
Qed.

(** ** Runs of one coroutine *)

(** Plays [p] against the given choices; the trace and how it left. *)
Fixpoint play {A} (cs : list choice) (w : world) (p : coroutine A) : option (trace * result exn A) :=
  match p, cs with
  | Ret a, [] => Some ([], Ok a)
  | Raise e, [] => Some ([], Err e)
  | @Vis _ _ _ T ev k, c :: cs' =>
      match exec c w ev with
      | Some (r, w') =>
          match play cs' w' (k r) with
          | Some (tr, res) => Some (Label T ev r :: tr, res)
          | None => None
          end
      | None => None
      end
  | _, _ => None
  end.

Lemma play_runs {A} (p : coroutine A) cs w tr res :
  consistent w -> good p -> play cs w p = Some (tr, res) -> runs_as p tr res.
Proof.
  unfold runs_as. revert cs w tr res. induction p as [a|e|T ev k IH]; intros [|c cs] w tr res Hw Hg; simpl; try done.
  - by intros [= <- <-].
  - by intros [= <- <-].
  - destruct (exec c w ev) as [[r w']|] eqn:Ex; [|done].
    destruct Hg as [Hok Hk].
    destruct (exec_evolves true c w ev r w' ltac:(done) Hw Hok Ex) as [_ Hw'].
    assert (Hr : may_reply ev r) by (by exists c, w, w').
    destruct (play cs w' (k r)) as [[tr' res']|] eqn:Ep; [|done]. intros [= <- <-].
    exists r, tr'. split_and!; [done|done|]. eapply IH; [exact Hw'|by apply Hk|exact Ep].
Qed.

Definition trace_of {A} (cs : list choice) (w : world) (p : coroutine A) : trace :=
  match play cs w p with Some (tr, _) => tr | None => [] end.

Definition result_of {A} (cs : list choice) (w : world) (p : coroutine A) : result exn A :=
  match play cs w p with Some (_, res) => res | None => Err Failure end.

Definition plays {A} (cs : list choice) (w : world) (p : coroutine A) : bool :=
  match play cs w p with Some _ => true | None => false end.

Lemma plays_runs {A} (p : coroutine A) cs w :
  consistent w -> good p -> plays cs w p = true ->
  runs_as p (trace_of cs w p) (result_of cs w p).
Proof.
  unfold plays, trace_of, result_of. intros Hw Hg. destruct (play cs w p) as [[tr res]|] eqn:E; [|done].
  intros _. by eapply play_runs.
Qed.

(** ** Witnesses *)

(** The failed read's compensation is at its write. *)
Definition race_undo : system := after ((failing 40, 2%nat) :: run_for 1 (plain 40) 2) race_3.


(** The fleet moves. *)
Definition with_registry (registry : Registry) (s : system) : system :=
  (set_registry registry s.1, s.2).

Lemma fleet_moves cfg registry s : rtc (step cfg false) s (with_registry registry s).
Proof. destruct s as [w l]. apply rtc_once, step_fleet. Qed.

(** The stopped server's worker leaves, another one joins, and the server is
    started there. *)
Definition moved_fleet : system :=
  with_registry (register (init (seconds 1000) ∅) (scenario_worker 8) ∅).1 race_2.

Definition moved : system :=
  after (run_for 12 (plain 30) 0) (moved_fleet.1, serve scenario_settings (StartRequest 9 1 true) :: moved_fleet.2).

Lemma race_1_moved : rtc (step scenario_settings false) race_1 moved.
Proof.
  etrans; [apply race_1_to_2|]. etrans; [apply fleet_moves|].
  apply (served scenario_settings (StartRequest 9 1 true) _ moved_fleet); [done|vm_compute; reflexivity].
Qed.

Lemma assignment_never_jumps_witness :
  intent race_1 = Some (D_RUNNING, Some 7%N) /\ intent moved = Some (D_RUNNING, Some 8%N)
  /\ exists s r, rtc (step scenario_settings false) race_1 s
     /\ rtc (step scenario_settings false) s moved
     /\ row s 1 = Some r /\ r.(s_assigned_worker_id) = None.
Proof.
  split; [vm_compute; reflexivity|]. split; [vm_compute; reflexivity|].
  apply (assignment_never_jumps scenario_settings false (scenario_world at_rest_server) race_1 moved 1
           (default at_rest_server (row race_1 1)) (default at_rest_server (row moved 1)) 7 8).
  - by apply scenario_consistent.
  - apply race_start_to_1.
  - apply race_1_moved.
  - vm_compute; reflexivity.
  - vm_compute; reflexivity.
  - vm_compute; reflexivity.
  - vm_compute; reflexivity.
  - done.
Defined.


(** *** Runs of the start flows *)

(** A Worker that already runs the instance refuses the start. *)
Definition already_live : CommandOutcome :=
  {| co_status := INVALID_STATE; co_message := "running"; co_output := "";
     co_held_generation := None |}.

Definition live_worker (q : query) : result exn (answer q) :=
  match q return result exn (answer q) with
  | Start _ _ _ _ _ _ _ => Ok already_live
  | q => plain_answer q
  end.

Definition start_world : world := scenario_world at_rest_server.

Definition live_start : trace :=
  trace_of (repeat (with_answers 30 live_worker) 20) start_world (StartServer.__call__ 9 1 true).

Lemma live_start_runs :
  runs_as (StartServer.__call__ 9 1 true) live_start
    (result_of (repeat (with_answers 30 live_worker) 20) start_world (StartServer.__call__ 9 1 true)).
Proof.
  apply plays_runs; [by apply scenario_consistent|apply start_good|vm_compute; reflexivity].
Qed.

(** The start is the seventeenth event of the run; the convergence to running
    follows it. *)
Lemma applied_starts_stick_witness :
  uncertain (Ok already_live) = true
  /\ length (drop 17 live_start) = 3%nat
  /\ Forall (fun l => respects_start l.(l_event)) (drop 17 live_start).
Proof.
  split; [done|]. split; [vm_compute; reflexivity|].
  apply (applied_starts_stick (StartServer.__call__ 9 1 true) (take 16 live_start) (drop 17 live_start)
           (result_of (repeat (with_answers 30 live_worker) 20) start_world (StartServer.__call__ 9 1 true))
           7 1 PAPER "server.jar" "1.21.4" 0 0 (Ok already_live)).
  - constructor.
  - rewrite take_drop_middle; [apply live_start_runs|vm_compute; reflexivity].
  - done.
Defined.

(** The placement takes the slot, and the commit settles it. *)
Definition served_start : trace :=
  trace_of (repeat (plain 30) 17) start_world (serve scenario_settings (StartRequest 9 1 true)).

Lemma reservations_always_settle_witness :
  open_reservations (take 7 served_start) = [(7%N, 1%N)] /\ open_reservations served_start = [].
Proof.
  split; [vm_compute; reflexivity|].
  apply (reservations_always_settle scenario_settings (StartRequest 9 1 true) _
    (result_of (repeat (plain 30) 17) start_world (serve scenario_settings (StartRequest 9 1 true)))).
  apply plays_runs; [by apply scenario_consistent|apply serve_good|vm_compute; reflexivity].
Defined.

(** *** Convergence and the reconciler *)

Definition owed_server : Server := scenario_server D_STOPPED RUNNING (Some 7%N).

Lemma scenario_online t : 1 < t <= 100 -> status (scenario_worker 7) t (seconds 1000) = ONLINE.
Proof. intros Ht. unfold status. cbn. by rewrite (proj2 (Z.ltb_ge (seconds 1000) (t - 0))) by (unfold seconds; lia). Qed.

Lemma scenario_connected t :
  1 < t <= 100 -> is_worker_connected scenario_registry t 7 = Some true.
Proof.
  intros Ht. unfold is_worker_connected, get.
  replace (od_get (_fleet_worker 7) (workers scenario_registry)) with (Some (scenario_worker 7))
    by (vm_compute; reflexivity).
  unfold _snapshot.
  replace (Registry._load scenario_registry (w_id (scenario_worker 7))) with (Some 0) by (vm_compute; reflexivity).
  change (timeout scenario_registry) with (seconds 1000). by rewrite scenario_online.
Qed.

(** A stop whose command never reached the Worker: the row still reads running. *)
Lemma owed_stops_settle_witness :
  alone (answers_stops 1 100) (reconcile owed_server) (scenario_world owed_server) (fun res w' =>
    res = Ok tt /\ exists row', w'.(w_db).(servers) !! 1%N = Some row' /\ _is_settled row' = true).
Proof.
  apply (owed_stops_settle 1 100 (scenario_world owed_server) 1 owed_server 7 true).
  - lia.
  - by apply scenario_consistent.
  - vm_compute; reflexivity.
  - vm_compute; reflexivity.
  - reflexivity.
  - reflexivity.
  - apply scenario_connected.
  - cbn. lia.
  - by left.
Defined.

(** The row reads stopped, and its Worker is away: the stale assignment is
    cleared without asking anybody. *)
Definition stale_server : Server := scenario_server D_STOPPED STOPPED (Some 7%N).

Lemma divergence_matrix_witness :
  reconcilable stale_server = true
  /\ explains stale_server [] (Some (Stop_action clear_stale_assignment)).
Proof.
  split; [vm_compute; reflexivity|].
  apply (proj2 (proj2 (divergence_matrix stale_server [] (Some (Stop_action clear_stale_assignment))))).
  - vm_compute; reflexivity.
  - split; reflexivity.
Defined.

(** Eleven minutes after its last report the owed stop goes out. *)
Definition late : datetime := seconds 700.

Definition considered : trace :=
  trace_of (repeat (plain late) 14) (scenario_world owed_server)
    (_consider scenario_settings owed_server late).

Lemma reconciler_waits_witness :
  grace_lapsed scenario_settings owed_server late
  /\ exists entry, last_entry owed_server (take 6 considered) = Some entry /\ eligible late entry.
Proof.
  apply (reconciler_waits scenario_settings owed_server late (take 6 considered) (drop 7 considered)
    (result_of (repeat (plain late) 14) (scenario_world owed_server)
       (_consider scenario_settings owed_server late)) (Stop 7 1 false) (Ok plain_outcome)).
  - rewrite take_drop_middle; [|vm_compute; reflexivity].
    apply plays_runs; [by apply scenario_consistent|apply consider_good|vm_compute; reflexivity].
  - reflexivity.
Defined.

(** Three failed actions, with ticks that read the server crashed or out of the
    candidates between them. *)
Definition crashed_server : Server := scenario_server D_RUNNING CRASHED (Some 7%N).

Definition crash_loop : list round :=
  [{| failed_at := 0; ticks := [(Some (Some crashed_server), seconds 3); (None, seconds 6)] |};
   {| failed_at := seconds 6; ticks := [(None, seconds 12)] |};
   {| failed_at := seconds 17; ticks := [] |}].

Lemma crash_loop_backs_off_witness :
  exists a, remember_all scenario_settings 1 (concat (map round_events crash_loop)) ∅ !! 1%N = Some a
    /\ armed scenario_settings 3 (seconds 17) a
    /\ (forall n, 1 <= n <= 3 -> backoff_delay scenario_settings n <= a.(delay))
    /\ a.(delay) <= seconds 300.
Proof.
  apply (crash_loop_backs_off scenario_settings 1 crash_loop 0).
  - cbn. lia.
  - cbn. lia.
  - done.
  - repeat (split || constructor); vm_compute; reflexivity.
Defined.

(** Two ticks five seconds apart read it running: the first failure is forgiven. *)
Definition settled_ticks : list (option (option Server) * datetime) :=
  [(Some (Some (scenario_server D_RUNNING RUNNING (Some 7%N))), seconds 10);
   (Some (Some (scenario_server D_RUNNING RUNNING (Some 7%N))), seconds 15)].

Lemma only_a_settled_window_forgives_witness :
  exists now ts1 ts2 row, settled_ticks = (ts1 ++ (row, now) :: ts2)%list /\
    (row = Some None
     \/ (exists pre run, (ts1 ++ [(row, now)])%list = (pre ++ run)%list
           /\ settled_window (backoff_delay scenario_settings 1) run)
     \/ 0 + backoff_delay scenario_settings 1 + seconds 300 <= now).
Proof.
  apply (only_a_settled_window_forgives scenario_settings 1 0 settled_ticks ∅ 1).
  - cbn. lia.
  - vm_compute; reflexivity.
  - vm_compute; reflexivity.
Defined.
