(* ===== verification/Text.v ===== *)
(** * Text

    [str] as its code points, with the methods whose result depends on Unicode
    tables taken from a [Unicode] instance: the version ranges need [isdigit],
    [int] and the white space of [strip] and of the pattern [\s]. *)
From Stdlib Require Import ZArith NArith Lia String Ascii.
From stdpp Require Import base strings list.
From S2P Require Import Prelude.

#[local] Open Scope N_scope.

(** A [str]: its code points. *)
Abbreviation str := (list N).

Definition codes (s : string) : str := map N_of_ascii (list_ascii_of_string s).

(** ** Unicode tables *)

Class Unicode := {
  is_space : N -> bool;              (* str.isspace of one character *)
  is_digit : N -> bool;              (* str.isdigit of one character *)
  decimal : N -> option N            (* its value as a decimal digit *)
}.

(** What is relied on: the decimals are digits, with values below ten. *)
Class UnicodeOk (U : Unicode) : Prop :=
  decimal_digit c d : decimal c = Some d -> is_digit c = true /\ d < 10.

(** The ASCII part of the tables. *)
Definition ascii_digit (c : N) : bool := (48 <=? c) && (c <=? 57).

#[export] Instance ascii_unicode : Unicode := {|
  is_space c := ((9 <=? c) && (c <=? 13)) || ((28 <=? c) && (c <=? 32));
  is_digit := ascii_digit;
  decimal c := if ascii_digit c then Some (c - 48) else None
|}.

#[export] Instance ascii_unicode_ok : UnicodeOk ascii_unicode.
Proof.
  intros c d. cbn. unfold ascii_digit. destruct (48 <=? c) eqn:E1, (c <=? 57) eqn:E2; cbn; try done.
  apply N.leb_le in E1, E2. intros [= <-]. split; [done|lia].
Qed.

Section text.
Context `{Unicode}.

(** [s.lstrip()] and [s.strip()]. *)
Fixpoint lstrip_space (s : str) : str :=
  match s with
  | c :: r => if is_space c then lstrip_space r else s
  | [] => []
  end.

Definition strip (s : str) : str := rev (lstrip_space (rev (lstrip_space s))).

(** [s.isdigit()]. *)
Definition isdigit (s : str) : bool :=
  match s with [] => false | _ => forallb is_digit s end.

(** The digits of a numeral, a single underscore allowed between two. *)
Fixpoint numeral (after_digit : bool) (s : str) : option (list N) :=
  match s with
  | [] => if after_digit then Some [] else None
  | c :: r =>
      match decimal c with
      | Some d => ds ← numeral true r; Some (d :: ds)
      | None => if after_digit && (c =? 95) then numeral false r else None
      end
  end.

Definition digits_value (ds : list N) : Z := fold_left (fun n d => 10 * n + Z.of_N d)%Z ds 0%Z.

(** [sys.int_info.default_max_str_digits]. *)
Definition max_str_digits : Z := 4300.

(** [int(s)]; [None] stands for ValueError. *)
Definition int_of (s : str) : option Z :=
  let s := strip s in
  let '(sign, s) := match s with
                    | c :: r => if c =? 45 then ((-1)%Z, r) else if c =? 43 then (1%Z, r) else (1%Z, s)
                    | [] => (1%Z, s)
                    end in
  ds ← numeral false s;
  if (max_str_digits <? Z.of_nat (List.length ds))%Z then None else Some (sign * digits_value ds)%Z.
End text.

(** ** Plain methods *)

Definition eqs (a b : str) : bool := bool_decide (a = b).

(** [s.startswith(p)]. *)
Fixpoint startswith (p s : str) : bool :=
  match p, s with
  | [], _ => true
  | a :: p', b :: s' => (a =? b) && startswith p' s'
  | _ :: _, [] => false
  end.

(** The pieces between the characters that satisfy [p]: [re.split("[p]", s)]. *)
Fixpoint split_at (p : N -> bool) (s : str) : list str :=
  match s with
  | [] => [[]]
  | c :: r =>
      if p c then [] :: split_at p r
      else match split_at p r with
           | w :: ws => (c :: w) :: ws
           | [] => [[c]]
           end
  end.

(** [s.split(c)]. *)
Definition split_char (c : N) (s : str) : list str := split_at (fun d => d =? c) s.

(** [s.split("||")]. *)
Fixpoint split_bars (s : str) : list str :=
  match s with
  | [] => [[]]
  | c :: r =>
      match r with
      | d :: r' =>
          if (c =? 124) && (d =? 124) then [] :: split_bars r'
          else match split_bars r with w :: ws => (c :: w) :: ws | [] => [[c]] end
      | [] => [[c]]
      end
  end.

(** [s.split(c, 1)]: what precedes the first [c], and what follows it. *)
Fixpoint split_first (c : N) (s : str) : str * option str :=
  match s with
  | [] => ([], None)
  | d :: r => if d =? c then ([], Some r) else let '(a, b) := split_first c r in (d :: a, b)
  end.

(** [a < b] on [str]: by code points. *)
Fixpoint text_ltb (a b : str) : bool :=
  match a, b with
  | _, [] => false
  | [], _ :: _ => true
  | x :: a', y :: b' => (x <? y) || ((x =? y) && text_ltb a' b')
  end.

#[export] Instance text_strict_total : StrictTotal text_ltb.
Proof.
  split.
  - intros a. induction a as [|c a IH]; cbn; [done|]. by rewrite N.ltb_irrefl, N.eqb_refl, IH.
  - intros a. induction a as [|x a IH]; intros [|y b] [|z c]; cbn; try done.
    rewrite !orb_true_iff, !andb_true_iff, !N.ltb_lt, !N.eqb_eq.
    intros [Hxy|[-> Hab]] [Hyz|[-> Hbc]]; [left; lia|by left|by left|right; split; [done|by eapply IH]].
  - intros a. induction a as [|x a IH]; intros [|y b]; cbn; auto.
    destruct (N.lt_trichotomy x y) as [Hlt|[->|Hgt]].
    + left. by rewrite (proj2 (N.ltb_lt x y)).
    + rewrite N.ltb_irrefl, N.eqb_refl. cbn. destruct (IH b) as [|[->|]]; auto.
    + right. right. by rewrite (proj2 (N.ltb_lt y x)).
Qed.

(** ** The characters of a part are those of the whole *)

Section parts.
Context `{Unicode} (P : N -> Prop).

Lemma Forall_lstrip s : Forall P s -> Forall P (lstrip_space s).
Proof using.
  induction s as [|c s IH]; intros Hs; [done|]. cbn. destruct (is_space c); [|done].
  apply IH. by inversion Hs.
Qed.

Lemma Forall_strip s : Forall P s -> Forall P (strip s).
Proof using. intros Hs. by apply Forall_rev, Forall_lstrip, Forall_rev, Forall_lstrip. Qed.

Lemma Forall_split_at p s : Forall P s -> Forall (Forall P) (split_at p s).
Proof using.
  induction 1 as [|c s Hc _ IH]; cbn; [by constructor|].
  destruct (p c); [by constructor|]. destruct (split_at p s) as [|u us]; [by constructor; [constructor|]|].
  inversion IH; subst. by constructor; [constructor|].
Qed.

Lemma Forall_split_bars s : Forall P s -> Forall (Forall P) (split_bars s).
Proof using.
  remember (List.length s) as n eqn:En. revert s En. induction (lt_wf n) as [n _ IH]. intros s -> Hs.
  destruct Hs as [|c s Hc Hs]; [by constructor|]. destruct Hs as [|d s Hd Hs]; [by repeat constructor|].
  change (split_bars (c :: d :: s)) with (if (c =? 124) && (d =? 124) then [] :: split_bars s
    else match split_bars (d :: s) with w :: ws => (c :: w) :: ws | [] => [[c]] end).
  destruct (_ && _); [constructor; [done|]; eapply IH; [|done|done]; cbn; lia|].
  assert (IH' : Forall (Forall P) (split_bars (d :: s))) by (eapply IH; [|done|by constructor]; cbn; lia).
  destruct (split_bars (d :: s)) as [|u us]; [by repeat constructor|].
  inversion IH'; subst. by constructor; [constructor|].
Qed.
End parts.
