(* ===== verification/Properties.v ===== *)
(** * server.properties

    [servers/domain/server_properties.py]: the reader of a Java [.properties]
    file, the escapes it is written with, the in-place rewrites and the guard of
    the platform-managed keys.  Bytes and code points are [N]; a compiled pattern
    is the function its possessive quantifiers make it: what it consumes, or that
    it does not match.  An offset into the content is the suffix that starts
    there; the spans [_parse] returns are offsets again. *)
From Stdlib Require Import ZArith NArith Lia String Ascii.
From stdpp Require Import base gmap strings list pretty.
From S2P Require Import Prelude Text.

Open Scope N_scope.

Abbreviation bytes := (list N).
(** ** Characters *)

Definition is_bsl (c : N) : bool := c =? 92.
Definition is_lf (c : N) : bool := c =? 10.
Definition is_cr (c : N) : bool := c =? 13.
Definition is_eol (c : N) : bool := is_lf c || is_cr c.

(** [_BLANKS]: space, tab, form feed. *)
Definition is_blank (c : N) : bool := (c =? 32) || (c =? 9) || (c =? 12).

(** [=] and [:]. *)
Definition is_sep (c : N) : bool := (c =? 61) || (c =? 58).

(** [#] and [!]. *)
Definition is_comment (c : N) : bool := (c =? 35) || (c =? 33).

Definition is_hex (c : N) : bool :=
  ((48 <=? c) && (c <=? 57)) || ((65 <=? c) && (c <=? 70)) || ((97 <=? c) && (c <=? 102)).

Definition hex_val (c : N) : N :=
  if c <=? 57 then c - 48 else if c <=? 70 then c - 55 else c - 87.

(** ** bytes *)

(** The longest prefix of [p]-characters, and what follows: [\[p\]*+]. *)
Fixpoint span (p : N -> bool) (l : bytes) : bytes * bytes :=
  match l with
  | [] => ([], [])
  | c :: r => if p c then let '(a, b) := span p r in (c :: a, b) else ([], l)
  end.

Definition lstrip (p : N -> bool) (l : bytes) : bytes := (span p l).2.
Definition rstrip (p : N -> bool) (l : bytes) : bytes := rev (lstrip p (rev l)).

Fixpoint starts_with (p l : bytes) : bool :=
  match p, l with
  | [], _ => true
  | a :: p', b :: l' => (a =? b) && starts_with p' l'
  | _ :: _, [] => false
  end.

Definition ends_with (suffix l : bytes) : bool := starts_with (rev suffix) (rev l).

(** [p in l]. *)
Fixpoint has_sub (p l : bytes) : bool :=
  starts_with p l || match l with [] => false | _ :: l' => has_sub p l' end.

Definition LF : bytes := [10].
Definition CRLF : bytes := [13; 10].

(** ** The patterns *)

(** [(?:\r\n?+|\n)]: what follows the terminator. *)
Definition terminator (l : bytes) : option bytes :=
  match l with
  | [] => None
  | c :: r =>
      if is_cr c then match r with
                      | d :: r' => if is_lf d then Some r' else Some r
                      | [] => Some r
                      end
      else if is_lf c then Some r else None
  end.

(** [(?:[=:][ \t\f]*+)?+]. *)
Definition skip_separator (l : bytes) : bytes :=
  match l with
  | c :: r => if is_sep c then lstrip is_blank r else l
  | [] => l
  end.

(** [_PLAIN_PROPERTY]: key, value and what follows. *)
Definition _PLAIN_PROPERTY (l : bytes) : option (bytes * bytes * bytes) :=
  let key_char c := negb (is_bsl c || is_sep c || is_blank c || is_eol c) in
  match lstrip is_blank l with
  | [] => None
  | (c :: _) as l1 =>
      if key_char c && negb (is_comment c) then
        let '(key, l2) := span key_char l1 in
        let '(value, l3) := span (fun c => negb (is_bsl c || is_eol c))
                              (skip_separator (lstrip is_blank l2)) in
        match l3 with
        | [] => Some (key, value, [])
        | _ => match terminator l3 with Some l4 => Some (key, value, l4) | None => None end
        end
      else None
  end.

(** A run of a pattern that consumes at least one character: [(?:m)*+]. *)
Fixpoint star (m : bytes -> option bytes) (fuel : nat) (l : bytes) : bytes :=
  match fuel with
  | O => l
  | S fuel => match m l with Some l' => star m fuel l' | None => l end
  end.

(** One line of [_SKIPPED_LINES]. *)
Definition skipped_line (l : bytes) : option bytes :=
  let l1 := lstrip is_blank l in
  let l2 := match l1 with
            | c :: r => if is_comment c then lstrip (fun c => negb (is_eol c)) r else l1
            | [] => l1
            end in
  terminator l2.

(** One line of [_LONE_BACKSLASH_LINES]. *)
Definition lone_backslash_line (l : bytes) : option bytes :=
  match lstrip is_blank l with
  | c :: r => if is_bsl c then terminator r else None
  | [] => None
  end.

(** [(?:[^\\\r\n]++|\\[^\r\n])*+]. *)
Fixpoint units (l : bytes) : bytes :=
  match l with
  | [] => []
  | c :: r =>
      if is_bsl c then match r with
                       | d :: r' => if is_eol d then l else units r'
                       | [] => l
                       end
      else if is_eol c then l else units r
  end.

(** One line of [_CONTINUED_LINES]. *)
Definition continued_line (l : bytes) : option bytes :=
  match units l with
  | c :: r => if is_bsl c then terminator r else None
  | [] => None
  end.

Definition _match_end (m : bytes -> option bytes) (l : bytes) : bytes := star m (List.length l) l.

(** [_LINE_CONTINUATION.sub(b"", l)]; [skipping] inside a match's trailing blanks. *)
Fixpoint join_lines (skipping : bool) (l : bytes) : bytes :=
  match l with
  | [] => []
  | c :: r =>
      if skipping && is_blank c then join_lines true r
      else if is_bsl c then
        match r with
        | d :: r' =>
            if is_cr d then
              match r' with
              | e :: r'' => if is_lf e then join_lines true r'' else join_lines true r'
              | [] => []
              end
            else if is_lf d then join_lines true r'
            else c :: join_lines false r
        | [] => c :: join_lines false r
        end
      else c :: join_lines false r
  end.

(** The key of [_KEY_SEPARATOR]: [((?:[^\\=: \t\f]++|\\.?+)*+)]. *)
Fixpoint key_span (l : bytes) : bytes * bytes :=
  match l with
  | [] => ([], [])
  | c :: r =>
      if is_bsl c then
        match r with
        | d :: r' => let '(a, b) := key_span r' in (c :: d :: a, b)
        | [] => ([c], [])
        end
      else if is_sep c || is_blank c then ([], l)
      else let '(a, b) := key_span r in (c :: a, b)
  end.

(** ** Lines *)

Definition _natural_line (l : bytes) : bytes * bytes :=
  let '(text, r) := span (fun c => negb (is_eol c)) l in (text, default r (terminator r)).

Definition _ends_with_odd_backslash (line : bytes) : bool :=
  Nat.odd (List.length line - List.length (rstrip is_bsl line)).

(** ** Escapes *)

(** [_SIMPLE_ESCAPES]. *)
Definition simple_escape (c : N) : N :=
  if c =? 116 then 9 else if c =? 114 then 13 else if c =? 110 then 10
  else if c =? 102 then 12 else c.

(** [uXXXX] after a backslash. *)
Definition unicode_unit (l : str) : option N :=
  match l with
  | u :: a :: b :: c :: d :: _ =>
      if (u =? 117) && is_hex a && is_hex b && is_hex c && is_hex d
      then Some (((hex_val a * 16 + hex_val b) * 16 + hex_val c) * 16 + hex_val d)
      else None
  | _ => None
  end.

(** The low-surrogate escape that may follow one. *)
Definition low_unit (l : str) : option N :=
  match l with
  | s :: u :: a :: b :: _ =>
      if is_bsl s && ((a =? 100) || (a =? 68))
         && (((99 <=? b) && (b <=? 102)) || ((67 <=? b) && (b <=? 70)))
      then unicode_unit (tail l) else None
  | _ => None
  end.

(** One [_ESCAPE] match after its backslash, as [_unescape] reads it: the text,
    and how many characters past the backslash it covers. *)
Definition _unescape (l : str) : str * nat :=
  match unicode_unit l with
  | Some high =>
      match low_unit (drop 5 l) with
      | None => ([high], 5%nat)
      | Some low =>
          if (0xD800 <=? high) && (high <=? 0xDBFF)
          then ([0x10000 + N.shiftl (high - 0xD800) 10 + (low - 0xDC00)], 11%nat)
          else ([high; low], 11%nat)
      end
  | None =>
      match l with
      | c :: _ => ([simple_escape c], 1%nat)
      | [] => ([92], 0%nat)
      end
  end.

(** [_ESCAPE.sub(_unescape, text)]; [skip] characters belong to the last match. *)
Fixpoint sub_escapes (skip : nat) (text : str) : str :=
  match text with
  | [] => []
  | c :: r =>
      match skip with
      | S skip => sub_escapes skip r
      | O =>
          if is_bsl c then let '(out, n) := _unescape r in out ++ sub_escapes n r
          else c :: sub_escapes 0 r
      end
  end.

(** [_SIMPLE_ESCAPE.split], the escaped characters translated, joined again. *)
Fixpoint sub_simple (text : str) : str :=
  match text with
  | [] => []
  | c :: r =>
      if is_bsl c then match r with
                       | d :: r' => simple_escape d :: sub_simple r'
                       | [] => [c]
                       end
      else c :: sub_simple r
  end.

(** latin-1 decodes a byte as the code point of its value. *)
Definition _load_convert (raw : bytes) : str :=
  if negb (existsb is_bsl raw) then raw
  else if has_sub [92; 117] raw then sub_escapes 0 raw
  else sub_simple raw.

Definition _split_key_value (line : bytes) : str * str :=
  let '(key, r) := key_span line in
  (_load_convert key, _load_convert (skip_separator (lstrip is_blank r))).

(** ** [_parse] *)

Record _Property := { key : str; value : str; start : nat; end_ : nat }.

(** The offset at which the suffix [rest] of [content] starts. *)
Definition offset (content rest : bytes) : nat := (List.length content - List.length rest)%nat.

Definition is_lone (line : bytes) : bool := bool_decide (line = [92]).

Definition starts_comment (line : bytes) : bool :=
  match line with c :: _ => is_comment c | [] => false end.

Definition is_empty (l : bytes) : bool := match l with [] => true | _ => false end.

(** The natural line a logical line starts on, past a run of lone backslashes. *)
Definition start_line (rest : bytes) : bytes * bytes :=
  let '(line, rest) := _natural_line rest in
  let line := lstrip is_blank line in
  if is_lone line && negb (is_empty rest) then
    let rest := _match_end lone_backslash_line rest in
    if is_empty rest then (line, rest)
    else let '(line, rest) := _natural_line rest in (lstrip is_blank line, rest)
  else (line, rest).

(** The lines a line that ends in an odd backslash run continues onto. *)
Definition continue_line (line rest : bytes) : bytes * bytes :=
  let continued := _match_end continued_line rest in
  let '(lst, rest') := _natural_line continued in
  let lst := lstrip is_blank lst in
  let lst := if _ends_with_odd_backslash lst then removelast lst else lst in
  let middle := join_lines false (take (offset rest continued) rest) in
  (removelast line ++ lstrip is_blank middle ++ lst, rest').

Fixpoint parse_from (fuel : nat) (content rest : bytes) : list _Property :=
  match fuel, rest with
  | O, _ | _, [] => []
  | S fuel, _ =>
      match _PLAIN_PROPERTY rest with
      | Some (k, v, rest') =>
          {| key := k; value := v; start := offset content rest; end_ := offset content rest' |}
          :: parse_from fuel content rest'
      | None =>
          let '(line, rest1) := start_line rest in
          if is_lone line && ends_with CRLF content then parse_from fuel content rest1
          else if is_empty line || starts_comment line
          then parse_from fuel content (_match_end skipped_line rest1)
          else
            let '(line, rest1) := if _ends_with_odd_backslash line
                                  then continue_line line rest1 else (line, rest1) in
            let '(k, v) := _split_key_value line in
            {| key := k; value := v; start := offset content rest; end_ := offset content rest1 |}
            :: parse_from fuel content rest1
      end
  end.

(** Every turn of the loop consumes at least one byte. *)
Definition _parse (content : bytes) : list _Property :=
  parse_from (List.length content) content content.

(** ** Reading *)

Definition _normalize (content : bytes) : bytes :=
  if ends_with LF content then content else content ++ LF.

Definition _raw_values (content : bytes) (k : str) : list str :=
  map value (List.filter (fun p => bool_decide (p.(key) = k)) (_parse content)).

Definition _get_property (content : bytes) (k : str) : option str :=
  last (_raw_values content k).

(** ** Writing *)

(** The [out], [cursor] loop of the rewrites: [content] with spans replaced. *)
Fixpoint splice (content : bytes) (cursor : nat) (edits : list (nat * nat * bytes)) : bytes :=
  match edits with
  | [] => drop cursor content
  | (s, e, new) :: edits' =>
      take (s - cursor) (drop cursor content) ++ new ++ splice content e edits'
  end.

Definition _clear_property (content : bytes) (k : str) : bytes :=
  splice content 0 (map (fun p => (p.(start), p.(end_), []))
    (List.filter (fun p => bool_decide (p.(key) = k)) (_parse content))).

(** [_ESCAPES]. *)
Definition _ESCAPES (c : N) : option str :=
  if c =? 92 then Some [92; 92] else if c =? 10 then Some [92; 110]
  else if c =? 13 then Some [92; 114] else if c =? 9 then Some [92; 116]
  else if c =? 12 then Some [92; 102] else None.

Definition _SPECIALS (c : N) : bool := is_sep c || is_comment c || (c =? 32).

(** The UTF-16 units of a code point. *)
Definition utf16 (c : N) : list N :=
  if c <? 0x10000 then [c]
  else [0xD800 + N.shiftr (c - 0x10000) 10; 0xDC00 + N.land (c - 0x10000) 0x3FF].

Definition hex_digit (d : N) : N := if d <? 10 then 48 + d else 55 + d.

(** [\uXXXX], upper case. *)
Definition unit_escape (u : N) : str :=
  [92; 117; hex_digit (N.land (N.shiftr u 12) 15); hex_digit (N.land (N.shiftr u 8) 15);
   hex_digit (N.land (N.shiftr u 4) 15); hex_digit (N.land u 15)].

Definition _escape_char (c : N) : str :=
  match _ESCAPES c with
  | Some e => e
  | None => if (0x20 <=? c) && (c <=? 0x7E) then [c] else flat_map unit_escape (utf16 c)
  end.

Definition _escape_key (k : str) : str :=
  flat_map (fun c => if _SPECIALS c then [92; c] else _escape_char c) k.

Definition _escape_value (v : str) : str :=
  let escaped := flat_map _escape_char v in
  match v with
  | c :: _ => if _SPECIALS c then 92 :: escaped else escaped
  | [] => escaped
  end.

(** [.encode("latin-1")]: [None] stands for UnicodeEncodeError. *)
Definition latin1 (s : str) : option bytes :=
  if forallb (fun c => c <? 256) s then Some s else None.

Definition property_line (k v : str) : option bytes :=
  latin1 (_escape_key k ++ [61] ++ _escape_value v).

(** The edits of [_set_property]: the first match is replaced, the others go. *)
Definition set_edits (new_line : bytes) (matches : list _Property) : list (nat * nat * bytes) :=
  imap (fun i p => (p.(start), p.(end_), match i with O => new_line ++ LF | S _ => [] end)) matches.

Definition _set_property (content : bytes) (k v : str) : option bytes :=
  new_line ← property_line k v;
  match List.filter (fun p => bool_decide (p.(key) = k)) (_parse content) with
  | [] =>
      let content := if negb (is_empty content) && negb (ends_with LF content)
                     then content ++ LF else content in
      Some (content ++ new_line ++ LF)
  | matches => Some (_normalize (splice content 0 (set_edits new_line matches)))
  end.

(** [max(tail.rfind(b"\n"), tail.rfind(b"\r"))] and the slice after it. *)
Definition last_line (l : bytes) : bytes := rev (span (fun c => negb (is_eol c)) (rev l)).1.

Definition _ends_in_dangling_continuation (content : bytes) (props : list _Property) : bool :=
  match last props with
  | Some p =>
      if Nat.eqb p.(end_) (List.length content) then
        let tl := if ends_with CRLF content then take (List.length content - 2) content
                  else if ends_with LF content || ends_with [13] content
                  then take (List.length content - 1) content
                  else content in
        _ends_with_odd_backslash (lstrip is_blank (last_line tl))
      else false
  | None => false
  end.

(** [bytes.splitlines], without the line ends. *)
Fixpoint splitlines (l : bytes) : list bytes :=
  match l with
  | [] => []
  | c :: r =>
      if is_lf c then [] :: splitlines r
      else if is_cr c then
        match r with
        | d :: r' => if is_lf d then [] :: splitlines r' else [] :: splitlines r
        | [] => [[]]
        end
      else match splitlines r with
           | line :: lines => (c :: line) :: lines
           | [] => [[c]]
           end
  end.

Definition _continuation_end (content : bytes) (p : _Property) : bytes :=
  let lines := splitlines (take (p.(end_) - p.(start)) (drop p.(start) content)) in
  if forallb (fun line => is_lone (lstrip is_blank line)) lines then [61; 10] else LF.

(** The walk of [_rewrite] over the properties: its edits, the keys written. *)
Fixpoint rewrite_edits (lines : list (str * bytes)) (cleared : list str)
    (props : list _Property) (written : list str)
    : list (nat * nat * bytes) * list str :=
  match props with
  | [] => ([], written)
  | p :: props' =>
      match od_get p.(key) lines with
      | Some line =>
          if bool_decide (p.(key) ∈ written)
          then let '(edits, w) := rewrite_edits lines cleared props' written in
               ((p.(start), p.(end_), []) :: edits, w)
          else let '(edits, w) := rewrite_edits lines cleared props' (p.(key) :: written) in
               ((p.(start), p.(end_), line ++ LF) :: edits, w)
      | None =>
          if bool_decide (p.(key) ∈ cleared)
          then let '(edits, w) := rewrite_edits lines cleared props' written in
               ((p.(start), p.(end_), []) :: edits, w)
          else rewrite_edits lines cleared props' written
      end
  end.

(** Where the loop's cursor ends. *)
Definition final_cursor (edits : list (nat * nat * bytes)) : nat :=
  match last edits with Some (_, e, _) => e | None => O end.

Definition _rewrite (content : bytes) (props : list _Property) (values : list (str * str))
    (cleared : list str) : option bytes :=
  lines ← mapM (fun kv => line ← property_line kv.1 kv.2; Some (kv.1, line)) values;
  let '(edits, written) := rewrite_edits lines cleared props [] in
  let out := splice content 0 edits in
  let appended := List.filter (fun kl => negb (bool_decide (kl.1 ∈ written))) lines in
  match appended with
  | [] => Some out
  | _ =>
      let out := if negb (is_empty out) && negb (ends_with LF out) then out ++ LF else out in
      let out := match last props with
                 | Some p =>
                     if (final_cursor edits <? List.length content)%nat
                        && _ends_in_dangling_continuation content props
                     then out ++ _continuation_end content p else out
                 | None => out
                 end in
      Some (out ++ flat_map (fun kl => kl.2 ++ LF) appended)
  end.

(** ** The platform's keys *)

Definition _PORT_KEY : str := Eval compute in codes "server-port".
Definition _ENABLE_RCON_KEY : str := Eval compute in codes "enable-rcon".
Definition _RCON_PORT_KEY : str := Eval compute in codes "rcon.port".
Definition _RCON_PASSWORD_KEY : str := Eval compute in codes "rcon.password".
Definition _RESOURCE_PACK_KEY : str := Eval compute in codes "resource-pack".
Definition _RESOURCE_PACK_SHA1_KEY : str := Eval compute in codes "resource-pack-sha1".
Definition _REQUIRE_RESOURCE_PACK_KEY : str := Eval compute in codes "require-resource-pack".
Definition _RESOURCE_PACK_PROMPT_KEY : str := Eval compute in codes "resource-pack-prompt".

Definition RCON_PORT : Z := 25575.

Definition _RESOURCE_PACK_KEYS : list str :=
  [_RESOURCE_PACK_KEY; _RESOURCE_PACK_SHA1_KEY; _REQUIRE_RESOURCE_PACK_KEY; _RESOURCE_PACK_PROMPT_KEY].

(** The set, in the order [sorted] gives. *)
Definition PLATFORM_MANAGED_KEYS : list str :=
  [_ENABLE_RCON_KEY; _RCON_PASSWORD_KEY; _RCON_PORT_KEY; _REQUIRE_RESOURCE_PACK_KEY;
   _RESOURCE_PACK_KEY; _RESOURCE_PACK_PROMPT_KEY; _RESOURCE_PACK_SHA1_KEY; _PORT_KEY].

(** [str(n)] of an int. *)
Definition int_str (n : Z) : str := codes (pretty n).

Definition bool_str (b : bool) : str := if b then codes "true" else codes "false".

Definition set_server_port (content : bytes) (port : Z) : option bytes :=
  _set_property content _PORT_KEY (int_str port).

(** A missing or empty password. *)
Definition no_password (p : option str) : bool :=
  match p with Some (_ :: _) => false | _ => true end.

Definition set_rcon_properties (content : bytes) (password : str) : option bytes :=
  content ← _set_property content _ENABLE_RCON_KEY (codes "true");
  content ← _set_property content _RCON_PORT_KEY (int_str RCON_PORT);
  if no_password (_get_property content _RCON_PASSWORD_KEY)
  then _set_property content _RCON_PASSWORD_KEY password else Some content.

Record ResourcePackProperties := { rp_url : str; rp_sha1 : str; rp_require : bool; rp_prompt : option str }.

Definition set_resource_pack_properties (content : bytes) (url sha1 : str) (require : bool)
    (prompt : option str) : option bytes :=
  content ← _set_property content _RESOURCE_PACK_KEY url;
  content ← _set_property content _RESOURCE_PACK_SHA1_KEY sha1;
  content ← _set_property content _REQUIRE_RESOURCE_PACK_KEY (bool_str require);
  match prompt with
  | Some prompt => _set_property content _RESOURCE_PACK_PROMPT_KEY prompt
  | None => Some content
  end.

Fixpoint set_all (content : bytes) (overrides : list (str * str)) : option bytes :=
  match overrides with
  | [] => Some content
  | (k, v) :: overrides' => content ← _set_property content k v; set_all content overrides'
  end.

Definition apply_overrides (content : bytes) (overrides : list (str * str)) : option bytes :=
  content ← set_all content overrides; Some (_normalize content).

Definition remove_keys (content : bytes) (keys : list str) : option bytes :=
  content ← _rewrite content (_parse content) [] keys; Some (_normalize content).

Definition clear_resource_pack_properties (content : bytes) : option bytes :=
  content ← _rewrite content (_parse content) [] _RESOURCE_PACK_KEYS; Some (_normalize content).

(** The managed keys' values, collected in one pass. *)
Fixpoint collect_managed (props : list _Property) (values : list (str * list str))
    : list (str * list str) :=
  match props with
  | [] => values
  | p :: props' =>
      collect_managed props'
        (if bool_decide (p.(key) ∈ PLATFORM_MANAGED_KEYS)
         then od_set p.(key) (default [] (od_get p.(key) values) ++ [p.(value)]) values
         else values)
  end.

Definition _platform_managed_values (content : bytes) : list (str * list str) :=
  collect_managed (_parse content) [].

Definition changed_platform_managed_keys (current incoming : bytes) : list str :=
  if bool_decide (current = incoming) then []
  else
    let current_values := _platform_managed_values current in
    let incoming_values := _platform_managed_values incoming in
    List.filter (fun k => negb (bool_decide (default [] (od_get k current_values)
                                             = default [] (od_get k incoming_values))))
      PLATFORM_MANAGED_KEYS.

(** What [apply_platform_properties] sets and clears. *)
Definition platform_values (props : list _Property) (game_port : option Z) (rcon_password : str)
    (resource_pack : option ResourcePackProperties) : list (str * str) * list str :=
  let passwords := map value (List.filter (fun p => bool_decide (p.(key) = _RCON_PASSWORD_KEY)) props) in
  let own := match game_port with Some p => [(_PORT_KEY, int_str p)] | None => [] end
    ++ [(_ENABLE_RCON_KEY, codes "true"); (_RCON_PORT_KEY, int_str RCON_PORT)]
    ++ (if no_password (last passwords) then [(_RCON_PASSWORD_KEY, rcon_password)] else []) in
  match resource_pack with
  | None => (own, _RESOURCE_PACK_KEYS)
  | Some pack =>
      let own := own ++ [(_RESOURCE_PACK_KEY, pack.(rp_url)); (_RESOURCE_PACK_SHA1_KEY, pack.(rp_sha1));
                         (_REQUIRE_RESOURCE_PACK_KEY, bool_str pack.(rp_require))] in
      match pack.(rp_prompt) with
      | None => (own, [_RESOURCE_PACK_PROMPT_KEY])
      | Some prompt => (own ++ [(_RESOURCE_PACK_PROMPT_KEY, prompt)], [])
      end
  end.

Definition apply_platform_properties (content : bytes) (game_port : option Z) (rcon_password : str)
    (resource_pack : option ResourcePackProperties) : option bytes :=
  let props := _parse content in
  let '(values, cleared) := platform_values props game_port rcon_password resource_pack in
  content ← _rewrite content props values cleared;
  Some (_normalize content).
