(* ===== verification/PropertiesLoad.v ===== *)
(** * server.properties: the reader against its reference

    The reference reader takes the file line by line, the way
    [java.util.Properties.load] is specified: natural lines, leading blanks
    dropped, comments and blank lines skipped where a logical line starts, a line
    with an odd run of trailing backslashes continued.  [_parse], which scans in
    bulk, reads exactly the same properties over exactly the same spans. *)
From Stdlib Require Import ZArith NArith Lia String Ascii.
From stdpp Require Import base gmap strings list.
From S2P Require Import Prelude Text Properties.

Open Scope N_scope.

(** ** The reference *)

(** The natural lines: text and terminator; the last one may have none. *)
Fixpoint lines (l : bytes) : list (bytes * bytes) :=
  match l with
  | [] => []
  | c :: r =>
      if is_lf c then ([], [c]) :: lines r
      else if is_cr c then
        match r with
        | d :: r' => if is_lf d then ([], [c; d]) :: lines r' else ([], [c]) :: lines r
        | [] => [([], [c])]
        end
      else match lines r with
           | (t, e) :: ls => (c :: t, e) :: ls
           | [] => [([c], [])]
           end
  end.

Definition bytes_of (ls : list (bytes * bytes)) : bytes := flat_map (fun te => te.1 ++ te.2) ls.

(** What a stretch of the file holds: bytes, and the property they spell. *)
Definition segment : Type := bytes * option (str * str).

Definition property (raw line : bytes) : segment := (raw, Some (_split_key_value line)).

(** The end of the file, with [raw] read into a logical line that holds [text]. *)
Definition finish (raw text : bytes) : list segment :=
  if is_empty raw then []
  else if is_empty text && ends_with CRLF raw then [(raw, None)]
  else [property raw text].

Fixpoint read (raw text : bytes) (ls : list (bytes * bytes)) : list segment :=
  match ls with
  | [] => finish raw text
  | (t, e) :: ls' =>
      let line := lstrip is_blank t in
      let raw := raw ++ t ++ e in
      if is_empty text && (is_empty line || starts_comment line) then (raw, None) :: read [] [] ls'
      else if _ends_with_odd_backslash line then read raw (text ++ removelast line) ls'
      else property raw (text ++ line) :: read [] [] ls'
  end.

Definition load (content : bytes) : list segment := read [] [] (lines content).

(** The properties of the segments, with their spans. *)
Fixpoint located (off : nat) (segs : list segment) : list _Property :=
  match segs with
  | [] => []
  | (raw, o) :: segs' =>
      let next := (off + List.length raw)%nat in
      match o with
      | Some (k, v) => [{| key := k; value := v; start := off; end_ := next |}]
      | None => []
      end ++ located next segs'
  end.

(** ** Spans and blanks *)

Definition no_eol (l : bytes) : Prop := Forall (fun c => is_eol c = false) l.

Lemma span_spec p l : exists a b, span p l = (a, b) /\ l = a ++ b /\ Forall (fun c => p c = true) a
  /\ match b with c :: _ => p c = false | [] => True end.
Proof.
  induction l as [|c l IH]; cbn; [by exists [], []|].
  destruct (p c) eqn:E; [|by exists [], (c :: l)].
  destruct IH as (a & b & -> & -> & Ha & Hb). exists (c :: a), b. split_and!; [done..| |done].
  by constructor.
Qed.

Lemma lstrip_spec p l : exists a, l = a ++ lstrip p l /\ Forall (fun c => p c = true) a
  /\ match lstrip p l with c :: _ => p c = false | [] => True end.
Proof. destruct (span_spec p l) as (a & b & E & -> & H). exists a. unfold lstrip. by rewrite E. Qed.

Lemma span_app p a b : Forall (fun c => p c = true) a ->
  match b with c :: _ => p c = false | [] => True end -> span p (a ++ b) = (a, b).
Proof.
  intros Ha Hb. induction Ha as [|c a Hc Ha IH]; cbn.
  - destruct b as [|c b]; [done|]. cbn. by rewrite Hb.
  - by rewrite Hc, IH.
Qed.

Lemma lstrip_app p a b : Forall (fun c => p c = true) a -> lstrip p (a ++ b) = lstrip p b.
Proof.
  intros Ha. destruct (span_spec p b) as (b1 & b2 & E & -> & Hb1 & Hb2).
  unfold lstrip. rewrite app_assoc, (span_app p (a ++ b1) b2), E; [done|by apply Forall_app|done].
Qed.

Lemma lstrip_head p l : match l with c :: _ => p c = false | [] => True end -> lstrip p l = l.
Proof. destruct l as [|c l]; [done|]. unfold lstrip. cbn. by intros ->. Qed.

Lemma lstrip_idem p l : lstrip p (lstrip p l) = lstrip p l.
Proof. apply lstrip_head. destruct (lstrip_spec p l) as (a & _ & _ & H). done. Qed.

Lemma is_empty_true l : is_empty l = true <-> l = [].
Proof. by destruct l. Qed.

Lemma is_empty_false l : is_empty l = false <-> l <> [].
Proof. by destruct l. Qed.

(** A character test settled by computation on a known constant. *)
Ltac char_tests :=
  unfold is_eol, is_blank, is_sep, is_comment, is_lf, is_cr, is_bsl in *;
  repeat match goal with
  | H : (_ =? _) = true |- _ => apply N.eqb_eq in H
  | H : (_ || _) = true |- _ => apply orb_true_iff in H
  | H : (_ || _) = false |- _ => apply orb_false_iff in H as [? ?]
  | H : _ \/ _ |- _ => destruct H
  end; subst; try done.

Lemma blank_not_eol c : is_blank c = true -> is_eol c = false.
Proof. intros H. char_tests. Qed.

Lemma blank_not_bsl c : is_blank c = true -> is_bsl c = false.
Proof. intros H. char_tests. Qed.

Lemma bsl_not_eol c : is_bsl c = true -> is_eol c = false.
Proof. intros H. char_tests. Qed.

Lemma bsl_not_blank c : is_bsl c = true -> is_blank c = false.
Proof. intros H. char_tests. Qed.

Lemma bsl_92 c : is_bsl c = true <-> c = 92.
Proof. apply N.eqb_eq. Qed.

(** ** Natural lines *)

Lemma lines_terminated l r : terminator l = Some r ->
  exists e, l = e ++ r /\ e <> [] /\ Forall (fun c => is_eol c = true) e
    /\ forall t, no_eol t -> lines (t ++ l) = (t, e) :: lines r.
Proof.
  intros H. assert (exists e, l = e ++ r /\ e <> [] /\ Forall (fun c => is_eol c = true) e
    /\ lines l = ([], e) :: lines r) as (e & -> & He & Heol & Hl).
  { destruct l as [|c l]; [done|]. cbn in *. unfold is_eol.
    destruct (is_cr c) eqn:Ec.
    - assert (is_lf c = false) as -> by (apply N.eqb_eq in Ec; by subst).
      destruct l as [|d l]; [|destruct (is_lf d) eqn:Ed]; injection H as <-.
      + exists [c]. repeat constructor; [done|]. by rewrite Ec, orb_true_r.
      + exists [c; d]. repeat constructor; [done| |]; by rewrite ?Ec, ?Ed, ?orb_true_r.
      + exists [c]. repeat constructor; [done|]. by rewrite Ec, orb_true_r.
    - destruct (is_lf c) eqn:El; [|done]. injection H as <-. exists [c]. repeat constructor; [done|].
      by rewrite El. }
  exists e. split_and!; [done..|]. intros t Ht. induction Ht as [|c t Hc Ht IH]; [done|].
  cbn. unfold is_eol in Hc. apply orb_false_iff in Hc as [-> ->]. by rewrite IH.
Qed.

Lemma lines_last t : t <> [] -> no_eol t -> lines t = [(t, [])].
Proof.
  intros Hne Ht. induction Ht as [|c t Hc Ht IH]; [done|]. cbn. unfold is_eol in Hc.
  apply orb_false_iff in Hc as [-> ->]. destruct t as [|d t]; [done|]. by rewrite IH.
Qed.

Lemma terminator_None l : terminator l = None ->
  match l with c :: _ => is_eol c = false | [] => True end.
Proof.
  destruct l as [|c l]; cbn; [done|]. unfold is_eol. destruct (is_cr c) eqn:Ec.
  - destruct l as [|d l]; [done|]. by destruct (is_lf d).
  - by destruct (is_lf c).
Qed.

Lemma terminator_app e x y : e <> [] ->
  terminator (e ++ x ++ y) = Some (x ++ y) -> terminator (e ++ x) = Some x.
Proof.
  assert (Hlen : forall (a b : bytes), a = b -> List.length a = List.length b) by (by intros ? ? ->).
  destruct e as [|c [|d e]]; [done| |]; intros _; cbn [app terminator].
  - destruct (is_cr c), x as [|d x]; cbn [app]; try done;
      [|by destruct (is_lf c)..]. destruct (is_lf d); [|done].
    intros [= H%Hlen]. cbn in H. lia.
  - destruct (is_cr c); [destruct (is_lf d)|destruct (is_lf c); [|done]];
      intros [= H%Hlen]; rewrite ?length_app in H; cbn in H; rewrite ?length_app in H.
    + destruct e; [done|]. cbn in H. lia.
    + lia.
    + lia.
Qed.

(** A natural line of a non-empty rest: its text, its terminator, what follows. *)
Record natural (l t e r : bytes) : Prop := {
  nat_split : l = t ++ e ++ r;
  nat_text : no_eol t;
  nat_eol : Forall (fun c => is_eol c = true) e;
  nat_end : e = [] -> r = [];
  nat_lines : lines l = (t, e) :: lines r;
  nat_term : e <> [] -> terminator (e ++ r) = Some r
}.

Lemma natural_line l t r : l <> [] -> _natural_line l = (t, r) -> exists e, natural l t e r.
Proof.
  unfold _natural_line. intros Hne.
  destruct (span_spec (fun c => negb (is_eol c)) l) as (a & b & -> & -> & Ha & Hb). intros [= <- <-].
  assert (no_eol a). { eapply Forall_impl; [exact Ha|]. intros c ?. by apply negb_true_iff. }
  destruct (terminator b) as [r|] eqn:E; cbn.
  - destruct (lines_terminated b r E) as (e & -> & He & Heol & Hl). exists e.
    by split; [done|done|done|intros ->|apply Hl|].
  - apply terminator_None in E. destruct b as [|c b]; [|by rewrite E in Hb].
    rewrite app_nil_r in *. exists []. split; try done.
    + by rewrite app_nil_r.
    + by apply lines_last.
Qed.

Lemma natural_nil : _natural_line [] = ([], []).
Proof. done. Qed.

(** The terminated natural line a pattern of lines consumes. *)
Lemma natural_terminated t l r : no_eol t -> terminator l = Some r ->
  exists e, e <> [] /\ l = e ++ r /\ natural (t ++ l) t e r.
Proof.
  intros Ht H. destruct (lines_terminated l r H) as (e & -> & He & Heol & Hl). exists e.
  split; [done|]. split; [done|]. by split; [done|done|done|intros ->|apply Hl|].
Qed.

(** ** Backslash runs *)

(** Whether a backslash is left unpaired at the end, reading from the left. *)
Fixpoint unpaired (pending : bool) (l : bytes) : bool :=
  match l with
  | [] => pending
  | c :: r => unpaired (if pending then false else is_bsl c) r
  end.

Lemma unpaired_app b l1 l2 : unpaired b (l1 ++ l2) = unpaired (unpaired b l1) l2.
Proof. revert b. induction l1 as [|c l1 IH]; intros b; cbn; [done|apply IH]. Qed.

Lemma odd_unpaired l : _ends_with_odd_backslash l = unpaired false l.
Proof.
  unfold _ends_with_odd_backslash.
  assert (forall l', (List.length (rstrip is_bsl l') <= List.length l')%nat) as Hle.
  { intros l'. unfold rstrip. rewrite length_rev. destruct (lstrip_spec is_bsl (rev l')) as (a & E & _).
    rewrite <- (length_rev l'). rewrite E at 2. rewrite length_app. lia. }
  induction l as [|c l IH] using rev_ind; [done|].
  rewrite unpaired_app, <- IH. cbn [unpaired]. specialize (Hle l). unfold rstrip. rewrite rev_unit.
  unfold lstrip. cbn [span]. destruct (is_bsl c) eqn:E.
  - assert ((let '(a, b) := span is_bsl (rev l) in (c :: a, b)).2 = lstrip is_bsl (rev l)) as ->.
    { unfold lstrip. by destruct (span is_bsl (rev l)). }
    fold (rstrip is_bsl l). rewrite length_app. cbn [List.length].
    replace (List.length l + 1 - List.length (rstrip is_bsl l))%nat
      with (S (List.length l - List.length (rstrip is_bsl l))) by lia.
    rewrite Nat.odd_succ, <- Nat.negb_odd.
    change (rev (span is_bsl (rev l)).2) with (rstrip is_bsl l).
    by destruct (Nat.odd (List.length l - List.length (rstrip is_bsl l))).
  - cbn [snd rev]. rewrite rev_involutive, Nat.sub_diag.
    by destruct (Nat.odd (List.length l - _)).
Qed.

Lemma odd_snoc l : _ends_with_odd_backslash l = true -> l = removelast l ++ [92].
Proof.
  rewrite odd_unpaired. destruct l as [|c l _] using rev_ind; [done|].
  rewrite unpaired_app, removelast_last. cbn. destruct (unpaired false l); [done|].
  by intros ->%bsl_92.
Qed.

Lemma odd_lstrip t : _ends_with_odd_backslash (lstrip is_blank t) = _ends_with_odd_backslash t.
Proof.
  destruct (lstrip_spec is_blank t) as (a & E & Ha & _). rewrite E at 2.
  rewrite !odd_unpaired, unpaired_app. f_equal. clear E. symmetry.
  induction Ha as [|c a Hc Ha IH]; [done|]. cbn. by rewrite blank_not_bsl.
Qed.

Lemma no_bsl_even l : existsb is_bsl l = false -> _ends_with_odd_backslash l = false.
Proof.
  rewrite odd_unpaired. induction l as [|c l IH]; [done|]. cbn.
  intros [-> H]%orb_false_iff. by apply IH.
Qed.

Lemma units_text t rest : no_eol t ->
  match rest with c :: _ => is_eol c = true | [] => True end ->
  units (t ++ rest) = if unpaired false t then 92 :: rest else rest.
Proof.
  intros Ht Hrest. remember (List.length t) as n eqn:En. revert t Ht En.
  induction (lt_wf n) as [n _ IH]. intros t Ht ->. destruct t as [|c t].
  - cbn. destruct rest as [|d rest]; [done|]. cbn.
    assert (is_bsl d = false) as ->. { destruct (is_bsl d) eqn:E; [|done]. by rewrite bsl_not_eol in Hrest. }
    by rewrite Hrest.
  - inversion Ht as [|? ? Hc Ht']; subst. cbn [app units unpaired]. destruct (is_bsl c) eqn:Ec.
    + destruct t as [|d t]; cbn [app unpaired].
      * apply bsl_92 in Ec as ->. destruct rest as [|d rest]; [done|]. by rewrite Hrest.
      * inversion Ht' as [|? ? Hd Ht'']; subst. rewrite Hd. eapply IH; [|done|done]. cbn. lia.
    + rewrite Hc. eapply IH; [|done|done]. cbn. lia.
Qed.

(** ** The runs of lines *)

(** The terminated line a pattern consumes. *)
Definition consumes (l : bytes) (t e r : bytes) : Prop := natural l t e r /\ e <> [].

Lemma skipped_line_spec l r : skipped_line l = Some r ->
  exists t e, consumes l t e r /\
    (is_empty (lstrip is_blank t) || starts_comment (lstrip is_blank t)) = true.
Proof.
  unfold skipped_line. destruct (lstrip_spec is_blank l) as (a & El & Ha & Hh).
  assert (Hna : no_eol a) by (eapply Forall_impl; [exact Ha|]; apply blank_not_eol).
  destruct (lstrip is_blank l) as [|c l1] eqn:E1; [done|]. destruct (is_comment c) eqn:Ec.
  - destruct (lstrip_spec (fun c => negb (is_eol c)) l1) as (b & Eb & Hb & _). intros H.
    assert (Hnb : no_eol b). { eapply Forall_impl; [exact Hb|]. intros d ?. by apply negb_true_iff. }
    assert (no_eol (a ++ c :: b)) as Ht.
    { apply Forall_app. split; [done|]. constructor; [by char_tests|done]. }
    destruct (natural_terminated (a ++ c :: b) _ r Ht H) as (e & He & _ & Hn).
    exists (a ++ c :: b), e. split.
    + split; [|done]. rewrite El, Eb. by rewrite <- app_assoc in Hn.
    + rewrite lstrip_app by done. rewrite lstrip_head by done. cbn. by rewrite Ec.
  - intros H. destruct (natural_terminated a _ r Hna H) as (e & He & _ & Hn). exists a, e. split.
    + split; [|done]. by rewrite El.
    + rewrite <- (app_nil_r a), lstrip_app by done. done.
Qed.

Lemma lone_line_spec l r : lone_backslash_line l = Some r ->
  exists t e, consumes l t e r /\ lstrip is_blank t = [92].
Proof.
  unfold lone_backslash_line. destruct (lstrip_spec is_blank l) as (a & El & Ha & Hh).
  destruct (lstrip is_blank l) as [|c l1] eqn:E1; [done|].
  destruct (is_bsl c) eqn:Ec; [|done]. apply bsl_92 in Ec as ->. intros H.
  assert (no_eol (a ++ [92])) as Ht.
  { apply Forall_app. split; [eapply Forall_impl; [exact Ha|]; apply blank_not_eol|by repeat constructor]. }
  destruct (natural_terminated _ _ r Ht H) as (e & He & _ & Hn). exists (a ++ [92]), e. split.
  - split; [|done]. rewrite El. by rewrite <- app_assoc in Hn.
  - by rewrite lstrip_app.
Qed.

Lemma lone_line_None l t e r : natural l t e r -> lone_backslash_line l = None ->
  lstrip is_blank t = [92] -> e = [].
Proof.
  intros Hn Hnone Hl. destruct e as [|c e]; [done|]. exfalso.
  destruct (lstrip_spec is_blank t) as (a & Et & Ha & _). rewrite Hl in Et.
  pose proof (nat_term _ _ _ _ Hn ltac:(done)) as Hterm.
  unfold lone_backslash_line in Hnone. rewrite (nat_split _ _ _ _ Hn), Et, <- app_assoc in Hnone.
  rewrite lstrip_app, lstrip_head in Hnone by done. change (is_bsl 92) with true in Hnone. cbn iota in Hnone.
  cbn [app] in Hnone, Hterm. by rewrite Hterm in Hnone.
Qed.

Lemma continued_line_spec l t e r : natural l t e r ->
  continued_line l = if _ends_with_odd_backslash t && negb (is_empty e) then Some r else None.
Proof.
  intros Hn. unfold continued_line. rewrite (nat_split _ _ _ _ Hn).
  rewrite units_text; [|by eapply nat_text|].
  - rewrite <- odd_unpaired. destruct e as [|c e].
    + rewrite (nat_end _ _ _ _ Hn eq_refl). by destruct (_ends_with_odd_backslash t).
    + pose proof (nat_term _ _ _ _ Hn ltac:(done)) as Hterm. destruct (_ends_with_odd_backslash t).
      * cbn [is_empty negb andb]. change (is_bsl 92) with true. cbn iota. done.
      * cbn [app]. pose proof (nat_eol _ _ _ _ Hn) as Heol. inversion Heol; subst.
        destruct (is_bsl c) eqn:Ec; [|done]. by rewrite bsl_not_eol in H1.
  - destruct e as [|c e]; [by rewrite (nat_end _ _ _ _ Hn eq_refl)|].
    pose proof (nat_eol _ _ _ _ Hn) as Heol. by inversion Heol.
Qed.

(** A run consumes some lines, and stops where the pattern no longer matches. *)
Section Run.
Context (m : bytes -> option bytes) (P : bytes -> bytes -> Prop).
Context (Hm : forall l r, m l = Some r -> exists t e, consumes l t e r /\ P t e).

Inductive lines_run : bytes -> list (bytes * bytes) -> bytes -> Prop :=
| run_stop l : m l = None -> lines_run l [] l
| run_line l t e r ls l' : consumes l t e r -> P t e -> lines_run r ls l' ->
    lines_run l ((t, e) :: ls) l'.

Lemma star_run fuel l : (List.length l <= fuel)%nat -> exists ls, lines_run l ls (star m fuel l).
Proof.
  revert l. induction fuel as [|fuel IH]; intros l Hl.
  - destruct l; [|cbn in Hl; lia]. exists []. cbn. constructor. destruct (m []) as [r|] eqn:E; [|done].
    apply Hm in E as (t & e & [Hn He] & _). pose proof (nat_split _ _ _ _ Hn) as Hs.
    destruct t, e; done.
  - cbn. destruct (m l) as [r|] eqn:E; [|exists []; by constructor].
    destruct (Hm l r E) as (t & e & Hc & HP). destruct (IH r) as [ls Hls].
    + destruct Hc as [Hn He]. pose proof (nat_split _ _ _ _ Hn) as ->.
      rewrite !length_app in Hl. destruct e; [done|]. cbn in Hl. lia.
    + exists ((t, e) :: ls). by econstructor.
Qed.

Lemma match_end_run l : exists ls, lines_run l ls (_match_end m l).
Proof. by apply star_run. Qed.

Lemma run_split l ls l' : lines_run l ls l' ->
  l = bytes_of ls ++ l' /\ lines l = ls ++ lines l' /\ m l' = None.
Proof.
  induction 1 as [l H|l t e r ls l' [Hn He] HP _ (IH1 & IH2 & IH3)]; [done|].
  split_and!; [|by rewrite (nat_lines _ _ _ _ Hn), IH2|done].
  rewrite (nat_split _ _ _ _ Hn), IH1. cbn. by rewrite !app_assoc.
Qed.
End Run.

Lemma offset_suffix pre l : offset (pre ++ l) l = List.length pre.
Proof. unfold offset. rewrite length_app. lia. Qed.

(** Skipped lines locate nothing. *)
Lemma skipped_run l ls l' off :
  lines_run skipped_line (fun t _ =>
    (is_empty (lstrip is_blank t) || starts_comment (lstrip is_blank t)) = true) l ls l' ->
  located off (read [] [] (lines l)) =
  located (off + List.length (bytes_of ls)) (read [] [] (lines l')).
Proof.
  intros H. revert off. induction H as [l H|l t e r ls l' [Hn He] HP _ IH]; intros off.
  - cbn. by rewrite Nat.add_0_r.
  - rewrite (nat_lines _ _ _ _ Hn). cbn [read app]. cbn [is_empty andb]. rewrite HP. cbn [located app].
    rewrite IH. cbn [bytes_of flat_map fst snd]. fold (bytes_of ls). rewrite !length_app. f_equal. lia.
Qed.

(** A run of lone backslashes stays at the start of the logical line. *)
Lemma lone_run l ls l' raw :
  lines_run lone_backslash_line (fun t _ => lstrip is_blank t = [92]) l ls l' ->
  read raw [] (lines l) = read (raw ++ bytes_of ls) [] (lines l').
Proof.
  intros H. revert raw. induction H as [l H|l t e r ls l' [Hn He] HP _ IH]; intros raw.
  - cbn. by rewrite app_nil_r.
  - rewrite (nat_lines _ _ _ _ Hn). cbn [read]. rewrite HP. cbn [is_empty starts_comment].
    change (is_comment 92) with false. cbn [orb andb].
    change (_ends_with_odd_backslash [92]) with true. cbn iota.
    cbn [removelast app]. rewrite IH. cbn [bytes_of flat_map fst snd]. by rewrite <- !app_assoc.
Qed.

(** *** Joining continued lines *)

Lemma join_blanks l : join_lines true l = join_lines false (lstrip is_blank l).
Proof.
  destruct (lstrip_spec is_blank l) as (a & E & Ha & Hh). rewrite E at 1. clear E.
  induction Ha as [|c a Hc Ha IH]; cbn [app].
  - destruct (lstrip is_blank l) as [|c r]; [done|]. cbn. by rewrite Hh.
  - cbn [join_lines andb]. by rewrite Hc.
Qed.

Lemma join_eol l r e : terminator l = Some r -> join_lines e (92 :: l) = join_lines true r.
Proof.
  intros H. cbn [join_lines]. change (is_blank 92) with false. rewrite andb_false_r.
  change (is_bsl 92) with true. cbn iota. destruct l as [|d l]; [done|]. cbn in H |- *.
  destruct (is_cr d); [|by destruct (is_lf d); [injection H as ->|]].
  destruct l as [|f l]; [by injection H as <-|]. by destruct (is_lf f); injection H as <-.
Qed.

(** A text before an unpaired backslash is kept as it stands. *)
Lemma join_text w l r : no_eol w -> terminator l = Some r ->
  join_lines false (w ++ 92 :: l) = w ++ join_lines true r.
Proof.
  intros Hw H. induction Hw as [|c w Hc Hw IH]; [by apply join_eol|].
  cbn [app join_lines andb]. rewrite IH. destruct (is_bsl c); [|done].
  assert (forall d x, w ++ 92 :: l = d :: x -> is_cr d = false /\ is_lf d = false) as Hd.
  { intros d x. destruct Hw as [|f w' Hf _]; intros [= <- _]; [done|].
    unfold is_eol in Hf. by apply orb_false_iff in Hf as [-> ->]. }
  destruct (w ++ 92 :: l) as [|d x] eqn:E; [by destruct w|].
  destruct (Hd d x eq_refl) as [-> ->]. done.
Qed.

Lemma lstrip_join l : lstrip is_blank (join_lines true l) = join_lines true l.
Proof.
  remember (List.length l) as n eqn:En. revert l En. induction (lt_wf n) as [n _ IH]. intros l ->.
  rewrite join_blanks. pose proof (lstrip_spec is_blank l) as (a & E & _ & Hh).
  assert (Hlen : (List.length (lstrip is_blank l) <= List.length l)%nat).
  { rewrite E at 2. rewrite length_app. lia. }
  destruct (lstrip is_blank l) as [|c r]; [done|]. cbn in Hlen.
  destruct (is_bsl c) eqn:Ec; [|cbn; rewrite Ec; by apply lstrip_head].
  apply bsl_92 in Ec as ->. destruct (terminator r) as [r'|] eqn:Et.
  - rewrite (join_eol r r') by done. eapply IH; [|done].
    destruct (lines_terminated r r' Et) as (e & -> & He & _). rewrite length_app in Hlen.
    destruct e; [done|]. cbn in Hlen. lia.
  - cbn. apply terminator_None in Et. destruct r as [|d r]; [done|].
    unfold is_eol in Et. apply orb_false_iff in Et as [-> ->]. by apply lstrip_head.
Qed.

Lemma lstrip_join_false l : lstrip is_blank (join_lines false l) = join_lines true l.
Proof.
  rewrite <- lstrip_join, join_blanks. destruct (lstrip_spec is_blank l) as (a & E & Ha & _).
  rewrite E at 1. clear E. induction Ha as [|c a Hc Ha IH]; [done|].
  cbn [app join_lines andb]. rewrite blank_not_bsl by done.
  change (c :: join_lines false (a ++ lstrip is_blank l))
    with ([c] ++ join_lines false (a ++ lstrip is_blank l)).
  rewrite lstrip_app by (by constructor). exact IH.
Qed.

(** A run of continued lines: the texts joined, blanks before each dropped. *)
Lemma continued_run l ls l' raw text :
  lines_run continued_line (fun t e => _ends_with_odd_backslash t = true) l ls l' ->
  text <> [] ->
  read raw text (lines l) =
  read (raw ++ bytes_of ls) (text ++ lstrip is_blank (join_lines false (bytes_of ls))) (lines l').
Proof.
  intros H. revert raw text. induction H as [l H|l t e r ls l' [Hn He] HP Hrun IH]; intros raw text Ht.
  - cbn. by rewrite !app_nil_r.
  - rewrite (nat_lines _ _ _ _ Hn). cbn [read]. rewrite (proj2 (is_empty_false text) Ht). cbn [andb].
    rewrite odd_lstrip, HP. rewrite IH by (by destruct text).
    cbn [bytes_of flat_map fst snd]. f_equal; [by rewrite <- !app_assoc|].
    fold (bytes_of ls). rewrite <- !app_assoc. f_equal.
    destruct (run_split _ _ _ _ _ Hrun) as (Hr & _ & _).
    assert (Hterm : terminator (e ++ bytes_of ls) = Some (bytes_of ls)).
    { apply (terminator_app e _ l' He). rewrite <- Hr. by apply (nat_term _ _ _ _ Hn). }
    rewrite !lstrip_join_false.
    destruct (lstrip_spec is_blank t) as (a & Et & Ha & Hh).
    assert (Hodd : _ends_with_odd_backslash (lstrip is_blank t) = true) by (by rewrite odd_lstrip).
    rewrite (odd_snoc _ Hodd) in Et. set (u := removelast (lstrip is_blank t)) in *.
    rewrite <- (lstrip_join_false (t ++ e ++ bytes_of ls)), Et, <- !app_assoc. cbn [app].
    assert (no_eol (a ++ u)) as Hau.
    { pose proof (nat_text _ _ _ _ Hn) as Htext. unfold no_eol in Htext.
      rewrite Et, app_assoc in Htext. by apply Forall_app in Htext as [? _]. }
    rewrite app_assoc, (join_text _ _ _ Hau Hterm), <- app_assoc, lstrip_app by done.
    destruct u as [|c u'] eqn:Eu; [symmetry; apply lstrip_join|].
    rewrite lstrip_head; [done|]. rewrite (odd_snoc _ Hodd) in Hh. unfold u in Eu.
    rewrite Eu in Hh. exact Hh.
Qed.

(** ** The equivalence *)

Lemma ends_with_app s a b : (List.length s <= List.length b)%nat ->
  ends_with s (a ++ b) = ends_with s b.
Proof.
  unfold ends_with. rewrite rev_app_distr, <- (length_rev s), <- (length_rev b).
  generalize (rev s) (rev b) (rev a). clear. intros s b a. revert b.
  induction s as [|c s IH]; intros b Hl; [done|]. destruct b as [|d b]; cbn in *; [lia|].
  f_equal. apply IH. lia.
Qed.

Lemma ends_with_CRLF_short a : ends_with CRLF (a ++ [92]) = false.
Proof. unfold ends_with. by rewrite rev_unit. Qed.

Lemma lone_crlf t x pre : lstrip is_blank t = [92] ->
  ends_with CRLF (pre ++ t ++ x) = ends_with CRLF (t ++ x).
Proof.
  intros Hl. destruct (lstrip_spec is_blank t) as (a & E & _). rewrite Hl in E. subst t.
  destruct a as [|c a], x as [|d x].
  - cbn [app]. by rewrite ends_with_CRLF_short.
  - apply ends_with_app. cbn. lia.
  - apply ends_with_app. rewrite !length_app. cbn. lia.
  - apply ends_with_app. rewrite !length_app. cbn. lia.
Qed.

(** A line that is a lone backslash continues onto whatever follows. *)
Lemma read_lone raw t e ls : lstrip is_blank t = [92] ->
  read raw [] ((t, e) :: ls) = read (raw ++ t ++ e) [] ls.
Proof. intros H. cbn [read]. by rewrite H. Qed.

(** Where the logical line of [rest] starts: on a line of its own, or nowhere but
    in lone backslashes up to the end of the file. *)
Inductive starts_at (rest : bytes) : bytes -> bytes -> Prop :=
| starts_line raw t e rest1 :
    rest = raw ++ t ++ e ++ rest1 -> no_eol t -> (e = [] -> rest1 = []) ->
    lstrip is_blank t <> [92] ->
    read [] [] (lines rest) = read raw [] ((t, e) :: lines rest1) ->
    starts_at rest (lstrip is_blank t) rest1
| starts_lone :
    (forall pre, ends_with CRLF (pre ++ rest) = ends_with CRLF rest) ->
    read [] [] (lines rest) = finish rest [] ->
    starts_at rest [92] [].

Lemma start_line_spec rest line rest1 : rest <> [] -> start_line rest = (line, rest1) ->
  starts_at rest line rest1.
Proof.
  intros Hne. unfold start_line. destruct (_natural_line rest) as [t r] eqn:En.
  destruct (natural_line _ _ _ Hne En) as (e & Hn).
  pose proof (nat_split _ _ _ _ Hn) as Hs. pose proof (nat_lines _ _ _ _ Hn) as Hl.
  unfold is_lone. case_bool_decide as Hlone; cbn [andb].
  2:{ intros [= <- <-]. apply (starts_line rest [] t e r); [done|apply Hn|apply Hn|done|by rewrite Hl]. }
  destruct r as [|c r'] eqn:Er; cbn [is_empty negb].
  { intros [= <- <-]. rewrite Hlone. apply starts_lone.
    - intros pre. rewrite Hs. by apply lone_crlf.
    - rewrite Hl, read_lone by done. cbn [read lines]. by rewrite Hs, app_nil_r. }
  rewrite <- Er in *. clear Er r' c.
  destruct (match_end_run _ (fun t _ => lstrip is_blank t = [92]) lone_line_spec r) as [ls Hrun].
  destruct (run_split _ _ _ _ _ Hrun) as (Hsplit & _ & Hstop).
  assert (Hread : read [] [] (lines rest)
    = read (t ++ e ++ bytes_of ls) [] (lines (_match_end lone_backslash_line r))).
  { rewrite Hl, read_lone by done. rewrite (lone_run _ _ _ _ Hrun). by rewrite app_nil_l, <- app_assoc. }
  assert (Hcrlf : forall pre, ends_with CRLF (pre ++ rest) = ends_with CRLF rest).
  { intros pre. rewrite Hs. by apply lone_crlf. }
  destruct (_match_end lone_backslash_line r) as [|c rest2'] eqn:E2; cbn [is_empty].
  { intros [= <- <-]. rewrite Hlone. apply starts_lone; [done|].
    rewrite Hread, Hs, Hsplit, app_nil_r. done. }
  rewrite <- E2 in *. assert (Hne2 : _match_end lone_backslash_line r <> []) by (by rewrite E2).
  clear E2 rest2' c. destruct (_natural_line (_match_end lone_backslash_line r)) as [t2 r2] eqn:En2.
  destruct (natural_line _ _ _ Hne2 En2) as (e2 & Hn2). intros [= <- <-].
  pose proof (nat_split _ _ _ _ Hn2) as Hs2. rewrite (nat_lines _ _ _ _ Hn2) in Hread.
  destruct (decide (lstrip is_blank t2 = [92])) as [Hl2|Hl2].
  - pose proof (lone_line_None _ _ _ _ Hn2 Hstop Hl2) as ->.
    pose proof (nat_end _ _ _ _ Hn2 eq_refl) as ->. rewrite Hl2. apply starts_lone; [done|].
    rewrite Hread, read_lone by done. cbn [read lines].
    by rewrite Hs, Hsplit, Hs2, !app_nil_r, <- !app_assoc.
  - apply (starts_line rest (t ++ e ++ bytes_of ls) t2 e2 r2); [|apply Hn2|apply Hn2|done|done].
    by rewrite Hs, Hsplit, Hs2, <- !app_assoc.
Qed.

Lemma continued_consumes l r : continued_line l = Some r ->
  exists t e, consumes l t e r /\ _ends_with_odd_backslash t = true.
Proof.
  intros H. destruct l as [|c l'] eqn:El; [done|]. rewrite <- El in *.
  assert (Hne : l <> []) by (by rewrite El). clear El. destruct (_natural_line l) as [t r'] eqn:En.
  destruct (natural_line _ _ _ Hne En) as (e & Hn). rewrite (continued_line_spec _ _ _ _ Hn) in H.
  destruct (_ && _) eqn:E; [|done]. injection H as <-. apply andb_true_iff in E as [Ho He].
  exists t, e. split; [|done]. split; [done|]. by intros ->.
Qed.

(** The lines an odd backslash run continues onto. *)
Lemma continue_line_spec raw line rest1 line' rest' :
  line <> [92] -> _ends_with_odd_backslash line = true -> raw <> [] ->
  continue_line line rest1 = (line', rest') ->
  exists raw', rest1 = raw' ++ rest'
    /\ read raw (removelast line) (lines rest1) = property (raw ++ raw') line' :: read [] [] (lines rest').
Proof.
  intros Hne Hodd Hraw. assert (Htext : removelast line <> []).
  { intros H. apply Hne. by rewrite (odd_snoc _ Hodd), H. }
  unfold continue_line.
  destruct (match_end_run _ _ continued_consumes rest1) as [ls Hrun].
  destruct (run_split _ _ _ _ _ Hrun) as (Hsplit & _ & Hstop).
  rewrite (continued_run _ _ _ raw _ Hrun Htext).
  set (cont := _match_end continued_line rest1) in *.
  assert (take (offset rest1 cont) rest1 = bytes_of ls) as ->.
  { rewrite Hsplit, offset_suffix. by rewrite take_app_length. }
  set (mid := lstrip is_blank (join_lines false (bytes_of ls))).
  assert (Hne' : removelast line ++ mid <> []) by (by intros [? _]%app_eq_nil).
  destruct (_natural_line cont) as [t r] eqn:En. intros [= <- <-].
  destruct cont as [|c cont'] eqn:Ec.
  - cbn in En. injection En as <- <-. exists (bytes_of ls). rewrite app_nil_r in Hsplit.
    rewrite app_nil_r. split; [done|]. cbn [read lines lstrip span snd].
    rewrite !app_nil_r. unfold finish.
    rewrite (proj2 (is_empty_false (raw ++ bytes_of ls))) by (by intros [? _]%app_eq_nil).
    by rewrite (proj2 (is_empty_false _) Hne').
  - rewrite <- Ec in *. assert (Hc : cont <> []) by (by rewrite Ec). clear Ec cont' c.
    destruct (natural_line _ _ _ Hc En) as (e & Hn).
    pose proof (continued_line_spec _ _ _ _ Hn) as Hcl. rewrite Hstop in Hcl.
    pose proof (nat_split _ _ _ _ Hn) as Hs.
    rewrite (nat_lines _ _ _ _ Hn). cbn [read].
    rewrite (proj2 (is_empty_false _) Hne'). cbn [andb].
    exists (bytes_of ls ++ t ++ e). split; [by rewrite Hsplit, Hs, <- !app_assoc|].
    rewrite odd_lstrip. destruct (_ends_with_odd_backslash t) eqn:Eo.
    + destruct e; [|done]. rewrite (nat_end _ _ _ _ Hn eq_refl). cbn [read lines finish].
      rewrite app_nil_r. unfold finish.
      rewrite (proj2 (is_empty_false _)) by (by intros [[? _]%app_eq_nil _]%app_eq_nil).
      rewrite (proj2 (is_empty_false _)) by (by intros [? _]%app_eq_nil).
      by rewrite <- !app_assoc.
    + by rewrite <- !app_assoc.
Qed.

(** The separator and what is left of it. *)
Definition value_head (sep v : bytes) : Prop :=
  match v with c :: _ => is_blank c = false /\ (sep = [] -> is_sep c = false) | [] => True end.

Lemma skip_separator_spec l : match l with c :: _ => is_blank c = false | [] => True end ->
  exists s, l = s ++ skip_separator l
    /\ Forall (fun c => is_sep c || is_blank c = true) s
    /\ value_head s (skip_separator l)
    /\ forall v, value_head s v -> skip_separator (s ++ v) = v /\ lstrip is_blank (s ++ v) = s ++ v.
Proof.
  assert (Hnone : forall v, value_head [] v ->
    skip_separator ([] ++ v) = v /\ lstrip is_blank ([] ++ v) = [] ++ v).
  { intros [|d v]; cbn; [done|]. intros [Hd Hs]. rewrite Hs by done. split; [done|]. by apply lstrip_head. }
  intros Hl. destruct l as [|c l]; [by exists []|]. cbn. destruct (is_sep c) eqn:Ec; [|by exists []].
  destruct (lstrip_spec is_blank l) as (b & E & Hb & Hh). exists (c :: b). split_and!.
  - cbn. by rewrite <- E.
  - constructor; [by rewrite Ec|]. eapply Forall_impl; [exact Hb|]. intros d ->. by rewrite orb_true_r.
  - by destruct (lstrip is_blank l).
  - intros v Hv. cbn. rewrite Ec, lstrip_app by done. split; [|by apply lstrip_head].
    apply lstrip_head. destruct v; [done|]. apply Hv.
Qed.

Lemma key_span_plain k x : Forall (fun c => negb (is_bsl c || is_sep c || is_blank c || is_eol c) = true) k ->
  match x with c :: _ => is_bsl c = false /\ is_sep c || is_blank c = true | [] => True end ->
  key_span (k ++ x) = (k, x).
Proof.
  intros Hk Hx. induction Hk as [|c k Hc Hk IH]; cbn [app].
  - destruct x as [|d x]; [done|]. cbn. by destruct Hx as [-> ->].
  - cbn. apply negb_true_iff, orb_false_iff in Hc as [Hc _].
    apply orb_false_iff in Hc as [Hc Hb]. apply orb_false_iff in Hc as [-> Hs]. by rewrite Hs, Hb, IH.
Qed.

Lemma existsb_app_false (p : N -> bool) a b :
  existsb p (a ++ b) = false <-> existsb p a = false /\ existsb p b = false.
Proof. rewrite existsb_app. apply orb_false_iff. Qed.

Lemma no_bsl_forall l : Forall (fun c => is_bsl c = false) l -> existsb is_bsl l = false.
Proof. induction 1 as [|c l Hc _ IH]; [done|]. cbn. by rewrite Hc. Qed.

Lemma load_convert_plain l : existsb is_bsl l = false -> _load_convert l = l.
Proof. unfold _load_convert. by intros ->. Qed.

(** A line of plain text is read the same way by the general path. *)
Lemma plain_spec l k v r : _PLAIN_PROPERTY l = Some (k, v, r) ->
  exists t e, natural l t e r /\ t <> [] /\
    is_empty (lstrip is_blank t) || starts_comment (lstrip is_blank t) = false /\
    _ends_with_odd_backslash (lstrip is_blank t) = false /\
    _split_key_value (lstrip is_blank t) = (k, v).
Proof.
  unfold _PLAIN_PROPERTY. destruct (lstrip_spec is_blank l) as (a & El & Ha & Hh).
  destruct (lstrip is_blank l) as [|c l1'] eqn:E1; [done|]. destruct (_ && _) eqn:Ec; [|done].
  apply andb_true_iff in Ec as [Hkc Hcc]. apply negb_true_iff in Hcc.
  set (kp := fun c => negb (is_bsl c || is_sep c || is_blank c || is_eol c)) in *.
  destruct (span_spec kp (c :: l1')) as (k' & l2 & -> & Ekl & Hk & Hl2).
  destruct (lstrip_spec is_blank l2) as (b & E2 & Hb & Hh2).
  destruct (skip_separator_spec (lstrip is_blank l2) Hh2) as (s & E3 & Hs & Hh3 & Hsep).
  set (l3 := skip_separator (lstrip is_blank l2)) in *.
  destruct (span_spec (fun c => negb (is_bsl c || is_eol c)) l3) as (v' & l4 & -> & E4 & Hv & Hl4).
  intros H. assert (k' = k /\ v' = v /\ (l4 = [] /\ r = [] \/ terminator l4 = Some r)) as (-> & -> & Hend).
  { destruct l4 as [|d l4']; [injection H as -> -> ->; auto|].
    destruct (terminator (d :: l4')) as [r'|] eqn:Et; [|done]. injection H as -> -> ->. auto. }
  clear H. assert (Hkne : exists k1, k = c :: k1).
  { destruct k as [|c' k1]; cbn in Ekl; [|injection Ekl as <- _; by exists k1].
    rewrite <- Ekl in Hl2. unfold kp in Hl2. cbn beta iota in Hl2. congruence. }
  assert (Hplain : Forall (fun c => is_bsl c = false /\ is_eol c = false) (k ++ b ++ s ++ v)).
  { rewrite !Forall_app. split_and!; (eapply Forall_impl; [eassumption|]); intros d; unfold kp; cbn beta.
    - rewrite negb_true_iff, !orb_false_iff. tauto.
    - intros Hd. split; [by apply blank_not_bsl|by apply blank_not_eol].
    - intros [Hd|Hd]%orb_true_iff; [by char_tests|]. split; [by apply blank_not_bsl|by apply blank_not_eol].
    - rewrite negb_true_iff, orb_false_iff. tauto. }
  set (line := k ++ b ++ s ++ v) in *.
  assert (Hline : lstrip is_blank (a ++ line) = line).
  { rewrite lstrip_app by done. apply lstrip_head. destruct Hkne as [k1 Ek]. unfold line. by rewrite Ek. }
  assert (Hbsl : existsb is_bsl line = false).
  { apply no_bsl_forall. eapply Forall_impl; [exact Hplain|]. tauto. }
  assert (Hsplit : l = (a ++ line) ++ l4).
  { unfold line. rewrite El, Ekl, E2, E3, E4, <- !app_assoc. done. }
  assert (Hno : no_eol (a ++ line)).
  { apply Forall_app. split; (eapply Forall_impl; [eassumption|]); [apply blank_not_eol|by intros ? [_ ?]]. }
  assert (Hvh : value_head s v).
  { unfold value_head in *. rewrite E4 in Hh3. by destruct v. }
  destruct (Hsep v Hvh) as [Hsv Hsl].
  assert (Hread : _split_key_value line = (k, v)).
  { unfold _split_key_value, line. rewrite key_span_plain; [|done|].
    - rewrite lstrip_app, Hsl, Hsv by done. unfold line in Hbsl.
      rewrite !existsb_app_false in Hbsl. destruct Hbsl as (? & ? & ? & ?). by rewrite !load_convert_plain.
    - destruct b as [|d b]; cbn [app].
      + destruct s as [|d s]; cbn [app].
        * destruct v as [|d v]; [done|]. exfalso. destruct Hvh as [Hb1 Hs1].
          apply Forall_cons in Hv as [Hv _]. apply negb_true_iff, orb_false_iff in Hv as [Hv1 Hv2].
          cbn [app] in E2, E3. rewrite E3, E4 in E2. rewrite E2 in Hl2. unfold kp in Hl2.
          cbn [app] in Hl2. by rewrite Hv1, Hv2, Hb1, Hs1 in Hl2.
        * apply Forall_cons in Hs as [Hs _]. split; [|done].
          apply orb_true_iff in Hs as [Hs|Hs]; [by char_tests|by apply blank_not_bsl].
      + apply Forall_cons in Hb as [Hb _]. split; [by apply blank_not_bsl|]. by rewrite Hb, orb_true_r. }
  assert (Hnat : exists e, natural l (a ++ line) e r).
  { rewrite Hsplit. destruct Hend as [[-> ->]|Hterm].
    - exists []. rewrite app_nil_r. split; try done.
      + by rewrite app_nil_r.
      + apply lines_last; [|done]. unfold line. destruct Hkne as [k1 ->]. by destruct a.
    - destruct (natural_terminated _ _ _ Hno Hterm) as (e & _ & -> & Hn). by exists e. }
  destruct Hnat as [e Hn]. exists (a ++ line), e. rewrite Hline. split_and!; [done| | | |done].
  - unfold line. destruct Hkne as [k1 ->]. by destruct a.
  - unfold line. destruct Hkne as [k1 ->]. cbn. by rewrite Hcc.
  - by apply no_bsl_even.
Qed.

Lemma parse_from_unfold fuel content rest : rest <> [] ->
  parse_from (S fuel) content rest =
  match _PLAIN_PROPERTY rest with
  | Some (k, v, rest') =>
      {| key := k; value := v; start := offset content rest; end_ := offset content rest' |}
      :: parse_from fuel content rest'
  | None =>
      let '(line, rest1) := start_line rest in
      if is_lone line && ends_with CRLF content then parse_from fuel content rest1
      else if is_empty line || starts_comment line
      then parse_from fuel content (_match_end skipped_line rest1)
      else
        let '(line, rest1) := if _ends_with_odd_backslash line
                              then continue_line line rest1 else (line, rest1) in
        let '(k, v) := _split_key_value line in
        {| key := k; value := v; start := offset content rest; end_ := offset content rest1 |}
        :: parse_from fuel content rest1
  end.
Proof. by destruct rest. Qed.

Lemma located_property off raw line segs :
  located off (property raw line :: segs) =
  (let '(k, v) := _split_key_value line in
   {| key := k; value := v; start := off; end_ := (off + List.length raw)%nat |}
   :: located (off + List.length raw) segs).
Proof. unfold property. cbn [located]. by destruct (_split_key_value line). Qed.

Lemma parse_from_located fuel pre rest : (List.length rest <= fuel)%nat ->
  parse_from fuel (pre ++ rest) rest = located (List.length pre) (load rest).
Proof.
  revert pre rest. induction fuel as [|fuel IH]; intros pre rest Hf.
  { destruct rest; [done|]. cbn in Hf. lia. }
  destruct (decide (rest = [])) as [->|Hne]; [done|].
  (* after a stretch [x] of the rest, the loop goes on as the induction says *)
  assert (Hgo : forall x r, rest = x ++ r -> x <> [] ->
    parse_from fuel (pre ++ rest) r = located (List.length pre + List.length x) (load r)
    /\ offset (pre ++ rest) r = (List.length pre + List.length x)%nat).
  { intros x r -> Hx. rewrite app_assoc, offset_suffix, length_app. split; [|done].
    rewrite IH; [by rewrite length_app|]. rewrite length_app in Hf. destruct x; [done|]. cbn in Hf. lia. }
  rewrite parse_from_unfold, offset_suffix by done.
  destruct (_PLAIN_PROPERTY rest) as [[[k v] r]|] eqn:Ep.
  { destruct (plain_spec _ _ _ _ Ep) as (t & e & Hn & Ht & Hb & Ho & Hkv).
    destruct (Hgo (t ++ e) r) as [-> ->]; [by rewrite (nat_split _ _ _ _ Hn), <- app_assoc|by destruct t|].
    unfold load. rewrite (nat_lines _ _ _ _ Hn). cbn [read app is_empty andb]. rewrite Hb, Ho.
    by rewrite located_property, Hkv. }
  destruct (start_line rest) as [line rest1] eqn:Es.
  destruct (start_line_spec _ _ _ Hne Es) as [raw t e rest1 Hs Ht He Hlone Hread|Hcrlf Hread].
  - unfold load. rewrite Hread. unfold is_lone. rewrite bool_decide_eq_false_2 by done. cbn [andb].
    assert (Hx : rest = (raw ++ t ++ e) ++ rest1) by (by rewrite Hs, <- !app_assoc).
    assert (Hxne : raw ++ t ++ e <> []).
    { intros H. apply Hne. rewrite Hx, H. apply app_eq_nil in H as [_ H]. apply app_eq_nil in H as [_ H].
      by rewrite (He H). }
    cbn [read is_empty andb]. destruct (is_empty _ || _) eqn:Eb.
    + destruct (match_end_run _ _ skipped_line_spec rest1) as [ls Hrun].
      destruct (run_split _ _ _ _ _ Hrun) as (Hr1 & _ & _).
      destruct (Hgo ((raw ++ t ++ e) ++ bytes_of ls) (_match_end skipped_line rest1)) as [-> _].
      * rewrite Hx. rewrite Hr1 at 1. by rewrite <- !app_assoc.
      * by intros [? _]%app_eq_nil.
      * cbn [located app]. rewrite (skipped_run _ _ _ _ Hrun), (length_app (raw ++ t ++ e)), Nat.add_assoc. done.
    + destruct (_ends_with_odd_backslash (lstrip is_blank t)) eqn:Eo.
      * destruct (continue_line _ _) as [line' rest'] eqn:Ec.
        destruct (continue_line_spec _ _ _ _ _ Hlone Eo Hxne Ec) as (raw' & Hr1 & Hread').
        cbn [app]. rewrite Hread', located_property.
        destruct (_split_key_value line') as [k v].
        destruct (Hgo ((raw ++ t ++ e) ++ raw') rest') as [-> ->]; [|by intros [? _]%app_eq_nil|done].
        by rewrite Hx, Hr1, <- !app_assoc.
      * cbn [app]. rewrite located_property. destruct (_split_key_value _) as [k v].
        by destruct (Hgo _ _ Hx Hxne) as [-> ->].
  - unfold load. rewrite Hread, Hcrlf. unfold finish.
    rewrite (proj2 (is_empty_false rest) Hne). cbn [is_empty andb].
    change (is_lone [92]) with true. cbn [andb]. destruct (ends_with CRLF rest).
    + by destruct fuel.
    + change (is_empty [92] || starts_comment [92]) with false.
      change (_ends_with_odd_backslash [92]) with true.
      change (continue_line [92] []) with (([], []) : bytes * bytes). cbn iota.
      rewrite located_property. destruct (_split_key_value []) as [k v]. cbn [located].
      destruct (Hgo rest []) as [_ ->]; [by rewrite app_nil_r|done|]. by destruct fuel.
Qed.

Lemma parse_located content : _parse content = located 0 (load content).
Proof. apply (parse_from_located (List.length content) [] content). done. Qed.

(** C14: The bulk reader is the line-by-line one: on every file, terminated or not,
    with any mixture of line ends, [_parse] finds exactly the reference's
    properties, each over the span of the bytes that spell it. *)
Theorem parse_is_load content : _parse content = located 0 (load content).
Proof. apply parse_located. Qed.
