(* ===== verification/PropertiesEscape.v ===== *)
(** * server.properties: what is written reads back

    The escapes of [_escape_key] and [_escape_value] against the reader's
    [_load_convert] and [_split_key_value]: the canonical line of a key and a
    value is one natural line that reads as exactly that pair. *)
From Stdlib Require Import ZArith NArith Lia String Ascii.
From stdpp Require Import base gmap strings list.
From S2P Require Import Prelude Text Properties PropertiesLoad.

Open Scope N_scope.

(** ** Strings that have a spelling *)

Definition is_high (c : N) : bool := (0xD800 <=? c) && (c <=? 0xDBFF).
Definition is_low (c : N) : bool := (0xDC00 <=? c) && (c <=? 0xDFFF).

(** No high surrogate directly before a low one: two such code points are written
    as the escapes of one supplementary character. *)
Fixpoint unmerged (s : str) : bool :=
  match s with
  | c :: (d :: _) as s' => negb (is_high c && is_low d) && unmerged s'
  | _ => true
  end.

(** A [str] of code points that reads back. *)
Definition writable (s : str) : Prop := Forall (fun c => c < 0x110000) s /\ unmerged s = true.

(** ** Reading escapes *)

Lemma sub_skip n l : (n <= List.length l)%nat -> sub_escapes n l = sub_escapes 0 (drop n l).
Proof.
  revert l. induction n as [|n IH]; intros l Hl; [done|]. destruct l as [|c l]; [cbn in Hl; lia|].
  cbn [sub_escapes drop]. apply IH. cbn in Hl. lia.
Qed.

Lemma sub_plain l : existsb is_bsl l = false -> sub_escapes 0 l = l.
Proof.
  induction l as [|c l IH]; [done|]. cbn. intros [-> H]%orb_false_iff. by rewrite IH.
Qed.

Lemma unicode_unit_head c l : c <> 117 -> unicode_unit (c :: l) = None.
Proof.
  intros H. unfold unicode_unit. destruct l as [|? [|? [|? [|? ?]]]]; try done.
  by rewrite (proj2 (N.eqb_neq c 117) H).
Qed.

Lemma sub_simple_escapes l : has_sub [92; 117] l = false -> sub_simple l = sub_escapes 0 l.
Proof.
  remember (List.length l) as n eqn:En. revert l En. induction (lt_wf n) as [n _ IH].
  intros l -> H. destruct l as [|c l]; [done|]. cbn [has_sub] in H. apply orb_false_iff in H as [Hs Hl].
  cbn [sub_simple sub_escapes]. destruct (is_bsl c) eqn:Ec.
  - apply bsl_92 in Ec as ->. destruct l as [|d l]; [done|].
    cbn in Hs. unfold _unescape. rewrite unicode_unit_head.
    + cbn [sub_escapes app]. f_equal. cbn [has_sub] in Hl. apply orb_false_iff in Hl as [_ Hl].
      eapply IH; [|done|done]. cbn. lia.
    + intros ->. done.
  - f_equal. eapply IH; [|done|done]. cbn. lia.
Qed.

(** Both fast paths of [_load_convert] are the substitution. *)
Lemma load_convert_sub raw : _load_convert raw = sub_escapes 0 raw.
Proof.
  unfold _load_convert. destruct (existsb is_bsl raw) eqn:Eb; cbn [negb]; [|by rewrite sub_plain].
  destruct (has_sub _ _) eqn:Es; [done|]. by apply sub_simple_escapes.
Qed.

(** *** Unicode escapes *)

Lemma unicode_unit_long l u : unicode_unit l = Some u -> (5 <= List.length l)%nat.
Proof. unfold unicode_unit. destruct l as [|? [|? [|? [|? [|? ?]]]]]; try done. cbn. lia. Qed.

Lemma hex_val_digit d : d < 16 -> hex_val (hex_digit d) = d /\ is_hex (hex_digit d) = true.
Proof.
  intros H. assert (d ∈ [0;1;2;3;4;5;6;7;8;9;10;11;12;13;14;15]) as Hin by (set_unfold; lia).
  set_unfold in Hin. repeat (destruct Hin as [->|Hin]; [done|]). done.
Qed.

Lemma nibble u n : N.land (N.shiftr u n) 15 = (u / 2 ^ n) mod 16.
Proof. rewrite N.shiftr_div_pow2. change 15 with (N.ones 4). by rewrite N.land_ones. Qed.

Lemma unicode_unit_escape u r : u < 65536 ->
  unicode_unit (tail (unit_escape u ++ r)) = Some u.
Proof.
  intros Hu. unfold unit_escape. cbn [tail app]. unfold unicode_unit.
  assert (N.land u 15 = N.land (N.shiftr u 0) 15) as -> by done.
  rewrite !nibble. rewrite N.eqb_refl.
  assert (Hb : forall x, x mod 16 < 16) by (intros x; by apply N.mod_lt).
  do 4 (match goal with |- context [hex_val (hex_digit ?d)] =>
    let H1 := fresh in let H2 := fresh in
    destruct (hex_val_digit d (Hb _)) as [H1 H2]; rewrite H1, H2; clear H1 H2 end).
  cbn [andb]. f_equal.
  change (2 ^ 12) with 4096. change (2 ^ 8) with 256. change (2 ^ 4) with 16. change (2 ^ 0) with 1.
  rewrite N.div_1_r.
  assert (u / 4096 < 16) by (apply N.Div0.div_lt_upper_bound; lia).
  rewrite (N.mod_small (u / 4096)) by done.
  change 4096 with (16 * 16 * 16). change 256 with (16 * 16). rewrite <- !N.Div0.div_div.
  pose proof (N.Div0.div_mod u 16). pose proof (N.Div0.div_mod (u / 16) 16).
  pose proof (N.Div0.div_mod (u / 16 / 16) 16). lia.
Qed.

Lemma unit_escape_tail u : unit_escape u = 92 :: tail (unit_escape u).
Proof. done. Qed.

Lemma unit_escape_drop u r : drop 5 (tail (unit_escape u ++ r)) = r.
Proof. done. Qed.

Lemma low_unit_range l x : low_unit l = Some x -> exists l', l = 92 :: l'
  /\ unicode_unit l' = Some x /\ is_low x = true.
Proof.
  unfold low_unit. destruct l as [|s [|u [|a [|b l]]]]; try done.
  destruct (_ && _) eqn:E; [|done]. apply andb_true_iff in E as [E Hb]. apply andb_true_iff in E as [Hs Ha].
  apply bsl_92 in Hs as ->. cbn [tail]. intros H. eexists. split; [done|]. split; [done|].
  unfold unicode_unit in H. destruct l as [|c [|d l]]; try done. destruct (_ && is_hex d) eqn:E; [|done].
  injection H as <-.
  assert (hex_val a = 13) as ->. { apply orb_true_iff in Ha as [->%N.eqb_eq| ->%N.eqb_eq]; done. }
  assert (12 <= hex_val b <= 15) as Hbv.
  { unfold hex_val. apply orb_true_iff in Hb as [Hb|Hb]; apply andb_true_iff in Hb as [H1%N.leb_le H2%N.leb_le];
      repeat case_match; rewrite ?N.leb_le, ?N.leb_gt in *; lia. }
  rewrite !andb_true_iff in E. destruct E as [[[_ _] Hc] Hd].
  assert (forall z, is_hex z = true -> hex_val z < 16) as Hlt.
  { intros z. unfold is_hex, hex_val. rewrite !orb_true_iff, !andb_true_iff, !N.leb_le.
    intros Hz. repeat case_match; rewrite ?N.leb_le, ?N.leb_gt in *; lia. }
  apply Hlt in Hc, Hd. unfold is_low. apply andb_true_iff. rewrite !N.leb_le. lia.
Qed.

Lemma low_unit_escape u r : is_low u = true -> low_unit (unit_escape u ++ r) = Some u.
Proof.
  unfold is_low. rewrite andb_true_iff, !N.leb_le. intros Hu.
  assert (Ha : N.land (N.shiftr u 12) 15 = 13).
  { rewrite nibble. change (2 ^ 12) with 4096.
    assert (u / 4096 = 13) as -> by (symmetry; apply (N.div_unique _ _ _ (u - 53248)); lia). done. }
  assert (Hb : N.land (N.shiftr u 8) 15 ∈ [12; 13; 14; 15]).
  { rewrite nibble. change (2 ^ 8) with 256.
    assert (exists x, u / 256 = 208 + x /\ 12 <= x <= 15) as (x & -> & Hx).
    { exists (u / 256 - 208). pose proof (N.Div0.div_mod u 256) as H0.
      pose proof (N.mod_lt u 256 ltac:(done)) as H1.
      generalize dependent (u mod 256). generalize (u / 256). intros q m H0 H1. lia. }
    assert ((208 + x) mod 16 = x) as -> by (symmetry; apply (N.mod_unique _ _ 13); lia).
    set_unfold. lia. }
  unfold low_unit, unit_escape at 1. cbn [app].
  match goal with |- (if ?c then _ else None) = _ => assert (c = true) as -> end.
  { rewrite Ha. generalize dependent (N.land (N.shiftr u 8) 15). intros b Hb. set_unfold in Hb.
    by repeat (destruct Hb as [-> | Hb]; [done|]). }
  apply (unicode_unit_escape u r). lia.
Qed.

(** A unit escape that is not the first half of a pair stands for its unit. *)
Lemma sub_unit u l : unicode_unit l = Some u -> is_high u = false \/ low_unit (drop 5 l) = None ->
  sub_escapes 0 (92 :: l) = u :: sub_escapes 0 (drop 5 l).
Proof.
  remember (List.length l) as n eqn:En. revert u l En. induction (lt_wf n) as [n _ IH].
  intros u l -> Hu Hpair. pose proof (unicode_unit_long _ _ Hu) as Hlen.
  cbn [sub_escapes]. change (is_bsl 92) with true. cbn iota. unfold _unescape. rewrite Hu.
  destruct (low_unit (drop 5 l)) as [low|] eqn:El.
  - destruct Hpair as [Hh|]; [|done]. unfold is_high in Hh. rewrite Hh.
    destruct (low_unit_range _ _ El) as (l' & El' & Hlow & Hr).
    assert (Hlen' : List.length (drop 5 l) = (List.length l - 5)%nat) by (by rewrite length_drop).
    rewrite El' in Hlen'. cbn in Hlen'. pose proof (unicode_unit_long _ _ Hlow).
    rewrite sub_skip by lia. rewrite El', (IH (List.length l') ltac:(lia) low l' eq_refl Hlow).
    + cbn [app]. do 2 f_equal. change 11%nat with (5 + (1 + 5))%nat.
      rewrite <- !drop_drop, El'. done.
    + left. unfold is_low in Hr. unfold is_high. rewrite andb_true_iff, !N.leb_le in Hr.
      rewrite andb_false_iff, !N.leb_gt. lia.
  - cbn [app]. by rewrite sub_skip.
Qed.

(** A supplementary character is the pair of its units. *)
Lemma sub_pair c r : 0x10000 <= c -> c < 0x110000 ->
  sub_escapes 0 (flat_map unit_escape (utf16 c) ++ r) = c :: sub_escapes 0 r.
Proof.
  intros Hc1 Hc2. unfold utf16. rewrite (proj2 (N.ltb_ge c 0x10000) Hc1).
  set (x := c - 0x10000). set (hi := 0xD800 + N.shiftr x 10). set (lo := 0xDC00 + N.land x 0x3FF).
  assert (Hlo : N.land x 0x3FF = x mod 1024) by (change 0x3FF with (N.ones 10); by rewrite N.land_ones).
  assert (Hhi : N.shiftr x 10 = x / 1024) by (by rewrite N.shiftr_div_pow2).
  assert (Hm : x mod 1024 < 1024) by (by apply N.mod_lt).
  assert (Hd : x / 1024 < 1024) by (apply N.Div0.div_lt_upper_bound; lia).
  cbn [flat_map]. rewrite app_nil_r, <- app_assoc, (unit_escape_tail hi). cbn [app sub_escapes].
  change (is_bsl 92) with true. cbn iota. unfold _unescape.
  assert (E : forall l, tail (unit_escape hi) ++ l = tail (unit_escape hi ++ l)) by done.
  rewrite E, unicode_unit_escape by lia. rewrite unit_escape_drop.
  rewrite low_unit_escape by (unfold is_low; apply andb_true_iff; rewrite !N.leb_le; lia).
  assert ((0xD800 <=? hi) && (hi <=? 0xDBFF) = true) as ->.
  { apply andb_true_iff. rewrite !N.leb_le. lia. }
  rewrite <- E. rewrite sub_skip by (rewrite length_app; cbn; lia). cbn [app]. f_equal.
  rewrite N.shiftl_mul_pow2. change (2 ^ 10) with 1024. subst hi lo.
  rewrite Hlo, Hhi. pose proof (N.Div0.div_mod x 1024) as Hx. subst x.
  generalize dependent ((c - 65536) mod 1024). generalize dependent ((c - 65536) / 1024). intros. lia.
Qed.

(** ** Spellings *)

Definition printable (c : N) : bool := (0x20 <=? c) && (c <=? 0x7E).

(** [s] spells the text [t]. *)
Inductive spelled : str -> str -> Prop :=
| spelled_nil : spelled [] []
| spelled_plain c t s : is_bsl c = false -> spelled t s -> spelled (c :: t) (c :: s)
| spelled_simple d t s : d <> 117 -> spelled t s -> spelled (simple_escape d :: t) (92 :: d :: s)
| spelled_unit u t s : u < 65536 -> is_high u = false \/ low_unit s = None -> spelled t s ->
    spelled (u :: t) (unit_escape u ++ s)
| spelled_pair c t s : 0x10000 <= c -> c < 0x110000 -> spelled t s ->
    spelled (c :: t) (flat_map unit_escape (utf16 c) ++ s).

Lemma spelled_read t s : spelled t s -> sub_escapes 0 s = t.
Proof.
  induction 1 as [|c t s Hc _ IH|d t s Hd _ IH|u t s Hu Hp _ IH|c t s H1 H2 _ IH].
  - done.
  - cbn. by rewrite Hc, IH.
  - cbn [sub_escapes]. change (is_bsl 92) with true. cbn iota. unfold _unescape.
    rewrite unicode_unit_head by done. cbn. by rewrite IH.
  - rewrite unit_escape_tail. cbn [app]. rewrite sub_unit with (u := u).
    + change (tail (unit_escape u) ++ s) with (tail (unit_escape u ++ s)). by rewrite unit_escape_drop, IH.
    + by apply (unicode_unit_escape u s).
    + change (tail (unit_escape u) ++ s) with (tail (unit_escape u ++ s)). by rewrite unit_escape_drop.
  - by rewrite sub_pair, IH.
Qed.

(** The ways a character is written. *)
Inductive char_spelling (c : N) : str -> Prop :=
| cs_plain : is_bsl c = false -> printable c = true -> char_spelling c [c]
| cs_simple d : simple_escape d = c -> d <> 117 -> printable d = true -> char_spelling c [92; d]
| cs_unit : c < 0x10000 -> char_spelling c (unit_escape c)
| cs_pair : 0x10000 <= c -> c < 0x110000 -> char_spelling c (flat_map unit_escape (utf16 c)).

Lemma escape_char_spelling c : c < 0x110000 -> char_spelling c (_escape_char c).
Proof.
  intros Hc. unfold _escape_char, _ESCAPES.
  repeat match goal with
  | |- context [?c =? ?n] => destruct (N.eqb_spec c n) as [->|?]; [by apply cs_simple|]
  end.
  destruct (_ && _) eqn:E.
  - apply cs_plain; [by apply N.eqb_neq|done].
  - unfold utf16. destruct (N.ltb_spec c 0x10000).
    + cbn [flat_map]. rewrite app_nil_r. by apply cs_unit.
    + replace (flat_map unit_escape _) with (flat_map unit_escape (utf16 c)); [by apply cs_pair|].
      unfold utf16. by rewrite (proj2 (N.ltb_ge _ _)).
Qed.

Lemma special_spelling c : _SPECIALS c = true -> char_spelling c [92; c].
Proof. intros H. apply cs_simple; unfold _SPECIALS in H; char_tests. Qed.

(** What can stand after a high surrogate. *)
Lemma spelling_not_low c x r : char_spelling c x -> is_low c = false -> low_unit (x ++ r) = None.
Proof.
  intros Hx Hl. destruct (low_unit (x ++ r)) as [z|] eqn:E; [exfalso|done].
  destruct (low_unit_range _ _ E) as (l' & El & Hu & Hz).
  destruct Hx as [Hb _|d <- Hd _|Hc|H1 H2].
  - cbn in El. injection El as -> _. done.
  - cbn in El. injection El as <-. by rewrite unicode_unit_head in Hu.
  - pose proof (unicode_unit_escape c r ltac:(done)) as Hc'. rewrite El in Hc'. cbn in Hc'. congruence.
  - unfold utf16 in El. rewrite (proj2 (N.ltb_ge c 0x10000)) in El by done. cbn [flat_map] in El.
    set (hi := 0xD800 + N.shiftr (c - 0x10000) 10) in El.
    assert (Hhi : hi < 0xDC00).
    { unfold hi. rewrite N.shiftr_div_pow2. change (2 ^ 10) with 1024.
      assert ((c - 0x10000) / 1024 < 1024) by (apply N.Div0.div_lt_upper_bound; lia). lia. }
    rewrite <- app_assoc in El. pose proof (unicode_unit_escape hi
      ((unit_escape (56320 + N.land (c - 65536) 1023) ++ []) ++ r) ltac:(lia)) as Hh.
    rewrite El in Hh. cbn in Hh. rewrite Hh in Hu. injection Hu as <-.
    unfold is_low in Hz. rewrite andb_true_iff, !N.leb_le in Hz. lia.
Qed.

Lemma spelled_concat t xs : Forall2 char_spelling t xs -> unmerged t = true ->
  spelled t (concat xs).
Proof.
  induction 1 as [|c x t xs Hx Hxs IH]; intros Hm; [constructor|]. cbn [concat].
  assert (Hm' : unmerged t = true /\ (is_high c = false \/ low_unit (concat xs) = None)).
  { destruct Hxs as [|d y t ys Hy Hys]; [split; [done|by right]|].
    cbn [unmerged] in Hm. apply andb_true_iff in Hm as [Hp Hm]. split; [done|].
    apply negb_true_iff, andb_false_iff in Hp as [Hp|Hp]; [by left|right].
    cbn [concat]. by eapply spelling_not_low. }
  destruct Hm' as [Hm1 Hp]. specialize (IH Hm1). destruct Hx as [Hb _|d <- Hd _|Hc|H1 H2].
  - by apply spelled_plain.
  - by apply spelled_simple.
  - by apply spelled_unit.
  - by apply spelled_pair.
Qed.

(** *** The two escapes *)

Definition key_chars (k : str) : list str :=
  map (fun c => if _SPECIALS c then [92; c] else _escape_char c) k.

Definition value_chars (v : str) : list str :=
  match v with
  | c :: v' => (if _SPECIALS c then [92; c] else _escape_char c) :: map _escape_char v'
  | [] => []
  end.

Lemma escape_key_concat k : _escape_key k = concat (key_chars k).
Proof. unfold _escape_key, key_chars. by rewrite flat_map_concat_map. Qed.

Lemma special_char c : _SPECIALS c = true -> _escape_char c = [c].
Proof. intros H. unfold _SPECIALS in H. char_tests. Qed.

Lemma escape_value_concat v : _escape_value v = concat (value_chars v).
Proof.
  unfold _escape_value, value_chars. destruct v as [|c v]; [done|]. cbn [flat_map concat].
  rewrite <- flat_map_concat_map. destruct (_SPECIALS c) eqn:E; [|done]. by rewrite special_char.
Qed.

Lemma first_spelling c : c < 0x110000 ->
  char_spelling c (if _SPECIALS c then [92; c] else _escape_char c).
Proof. intros Hc. destruct (_SPECIALS c) eqn:E; [by apply special_spelling|by apply escape_char_spelling]. Qed.

Lemma key_spelling k : Forall (fun c => c < 0x110000) k -> Forall2 char_spelling k (key_chars k).
Proof.
  induction 1 as [|c k Hc _ IH]; cbn; [constructor|]. constructor; [by apply first_spelling|done].
Qed.

Lemma value_spelling v : Forall (fun c => c < 0x110000) v -> Forall2 char_spelling v (value_chars v).
Proof.
  destruct 1 as [|c v Hc Hv]; cbn; [constructor|]. constructor; [by apply first_spelling|].
  induction Hv; cbn; constructor; [by apply escape_char_spelling|done].
Qed.

Lemma escape_key_read k : writable k -> _load_convert (_escape_key k) = k.
Proof.
  intros [Hc Hm]. rewrite load_convert_sub, escape_key_concat.
  by apply spelled_read, spelled_concat; [apply key_spelling|].
Qed.

Lemma escape_value_read v : writable v -> _load_convert (_escape_value v) = v.
Proof.
  intros [Hc Hm]. rewrite load_convert_sub, escape_value_concat.
  by apply spelled_read, spelled_concat; [apply value_spelling|].
Qed.

(** ** The canonical line *)

Lemma hex_digit_range d : d < 16 -> printable (hex_digit d) = true /\ is_bsl (hex_digit d) = false
  /\ is_sep (hex_digit d) = false /\ is_blank (hex_digit d) = false.
Proof.
  intros H. assert (d ∈ [0;1;2;3;4;5;6;7;8;9;10;11;12;13;14;15]) as Hin by (set_unfold; lia).
  set_unfold in Hin. by repeat (destruct Hin as [->|Hin]; [done|]).
Qed.

Lemma unit_escape_digits u : exists a b c d, unit_escape u = [92; 117; hex_digit a; hex_digit b; hex_digit c; hex_digit d]
  /\ a < 16 /\ b < 16 /\ c < 16 /\ d < 16.
Proof.
  assert (H : forall x, N.land x 15 < 16).
  { intros x. change 15 with (N.ones 4). rewrite N.land_ones. by apply N.mod_lt. }
  unfold unit_escape. eexists _, _, _, _. split; [done|]. auto.
Qed.

(** What reading a key makes of a spelling: all of it is the key's. *)
Definition in_key (x : str) : Prop := forall r,
  key_span (x ++ r) = (x ++ (key_span r).1, (key_span r).2).

Lemma in_key_nil : in_key [].
Proof. intros r. cbn. by destruct (key_span r). Qed.

Lemma in_key_app x y : in_key x -> in_key y -> in_key (x ++ y).
Proof. intros Hx Hy r. rewrite <- app_assoc, Hx, Hy. cbn. by rewrite app_assoc. Qed.

Lemma in_key_plain c : is_bsl c = false -> is_sep c = false -> is_blank c = false -> in_key [c].
Proof. intros H1 H2 H3 r. cbn. rewrite H1, H2, H3. cbn. by destruct (key_span r). Qed.

Lemma in_key_escape d : in_key [92; d].
Proof. intros r. cbn. by destruct (key_span r). Qed.

Lemma in_key_unit u : in_key (unit_escape u).
Proof.
  destruct (unit_escape_digits u) as (a & b & c & d & -> & Ha & Hb & Hc & Hd).
  apply (in_key_app [92; 117] [_; _; _; _]); [apply in_key_escape|].
  apply hex_digit_range in Ha as (_ & ? & ? & ?), Hb as (_ & ? & ? & ?), Hc as (_ & ? & ? & ?), Hd as (_ & ? & ? & ?).
  do 3 (apply (in_key_app [_]); [by apply in_key_plain|]). by apply in_key_plain.
Qed.

Lemma key_char_in_key c : c < 0x110000 ->
  in_key (if _SPECIALS c then [92; c] else _escape_char c).
Proof.
  intros Hc. destruct (_SPECIALS c) eqn:E; [apply in_key_escape|].
  destruct (escape_char_spelling c Hc) as [Hb Hp|d _ _ _|_|H1 H2].
  - unfold _SPECIALS in E. apply orb_false_iff in E as [E H32]. apply orb_false_iff in E as [Hs _].
    apply in_key_plain; [done..|]. unfold is_blank. rewrite H32. unfold printable in Hp.
    apply andb_true_iff in Hp as [Hp _]. apply N.leb_le in Hp.
    rewrite (proj2 (N.eqb_neq c 9)), (proj2 (N.eqb_neq c 12)) by lia. done.
  - apply in_key_escape.
  - apply in_key_unit.
  - unfold utf16. rewrite (proj2 (N.ltb_ge c 0x10000)) by done. cbn [flat_map]. rewrite app_nil_r.
    apply in_key_app; apply in_key_unit.
Qed.

Lemma key_in_key k : Forall (fun c => c < 0x110000) k -> in_key (_escape_key k).
Proof.
  rewrite escape_key_concat. induction 1 as [|c k Hc _ IH]; [apply in_key_nil|]. cbn.
  apply in_key_app; [by apply key_char_in_key|done].
Qed.

(** Every spelling is printable ASCII whose backslashes pair up. *)
Lemma spelling_clean c x : char_spelling c x ->
  Forall (fun c => printable c = true) x /\ unpaired false x = false /\ x <> [].
Proof.
  assert (Hunit : forall u, Forall (fun c => printable c = true) (unit_escape u) /\ unpaired false (unit_escape u) = false).
  { intros u. destruct (unit_escape_digits u) as (a & b & c' & d & -> & Ha & Hb & Hc & Hd).
    apply hex_digit_range in Ha as (? & Ea & _), Hb as (? & Eb & _), Hc as (? & Ec & _), Hd as (? & Ed & _).
    split; [by repeat constructor|]. cbn [unpaired]. rewrite Ea, Eb, Ec, Ed. done. }
  intros [Hb Hp|d _ _ Hp|_|H1 H2].
  - split_and!; [by constructor|by cbn; rewrite Hb|done].
  - split_and!; [by repeat constructor|done|done].
  - destruct (Hunit c). by split_and!.
  - unfold utf16. rewrite (proj2 (N.ltb_ge c 0x10000)) by done. cbn [flat_map]. rewrite app_nil_r.
    set (a := unit_escape _). set (b := unit_escape _).
    destruct (Hunit (55296 + N.shiftr (c - 65536) 10)) as [Ha1 Ha2].
    destruct (Hunit (56320 + N.land (c - 65536) 1023)) as [Hb1 Hb2]. fold a in Ha1, Ha2. fold b in Hb1, Hb2.
    split_and!; [by apply Forall_app|by rewrite unpaired_app, Ha2|done].
Qed.

Lemma concat_clean t xs : Forall2 char_spelling t xs ->
  Forall (fun c => printable c = true) (concat xs) /\ unpaired false (concat xs) = false.
Proof.
  induction 1 as [|c x t xs Hx _ [IH1 IH2]]; [done|]. cbn.
  destruct (spelling_clean c x Hx) as (H1 & H2 & _). split; [by apply Forall_app|].
  by rewrite unpaired_app, H2.
Qed.

Definition canonical (k v : str) : bytes := _escape_key k ++ [61] ++ _escape_value v.

Lemma canonical_clean k v : writable k -> writable v ->
  Forall (fun c => printable c = true) (canonical k v)
  /\ _ends_with_odd_backslash (canonical k v) = false.
Proof.
  intros [Hk _] [Hv _]. destruct (concat_clean _ _ (key_spelling k Hk)) as [K1 K2].
  destruct (concat_clean _ _ (value_spelling v Hv)) as [V1 V2]. unfold canonical.
  rewrite escape_key_concat, escape_value_concat. split.
  - rewrite !Forall_app. split_and!; [done|by constructor|done].
  - by rewrite odd_unpaired, !unpaired_app, K2.
Qed.

Lemma printable_no_eol c : printable c = true -> is_eol c = false /\ c < 256.
Proof.
  unfold printable. rewrite andb_true_iff, !N.leb_le. intros H. unfold is_eol, is_lf, is_cr.
  rewrite !(proj2 (N.eqb_neq _ _)) by lia. split; [done|lia].
Qed.

Lemma property_line_total k v : writable k -> writable v -> property_line k v = Some (canonical k v).
Proof.
  intros Hk Hv. unfold property_line, latin1. fold (canonical k v).
  rewrite (proj2 (forallb_forall _ _)); [done|]. intros c Hc. apply N.ltb_lt.
  destruct (canonical_clean k v Hk Hv) as [H _]. rewrite Forall_forall in H.
  apply printable_no_eol, H. by apply list_elem_of_In.
Qed.

(** The first character of a value's spelling is not read as padding. *)
Lemma value_head_ok v r : Forall (fun c => c < 0x110000) v ->
  match _escape_value v ++ r with c :: _ => v <> [] -> is_blank c = false | [] => True end.
Proof.
  rewrite escape_value_concat. destruct 1 as [|c v Hc Hv]; cbn [value_chars].
  - by destruct r; cbn; [|intros []].
  - cbn [concat app]. destruct (_SPECIALS c) eqn:E; [done|].
    destruct (escape_char_spelling c Hc) as [Hb Hp|d _ _ _|_|H1 H2]; try done.
    + intros _. unfold _SPECIALS in E. apply orb_false_iff in E as [_ H32]. unfold is_blank. rewrite H32.
      unfold printable in Hp. apply andb_true_iff in Hp as [Hp _]. apply N.leb_le in Hp.
      rewrite (proj2 (N.eqb_neq c 9)), (proj2 (N.eqb_neq c 12)) by lia. done.
    + unfold utf16. by rewrite (proj2 (N.ltb_ge c 0x10000)).
Qed.

Lemma canonical_split k v : writable k -> writable v ->
  _split_key_value (canonical k v) = (k, v).
Proof.
  intros Hk Hv. unfold _split_key_value, canonical. rewrite key_in_key by apply Hk.
  cbn [app key_span fst snd]. change (is_bsl 61) with false. change (is_sep 61) with true. cbn [orb fst snd].
  rewrite app_nil_r, escape_key_read by done. f_equal.
  rewrite (lstrip_head is_blank (61 :: _)) by done. cbn [skip_separator]. change (is_sep 61) with true. cbn iota.
  rewrite lstrip_head; [by apply escape_value_read|].
  pose proof (value_head_ok v [] (proj1 Hv)) as H. rewrite app_nil_r in H.
  destruct (_escape_value v) as [|c x] eqn:E; [done|]. apply H. by intros ->.
Qed.

Lemma canonical_start k v : writable k ->
  lstrip is_blank (canonical k v) = canonical k v
  /\ is_empty (canonical k v) || starts_comment (canonical k v) = false.
Proof.
  intros [Hk _]. unfold canonical. rewrite escape_key_concat.
  assert (H : exists c x, concat (key_chars k) ++ [61] ++ _escape_value v = c :: x
    /\ is_blank c = false /\ is_comment c = false).
  { destruct Hk as [|c k Hc _]; [by eexists _, _|]. cbn [key_chars map concat].
    destruct (_SPECIALS c) eqn:E; [by eexists _, _|].
    destruct (escape_char_spelling c Hc) as [Hb Hp|d _ _ _|_|H1 H2]; try (by eexists _, _).
    - eexists _, _. split; [done|]. unfold _SPECIALS in E.
      apply orb_false_iff in E as [E H32]. apply orb_false_iff in E as [_ Hcm].
      split; [|done]. unfold is_blank. rewrite H32. unfold printable in Hp.
      apply andb_true_iff in Hp as [Hp _]. apply N.leb_le in Hp.
      rewrite (proj2 (N.eqb_neq c 9)), (proj2 (N.eqb_neq c 12)) by lia. done.
    - unfold utf16. rewrite (proj2 (N.ltb_ge c 0x10000)) by done. by eexists _, _. }
  destruct H as (c & x & -> & Hb & Hc). split; [by apply lstrip_head|]. cbn. by rewrite Hc.
Qed.
