(* ===== verification/PropertiesChunks.v ===== *)
(** * server.properties: files as chunks

    A file is the concatenation of the chunks the reference reader cuts it into;
    a chunk that ends on a line boundary with nothing pending ([closed]) reads
    the same in front of anything.  Replacing or dropping chunks therefore
    changes exactly their properties, and the tail that can swallow an appended
    line is the one [_ends_in_dangling_continuation] recognises. *)
From Stdlib Require Import ZArith NArith Lia String Ascii.
From stdpp Require Import base gmap strings list.
From S2P Require Import Prelude Text Properties PropertiesLoad PropertiesEscape.

Open Scope N_scope.

(** ** Reading in two steps *)

(** The segments complete after some lines, and the pending logical line. *)
Fixpoint scan (raw text : bytes) (ls : list (bytes * bytes)) : list segment * (bytes * bytes) :=
  match ls with
  | [] => ([], (raw, text))
  | (t, e) :: ls' =>
      let line := lstrip is_blank t in
      let raw := raw ++ t ++ e in
      if is_empty text && (is_empty line || starts_comment line)
      then let '(s, st) := scan [] [] ls' in ((raw, None) :: s, st)
      else if _ends_with_odd_backslash line then scan raw (text ++ removelast line) ls'
      else let '(s, st) := scan [] [] ls' in (property raw (text ++ line) :: s, st)
  end.

Lemma read_app raw text l1 l2 :
  read raw text (l1 ++ l2) =
  let '(s, (raw', text')) := scan raw text l1 in s ++ read raw' text' l2.
Proof.
  revert raw text. induction l1 as [|[t e] l1 IH]; intros raw text; [done|].
  cbn [app read scan]. destruct (_ && _); [|destruct (_ends_with_odd_backslash _); [apply IH|]];
    rewrite IH; by destruct (scan [] [] l1) as [s [raw' text']].
Qed.

Lemma scan_app raw text l1 l2 :
  scan raw text (l1 ++ l2) =
  let '(s, (raw', text')) := scan raw text l1 in
  let '(s', st) := scan raw' text' l2 in (s ++ s', st).
Proof.
  revert raw text. induction l1 as [|[t e] l1 IH]; intros raw text; cbn [app scan].
  - by destruct (scan raw text l2).
  - destruct (_ && _); [|destruct (_ends_with_odd_backslash _); [apply IH|]];
      rewrite IH; destruct (scan [] [] l1) as [s [raw' text']]; by destruct (scan raw' text' l2).
Qed.

Lemma read_scan raw text ls : read raw text ls =
  let '(s, (raw', text')) := scan raw text ls in s ++ finish raw' text'.
Proof. rewrite <- (app_nil_r ls) at 1. by rewrite read_app. Qed.

(** The properties of a file, without their spans. *)
Definition pairs (segs : list segment) : list (str * str) := omap snd segs.
Definition entries (content : bytes) : list (str * str) := pairs (load content).

Lemma pairs_app s1 s2 : pairs (s1 ++ s2) = pairs s1 ++ pairs s2.
Proof. apply omap_app. Qed.

Definition state (content : bytes) : bytes * bytes := (scan [] [] (lines content)).2.

Definition ends_eol (a : bytes) : Prop :=
  match last a with Some c => is_eol c = true | None => True end.

(** Nothing pending, and a line boundary. *)
Definition closed (a : bytes) : Prop := ends_eol a /\ state a = ([], []).

Lemma closed_nil : closed [].
Proof. done. Qed.

(** ** Lines of a concatenation *)

Lemma last_app_ne {A} (a b : list A) : b <> [] -> last (a ++ b) = last b.
Proof. rewrite last_app. by destruct b as [|x b _] using rev_ind; [|rewrite last_snoc]. Qed.

Lemma natural_ends l t e r : natural l t e r -> l <> [] -> ends_eol l -> e <> [].
Proof.
  intros Hn Hne Hl ->. pose proof (nat_split _ _ _ _ Hn) as Hs. rewrite (nat_end _ _ _ _ Hn eq_refl) in Hs.
  rewrite !app_nil_r in Hs. subst l. unfold ends_eol in Hl.
  destruct t as [|c t _] using rev_ind; [done|]. rewrite last_snoc in Hl.
  pose proof (nat_text _ _ _ _ Hn) as Ht. apply Forall_app in Ht as [_ Ht]. inversion Ht. congruence.
Qed.

Lemma natural_rest_ends l t e r : natural l t e r -> ends_eol l -> ends_eol r.
Proof.
  intros Hn Hl. destruct r as [|c r]; [done|]. unfold ends_eol in *.
  by rewrite (nat_split _ _ _ _ Hn), app_assoc, last_app_ne in Hl.
Qed.

(** A terminator followed by more keeps its extent, except a CR before a LF. *)
Lemma terminator_extend e r b : e <> [] -> terminator (e ++ r) = Some r ->
  r <> [] -> terminator (e ++ r ++ b) = Some (r ++ b).
Proof.
  assert (Hlen : forall (x y : bytes), x = y -> List.length x = List.length y) by (by intros ? ? ->).
  destruct e as [|c [|d [|f e]]]; [done| | |]; intros _; cbn [app terminator].
  - destruct r as [|d r]; [done|]. cbn [app]. destruct (is_cr c); [|by destruct (is_lf c)].
    destruct (is_lf d); [intros [= H%Hlen]; cbn in H; lia|done].
  - destruct (is_cr c); [|destruct (is_lf c); [|done]; intros [= H%Hlen]; cbn in H; lia].
    destruct (is_lf d); [done|]. intros [= H%Hlen]. cbn in H. lia.
  - destruct (is_cr c); [destruct (is_lf d)|destruct (is_lf c); [|done]];
      intros [= H%Hlen]; cbn in H; rewrite length_app in H; lia.
Qed.

Lemma terminator_end e b : terminator e = Some [] ->
  (e = [13] -> match b with c :: _ => is_lf c = false | [] => True end) ->
  terminator (e ++ b) = Some b.
Proof.
  intros He Hcr. destruct e as [|c [|d e]]; [done| |]; cbn in *.
  - destruct (is_cr c) eqn:Ec; [|by destruct (is_lf c)].
    apply N.eqb_eq in Ec as ->. specialize (Hcr eq_refl). destruct b as [|d b]; [done|]. by rewrite Hcr.
  - destruct (is_cr c); [|by destruct (is_lf c)]. destruct (is_lf d); [|done]. injection He as ->. done.
Qed.

(** The lines of a file that ends a line, followed by more: the same lines, except
    that a final CR takes a following LF into its line. *)
Lemma lines_join a b : ends_eol a ->
  lines (a ++ b) = lines a ++ lines b
  \/ exists ls t b', b = 10 :: b' /\ lines a = ls ++ [(t, [13])]
     /\ lines (a ++ b) = ls ++ (t, [13; 10]) :: lines b'.
Proof.
  remember (List.length a) as n eqn:En. revert a En. induction (lt_wf n) as [n _ IH]. intros a -> Ha.
  destruct (decide (a = [])) as [->|Hne]; [by left|].
  destruct (_natural_line a) as [t r] eqn:E. destruct (natural_line _ _ _ Hne E) as (e & Hn).
  pose proof (natural_ends _ _ _ _ Hn Hne Ha) as He.
  pose proof (nat_split _ _ _ _ Hn) as Hs. pose proof (nat_lines _ _ _ _ Hn) as Hl.
  pose proof (nat_term _ _ _ _ Hn He) as Hterm. pose proof (nat_text _ _ _ _ Hn) as Ht.
  assert (Hlines : terminator (e ++ r ++ b) = Some (r ++ b) -> lines (a ++ b) = (t, e) :: lines (r ++ b)).
  { intros Hx. destruct (natural_terminated t _ _ Ht Hx) as (e' & He' & Ee & Hn').
    assert (e' = e) as -> by (by apply app_inv_tail in Ee).
    rewrite Hs, <- !app_assoc. apply (nat_lines _ _ _ _ Hn'). }
  destruct r as [|c r'] eqn:Er.
  - rewrite app_nil_r in Hterm. cbn [app] in Hlines.
    assert (Hno : (e = [13] -> match b with c :: _ => is_lf c = false | [] => True end) ->
      lines (a ++ b) = lines a ++ lines b).
    { intros Hno. rewrite Hlines, Hl; [done|]. by apply terminator_end. }
    destruct (decide (e = [13])) as [->|]; [|by left; apply Hno].
    destruct b as [|c b']; [by left; apply Hno|].
    destruct (is_lf c) eqn:Ec; [|by left; apply Hno]. apply N.eqb_eq in Ec as ->.
    right. exists [], t, b'. split; [done|]. split; [done|]. cbn [app]. rewrite Hs. cbn [app].
    assert (Hx : terminator (13 :: 10 :: b') = Some b') by done.
    destruct (natural_terminated t _ _ Ht Hx) as (e' & He' & Ee & Hn').
    assert (e' = [13; 10]) as -> by (change ([13; 10] ++ b' = e' ++ b') in Ee; by apply app_inv_tail in Ee).
    rewrite <- app_assoc. apply (nat_lines _ _ _ _ Hn').
  - rewrite <- Er in *. assert (Hr : r <> []) by (by rewrite Er). clear Er c r'.
    rewrite Hl. rewrite (Hlines (terminator_extend e r b He Hterm Hr)).
    destruct (IH (List.length r)) with (a := r) as [->|(ls & t' & b' & -> & -> & ->)].
    + rewrite Hs, !length_app. destruct e; [done|]. cbn. lia.
    + done.
    + by eapply natural_rest_ends.
    + by left.
    + right. by exists ((t, e) :: ls), t', b'.
Qed.

(** ** Closed files compose *)

Lemma scan_line_eol raw text ls t e e' s : t ++ e <> [] ->
  scan raw text (ls ++ [(t, e)]) = (s, ([], [])) ->
  exists s', scan raw text (ls ++ [(t, e')]) = (s', ([], [])) /\ pairs s' = pairs s.
Proof.
  intros He. rewrite !scan_app. destruct (scan raw text ls) as [s0 [r x]]. cbn [scan].
  destruct (_ && _); [|destruct (_ends_with_odd_backslash _)].
  - intros [= <-]. eexists. split; [done|]. by rewrite !pairs_app.
  - intros [= _ H _]. by apply app_eq_nil in H as [_ H].
  - intros [= <-]. eexists. split; [done|]. by rewrite !pairs_app.
Qed.

Lemma state_scan a st : state a = st -> exists s, scan [] [] (lines a) = (s, st).
Proof. unfold state. destruct (scan [] [] (lines a)) as [s st']. cbn. intros ->. by exists s. Qed.

Lemma entries_scan a s r x : scan [] [] (lines a) = (s, (r, x)) ->
  entries a = pairs s ++ pairs (finish r x) /\ load a = s ++ finish r x.
Proof. unfold entries, load. rewrite read_scan. intros ->. split; [|done]. apply pairs_app. Qed.

(** A closed file in front of another: properties and pending line compose. *)
Lemma closed_app a b : closed a ->
  entries (a ++ b) = entries a ++ entries b /\ state (a ++ b) = state b.
Proof.
  intros [Ha Hst]. destruct (state_scan _ _ Hst) as [s Hs].
  destruct (entries_scan _ _ _ _ Hs) as [-> _]. cbn [finish is_empty pairs omap list_omap]. rewrite app_nil_r.
  destruct (lines_join a b Ha) as [Hl|(ls & t & b' & -> & Hla & Hl)]; unfold entries, load, state; rewrite Hl.
  - by rewrite read_app, scan_app, Hs, pairs_app; destruct (scan [] [] (lines b)) as [sb [rb xb]].
  - rewrite Hla in Hs. destruct (scan_line_eol [] [] ls t [13] [13; 10] s) as (s' & Hs' & Hp); [by destruct t|done|].
    change ((t, [13; 10]) :: lines b') with ([(t, [13; 10])] ++ lines b'). rewrite app_assoc, read_app, (scan_app _ _ (_ ++ _) (lines b')), Hs'.
    change (lines (10 :: b')) with (([], [10]) :: lines b'). cbn [read scan is_empty lstrip span snd andb orb].
    rewrite pairs_app, Hp. cbn [app]. change (pairs ((10 :: [], None) :: ?x)) with (pairs x).
    by destruct (scan [] [] (lines b')) as [sb [rb xb]].
Qed.

Lemma ends_eol_app a b : ends_eol a -> ends_eol b -> ends_eol (a ++ b).
Proof.
  intros Ha Hb. destruct b as [|c b]; [by rewrite app_nil_r|]. unfold ends_eol. by rewrite last_app_ne.
Qed.

Lemma closed_app_closed a b : closed a -> closed b -> closed (a ++ b).
Proof.
  intros Ha [Hb Hs]. destruct (closed_app a b Ha) as [_ Hst]. split; [|by rewrite Hst].
  apply ends_eol_app; [apply Ha|done].
Qed.

(** ** Files as lists of lines *)

(** A list of lines that is read back from its bytes. *)
Definition line_list (ls : list (bytes * bytes)) : Prop := lines (bytes_of ls) = ls.

Lemma bytes_of_app l1 l2 : bytes_of (l1 ++ l2) = bytes_of l1 ++ bytes_of l2.
Proof. apply flat_map_app. Qed.

Lemma lines_natural l : l <> [] -> exists t e r, natural l t e r.
Proof.
  intros Hne. destruct (_natural_line l) as [t r] eqn:E. destruct (natural_line _ _ _ Hne E) as [e H].
  by exists t, e, r.
Qed.

Lemma natural_shorter l t e r : natural l t e r -> l <> [] -> (List.length r < List.length l)%nat /\ t ++ e <> [].
Proof.
  intros Hn Hne. pose proof (nat_split _ _ _ _ Hn) as Hs. assert (t ++ e <> []) as Hte.
  { intros H. apply Hne. rewrite Hs, app_assoc, H. cbn. apply app_eq_nil in H as [_ H].
    apply (nat_end _ _ _ _ Hn H). }
  split; [|done]. rewrite Hs, app_assoc, length_app. destruct (t ++ e); [done|]. cbn. lia.
Qed.

Lemma bytes_lines l : bytes_of (lines l) = l.
Proof.
  induction l as [l IH] using (induction_ltof1 _ (@List.length N)). unfold ltof in IH.
  destruct (decide (l = [])) as [->|Hne]; [done|].
  destruct (lines_natural l Hne) as (t & e & r & Hn). rewrite (nat_lines _ _ _ _ Hn). cbn [bytes_of flat_map fst snd].
  fold (bytes_of (lines r)). rewrite IH; [|by apply (natural_shorter _ _ _ _ Hn)].
  by rewrite <- app_assoc, <- (nat_split _ _ _ _ Hn).
Qed.

Lemma line_list_lines l : line_list (lines l).
Proof. unfold line_list. by rewrite bytes_lines. Qed.

Lemma line_list_cons t e ls : line_list ((t, e) :: ls) ->
  natural (bytes_of ((t, e) :: ls)) t e (bytes_of ls) /\ line_list ls.
Proof.
  intros H. assert (Hne : bytes_of ((t, e) :: ls) <> []) by (intros E; unfold line_list in H; by rewrite E in H).
  destruct (lines_natural _ Hne) as (t' & e' & r & Hn). pose proof (nat_lines _ _ _ _ Hn) as Hl.
  unfold line_list in H. rewrite H in Hl. injection Hl as <- <- Hl.
  assert (r = bytes_of ls) as ->.
  { pose proof (nat_split _ _ _ _ Hn) as Hs. cbn [bytes_of flat_map fst snd] in Hs. rewrite <- app_assoc in Hs.
    by do 2 apply app_inv_head in Hs. }
  by split.
Qed.

Lemma line_list_nonempty t e ls : line_list ((t, e) :: ls) -> t ++ e <> [].
Proof.
  intros H. destruct (line_list_cons _ _ _ H) as [Hn _].
  apply (natural_shorter _ _ _ _ Hn). intros E. unfold line_list in H. by rewrite E in H.
Qed.

Lemma line_list_app l1 l2 : line_list (l1 ++ l2) -> line_list l1 /\ line_list l2.
Proof.
  induction l1 as [|[t e] l1 IH]; cbn [app]; [done|]. intros H.
  destruct (line_list_cons _ _ _ H) as [Hn Hl]. destruct (IH Hl) as [H1 H2]. split; [|done].
  unfold line_list. cbn [bytes_of flat_map fst snd]. fold (bytes_of l1). rewrite <- app_assoc.
  pose proof (nat_text _ _ _ _ Hn) as Ht. destruct e as [|c e].
  - pose proof (nat_end _ _ _ _ Hn eq_refl) as He. rewrite bytes_of_app in He. apply app_eq_nil in He as [He _].
    rewrite He. assert (l1 = []) as -> by (unfold line_list in H1; by rewrite He in H1).
    cbn [app]. rewrite app_nil_r. apply lines_last; [|done].
    pose proof (line_list_nonempty _ _ _ H) as Hte. by rewrite app_nil_r in Hte.
  - pose proof (nat_term _ _ _ _ Hn ltac:(done)) as Hterm. rewrite bytes_of_app in Hterm.
    apply terminator_app in Hterm; [|done].
    destruct (natural_terminated t _ _ Ht Hterm) as (e' & _ & Ee & Hn'). apply app_inv_tail in Ee as <-.
    rewrite (nat_lines _ _ _ _ Hn'). f_equal. apply H1.
Qed.

(** All but the last line are terminated. *)
Lemma line_list_ends l1 x l2 : line_list (l1 ++ x :: l2) -> ends_eol (bytes_of l1).
Proof.
  induction l1 as [|[t e] l1 IH]; cbn [app]; [done|]. intros H.
  destruct (line_list_cons _ _ _ H) as [Hn Hl]. cbn [bytes_of flat_map fst snd]. apply ends_eol_app; [|by apply IH].
  destruct e as [|c e].
  - pose proof (nat_end _ _ _ _ Hn eq_refl) as He. rewrite bytes_of_app in He. apply app_eq_nil in He as [_ He].
    destruct x as [t' e']. apply line_list_app in Hl as [_ Hl]. apply line_list_nonempty in Hl.
    cbn [bytes_of flat_map fst snd] in He. by apply app_eq_nil in He as [He _].
  - pose proof (nat_eol _ _ _ _ Hn) as He. clear -He.
    unfold ends_eol. rewrite last_app_ne by done. destruct (last (c :: e)) as [d|] eqn:E; [|done].
    apply list.last_Some in E as [l E]. rewrite E in He. apply Forall_app in He as [_ He]. by inversion He.
Qed.

Lemma lines_snoc_lf a b : ends_with LF a = true -> lines (a ++ b) = lines a ++ lines b.
Proof.
  intros H. assert (exists a', a = a' ++ [10]) as [a' ->].
  { unfold ends_with in H. destruct a as [|c a' _] using rev_ind; [done|]. rewrite rev_unit in H. cbn [LF rev app starts_with] in H.
    apply andb_true_iff in H as [<-%N.eqb_eq _]. by exists a'. }
  destruct (lines_join (a' ++ [10]) b) as [|(ls & t & b' & _ & Hl & _)]; [|done|exfalso].
  - unfold ends_eol. by rewrite last_snoc.
  - pose proof (bytes_lines (a' ++ [10])) as Hb. rewrite Hl, bytes_of_app in Hb. cbn in Hb.
    rewrite app_nil_r, app_assoc in Hb. by apply app_inj_tail in Hb as [_ Hb].
Qed.

(** ** The bytes of the segments *)

Definition raws (segs : list segment) : bytes := flat_map fst segs.

Lemma raws_app s1 s2 : raws (s1 ++ s2) = raws s1 ++ raws s2.
Proof. apply flat_map_app. Qed.

Lemma raws_finish raw text : raws (finish raw text) = raw.
Proof. unfold finish. destruct raw; [done|]. cbn [is_empty]. destruct (_ && _); cbn; by rewrite app_nil_r. Qed.

Lemma raws_read raw text ls : raws (read raw text ls) = raw ++ bytes_of ls.
Proof.
  revert raw text. induction ls as [|[t e] ls IH]; intros raw text; cbn [read].
  - by rewrite raws_finish, app_nil_r.
  - cbn [bytes_of flat_map fst snd]. fold (bytes_of ls). rewrite (app_assoc raw (t ++ e)).
    destruct (_ && _); [|destruct (_ends_with_odd_backslash _); [apply IH|]]; unfold property; cbn [raws flat_map fst];
      fold (raws (read [] [] ls)); by rewrite IH.
Qed.

Lemma raws_load content : raws (load content) = content.
Proof. unfold load. by rewrite raws_read, bytes_lines. Qed.

Lemma read_nonempty raw text ls : Forall (fun te => te.1 ++ te.2 <> []) ls ->
  Forall (fun s => s.1 <> []) (read raw text ls).
Proof.
  intros H. revert raw text. induction H as [|[t e] ls Hte _ IH]; intros raw text; cbn [read].
  - unfold finish. destruct raw; [done|]. cbn [is_empty]. destruct (_ && _); repeat constructor; done.
  - cbn in Hte. destruct (_ && _); [|destruct (_ends_with_odd_backslash _); [apply IH|]];
      (constructor; [|apply IH]); cbn; by intros [_ H]%app_eq_nil.
Qed.

Lemma line_list_Forall ls : line_list ls -> Forall (fun te => te.1 ++ te.2 <> []) ls.
Proof.
  induction ls as [|[t e] ls IH]; [done|]. intros H. constructor; [by apply line_list_nonempty in H|].
  apply IH. by apply line_list_cons in H as [_ ?].
Qed.

Lemma load_nonempty content : Forall (fun s => s.1 <> []) (load content).
Proof. apply read_nonempty, line_list_Forall, line_list_lines. Qed.

(** ** The last line *)

Definition ends_with_cr (l : bytes) : Prop := last l = Some 13.

(** The text of the last line, the way [_ends_in_dangling_continuation] takes it. *)
Definition final_text (content : bytes) : bytes :=
  last_line (if ends_with CRLF content then take (List.length content - 2) content
             else if ends_with LF content || ends_with [13] content
             then take (List.length content - 1) content
             else content).

Lemma last_line_app b x : ends_eol b -> no_eol x -> last_line (b ++ x) = x.
Proof.
  intros Hb Hx. unfold last_line. rewrite rev_app_distr, span_app; [apply rev_involutive| |].
  - apply Forall_rev. eapply Forall_impl; [exact Hx|]. by intros c ->.
  - destruct b as [|c b _] using rev_ind; [done|]. rewrite rev_unit. unfold ends_eol in Hb.
    rewrite last_snoc in Hb. by rewrite Hb.
Qed.

Lemma terminator_cases e : terminator (e ++ []) = Some [] -> e = [10] \/ e = [13] \/ e = [13; 10].
Proof.
  rewrite app_nil_r. destruct e as [|c [|d e]]; cbn; [done| |].
  - destruct (is_cr c) eqn:E; [apply N.eqb_eq in E as ->; auto|].
    destruct (is_lf c) eqn:E'; [apply N.eqb_eq in E' as ->; auto|done].
  - destruct (is_cr c) eqn:E; [|by destruct (is_lf c)]. apply N.eqb_eq in E as ->.
    destruct (is_lf d) eqn:E'; [|done]. apply N.eqb_eq in E' as ->. intros [= ->]. auto.
Qed.

Lemma no_cr_before_lf l : line_list (l ++ [([], [10])]) -> ~ ends_with_cr (bytes_of l).
Proof.
  induction l as [|[t e] l IH]; cbn [app]; [done|]. intros H.
  destruct (line_list_cons _ _ _ H) as [Hn Hl]. unfold ends_with_cr in *. cbn [bytes_of flat_map fst snd].
  fold (bytes_of l). destruct (decide (bytes_of l = [])) as [E|E]; [|rewrite last_app_ne by done; by apply IH].
  rewrite E, app_nil_r. rewrite bytes_of_app, E in Hn. cbn in Hn. destruct e as [|c [|d e]].
  - by pose proof (nat_end _ _ _ _ Hn eq_refl).
  - rewrite last_snoc. intros [= ->]. by pose proof (nat_term _ _ _ _ Hn ltac:(done)).
  - pose proof (nat_term _ _ _ _ Hn ltac:(done)) as Ht. cbn in Ht.
    assert (Hlen : List.length (d :: e ++ [10]) <> List.length [10]) by (cbn; rewrite length_app; cbn; lia).
    destruct (is_cr c); [destruct (is_lf d) eqn:Ed|destruct (is_lf c); congruence].
    + injection Ht as Ht. apply (f_equal (@List.length N)) in Ht. rewrite length_app in Ht. cbn in Ht.
      destruct e; [|cbn in Ht; lia]. apply N.eqb_eq in Ed as ->. by rewrite (last_app_ne t [c; 10]).
    + congruence.
Qed.

Lemma ends_with_snoc s c l d : ends_with (s ++ [c]) (l ++ [d]) = (c =? d) && ends_with s l.
Proof. unfold ends_with. by rewrite !rev_unit. Qed.

Lemma ends_with_nil l : ends_with [] l = true.
Proof. done. Qed.

Lemma ends_with_one c l : ends_with [c] l = bool_decide (last l = Some c).
Proof.
  destruct l as [|d l _] using rev_ind; [done|]. change [c] with ([] ++ [c]).
  rewrite ends_with_snoc, last_snoc. change (ends_with [] l) with true. rewrite andb_true_r.
  symmetry. destruct (N.eqb_spec c d) as [->|]; [by apply bool_decide_eq_true|].
  apply bool_decide_eq_false. congruence.
Qed.

Lemma final_text_line content ls x e : lines content = ls ++ [(x, e)] -> final_text content = x.
Proof.
  intros Hl. pose proof (line_list_lines content) as Hll. rewrite Hl in Hll.
  pose proof (bytes_lines content) as Hc. rewrite Hl, bytes_of_app in Hc. cbn [bytes_of flat_map fst snd] in Hc.
  rewrite app_nil_r, app_assoc in Hc. subst content. pose proof (line_list_ends _ _ _ Hll) as Hb.
  destruct (line_list_cons _ _ _ (proj2 (line_list_app _ _ Hll))) as [Hn _].
  pose proof (nat_text _ _ _ _ Hn) as Hx. pose proof (last_line_app _ _ Hb Hx) as Hlast.
  assert (Htext : forall c, is_eol c = true -> x <> [] -> last (bytes_of ls ++ x) <> Some c).
  { intros c Hc Hne. rewrite last_app_ne by done. intros [x' ->]%list.last_Some.
    apply Forall_app in Hx as [_ Hx]. inversion Hx. congruence. }
  set (b := bytes_of ls ++ x) in *. unfold final_text. destruct (decide (e = [])) as [->|He].
  - assert (Hne : x <> []) by (pose proof (line_list_nonempty x [] [] (proj2 (line_list_app _ _ Hll))) as H; by rewrite app_nil_r in H).
    rewrite !app_nil_r.
    assert (ends_with CRLF b = false /\ ends_with LF b = false /\ ends_with [13] b = false) as (-> & -> & ->); [|done].
    unfold LF. rewrite !ends_with_one, !bool_decide_eq_false_2 by (by apply Htext). split; [|done].
    destruct b as [|d b' _] using rev_ind; [done|]. change CRLF with ([13] ++ [10]). rewrite ends_with_snoc.
    destruct (N.eqb_spec 10 d) as [<-|]; [|done]. by destruct (Htext 10 eq_refl Hne); rewrite last_snoc.
  - pose proof (terminator_cases _ (nat_term _ _ _ _ Hn He)) as [-> | [-> | ->]].
    + change CRLF with ([13] ++ [10]). rewrite ends_with_snoc, N.eqb_refl. cbn [andb].
      rewrite ends_with_one, bool_decide_eq_false_2.
      * unfold LF. rewrite ends_with_one, last_snoc, bool_decide_eq_true_2 by done. cbn [orb].
        rewrite length_app. cbn [List.length]. by rewrite Nat.add_sub, take_app_length.
      * unfold b. destruct x as [|d x]; [|by apply Htext]. rewrite app_nil_r. exact (no_cr_before_lf _ Hll).
    + change CRLF with ([13] ++ [10]). rewrite ends_with_snoc. cbn [N.eqb Pos.eqb andb].
      unfold LF. rewrite !ends_with_one, !last_snoc, (bool_decide_eq_true_2 (Some 13 = Some 13)), orb_true_r by done.
      rewrite length_app. cbn [List.length]. by rewrite Nat.add_sub, take_app_length.
    + change (b ++ [13; 10]) with (b ++ [13] ++ [10]). rewrite app_assoc. change CRLF with (([] ++ [13]) ++ [10]).
      rewrite !ends_with_snoc, !N.eqb_refl. cbn [andb]. rewrite ends_with_nil. rewrite !length_app. cbn [List.length].
      replace (_ - 2)%nat with (List.length b) by lia. by rewrite <- app_assoc, take_app_length.
Qed.

(** ** The dangling tail *)

Lemma located_app off s1 s2 :
  located off (s1 ++ s2) = located off s1 ++ located (off + List.length (raws s1)) s2.
Proof.
  revert off. induction s1 as [|[r o] s1 IH]; intros off; cbn [app located]; [by rewrite Nat.add_0_r|].
  cbn [raws flat_map fst]. fold (raws s1). by rewrite IH, length_app, Nat.add_assoc, app_assoc.
Qed.

Lemma located_end off segs p : p ∈ located off segs -> (p.(end_) <= off + List.length (raws segs))%nat.
Proof.
  revert off. induction segs as [|[r o] segs IH]; intros off; cbn [located raws flat_map fst]; [by intros ?%not_elem_of_nil|].
  fold (raws segs). rewrite length_app. intros [H|H]%elem_of_app; [|apply IH in H; lia].
  destruct o as [[k v]|]; [|by apply not_elem_of_nil in H].
  apply list_elem_of_singleton in H as ->. cbn. lia.
Qed.

(** Whether the last property's span reaches the end of the file. *)
Lemma last_span content s r o : load content = s ++ [(r, o)] ->
  match last (_parse content) with
  | Some p => Nat.eqb p.(end_) (List.length content)
  | None => false
  end = bool_decide (is_Some o).
Proof.
  intros Hl. pose proof (load_nonempty content) as Hne. rewrite Hl, Forall_app in Hne. destruct Hne as [_ Hne].
  apply Forall_cons in Hne as [Hne _]. cbn in Hne.
  assert (Hlen : (List.length content = List.length (raws s) + List.length r)%nat).
  { rewrite <- (raws_load content), Hl, raws_app, length_app. cbn. by rewrite app_nil_r. }
  rewrite parse_located, Hl, located_app. cbn [located]. destruct o as [[k v]|].
  - rewrite app_nil_r, last_snoc. cbn [end_]. rewrite bool_decide_eq_true_2 by done. apply Nat.eqb_eq. lia.
  - rewrite app_nil_r, bool_decide_eq_false_2 by (by intros [? ?]).
    destruct (last (located 0 s)) as [p|] eqn:E; [|done]. apply Nat.eqb_neq.
    assert (Hp : p ∈ located 0 s) by (apply list.last_Some in E as [l ->]; set_solver).
    apply located_end in Hp. destruct r; [done|]. cbn in Hlen. lia.
Qed.

(** How a reading stands after its last line. *)
Lemma scan_last raw text ls t e s r x : t ++ e <> [] ->
  scan raw text (ls ++ [(t, e)]) = (s, (r, x)) ->
  (r <> [] /\ _ends_with_odd_backslash (lstrip is_blank t) = true)
  \/ (r = [] /\ x = [] /\ exists s' r' o, s = s' ++ [(r', o)]
      /\ (is_Some o -> _ends_with_odd_backslash (lstrip is_blank t) = false)).
Proof.
  intros Hte. rewrite scan_app. destruct (scan raw text ls) as [s0 [r0 x0]]. cbn [scan].
  destruct (_ && _); [|destruct (_ends_with_odd_backslash _) eqn:Eo]; intros [= <- <- <-].
  - right. split_and!; [done..|]. eexists _, _, _. split; [done|]. by intros [? ?].
  - left. split; [|done]. by intros [_ ?]%app_eq_nil.
  - right. split_and!; [done..|]. by eexists _, _, _.
Qed.

Definition dangles (st : bytes * bytes) : bool :=
  negb (is_empty st.1) && negb (is_empty st.2 && ends_with CRLF st.1).

(** The tail the code recognises is the one whose logical line the file leaves open,
    except a lone backslash before a final CR LF, which reads as no property. *)
Lemma dangling_spec content :
  _ends_in_dangling_continuation content (_parse content) = dangles (state content).
Proof.
  assert (Hd : _ends_in_dangling_continuation content (_parse content) =
    match last (_parse content) with
    | Some p => Nat.eqb p.(end_) (List.length content)
    | None => false
    end && _ends_with_odd_backslash (lstrip is_blank (final_text content))).
  { unfold _ends_in_dangling_continuation, final_text. destruct (last (_parse content)); [|done].
    by destruct (Nat.eqb _ _). }
  rewrite Hd. clear Hd. destruct (state content) as [r x] eqn:Est. destruct (state_scan _ _ Est) as [s Hs].
  destruct (entries_scan _ _ _ _ Hs) as [_ Hload]. pose proof (line_list_lines content) as Hll.
  destruct (lines content) as [|[t e] ls _] eqn:El using rev_ind.
  { pose proof (bytes_lines content) as Hc. rewrite El in Hc. subst content. by injection Hs as _ <- <-. }
  rewrite (final_text_line _ _ _ _ El).
  assert (Hte : t ++ e <> []) by (apply line_list_app in Hll as [_ Hll]; by apply line_list_nonempty in Hll).
  unfold dangles. cbn [fst snd]. destruct (scan_last _ _ _ _ _ _ _ _ Hte Hs) as [[Hr Ho]|(-> & -> & s' & r' & o & -> & Ho)].
  - rewrite Ho, andb_true_r. unfold finish in Hload. destruct r as [|c r]; [done|]. cbn [is_empty negb andb] in *.
    destruct (_ && _); by rewrite (last_span _ _ _ _ Hload).
  - cbn [finish is_empty] in Hload. rewrite app_nil_r in Hload. rewrite (last_span _ _ _ _ Hload). cbn [is_empty negb andb].
    case_bool_decide as Hsome; [|done]. by rewrite Ho.
Qed.

(** ** Cutting a file into chunks *)

(** A chunk that holds exactly its segment's property. *)
Definition whole (s : segment) : Prop := closed s.1 /\ entries s.1 = pairs [s].

Lemma whole_raws segs : Forall whole segs -> closed (raws segs) /\ entries (raws segs) = pairs segs.
Proof.
  induction 1 as [|[r o] segs [Hc He] _ [IHc IHe]]; [by split; [apply closed_nil|]|].
  cbn [raws flat_map fst] in *. fold (raws segs). destruct (closed_app r (raws segs) Hc) as [E _].
  split; [by apply closed_app_closed|]. rewrite E, He, IHe. by rewrite <- pairs_app.
Qed.

(** A group of lines and what it holds. *)
Definition group : Type := list (bytes * bytes) * option (str * str).
Definition complete (g : group) : Prop := scan [] [] g.1 = ([(bytes_of g.1, g.2)], ([], [])).

Lemma scan_groups p x ls : scan [] [] p = ([], (bytes_of p, x)) ->
  exists (gs : list group) rest x', p ++ ls = flat_map fst gs ++ rest /\ Forall complete gs
    /\ scan [] [] rest = ([], (bytes_of rest, x')).
Proof.
  revert p x. induction ls as [|[t e] ls IH]; intros p x Hp.
  { exists [], p, x. by rewrite app_nil_r. }
  assert (Hstep : scan [] [] (p ++ [(t, e)]) = scan (bytes_of p) x [(t, e)]).
  { rewrite scan_app, Hp. by destruct (scan (bytes_of p) x [(t, e)]). }
  assert (Hb : bytes_of (p ++ [(t, e)]) = bytes_of p ++ t ++ e).
  { rewrite bytes_of_app. cbn. by rewrite app_nil_r. }
  assert (Hgo : forall o, scan [] [] (p ++ [(t, e)]) = ([(bytes_of p ++ t ++ e, o)], ([], [])) ->
    exists (gs : list group) rest x', p ++ (t, e) :: ls = flat_map fst gs ++ rest /\ Forall complete gs
    /\ scan [] [] rest = ([], (bytes_of rest, x'))).
  { intros o Ho. destruct (IH [] [] eq_refl) as (gs & rest & x' & Hl & Hgs & Hr). cbn [app] in Hl. subst ls.
    exists ((p ++ [(t, e)], o) :: gs), rest, x'. split_and!; [|constructor; [|done]|done].
    - cbn [flat_map fst]. by rewrite <- !app_assoc.
    - unfold complete. cbn [fst snd]. by rewrite Ho, Hb. }
  cbn [scan] in Hstep. destruct (_ && _); [by eapply Hgo|]. destruct (_ends_with_odd_backslash _).
  - rewrite <- Hb in Hstep. destruct (IH _ _ Hstep) as (gs & rest & x' & Hl & Hgs & Hr).
    exists gs, rest, x'. by rewrite <- Hl, <- app_assoc.
  - by eapply Hgo.
Qed.

(** What may stand after the chunks: an unterminated line, or an open logical line. *)
Inductive ending : bytes -> Prop :=
| ending_none : ending []
| ending_line t o : t <> [] -> load t = [(t, o)] -> ends_with LF t = false ->
    whole (t ++ LF, o) -> state t = ([], []) -> ending t
| ending_open t x : t <> [] -> scan [] [] (lines t) = ([], (t, x)) -> ending t.

(** More bytes change the reading of the last line only. *)
Lemma lines_extend l x e b : line_list (l ++ [(x, e)]) ->
  lines (bytes_of (l ++ [(x, e)]) ++ b) = l ++ lines (x ++ e ++ b).
Proof.
  induction l as [|[t d] l IH]; cbn [app]; intros H.
  { cbn. by rewrite app_nil_r, <- app_assoc. }
  destruct (line_list_cons _ _ _ H) as [Hn Hl]. specialize (IH Hl).
  cbn [bytes_of flat_map fst snd]. fold (bytes_of (l ++ [(x, e)])).
  assert (Hr : bytes_of (l ++ [(x, e)]) <> []).
  { apply line_list_app in Hl as [_ Hl]. apply line_list_nonempty in Hl. rewrite bytes_of_app. cbn.
    rewrite app_nil_r. by intros [_ ?]%app_eq_nil. }
  assert (Hd : d <> []) by (intros Hd; by apply Hr, (nat_end _ _ _ _ Hn)).
  pose proof (terminator_extend d _ b Hd (nat_term _ _ _ _ Hn Hd) Hr) as Ht.
  destruct (natural_terminated t _ _ (nat_text _ _ _ _ Hn) Ht) as (d' & _ & Ed & Hn').
  apply app_inv_tail in Ed as <-. rewrite <- !app_assoc, (nat_lines _ _ _ _ Hn'). by rewrite IH.
Qed.

Lemma lines_one x e : no_eol x -> terminator e = Some [] -> lines (x ++ e) = [(x, e)].
Proof.
  intros Hx He. destruct (natural_terminated x e [] Hx He) as (e' & _ & Ee & Hn). rewrite app_nil_r in Ee. subst e'.
  by rewrite (nat_lines _ _ _ _ Hn).
Qed.

(** The last line of a file: how it ends. *)
Lemma last_line_cases l x e : line_list (l ++ [(x, e)]) ->
  no_eol x /\ ((e = [] /\ x <> []) \/ e = [10] \/ e = [13] \/ e = [13; 10]).
Proof.
  intros H. apply line_list_app in H as [_ H]. pose proof (line_list_nonempty _ _ _ H) as Hne.
  destruct (line_list_cons _ _ _ H) as [Hn _]. split; [apply (nat_text _ _ _ _ Hn)|].
  destruct (decide (e = [])) as [->|He]; [left; by rewrite app_nil_r in Hne|right].
  apply terminator_cases, (nat_term _ _ _ _ Hn He).
Qed.

Lemma not_lf_text x b : no_eol x -> x <> [] -> ends_with LF (b ++ x) = false.
Proof.
  intros Hx Hne. unfold LF. rewrite ends_with_one, last_app_ne by done. apply bool_decide_eq_false_2.
  intros [y ->]%list.last_Some. apply Forall_app in Hx as [_ Hx]. inversion Hx. done.
Qed.

Lemma complete_facts g : complete g -> line_list g.1 ->
  load (bytes_of g.1) = [(bytes_of g.1, g.2)] /\ state (bytes_of g.1) = ([], [])
  /\ (ends_eol (bytes_of g.1) -> whole (bytes_of g.1, g.2)).
Proof.
  intros Hc Hl. unfold complete in Hc. rewrite <- Hl in Hc at 1. destruct (entries_scan _ _ _ _ Hc) as [He Hload].
  cbn [finish is_empty] in He, Hload. rewrite app_nil_r in He, Hload.
  assert (Hst : state (bytes_of g.1) = ([], [])) by (unfold state; by rewrite Hc).
  split_and!; [done..|]. intros Hends. split; [by split|exact He].
Qed.

Lemma complete_ending g : complete g -> line_list g.1 -> g.1 <> [] ->
  whole (bytes_of g.1, g.2) \/ ending (bytes_of g.1).
Proof.
  intros Hc Hl Hne. destruct (complete_facts _ Hc Hl) as (Hload & Hst & Hw).
  destruct g as [ls o]. cbn [fst snd] in *. destruct ls as [|[x e] l _] using rev_ind; [done|].
  destruct (last_line_cases _ _ _ Hl) as [Hx Hcases]. assert (Hends : e <> [] -> whole (bytes_of (l ++ [(x, e)]), o)).
  { intros He. apply Hw. rewrite bytes_of_app. cbn. rewrite app_nil_r, app_assoc. unfold ends_eol.
    rewrite last_app_ne by done. by destruct Hcases as [[-> _]|[->|[->| ->]]]. }
  destruct (decide (e = [])) as [->|He]; [right|by left; apply Hends].
  destruct Hcases as [[_ Hxne]|[?|[?|?]]]; [|done..].
  assert (Hlf : lines (bytes_of (l ++ [(x, [])]) ++ LF) = l ++ [(x, LF)]).
  { rewrite (lines_extend _ _ _ _ Hl). cbn [app]. by rewrite lines_one. }
  destruct (scan_line_eol _ _ _ x [] LF _ ltac:(by rewrite app_nil_r) Hc) as (s' & Hs' & Hp).
  apply (ending_line _ o); [|done| |split; [split|]|done].
  - rewrite bytes_of_app. cbn. rewrite !app_nil_r. by intros [_ ?]%app_eq_nil.
  - rewrite bytes_of_app. cbn. rewrite !app_nil_r. by apply not_lf_text.
  - cbn [fst]. unfold ends_eol, LF. by rewrite last_snoc.
  - cbn [fst]. unfold state. by rewrite Hlf, Hs'.
  - cbn [fst]. rewrite <- Hlf in Hs'. destruct (entries_scan _ _ _ _ Hs') as [-> _]. rewrite Hp. by destruct o.
Qed.

Definition segment_of (g : group) : segment := (bytes_of g.1, g.2).

Lemma raws_groups gs : raws (map segment_of gs) = bytes_of (flat_map fst gs).
Proof. induction gs as [|g gs IH]; [done|]. cbn. rewrite bytes_of_app. f_equal. apply IH. Qed.

Lemma read_groups gs rest : Forall complete gs ->
  read [] [] (flat_map fst gs ++ rest) = map segment_of gs ++ read [] [] rest.
Proof.
  induction 1 as [|g gs Hg _ IH]; [done|]. cbn [flat_map map app]. by rewrite <- app_assoc, read_app, Hg, IH.
Qed.

Lemma groups_whole gs x l2 : Forall complete gs -> line_list (flat_map fst gs ++ x :: l2) ->
  Forall whole (map segment_of gs).
Proof.
  intros Hgs. revert x l2. induction Hgs as [|g gs Hg _ IH]; intros x l2 H; [constructor|].
  cbn [flat_map] in H. rewrite <- app_assoc in H. destruct (line_list_app _ _ H) as [Hlg Hlr].
  constructor; [|by eapply IH]. apply (complete_facts g Hg Hlg).
  destruct (flat_map fst gs ++ x :: l2) as [|y l] eqn:E; [by destruct (flat_map fst gs)|].
  by eapply line_list_ends.
Qed.

(** Groups that are all of a file: chunks, the last one perhaps unterminated. *)
Lemma groups_chunks gs : Forall complete gs -> line_list (flat_map fst gs) -> exists cs t,
  bytes_of (flat_map fst gs) = raws cs ++ t /\ map segment_of gs = cs ++ load t
  /\ Forall whole cs /\ ending t.
Proof.
  intros Hgs Hll. destruct gs as [|g gs _] using rev_ind; [by exists [], []; split_and!; [..|constructor]|].
  apply Forall_app in Hgs as [Hgs Hg]. apply Forall_cons in Hg as [Hg _].
  rewrite flat_map_app in *. cbn [flat_map] in *. rewrite app_nil_r in *.
  destruct (line_list_app _ _ Hll) as [Hl1 Hlg].
  assert (Hgne : g.1 <> []) by (intros E; unfold complete in Hg; by rewrite E in Hg).
  assert (Hws : Forall whole (map segment_of gs)).
  { destruct g.1 as [|y l]; [done|]. by apply (groups_whole gs y l). }
  rewrite bytes_of_app, <- raws_groups, map_app. destruct (complete_ending g Hg Hlg Hgne) as [Hw|Hend].
  - exists (map segment_of (gs ++ [g])), []. split_and!; [| | |constructor].
    + rewrite map_app, raws_app. cbn. by rewrite !app_nil_r.
    + by rewrite map_app, app_nil_r.
    + rewrite map_app. apply Forall_app. split; [done|]. by constructor.
  - exists (map segment_of gs), (bytes_of g.1). split_and!; [done| |done|done].
    f_equal. symmetry. apply (complete_facts g Hg Hlg).
Qed.

(** Every file is chunks, then an ending. *)
Lemma load_chunks content : exists cs t,
  content = raws cs ++ t /\ load content = cs ++ load t /\ Forall whole cs /\ ending t.
Proof.
  destruct (scan_groups [] [] (lines content) eq_refl) as (gs & rest & x & Hl & Hgs & Hrest). cbn [app] in Hl.
  pose proof (line_list_lines content) as Hll. rewrite Hl in Hll.
  assert (Hcontent : content = bytes_of (flat_map fst gs) ++ bytes_of rest).
  { by rewrite <- bytes_of_app, <- Hl, bytes_lines. }
  assert (Hlc : load content = map segment_of gs ++ read [] [] rest) by (unfold load; rewrite Hl; by apply read_groups).
  destruct rest as [|[t e] rest].
  - rewrite app_nil_r in Hll, Hcontent, Hlc. cbn [bytes_of flat_map] in *.
    destruct (groups_chunks gs Hgs Hll) as (cs & t & Hb & Hs & Hw & He). exists cs, t.
    split_and!; [by rewrite Hcontent|by rewrite Hlc|done..].
  - exists (map segment_of gs), (bytes_of ((t, e) :: rest)).
    destruct (line_list_app _ _ Hll) as [_ Hlr].
    split_and!; [by rewrite raws_groups, <- Hcontent| |by eapply groups_whole|].
    + rewrite Hlc. unfold load. by rewrite Hlr.
    + apply (ending_open _ x); [|by rewrite Hlr].
      apply line_list_nonempty in Hlr. cbn. by intros [? _]%app_eq_nil.
Qed.
