(* ===== verification/PropertiesWrite.v ===== *)
(** * server.properties: what the writes do

    [_rewrite] and the operations built on it, on every file: each key that is set
    has exactly the value given, each key that is cleared is gone, and every other
    key keeps its values.  [_set_property] does the same except behind a dangling
    continuation, whose line swallows what it appends. *)
From Stdlib Require Import ZArith NArith Lia String Ascii.
From stdpp Require Import base gmap strings list.
From S2P Require Import Prelude Text Properties PropertiesLoad PropertiesEscape PropertiesChunks.

Open Scope N_scope.

(** ** The open ending *)

Lemma scan_open raw text ls r x : scan raw text ls = ([], (r, x)) ->
  r = raw ++ bytes_of ls
  /\ Forall (fun te => _ends_with_odd_backslash (lstrip is_blank te.1) = true) ls
  /\ x = text ++ flat_map (fun te => removelast (lstrip is_blank te.1)) ls.
Proof.
  revert raw text. induction ls as [|[t e] ls IH]; intros raw text; cbn [scan].
  - intros [= <- <-]. by rewrite !app_nil_r.
  - destruct (_ && _); [by destruct (scan [] [] ls)|]. destruct (_ends_with_odd_backslash _) eqn:Eo.
    + intros H. destruct (IH _ _ H) as (-> & Hf & ->). split_and!; [|by constructor|].
      * cbn. by rewrite <- !app_assoc.
      * cbn. by rewrite <- app_assoc.
    + by destruct (scan [] [] ls).
Qed.

Lemma scan_open_eol ls t e e' r x : scan [] [] (ls ++ [(t, e)]) = ([], (r, x)) ->
  scan [] [] (ls ++ [(t, e')]) = ([], (bytes_of (ls ++ [(t, e')]), x)).
Proof.
  intros H. enough (exists r', scan [] [] (ls ++ [(t, e')]) = ([], (r', x))) as [r' Hr'].
  { destruct (scan_open _ _ _ _ _ Hr') as [E _]. cbn [app] in E. by rewrite <- E. }
  revert H. rewrite !scan_app. destruct (scan [] [] ls) as [s0 [r0 x0]]. cbn [scan].
  destruct (_ && _); [|destruct (_ends_with_odd_backslash _)]; intros [= H]; apply app_eq_nil in H as [-> H];
    try done. subst. by eexists.
Qed.

Lemma normalize_lf l : ends_with LF (_normalize l) = true.
Proof.
  unfold _normalize. destruct (ends_with LF l) eqn:E; [done|]. unfold LF. by rewrite ends_with_one, last_snoc, bool_decide_eq_true_2.
Qed.

Lemma normalize_done l : ends_with LF l = true -> _normalize l = l.
Proof. unfold _normalize. by intros ->. Qed.

(** Ending its last line does not close an open logical line. *)
Lemma open_normalize t x : t <> [] -> scan [] [] (lines t) = ([], (t, x)) ->
  scan [] [] (lines (_normalize t)) = ([], (_normalize t, x)).
Proof.
  intros Hne Hs. pose proof (line_list_lines t) as Hll.
  destruct (lines t) as [|[y e] ls _] eqn:El using rev_ind; [by injection Hs as <- _|].
  assert (Ht : t = bytes_of (ls ++ [(y, e)])) by (by rewrite <- El, bytes_lines).
  unfold _normalize. destruct (ends_with LF t) eqn:Elf; [by rewrite El|].
  destruct (last_line_cases _ _ _ Hll) as [Hy Hcases].
  assert (Hnew : exists e', lines (t ++ LF) = ls ++ [(y, e')]).
  { rewrite Ht, (lines_extend _ _ _ _ Hll). assert (Ht' : t = (bytes_of ls ++ y) ++ e).
    { rewrite Ht, bytes_of_app. cbn. by rewrite app_nil_r, app_assoc. }
    clear Ht. rewrite Ht' in Elf.
    destruct Hcases as [[-> _]|[->|[->| ->]]].
    - exists LF. cbn [app]. by rewrite lines_one.
    - unfold LF in Elf. by rewrite ends_with_one, last_snoc, bool_decide_eq_true_2 in Elf.
    - exists CRLF. change ([13] ++ LF) with CRLF. by rewrite (lines_one y CRLF).
    - change [13; 10] with ([13] ++ [10]) in Elf. unfold LF in Elf.
      by rewrite app_assoc, ends_with_one, last_snoc, bool_decide_eq_true_2 in Elf. }
  destruct Hnew as [e' Hl']. rewrite Hl'. rewrite (scan_open_eol _ _ _ e' _ _ Hs).
  by rewrite <- Hl', bytes_lines.
Qed.

(** What follows an open line that ends in LF is read as its continuation. *)
Lemma open_app t x b : ends_with LF t = true -> scan [] [] (lines t) = ([], (t, x)) ->
  entries (t ++ b) = pairs (read t x (lines b)) /\ state (t ++ b) = (scan t x (lines b)).2.
Proof.
  intros Hlf Hs. unfold entries, load, state. rewrite (lines_snoc_lf t b Hlf), read_app, scan_app, Hs.
  split; [done|]. by destruct (scan t x (lines b)).
Qed.

Lemma open_ends t b : ends_eol b -> b <> [] -> ends_eol (t ++ b).
Proof. intros Hb Hne. unfold ends_eol in *. by rewrite last_app_ne. Qed.

(** The line [_continuation_end] adds reads as the open line did, and closes it. *)
Lemma open_closed t x : ends_with LF t = true -> scan [] [] (lines t) = ([], (t, x)) ->
  whole (t ++ (if is_empty x then [61; 10] else LF), Some (_split_key_value x)).
Proof.
  intros Hlf Hs. destruct (open_app t x (if is_empty x then [61; 10] else LF) Hlf Hs) as [He Hst].
  split; [split|]; cbn [fst snd] in *; [by apply open_ends; destruct x| |].
  - rewrite Hst. by destruct x.
  - rewrite He. destruct x as [|c x]; [done|]. cbn [is_empty]. change (lines LF) with ([([], [10])] : list (bytes * bytes)).
    cbn [read lstrip span snd is_empty andb]. change (_ends_with_odd_backslash []) with false.
    by rewrite (app_nil_r (c :: x)).
Qed.

(** A canonical line is one line, and reads as its pair. *)
Lemma canonical_line k v : writable k -> writable v -> lines (canonical k v ++ LF) = [(canonical k v, LF)].
Proof.
  intros Hk Hv. apply lines_one; [|done]. destruct (canonical_clean k v Hk Hv) as [H _].
  eapply Forall_impl; [exact H|]. intros c Hc. by apply printable_no_eol.
Qed.

Lemma read_canonical raw k v : writable k -> writable v ->
  scan raw [] [(canonical k v, LF)] = ([(raw ++ canonical k v ++ LF, Some (k, v))], ([], [])).
Proof.
  intros Hk Hv. cbn [scan is_empty andb]. destruct (canonical_start k v Hk) as [-> ->].
  destruct (canonical_clean k v Hk Hv) as [_ ->]. cbn [app]. unfold property. by rewrite canonical_split.
Qed.

Lemma canonical_after raw k v : writable k -> writable v ->
  pairs (read raw [] (lines (canonical k v ++ LF))) = [(k, v)] /\ (scan raw [] (lines (canonical k v ++ LF))).2 = ([], []).
Proof.
  intros Hk Hv. rewrite canonical_line by done. rewrite read_scan, read_canonical by done. done.
Qed.

Lemma canonical_whole k v : writable k -> writable v -> whole (canonical k v ++ LF, Some (k, v)).
Proof.
  intros Hk Hv. destruct (canonical_after [] k v Hk Hv) as [He Hs]. split; [split|]; [|done|done].
  by apply open_ends.
Qed.

(** A lone backslash before CR LF takes an appended line as the first of its own. *)
Lemma open_lone t k v : ends_with LF t = true -> scan [] [] (lines t) = ([], (t, [])) ->
  writable k -> writable v -> whole (t ++ canonical k v ++ LF, Some (k, v)).
Proof.
  intros Hlf Hs Hk Hv. destruct (open_app t [] (canonical k v ++ LF) Hlf Hs) as [He Hst].
  destruct (canonical_after t k v Hk Hv) as [He' Hs'].
  split; [split|]; cbn [fst snd]; [|by rewrite Hst|by rewrite He].
  apply open_ends; [by apply open_ends|]. by intros [_ ?]%app_eq_nil.
Qed.

(** [splitlines] gives the texts of the lines. *)
Lemma splitlines_lines l : splitlines l = map fst (lines l).
Proof.
  induction l as [l IH] using (induction_ltof1 _ (@List.length N)). unfold ltof in IH.
  destruct l as [|c l]; [done|]. cbn [splitlines lines]. destruct (is_lf c).
  { cbn. f_equal. apply IH. cbn. lia. }
  destruct (is_cr c).
  - destruct l as [|d l]; [done|]. destruct (is_lf d); cbn [map fst]; f_equal; apply IH; cbn; lia.
  - rewrite IH by (cbn; lia). by destruct (lines l) as [|[t e] ls].
Qed.

(** [_continuation_end] tells an open line with no text from one with some. *)
Lemma continuation_end_spec content p t x : scan [] [] (lines t) = ([], (t, x)) ->
  take (p.(end_) - p.(start)) (drop p.(start) content) = t ->
  _continuation_end content p = if is_empty x then [61; 10] else LF.
Proof.
  intros Hs Ht. unfold _continuation_end. rewrite Ht, splitlines_lines.
  destruct (scan_open _ _ _ _ _ Hs) as (_ & Hodd & ->). cbn [app]. clear Hs Ht.
  enough (forallb (fun line => is_lone (lstrip is_blank line)) (map fst (lines t))
    = is_empty (flat_map (fun te => removelast (lstrip is_blank te.1)) (lines t))) as -> by done.
  induction Hodd as [|[y e] ls Ho _ IH]; [done|]. cbn [map forallb fst flat_map] in *. rewrite IH.
  unfold is_lone. apply odd_snoc in Ho. case_bool_decide as Hlone; [by rewrite Hlone|].
  destruct (removelast (lstrip is_blank y)) eqn:E; [by rewrite Ho in Hlone|done].
Qed.

(** ** The walk over the properties *)

Definition lines_of (values : list (str * str)) : list (str * bytes) :=
  map (fun kv => (kv.1, canonical kv.1 kv.2)) values.

(** What [rewrite_edits] makes of one segment, and of all of them. *)
Definition rewritten_one (values : list (str * str)) (cleared : list str) (seg : segment)
    (written : list str) : segment * list str :=
  match seg with
  | (raw, None) => (seg, written)
  | (raw, Some (k, v)) =>
      match od_get k values with
      | Some new =>
          if bool_decide (k ∈ written) then (([], None), written)
          else ((canonical k new ++ LF, Some (k, new)), k :: written)
      | None => (if bool_decide (k ∈ cleared) then ([], None) else seg, written)
      end
  end.

Fixpoint rewritten (values : list (str * str)) (cleared : list str) (segs : list segment)
    (written : list str) : list segment * list str :=
  match segs with
  | [] => ([], written)
  | seg :: segs' =>
      let '(s, w) := rewritten_one values cleared seg written in
      let '(r, w) := rewritten values cleared segs' w in (s :: r, w)
  end.

Lemma rewritten_cons values cleared seg segs w :
  let s := rewritten_one values cleared seg w in
  rewritten values cleared (seg :: segs) w =
  (s.1 :: (rewritten values cleared segs s.2).1, (rewritten values cleared segs s.2).2).
Proof.
  cbn zeta. cbn [rewritten]. destruct (rewritten_one values cleared seg w) as [s w1]. cbn [fst snd].
  by destruct (rewritten values cleared segs w1).
Qed.

Lemma od_get_lines k values : od_get k (lines_of values) = canonical k <$> od_get k values.
Proof.
  induction values as [|[k' v] values IH]; [done|]. cbn. case_decide as E; [by subst|apply IH].
Qed.

Lemma drop_pre (pre rest : bytes) : drop (List.length pre) (pre ++ rest) = rest.
Proof. apply drop_app_length. Qed.

(** One replaced span, given what the walk does after it and what it copied before. *)
Ltac replaced Hgo Hgap w :=
  let H1 := fresh in let H2 := fresh in destruct (Hgo w) as [H1 H2];
  destruct (rewrite_edits _ _ _ w); cbn [fst snd splice raws flat_map] in *;
  rewrite Hgap; split; [|exact H2];
  match goal with |- ?g ++ ?n ++ _ = _ => exact (f_equal (fun x => g ++ n ++ x) H1) end.

Lemma splice_rewritten values cleared segs pre gap written :
  let r := rewrite_edits (lines_of values) cleared (located (List.length (pre ++ gap)) segs) written in
  splice (pre ++ gap ++ raws segs) (List.length pre) r.1 = gap ++ raws (rewritten values cleared segs written).1
  /\ r.2 = (rewritten values cleared segs written).2.
Proof.
  cbn zeta. revert pre gap written. induction segs as [|[raw [[k v]|]] segs IH]; intros pre gap written.
  - cbn [located rewrite_edits splice fst snd rewritten]. by rewrite drop_pre.
  - (* after a replaced span, the cursor is past it *)
    assert (Hgo : forall w, splice (pre ++ gap ++ raws ((raw, Some (k, v)) :: segs)) (List.length (pre ++ gap) + List.length raw)
        (rewrite_edits (lines_of values) cleared (located (List.length (pre ++ gap) + List.length raw) segs) w).1
        = raws (rewritten values cleared segs w).1
      /\ (rewrite_edits (lines_of values) cleared (located (List.length (pre ++ gap) + List.length raw) segs) w).2
        = (rewritten values cleared segs w).2).
    { intros w. specialize (IH (pre ++ gap ++ raw) [] w). rewrite app_nil_r in IH. cbn [app] in IH.
      cbn [raws flat_map fst]. fold (raws segs). rewrite !app_assoc in *. rewrite <- length_app. apply IH. }
    assert (Hgap : forall x, take (List.length (pre ++ gap) - List.length pre) (drop (List.length pre) (pre ++ gap ++ x)) = gap).
    { intros x. rewrite drop_pre, length_app, (Nat.add_comm (List.length pre)), Nat.add_sub. apply take_app_length. }
    rewrite rewritten_cons. cbn [located rewrite_edits key start end_ rewritten_one app fst snd]. rewrite od_get_lines.
    destruct (od_get k values) as [new|]; cbn [fmap option_fmap option_map]; [destruct (bool_decide (k ∈ written))|].
    + replaced Hgo Hgap written.
    + replaced Hgo Hgap (k :: written).
    + destruct (bool_decide (k ∈ cleared)); [replaced Hgo Hgap written|].
      specialize (IH pre (gap ++ raw) written). rewrite (app_assoc pre gap raw), (length_app (pre ++ gap)) in IH.
      cbn [fst snd raws flat_map] in *. rewrite <- !app_assoc in IH. apply IH.
  - specialize (IH pre (gap ++ raw) written). rewrite (app_assoc pre gap raw), (length_app (pre ++ gap)) in IH.
    rewrite rewritten_cons. cbn [located rewritten_one app fst snd raws flat_map] in *.
    rewrite <- !app_assoc in IH. apply IH.
Qed.

Lemma rewritten_app values cleared s1 s2 w :
  let r1 := rewritten values cleared s1 w in let r2 := rewritten values cleared s2 r1.2 in
  rewritten values cleared (s1 ++ s2) w = (r1.1 ++ r2.1, r2.2).
Proof.
  cbn zeta. revert w. induction s1 as [|seg s1 IH]; intros w; cbn [app].
  - by destruct (rewritten values cleared s2 w) eqn:E; cbn; rewrite E.
  - by rewrite !rewritten_cons, IH.
Qed.

(** What the caller asks to be set. *)
Definition settable (values : list (str * str)) : Prop :=
  NoDup (od_keys values) /\ Forall (fun kv => writable kv.1 /\ writable kv.2) values.

Lemma settable_get values k v : settable values -> od_get k values = Some v -> writable k /\ writable v.
Proof.
  intros [Hnd Hw] Hg. apply od_get_elem in Hg; [|done]. rewrite Forall_forall in Hw.
  by apply (Hw (k, v)).
Qed.

Lemma whole_nil : whole ([], None).
Proof. split; [apply closed_nil|done]. Qed.

Lemma rewritten_one_whole values cleared seg w : settable values -> whole seg ->
  whole (rewritten_one values cleared seg w).1.
Proof.
  intros Hs Hw. destruct seg as [raw [[k v]|]]; [|done]. cbn [rewritten_one].
  destruct (od_get k values) as [new|] eqn:E; case_bool_decide; cbn [fst]; try done; try apply whole_nil.
  destruct (settable_get _ _ _ Hs E). by apply canonical_whole.
Qed.

Lemma rewritten_whole values cleared segs w : settable values -> Forall whole segs ->
  Forall whole (rewritten values cleared segs w).1.
Proof.
  intros Hs Hw. revert w. induction Hw as [|seg segs Hw _ IH]; intros w; [constructor|].
  rewrite rewritten_cons. constructor; [by apply rewritten_one_whole|apply IH].
Qed.

(** The values a list of properties gives a key. *)
Definition values_of (k : str) (ps : list (str * str)) : list str :=
  map snd (List.filter (fun p => bool_decide (p.1 = k)) ps).

Lemma values_of_app k p1 p2 : values_of k (p1 ++ p2) = values_of k p1 ++ values_of k p2.
Proof. unfold values_of. by rewrite List.filter_app, map_app. Qed.

Lemma values_of_cons k k' v ps : values_of k ((k', v) :: ps) =
  (if bool_decide (k' = k) then [v] else []) ++ values_of k ps.
Proof. unfold values_of. cbn [List.filter fst]. by case_bool_decide. Qed.

Lemma raw_values_entries content k : _raw_values content k = values_of k (entries content).
Proof.
  unfold _raw_values, entries. rewrite parse_located. generalize 0%nat.
  induction (load content) as [|[raw [[k' v]|]] segs IH]; intros off; cbn [located app]; [done| |apply IH].
  change (pairs ((raw, Some (k', v)) :: segs)) with ((k', v) :: pairs segs).
  rewrite values_of_cons, <- (IH (off + List.length raw)%nat). cbn [List.filter key map]. by case_bool_decide.
Qed.

Lemma pairs_cons raw o segs : pairs ((raw, o) :: segs) = option_list o ++ pairs segs.
Proof. by destruct o. Qed.

(** One segment's effect on the values of a key. *)
Lemma rewritten_one_values values cleared seg w k :
  let s := rewritten_one values cleared seg w in
  values_of k (pairs [s.1]) =
  match od_get k values with
  | Some new => if bool_decide (k ∈ w) then [] else if bool_decide (k ∈ od_keys (pairs [seg])) then [new] else []
  | None => if bool_decide (k ∈ cleared) then [] else values_of k (pairs [seg])
  end
  /\ (k ∈ s.2 <-> k ∈ w \/ is_Some (od_get k values) /\ k ∈ od_keys (pairs [seg])).
Proof.
  cbn zeta. destruct seg as [raw [[k' v]|]]; cbn [rewritten_one].
  2: { cbn. split; [by repeat case_match|]. set_solver. }
  change (od_keys (pairs [(raw, Some (k', v))])) with [k'].
  change (pairs [(raw, Some (k', v))]) with [(k', v)]. rewrite values_of_cons.
  destruct (decide (k' = k)) as [->|Hne].
  - rewrite !(bool_decide_eq_true_2 (k = k)), (bool_decide_eq_true_2 (k ∈ [k])) by set_solver.
    destruct (od_get k values) as [new|] eqn:E; case_bool_decide; (split; [try done|set_solver]).
    all: cbn [fst]; change (pairs [(?r, Some ?p)]) with [p]; by rewrite values_of_cons, bool_decide_eq_true_2.
  - rewrite (bool_decide_eq_false_2 (k' = k)), (bool_decide_eq_false_2 (k ∈ [k'])) by set_solver.
    assert (Hother : forall r x, values_of k (pairs [(r, Some (k', x))]) = []).
    { intros r x. change (pairs [(r, Some (k', x))]) with [(k', x)]. by rewrite values_of_cons, bool_decide_eq_false_2. }
    destruct (od_get k' values) as [new|]; case_bool_decide; cbn [fst snd]; rewrite ?Hother;
      (split; [by repeat case_match|set_solver]).
Qed.

Lemma values_of_segs k seg segs : values_of k (pairs (seg :: segs)) = values_of k (pairs [seg]) ++ values_of k (pairs segs).
Proof. by rewrite <- values_of_app, <- pairs_app. Qed.

Lemma keys_of_segs k seg segs : k ∈ od_keys (pairs (seg :: segs)) <-> k ∈ od_keys (pairs [seg]) \/ k ∈ od_keys (pairs segs).
Proof. unfold od_keys. rewrite (pairs_app [seg] segs : pairs (seg :: segs) = _), map_app. apply elem_of_app. Qed.

Lemma rewritten_values values cleared segs w k :
  let r := rewritten values cleared segs w in
  values_of k (pairs r.1) =
  match od_get k values with
  | Some new => if bool_decide (k ∈ w) then [] else if bool_decide (k ∈ od_keys (pairs segs)) then [new] else []
  | None => if bool_decide (k ∈ cleared) then [] else values_of k (pairs segs)
  end
  /\ (k ∈ r.2 <-> k ∈ w \/ is_Some (od_get k values) /\ k ∈ od_keys (pairs segs)).
Proof.
  cbn zeta. revert w. induction segs as [|seg segs IH]; intros w.
  { cbn. split; [by repeat case_match|]. set_solver. }
  rewrite rewritten_cons. cbn [fst snd]. destruct (rewritten_one_values values cleared seg w k) as [H1 H2].
  destruct (IH (rewritten_one values cleared seg w).2) as [IH1 IH2].
  rewrite values_of_segs, H1, IH1, IH2, H2, (keys_of_segs k seg segs). split; [|tauto].
  destruct (od_get k values) as [new|]; [|case_bool_decide; [done|by rewrite (values_of_segs k seg segs)]].
  rewrite (bool_decide_ext _ _ H2), (bool_decide_ext _ _ (keys_of_segs k seg segs)).
  repeat case_bool_decide; try done; exfalso; naive_solver.
Qed.

(** ** Where the walk stops *)

Lemma rewrite_edits_app lines cleared p1 p2 w :
  let r1 := rewrite_edits lines cleared p1 w in let r2 := rewrite_edits lines cleared p2 r1.2 in
  rewrite_edits lines cleared (p1 ++ p2) w = (r1.1 ++ r2.1, r2.2).
Proof.
  cbn zeta. revert w. induction p1 as [|p p1 IH]; intros w; cbn [app rewrite_edits].
  - cbn. by destruct (rewrite_edits lines cleared p2 w).
  - destruct (od_get (key p) lines) as [line|]; case_bool_decide; rewrite IH;
      by destruct (rewrite_edits lines cleared p1 _) as [e1 w1].
Qed.

Lemma edits_end lines cleared props w n : Forall (fun p => (p.(end_) <= n)%nat) props ->
  Forall (fun ed => (ed.1.2 <= n)%nat) (rewrite_edits lines cleared props w).1.
Proof.
  intros H. revert w. induction H as [|p props Hp _ IH]; intros w; cbn [rewrite_edits]; [constructor|].
  destruct (od_get (key p) lines) as [line|]; case_bool_decide; try apply IH.
  all: match goal with |- context [rewrite_edits _ _ _ ?w'] => specialize (IH w') end;
    destruct (rewrite_edits lines cleared props _); by constructor.
Qed.

Lemma final_cursor_le edits n : Forall (fun ed => (ed.1.2 <= n)%nat) edits -> (final_cursor edits <= n)%nat.
Proof.
  intros H. unfold final_cursor. destruct (last edits) as [[[s e] new]|] eqn:E; [|lia].
  apply list.last_Some in E as [l ->]. apply Forall_app in H as [_ H]. by inversion H.
Qed.

Definition touched (values : list (str * str)) (cleared : list str) (k : str) : Prop :=
  is_Some (od_get k values) \/ k ∈ cleared.

(** The cursor stops before the end exactly when the last property is kept. *)
Lemma cursor_spec values cleared cs t k v w : t <> [] ->
  (final_cursor (rewrite_edits (lines_of values) cleared (located 0 (cs ++ [(t, Some (k, v))])) w).1
     <? List.length (raws cs ++ t))%nat = false <-> touched values cleared k.
Proof.
  intros Ht. rewrite located_app, rewrite_edits_app. cbn [located app rewrite_edits fst snd key start end_].
  assert (Hlen : (List.length (raws cs) < List.length (raws cs ++ t))%nat).
  { rewrite length_app. destruct t; [done|]. cbn. lia. }
  assert (Hlast : forall e1 s new, (final_cursor (e1 ++ [(s, (0 + List.length (raws cs) + List.length t)%nat, new)])
    <? List.length (raws cs ++ t))%nat = false).
  { intros e1 s new. unfold final_cursor. rewrite last_snoc, length_app. apply Nat.ltb_ge. lia. }
  unfold touched. rewrite od_get_lines. destruct (od_get k values) as [new|] eqn:E; cbn [fmap option_fmap option_map].
  - split; [by left|]. intros _. case_bool_decide; cbn [fst]; apply Hlast.
  - case_bool_decide; cbn [fst].
    + split; [by right|]. intros _. apply Hlast.
    + rewrite app_nil_r. split; [|by intros [[? ?]|?]]. intros H1%Nat.ltb_ge. exfalso.
      match type of H1 with (_ <= final_cursor ?e)%nat => assert (final_cursor e <= List.length (raws cs))%nat; [|lia] end.
      apply final_cursor_le, edits_end, Forall_forall. intros p Hp. by apply (located_end 0 cs).
Qed.

(** ** Growing a file *)

Definition line_segment (kv : str * str) : segment := (canonical kv.1 kv.2 ++ LF, Some kv).

Lemma pairs_lines new : pairs (map line_segment new) = new.
Proof.
  induction new as [|kv new IH]; [done|]. cbn [map]. unfold line_segment at 1. by rewrite pairs_cons, IH.
Qed.

Definition settled (out : bytes) (ps : list (str * str)) : Prop := closed out /\ entries out = ps.

Lemma settled_lf out ps : settled out ps -> settled (out ++ LF) ps.
Proof.
  intros [Hc He]. destruct (closed_app out LF Hc) as [E _]. split; [by apply closed_app_closed|].
  by rewrite E, He, app_nil_r.
Qed.

Lemma settled_normalize out ps : settled out ps -> settled (_normalize out) ps.
Proof. intros H. unfold _normalize. destruct (ends_with LF out); [done|by apply settled_lf]. Qed.

(** The newline before the appended lines. *)
Definition ended (out : bytes) : bytes :=
  if negb (is_empty out) && negb (ends_with LF out) then out ++ LF else out.

Lemma ended_normalize out : out <> [] -> ended out = _normalize out.
Proof. intros H. unfold ended, _normalize. rewrite (proj2 (is_empty_false out) H). by destruct (ends_with LF out). Qed.

Lemma settled_ended out ps : settled out ps -> settled (ended out) ps.
Proof.
  intros H. destruct (decide (out = [])) as [->|Hne]; [done|].
  rewrite ended_normalize by done. by apply settled_normalize.
Qed.

Lemma settled_grow out ps new : settled out ps -> Forall (fun kv => writable kv.1 /\ writable kv.2) new ->
  settled (out ++ raws (map line_segment new)) (ps ++ new).
Proof.
  intros [Hc He] Hw. destruct (whole_raws (map line_segment new)) as [Hc' He'].
  { apply Forall_map. eapply Forall_impl; [exact Hw|]. intros [k v] [? ?]. by apply canonical_whole. }
  destruct (closed_app out (raws (map line_segment new)) Hc) as [E _].
  split; [by apply closed_app_closed|]. by rewrite E, He, He', pairs_lines.
Qed.

Lemma settled_app out ps s : settled out ps -> whole s -> settled (out ++ s.1) (ps ++ pairs [s]).
Proof.
  intros [Hc He] [Hc' He']. destruct (closed_app out s.1 Hc) as [E _].
  split; [by apply closed_app_closed|]. by rewrite E, He, He'.
Qed.

Lemma normalize_app a t : t <> [] -> _normalize (a ++ t) = a ++ _normalize t.
Proof.
  intros Hne. unfold _normalize, LF. rewrite !ends_with_one, last_app_ne by done. case_bool_decide; [done|].
  by rewrite app_assoc.
Qed.

Lemma app_ne (a t : bytes) : t <> [] -> a ++ t <> [].
Proof. by intros H [_ ?]%app_eq_nil. Qed.

Lemma rewritten_one_cases values cleared t o w : settable values ->
  let s := rewritten_one values cleared (t, o) w in
  (s.1 = (t, o) /\ match o with Some (k, _) => ~ touched values cleared k | None => True end)
  \/ (whole s.1 /\ exists k v, o = Some (k, v) /\ touched values cleared k).
Proof.
  intros Hs. cbn zeta. unfold touched. destruct o as [[k v]|]; cbn [rewritten_one]; [|by left].
  destruct (od_get k values) as [new|] eqn:E; case_bool_decide; cbn [fst].
  - right. split; [apply whole_nil|]. exists k, v. split; [done|by left].
  - right. split; [|by exists k, v; split; [|left]].
    destruct (settable_get _ _ _ Hs E). by apply canonical_whole.
  - right. split; [apply whole_nil|]. exists k, v. split; [done|by right].
  - left. split; [done|]. by intros [[? ?]|?].
Qed.

(** Ending the last line of an open file keeps every key but, at most, the empty one. *)
Lemma open_values t x k : t <> [] -> k <> [] -> scan [] [] (lines t) = ([], (t, x)) ->
  values_of k (entries (_normalize t)) = values_of k (pairs [(t, Some (_split_key_value x))]).
Proof.
  intros Hne Hk Hs. destruct (entries_scan _ _ _ _ (open_normalize t x Hne Hs)) as [-> _].
  rewrite (pairs_cons t). cbn [option_list]. change (pairs ([] : list segment)) with ([] : list (str * str)).
  cbn [app]. unfold finish. pose proof (normalize_lf t) as Hlf. destruct (_normalize t) as [|c n]; [done|]. cbn [is_empty].
  destruct x as [|c' x]; [|done]. cbn [is_empty andb]. destruct (ends_with CRLF (c :: n)); [|done].
  change (_split_key_value []) with (([], []) : str * str). change (option_list (Some ?p) ++ []) with [p]. by rewrite values_of_cons, bool_decide_eq_false_2.
Qed.

(** ** [_rewrite] *)

Section rewrite.
Context (content : bytes) (values : list (str * str)) (cleared : list str).
Context (Hset : settable values).

Let walk := rewritten values cleared (load content) [].
Let out := raws walk.1.
Let added := List.filter (fun kv => negb (bool_decide (kv.1 ∈ walk.2))) values.
Let props := _parse content.
Let stops := final_cursor (rewrite_edits (lines_of values) cleared props []).1.

(** What ends a dangling continuation before the appended lines. *)
Definition continuation : bytes :=
  match last props with
  | Some p => if (stops <? List.length content)%nat && dangles (state content)
              then _continuation_end content p else []
  | None => []
  end.

Definition rewritten_file : bytes :=
  match added with
  | [] => out
  | _ => ended out ++ continuation ++ raws (map line_segment added)
  end.

Lemma property_lines vs : Forall (fun kv => writable kv.1 /\ writable kv.2) vs ->
  mapM (fun kv : str * str => line ← property_line kv.1 kv.2; Some (kv.1, line)) vs = Some (lines_of vs).
Proof using.
  induction 1 as [|[k v] vs [Hk Hv] _ IH]; [done|]. cbn [mapM fst snd] in *.
  rewrite property_line_total by done. cbn. by rewrite IH.
Qed.

Lemma added_lines : List.filter (fun kl => negb (bool_decide (kl.1 ∈ walk.2))) (lines_of values) = lines_of added.
Proof using.
  unfold added. generalize walk.2. intros w. clear. induction values as [|[k v] vs IH]; [done|].
  cbn. case_bool_decide; cbn; [done|]. by f_equal.
Qed.

Lemma rewrite_file : _rewrite content (_parse content) values cleared = Some rewritten_file.
Proof using Hset.
  unfold _rewrite. rewrite property_lines by apply Hset. cbn [mbind option_bind].
  destruct (splice_rewritten values cleared (load content) [] [] []) as [Hs Hw]. cbn [app List.length] in Hs, Hw.
  rewrite raws_load, <- parse_located in Hs. rewrite <- parse_located in Hw. fold props walk in Hs, Hw |- *.
  pose proof added_lines as Hadded. unfold rewritten_file, continuation. fold walk out. unfold stops. change (_parse content) with props.
  destruct (rewrite_edits (lines_of values) cleared props []) as [edits w]. cbn [fst snd] in *. subst w. fold out in Hs.
  rewrite Hs, Hadded. rewrite <- dangling_spec. fold props. destruct added as [|kv new]; [done|].
  change (lines_of (kv :: new)) with ((kv.1, canonical kv.1 kv.2) :: lines_of new).
  cbn iota. fold (ended out). f_equal.
  assert (Hlines : forall vs, flat_map (fun kl : str * bytes => kl.2 ++ LF) (lines_of vs) = raws (map line_segment vs)).
  { clear. induction vs as [|[k v] vs IH]; [done|]. cbn. f_equal. apply IH. }
  change ((kv.1, canonical kv.1 kv.2) :: lines_of new) with (lines_of (kv :: new)). rewrite Hlines.
  destruct (last props); [destruct (_ && _)|]; by rewrite <- ?app_assoc.
Qed.

Lemma added_writable : Forall (fun kv => writable kv.1 /\ writable kv.2) added.
Proof using Hset.
  unfold added. apply Forall_forall. intros kv [H _]%list_elem_of_In%filter_In. destruct Hset as [_ Hw].
  rewrite Forall_forall in Hw. by apply Hw, list_elem_of_In.
Qed.

(** The walk and the appended lines give each key what was asked. *)
Lemma asked_values k : values_of k (pairs walk.1 ++ added) =
  match od_get k values with
  | Some v => [v]
  | None => if bool_decide (k ∈ cleared) then [] else _raw_values content k
  end.
Proof using Hset.
  destruct (rewritten_values values cleared (load content) [] k) as [H1 H2]. fold walk in H1, H2.
  rewrite values_of_app, raw_values_entries, H1. fold (entries content) in *.
  rewrite (bool_decide_eq_false_2 (k ∈ [])) by set_solver.
  assert (Hadded : values_of k added =
    match od_get k values with Some v => if bool_decide (k ∈ walk.2) then [] else [v] | None => [] end).
  { unfold added. destruct Hset as [Hnd _]. generalize walk.2. intros w. clear -Hnd. induction values as [|[k' v] vs IH]; [done|].
    cbn [od_get List.filter fst]. inversion Hnd as [|? ? Hk' Hnd']; subst. specialize (IH Hnd').
    destruct (decide (k = k')) as [->|Hne].
    - assert (od_get k' vs = None) as E.
      { destruct (od_get k' vs) eqn:E; [|done]. destruct Hk'. apply od_get_Some_key. by eexists. }
      rewrite E in IH. destruct (bool_decide (k' ∈ w)); cbn [negb]; [done|].
      by rewrite values_of_cons, bool_decide_eq_true_2, IH.
    - destruct (bool_decide (k' ∈ w)); cbn [negb]; [done|].
      by rewrite values_of_cons, bool_decide_eq_false_2. }
  rewrite Hadded. destruct (od_get k values) as [v|] eqn:E; [|by rewrite app_nil_r].
  rewrite (bool_decide_ext _ _ H2). repeat case_bool_decide; try done; exfalso; set_solver.
Qed.

(** *** The file it writes *)

Lemma settled_file ps : settled (ended out) ps -> settled (_normalize out) ps -> continuation = [] ->
  settled (_normalize rewritten_file) (ps ++ added).
Proof using Hset.
  intros He Hn Hc. unfold rewritten_file. pose proof added_writable as Hw. destruct added as [|kv new]; [by rewrite app_nil_r|].
  rewrite Hc. cbn [app]. by apply settled_normalize, settled_grow.
Qed.

(** What every case shows of the file. *)
Definition reads : Prop :=
  (forall k, k <> [] -> values_of k (entries (_normalize rewritten_file)) = values_of k (pairs walk.1 ++ added))
  /\ (dangles (state content) = false -> dangles (state (_normalize rewritten_file)) = false).

Lemma settled_reads : settled (_normalize rewritten_file) (pairs walk.1 ++ added) -> reads.
Proof using. intros [[_ Hs] He]. split; [by rewrite He|by rewrite Hs]. Qed.

Lemma calm_no_continuation : dangles (state content) = false -> continuation = [].
Proof using. intros H. unfold continuation. rewrite H, andb_false_r. by destruct (last props). Qed.

(** Every segment written is whole: nothing dangles any more. *)
Lemma whole_reads : Forall whole walk.1 -> continuation = [] -> reads.
Proof using Hset.
  intros Hw Hc. apply settled_reads. destruct (whole_raws _ Hw) as [H1 H2].
  assert (settled out (pairs walk.1)) as Hout by done.
  apply settled_file; [by apply settled_ended|by apply settled_normalize|done].
Qed.

Section cut.
Context (cs : list segment) (t : bytes).
Context (Hcontent : content = raws cs ++ t) (Hload : load content = cs ++ load t) (Hcs : Forall whole cs).

Let walk1 := rewritten values cleared cs [].

Lemma state_cut : state content = state t.
Proof using Hcontent Hcs.
  destruct (whole_raws _ Hcs) as [Hc _]. rewrite Hcontent. by apply closed_app.
Qed.

Lemma walk1_settled : settled (raws walk1.1) (pairs walk1.1).
Proof using Hset Hcs. apply whole_raws. by apply rewritten_whole. Qed.

Lemma walk_cut o : load t = [(t, o)] ->
  walk.1 = walk1.1 ++ [(rewritten_one values cleared (t, o) walk1.2).1].
Proof using Hload. intros Ht. unfold walk. by rewrite Hload, Ht, rewritten_app, rewritten_cons. Qed.

(** The ending is replaced or removed. *)
Lemma touched_reads o : t <> [] -> load t = [(t, o)] ->
  whole (rewritten_one values cleared (t, o) walk1.2).1 ->
  (exists k v, o = Some (k, v) /\ touched values cleared k) -> reads.
Proof using Hset Hcontent Hload Hcs.
  intros Hne Ht Hw (k & v & -> & Hk). apply whole_reads.
  - rewrite (walk_cut _ Ht). apply Forall_app. split; [by apply rewritten_whole|by constructor].
  - unfold continuation. destruct (last props); [|done]. unfold stops, props. rewrite parse_located, Hload, Ht, Hcontent.
    match goal with |- (if ?b && _ then _ else _) = _ => assert (b = false) as -> end; [|done].
    by apply (cursor_spec values cleared cs t k v [] Hne).
Qed.

(** An unterminated line is kept. *)
Lemma line_reads o : t <> [] -> load t = [(t, o)] -> ends_with LF t = false -> whole (t ++ LF, o) ->
  state t = ([], []) -> walk.1 = walk1.1 ++ [(t, o)] -> reads.
Proof using Hset Hcontent Hcs.
  intros Hne Ht Hlf Hw Hst Hwalk. apply settled_reads.
  assert (Hout : _normalize out = raws walk1.1 ++ t ++ LF).
  { unfold out. rewrite Hwalk, raws_app. cbn [raws flat_map fst]. rewrite app_nil_r, normalize_app by done.
    unfold _normalize. by rewrite Hlf. }
  assert (Hs : settled (_normalize out) (pairs walk.1)).
  { rewrite Hout, Hwalk, pairs_app. rewrite (pairs_cons t o), <- (pairs_cons (t ++ LF) o).
    apply (settled_app _ _ (t ++ LF, o)); [apply walk1_settled|done]. }
  apply settled_file; [|done|].
  - rewrite ended_normalize; [done|]. unfold out. rewrite Hwalk, raws_app. apply app_ne. cbn. by rewrite app_nil_r.
  - apply calm_no_continuation. by rewrite state_cut, Hst.
Qed.

(** A dangling continuation is kept, and ended before anything is appended. *)
Lemma open_reads x : t <> [] -> scan [] [] (lines t) = ([], (t, x)) ->
  finish t x = [(t, Some (_split_key_value x))] -> walk.1 = walk1.1 ++ [(t, Some (_split_key_value x))] ->
  (let '(k, _) := _split_key_value x in ~ touched values cleared k) -> reads.
Proof using Hset Hcontent Hload Hcs.
  intros Hne Hs Hf Hwalk Hk. pose proof (open_normalize t x Hne Hs) as Hs'.
  pose proof (normalize_lf t) as Hlf.
  assert (Hd : dangles (t, x) = true).
  { unfold dangles, finish in *. cbn [fst snd]. destruct (is_empty t); [done|]. cbn [negb andb].
    by destruct (is_empty x && ends_with CRLF t). }
  assert (Hst : state content = (t, x)) by (rewrite state_cut; unfold state; by rewrite Hs).
  assert (Hout : out = raws walk1.1 ++ t) by (unfold out; rewrite Hwalk, raws_app; cbn; by rewrite app_nil_r).
  assert (Hcont : continuation = if is_empty x then [61; 10] else LF).
  { unfold continuation. rewrite Hst, Hd. unfold stops, props. rewrite parse_located, Hload.
    assert (load t = [(t, Some (_split_key_value x))]) as Ht.
    { unfold load. by rewrite read_scan, Hs. }
    rewrite Ht. destruct (_split_key_value x) as [k v].
    rewrite located_app at 1. cbn [located app]. rewrite last_snoc.
    match goal with |- (if ?b && _ then _ else _) = _ => destruct b eqn:E end.
    - apply (continuation_end_spec _ _ t); [done|]. cbn [end_ start]. rewrite Hcontent.
      rewrite Nat.add_0_l, drop_app_length, (Nat.add_comm (List.length (raws cs))), Nat.add_sub.
      by rewrite firstn_all.
    - exfalso. apply Hk. rewrite Hcontent in E. by apply (cursor_spec values cleared cs t k v []). }
  split; [|by rewrite Hst, Hd]. intros k0 Hk0. unfold rewritten_file. rewrite Hwalk, Hcont, Hout.
  pose proof added_writable as Haw. destruct walk1_settled as [Hc1 He1].
  destruct added as [|kv new].
  - rewrite normalize_app, app_nil_r by done. destruct (closed_app (raws walk1.1) (_normalize t) Hc1) as [-> _].
    rewrite He1, !values_of_app, pairs_app, values_of_app. f_equal. by apply open_values.
  - rewrite ended_normalize, (normalize_app (raws walk1.1) t) by first [done|by apply app_ne].
    assert (Hs2 : settled (raws walk1.1 ++ _normalize t ++ (if is_empty x then [61; 10] else LF))
      (pairs walk1.1 ++ [_split_key_value x])).
    { apply (settled_app _ _ (_, Some (_split_key_value x)) walk1_settled (open_closed _ _ Hlf Hs')). }
    pose proof (settled_grow _ _ _ Hs2 Haw) as Hg. rewrite <- !app_assoc in *.
    apply settled_normalize in Hg as [_ Hg]. rewrite Hg, pairs_app, <- app_assoc. done.
Qed.

(** A lone backslash before a final CR LF takes the first appended line. *)
Lemma lone_reads : t <> [] -> scan [] [] (lines t) = ([], (t, [])) -> ends_with CRLF t = true ->
  walk.1 = walk1.1 ++ [(t, None)] -> reads.
Proof using Hset Hcontent Hload Hcs.
  intros Hne Hs Hcrlf Hwalk.
  assert (Hlf : ends_with LF t = true).
  { unfold LF. rewrite ends_with_one. destruct t as [|c t' _] using rev_ind; [done|].
    change CRLF with ([13] ++ [10]) in Hcrlf. rewrite ends_with_snoc in Hcrlf.
    apply andb_true_iff in Hcrlf as [<-%N.eqb_eq _]. rewrite last_snoc. by apply bool_decide_eq_true_2. }
  assert (Hd : dangles (t, []) = false) by (unfold dangles; cbn [fst snd]; by rewrite Hcrlf, andb_false_r).
  assert (Hst : state content = (t, [])) by (rewrite state_cut; unfold state; by rewrite Hs).
  assert (Hcont : continuation = []) by (apply calm_no_continuation; by rewrite Hst).
  assert (Hout : out = raws walk1.1 ++ t) by (unfold out; rewrite Hwalk, raws_app; cbn; by rewrite app_nil_r).
  destruct walk1_settled as [Hc1 He1]. pose proof added_writable as Haw.
  assert (Hpairs : pairs walk.1 = pairs walk1.1) by (rewrite Hwalk, pairs_app; by rewrite app_nil_r).
  pose proof settled_reads as Hsr. unfold reads, rewritten_file in *.
  destruct added as [|[k v] new] eqn:Ea.
  - rewrite Hout, normalize_app, (normalize_done t) by done.
    destruct (closed_app (raws walk1.1) t Hc1) as [He Hst']. split.
    + intros k0 _. rewrite He, He1, Hpairs, app_nil_r. f_equal.
      destruct (entries_scan _ _ _ _ Hs) as [-> _]. unfold finish. destruct t; [done|]. cbn [is_empty andb].
      rewrite Hcrlf. by rewrite app_nil_r.
    + intros _. rewrite Hst'. unfold state. by rewrite Hs.
  - apply Hsr. rewrite Hcont, Hout, ended_normalize, (normalize_app (raws walk1.1) t), (normalize_done t) by first [done|by apply app_ne].
    apply Forall_cons in Haw as [[Hk Hv] Haw]. cbn [fst snd] in Hk, Hv.
    pose proof (settled_app _ _ (_, Some (k, v)) walk1_settled (open_lone t k v Hlf Hs Hk Hv)) as Hs2.
    pose proof (settled_grow _ _ _ Hs2 Haw) as Hg. cbn [fst app] in *. rewrite Hpairs.
    change (raws (map line_segment ((k, v) :: new))) with ((canonical k v ++ LF) ++ raws (map line_segment new)).
    rewrite <- !app_assoc in *. apply settled_normalize in Hg. exact Hg.
Qed.
End cut.
End rewrite.

(** The one pass: it never fails, sets what it is asked to set, exactly once,
    clears what it is asked to clear and keeps every other key's values, whatever
    the file; and a file with nothing dangling still has nothing dangling. *)
Lemma rewrite_spec content values cleared : settable values -> exists out,
  _rewrite content (_parse content) values cleared = Some out
  /\ (forall k, k <> [] -> _raw_values (_normalize out) k =
      match od_get k values with
      | Some v => [v]
      | None => if bool_decide (k ∈ cleared) then [] else _raw_values content k
      end)
  /\ (dangles (state content) = false -> dangles (state (_normalize out)) = false).
Proof.
  intros Hset. exists (rewritten_file content values cleared). split; [by apply rewrite_file|].
  assert (reads content values cleared) as [Hr Hd].
  2: { split; [|done]. intros k Hk. rewrite raw_values_entries, Hr by done. by apply asked_values. }
  destruct (load_chunks content) as (cs & t & Hc & Hl & Hcs & Hend).
  pose proof (walk_cut content values cleared cs t Hl) as Hwalk.
  assert (Hcase : forall o, t <> [] -> load t = [(t, o)] ->
    ((rewritten values cleared (load content) []).1 = (rewritten values cleared cs []).1 ++ [(t, o)] ->
     match o with Some (k, _) => ~ touched values cleared k | None => True end -> reads content values cleared) ->
    reads content values cleared).
  { intros o Hne Ht Hkept. destruct (rewritten_one_cases values cleared t o (rewritten values cleared cs []).2 Hset) as [[E Hk]|[Hw Hk]].
    - apply Hkept; [|done]. by rewrite (Hwalk _ Ht), E.
    - by eapply touched_reads. }
  destruct Hend as [|t o Hne Ht Hlf Hw Hst|t x Hne Hs].
  - apply whole_reads; [done|rewrite Hl, app_nil_r; by apply rewritten_whole|].
    apply calm_no_continuation. rewrite (state_cut content cs [] Hc Hcs). done.
  - apply (Hcase o Hne Ht). intros E _. by eapply line_reads.
  - assert (Ht : load t = finish t x) by (unfold load; by rewrite read_scan, Hs).
    unfold finish in Ht. rewrite (proj2 (is_empty_false t) Hne) in Ht.
    destruct (is_empty x && ends_with CRLF t) eqn:E.
    + apply andb_true_iff in E as [->%is_empty_true Hcrlf]. apply (Hcase None Hne Ht). intros E _. by eapply lone_reads.
    + apply (Hcase (Some (_split_key_value x)) Hne Ht). intros Hwk Hk. eapply open_reads; try done.
      unfold finish. rewrite (proj2 (is_empty_false t) Hne), E. done.
Qed.
