(* ===== verification/PropertiesGuard.v ===== *)
(** * server.properties: the platform's keys

    The contracts of the exported operations: [apply_platform_properties] enforces
    every managed key and touches no other, the guard reports exactly the managed
    keys whose values a write changes, overrides land once each, and where they
    do not: behind a dangling continuation. *)
From Stdlib Require Import ZArith NArith Lia String Ascii.
From stdpp Require Import base gmap strings list pretty.
From S2P Require Import Prelude Text Properties PropertiesLoad PropertiesEscape PropertiesChunks PropertiesWrite.

Open Scope N_scope.

(** ** The values the platform writes *)

Lemma codes_range s : Forall (fun c => c < 256) (codes s).
Proof.
  unfold codes. apply Forall_map, Forall_forall. intros a _. apply N_ascii_bounded.
Qed.

Lemma small_writable s : Forall (fun c => c < 256) s -> writable s.
Proof.
  intros H. split; [eapply Forall_impl; [exact H|]; cbn; lia|]. induction H as [|c s Hc _ IH]; [done|].
  destruct s as [|d s]; [done|]. cbn [unmerged] in *. rewrite IH, andb_true_r. apply negb_true_iff, andb_false_iff. left.
  unfold is_high. apply andb_false_iff. left. apply N.leb_gt. lia.
Qed.

Lemma codes_writable s : writable (codes s).
Proof. apply small_writable, codes_range. Qed.

Lemma managed_writable k : k ∈ PLATFORM_MANAGED_KEYS -> writable k.
Proof.
  intros H. assert (Forall (fun k => writable k) PLATFORM_MANAGED_KEYS) as Hall; [|by rewrite Forall_forall in Hall; apply Hall].
  repeat constructor.
Qed.

Definition pack_writable (pack : option ResourcePackProperties) : Prop :=
  match pack with
  | Some p => writable p.(rp_url) /\ writable p.(rp_sha1) /\ match p.(rp_prompt) with Some x => writable x | None => True end
  | None => True
  end.

Lemma nodup_check {A} `{EqDecision A} (l : list A) : bool_decide (NoDup l) = true -> NoDup l.
Proof. apply bool_decide_eq_true_1. Qed.

Lemma platform_settable props game_port pw pack : writable pw -> pack_writable pack ->
  settable (platform_values props game_port pw pack).1.
Proof.
  intros Hpw Hpack. unfold platform_values, settable, pack_writable, bool_str in *.
  assert (Hint : forall n, writable (int_str n)) by (intros; apply codes_writable).
  pose proof codes_writable as Hcodes.
  assert (Hkey : forall k v, bool_decide (k ∈ PLATFORM_MANAGED_KEYS) = true -> writable v -> writable k /\ writable v).
  { intros k v Hk Hv. split; [|done]. apply managed_writable, (bool_decide_eq_true_1 _ Hk). }
  destruct game_port, (no_password _), pack as [[url sha1 req [prompt|]]|]; cbn [rp_url rp_sha1 rp_require rp_prompt app fst] in *;
    (split; [apply nodup_check; vm_compute; reflexivity|]);
    repeat (apply Forall_cons; split); try (by apply Forall_nil);
    cbn [fst snd]; (apply Hkey; [vm_compute; reflexivity|]); try apply Hint; try apply Hcodes; try apply Hpack; try done;
    by destruct req.
Qed.

(** ** One line per write *)

(** C26: A key and a value of code points are written as one line of printable ASCII,
    and that line is read back as exactly the one property they are: no value can
    end its line, continue it or read as another key. *)
Theorem property_line_roundtrip k v : writable k -> writable v ->
  exists line, property_line k v = Some line /\ Forall (fun c => 0x20 <= c <= 0x7E) line
  /\ _parse (line ++ LF) = [{| key := k; value := v; start := 0; end_ := S (List.length line) |}].
Proof.
  intros Hk Hv. exists (canonical k v). split; [by apply property_line_total|]. split.
  - destruct (canonical_clean k v Hk Hv) as [H _]. eapply Forall_impl; [exact H|].
    intros c. unfold printable. by rewrite andb_true_iff, !N.leb_le.
  - rewrite parse_located. unfold load. rewrite canonical_line, read_scan, read_canonical by done.
    cbn [finish is_empty app located]. by rewrite length_app, Nat.add_1_r.
Qed.

(** ** The guard *)

Lemma collect_values props vs k : default [] (od_get k (collect_managed props vs)) =
  default [] (od_get k vs)
  ++ (if bool_decide (k ∈ PLATFORM_MANAGED_KEYS)
      then map value (List.filter (fun p => bool_decide (p.(key) = k)) props) else []).
Proof.
  revert vs. induction props as [|p props IH]; intros vs; cbn [collect_managed List.filter map].
  - case_bool_decide; by rewrite app_nil_r.
  - rewrite IH. destruct (bool_decide_reflect (key p ∈ PLATFORM_MANAGED_KEYS)) as [Hm|Hm].
    + destruct (decide (key p = k)) as [<-|E]; [rewrite od_get_set_eq|rewrite od_get_set_ne by done].
      * rewrite !(bool_decide_eq_true_2 (key p ∈ _)), (bool_decide_eq_true_2 (key p = key p)) by done.
        cbn [map]. symmetry. apply (app_assoc _ [value p]).
      * by rewrite (bool_decide_eq_false_2 (key p = k)).
    + f_equal. case_bool_decide as Hk; [|done]. rewrite (bool_decide_eq_false_2 (key p = k)); [done|].
      by intros <-.
Qed.

Lemma managed_values content k : k ∈ PLATFORM_MANAGED_KEYS ->
  default [] (od_get k (_platform_managed_values content)) = _raw_values content k.
Proof. intros H. unfold _platform_managed_values. by rewrite collect_values, bool_decide_eq_true_2. Qed.

(** The guard's single pass over each file, and its short cut for equal files,
    report exactly the managed keys whose list of values differs. *)
Theorem guard_is_exact current incoming :
  changed_platform_managed_keys current incoming =
  List.filter (fun k => negb (bool_decide (_raw_values current k = _raw_values incoming k))) PLATFORM_MANAGED_KEYS.
Proof.
  unfold changed_platform_managed_keys. case_bool_decide as E.
  - subst. induction PLATFORM_MANAGED_KEYS as [|k ks IH]; [done|]. cbn. by rewrite bool_decide_eq_true_2.
  - apply filter_ext_in. intros k Hk%list_elem_of_In. by rewrite !managed_values.
Qed.

(** ** The platform's half *)

Lemma platform_keys props game_port pw pack k :
  k ∈ od_keys (platform_values props game_port pw pack).1 \/ k ∈ (platform_values props game_port pw pack).2 ->
  k ∈ PLATFORM_MANAGED_KEYS.
Proof.
  intros H. unfold platform_values in H. assert (Hall : forall l, forallb (fun k => bool_decide (k ∈ PLATFORM_MANAGED_KEYS)) l = true ->
    k ∈ l -> k ∈ PLATFORM_MANAGED_KEYS).
  { intros l Hl Hk. rewrite forallb_forall in Hl. apply list_elem_of_In, Hl in Hk. exact (bool_decide_eq_true_1 _ Hk). }
  destruct game_port, (no_password _), pack as [[url sha1 req [prompt|]]|]; cbn [rp_prompt] in H;
    destruct H as [H|H]; (eapply Hall; [|exact H]); vm_compute; reflexivity.
Qed.

(** C13: What [apply_platform_properties] owes the row: every managed key is at the
    platform's value, in one line each, a password the file already had excepted;
    the pack's keys follow the assignment; every other key keeps its values. *)
Theorem platform_properties_enforced content game_port pw pack :
  writable pw -> pack_writable pack ->
  exists out, apply_platform_properties content game_port pw pack = Some out
  /\ _raw_values out _PORT_KEY
     = match game_port with Some p => [int_str p] | None => _raw_values content _PORT_KEY end
  /\ _raw_values out _ENABLE_RCON_KEY = [codes "true"]
  /\ _raw_values out _RCON_PORT_KEY = [int_str RCON_PORT]
  /\ _raw_values out _RCON_PASSWORD_KEY
     = (if no_password (_get_property content _RCON_PASSWORD_KEY) then [pw]
        else _raw_values content _RCON_PASSWORD_KEY)
  /\ map (_raw_values out) _RESOURCE_PACK_KEYS
     = match pack with
       | Some p => [[p.(rp_url)]; [p.(rp_sha1)]; [bool_str p.(rp_require)]; option_list p.(rp_prompt)]
       | None => [[]; []; []; []]
       end
  /\ forall k, k <> [] -> k ∉ PLATFORM_MANAGED_KEYS -> _raw_values out k = _raw_values content k.
Proof.
  intros Hpw Hpack. pose proof (platform_settable (_parse content) game_port pw pack Hpw Hpack) as Hset.
  unfold apply_platform_properties. pose proof (platform_keys (_parse content) game_port pw pack) as Hkeys.
  destruct (platform_values (_parse content) game_port pw pack) as [values cleared] eqn:E. cbn [fst snd] in *.
  destruct (rewrite_spec content values cleared Hset) as (out & -> & Hv & _). exists (_normalize out).
  split; [done|]. assert (Hpass : last (map value (List.filter (fun p => bool_decide (p.(key) = _RCON_PASSWORD_KEY)) (_parse content)))
    = _get_property content _RCON_PASSWORD_KEY) by done.
  unfold platform_values in E. rewrite Hpass in E.
  split_and!; [..|intros k Hk Hm; rewrite Hv by done; destruct (od_get k values) eqn:Eg;
    [destruct Hm; apply Hkeys; left; apply od_get_Some_key; by eexists|
     case_bool_decide; [destruct Hm; apply Hkeys; by right|done]]].
  all: cbn [map _RESOURCE_PACK_KEYS]; rewrite !Hv by done; clear -E;
    destruct game_port, (no_password _), pack as [[url sha1 req [prompt|]]|]; cbn [rp_prompt] in E; injection E as <- <-; reflexivity.
Qed.

(** ** Removing keys *)

(** [remove_keys] never fails; it leaves no line for the keys and no other key changed. *)
Theorem remove_keys_removes content keys : exists out, remove_keys content keys = Some out
  /\ forall k, k <> [] -> _raw_values out k = if bool_decide (k ∈ keys) then [] else _raw_values content k.
Proof.
  destruct (rewrite_spec content [] keys) as (out & Hr & Hv & _); [by split; constructor|].
  exists (_normalize out). unfold remove_keys. rewrite Hr. split; [done|]. intros k Hk. by rewrite Hv.
Qed.

(** ** Overrides *)

Section set_property.
Context (k : str) (line : bytes).

Let is_match := fun p : _Property => bool_decide (p.(key) = k).

Lemma set_edits_written props w : k ∈ w ->
  rewrite_edits [(k, line)] [] props w
  = (map (fun p => (p.(start), p.(end_), [])) (List.filter is_match props), w).
Proof using.
  intros Hw. unfold is_match. induction props as [|p props IH]; [done|]. cbn [rewrite_edits od_get List.filter].
  destruct (decide (key p = k)) as [->|Hne].
  - by rewrite !bool_decide_eq_true_2, IH.
  - rewrite (bool_decide_eq_false_2 (key p = k)), (bool_decide_eq_false_2 (key p ∈ [])) by (done || set_solver). done.
Qed.

(** The edits of [_set_property] are those of the one-key rewrite. *)
Lemma set_edits_rewrite props :
  rewrite_edits [(k, line)] [] props []
  = (set_edits line (List.filter is_match props), if is_empty (map (fun _ => 0) (List.filter is_match props)) then [] else [k]).
Proof using.
  unfold set_edits, is_match. induction props as [|p props IH]; [done|]. cbn [rewrite_edits od_get List.filter].
  destruct (decide (key p = k)) as [->|Hne].
  - rewrite (bool_decide_eq_false_2 (k ∈ [])), (bool_decide_eq_true_2 (k = k)) by (done || set_solver).
    rewrite set_edits_written by set_solver. cbn [imap map is_empty]. f_equal. f_equal.
    unfold is_match. clear. by induction (List.filter _ props) as [|q qs IH]; [|cbn; f_equal].
  - by rewrite (bool_decide_eq_false_2 (key p = k)), (bool_decide_eq_false_2 (key p ∈ [])) by (done || set_solver).
Qed.
End set_property.

Lemma lf_app_normalize a : _normalize (a ++ LF) = a ++ LF.
Proof. apply normalize_done. unfold LF. by rewrite ends_with_one, last_snoc, bool_decide_eq_true_2. Qed.

(** Without a dangling continuation, [_set_property] is the one-key [_rewrite]. *)
Lemma set_property_rewrite content k v : writable k -> writable v -> dangles (state content) = false ->
  _set_property content k v = (out ← _rewrite content (_parse content) [(k, v)] []; Some (_normalize out)).
Proof.
  intros Hk Hv Hd. unfold _set_property, _rewrite. cbn [mapM fst snd]. rewrite property_line_total by done.
  cbn [mbind option_bind mret option_ret]. rewrite set_edits_rewrite, dangling_spec, Hd.
  destruct (List.filter _ (_parse content)) as [|p ps].
  - cbn [map is_empty List.filter fst]. rewrite bool_decide_eq_false_2 by set_solver. cbn [negb set_edits imap splice drop flat_map snd].
    rewrite andb_false_r, app_nil_r. cbn [mbind option_bind]. rewrite !drop_0.
    by destruct (last (_parse content)); rewrite app_assoc, lf_app_normalize, <- app_assoc.
  - cbn [map is_empty List.filter fst]. by rewrite bool_decide_eq_true_2 by set_solver.
Qed.

Lemma single_settable k v : writable k -> writable v -> settable [(k, v)].
Proof. intros Hk Hv. split; [apply NoDup_singleton|]. by constructor. Qed.

Lemma set_all_spec content overrides : settable overrides -> dangles (state content) = false ->
  exists out, set_all content overrides = Some out /\ dangles (state out) = false
  /\ forall k, k <> [] -> _raw_values out k =
      match od_get k overrides with Some v => [v] | None => _raw_values content k end.
Proof.
  intros [Hnd Hw]. revert content Hnd. induction Hw as [|[k v] vs [Hk Hv] Hw IH]; intros content Hnd Hd; [by exists content|].
  cbn [fst snd] in *. apply NoDup_cons in Hnd as [Hin Hnd].
  destruct (rewrite_spec content [(k, v)] [] (single_settable k v Hk Hv)) as (out1 & H1 & Hv1 & Hd1).
  destruct (IH (_normalize out1) Hnd (Hd1 Hd)) as (out & Ho & Hdo & Hvo). exists out.
  cbn [set_all]. rewrite set_property_rewrite, H1 by done. split; [done|]. split; [done|].
  intros k0 Hk0. rewrite Hvo, Hv1 by done. cbn [od_get]. case_decide as E.
  - subst k0. assert (od_get k vs = None) as ->; [|done].
    destruct (od_get k vs) eqn:Eg; [|done]. destruct Hin. apply od_get_Some_key. by eexists.
  - rewrite (bool_decide_eq_false_2 (k0 ∈ [])) by set_solver. done.
Qed.

Lemma normalize_values content : forall k, k <> [] -> _raw_values (_normalize content) k = _raw_values content k.
Proof.
  intros k Hk. destruct (rewrite_spec content [] []) as (out & Ho & Hv & _); [by split; constructor|].
  assert (out = content) as <-.
  { unfold _rewrite in Ho. cbn [mapM mbind option_bind mret option_ret] in Ho.
    assert (Hnone : forall props w, rewrite_edits [] [] props w = ([], w)).
    { clear. intros props w. induction props as [|p props IH]; [done|]. cbn. by rewrite bool_decide_eq_false_2 by set_solver. }
    rewrite Hnone in Ho. by injection Ho as <-. }
  rewrite Hv by done. cbn. by rewrite bool_decide_eq_false_2 by set_solver.
Qed.

(** On a file whose last line does not dangle, each override is one line saying
    exactly what was submitted, and every other key keeps its values. *)
Theorem overrides_land content overrides : settable overrides ->
  _ends_in_dangling_continuation content (_parse content) = false ->
  exists out, apply_overrides content overrides = Some out
  /\ forall k, k <> [] -> _raw_values out k =
      match od_get k overrides with Some v => [v] | None => _raw_values content k end.
Proof.
  rewrite dangling_spec. intros Hs Hd. destruct (set_all_spec content overrides Hs Hd) as (out & Ho & _ & Hv).
  exists (_normalize out). unfold apply_overrides. rewrite Ho. split; [done|].
  intros k Hk. by rewrite normalize_values, Hv.
Qed.

(** Behind a dangling continuation an override changes a managed key: the line it
    appends is read as the rest of the open one. *)
Theorem dangling_override_changes_the_port :
  let content := codes "server-port=25565" ++ LF ++ codes "server-\" in
  let overrides := [(codes "port", codes "9")] in
  Forall (fun kv => kv.1 ∉ PLATFORM_MANAGED_KEYS) overrides
  /\ exists out, apply_overrides content overrides = Some out
     /\ changed_platform_managed_keys content out = [_PORT_KEY]
     /\ _get_property out _PORT_KEY = Some (codes "9").
Proof.
  cbn zeta. split; [constructor; [|done]; refine (bool_decide_unpack _ _); vm_compute; exact I|].
  eexists. split; [vm_compute; reflexivity|]. by split; vm_compute.
Qed.

(** ** Concrete files *)

(** A value with a newline, a leading blank, a backslash and a character outside
    the basic plane. *)
Definition sample_value : str := [32; 97; 10; 61; 92; 0x1F600; 0xE9].

Lemma sample_writable : writable sample_value.
Proof. split; [|done]. repeat constructor. Qed.

Lemma property_line_roundtrip_witness : exists line, property_line (codes "motd") sample_value = Some line
  /\ Forall (fun c => 0x20 <= c <= 0x7E) line
  /\ _parse (line ++ LF)
     = [{| key := codes "motd"; value := sample_value; start := 0; end_ := S (List.length line) |}].
Proof. apply property_line_roundtrip; [apply codes_writable|apply sample_writable]. Defined.

(** A republished file: another port, a second RCON line, a prompt spelled with an
    escape, no newline after a line that continues. *)
Definition sample_file : bytes :=
  codes "server-port=1" ++ CRLF ++ codes "rcon.port:2" ++ LF ++ codes "rcon.port 3" ++ LF
  ++ codes "resource-pack\-prompt = x" ++ [13] ++ codes "motd=a\".

Definition sample_pack : ResourcePackProperties :=
  {| rp_url := codes "http://pack"; rp_sha1 := codes "00"; rp_require := true; rp_prompt := None |}.

Lemma platform_properties_enforced_witness : exists out,
  apply_platform_properties sample_file (Some 25566%Z) (codes "secret") (Some sample_pack) = Some out
  /\ _raw_values out _PORT_KEY = [codes "25566"]
  /\ _raw_values out _RCON_PASSWORD_KEY = [codes "secret"]
  /\ _raw_values out _RESOURCE_PACK_PROMPT_KEY = []
  /\ _raw_values out (codes "motd") = [codes "a"].
Proof.
  destruct (platform_properties_enforced sample_file (Some 25566%Z) (codes "secret") (Some sample_pack)
    (codes_writable _) (conj (codes_writable _) (conj (codes_writable _) I)))
    as (out & Ho & Hp & _ & _ & Hpw & Hpack & Hothers).
  exists out. split; [done|]. split; [rewrite Hp; vm_compute; reflexivity|].
  split; [rewrite Hpw; vm_compute; reflexivity|]. split; [by injection Hpack|].
  rewrite Hothers; [vm_compute; reflexivity|done|].
  intros H. apply (bool_decide_eq_true_2 _) in H. vm_compute in H. discriminate.
Defined.

Lemma overrides_land_witness : exists out,
  apply_overrides (codes "motd=a" ++ LF ++ codes "pvp=true") [(codes "motd", sample_value)] = Some out
  /\ _raw_values out (codes "motd") = [sample_value] /\ _raw_values out (codes "pvp") = [codes "true"].
Proof.
  destruct (overrides_land (codes "motd=a" ++ LF ++ codes "pvp=true") [(codes "motd", sample_value)])
    as (out & Ho & Hv).
  - split; [apply NoDup_singleton|]. constructor; [|constructor]. split; [apply codes_writable|apply sample_writable].
  - vm_compute. reflexivity.
  - exists out. split; [done|]. split; (rewrite Hv; [vm_compute; reflexivity|done]).
Defined.
