(* ===== verification/VersionRange.v ===== *)
(** * Version ranges

    [servers/application/version_range.py]: the comparison of versions and the
    three range dialects.  [None] stands for the ValueError (or IndexError) the
    dialects raise on what they cannot parse; the text is code points ([Text]). *)
From Stdlib Require Import ZArith NArith Lia String Ascii.
From stdpp Require Import base strings list pretty sets.
From S2P Require Import Prelude Text.

#[local] Open Scope N_scope.

(** ** Components *)

Inductive component := Num (n : Z) | Word (w : str).

#[export] Instance component_eq_dec : EqDecision component.
Proof. solve_decision. Defined.

Section ranges.
Context `{Unicode}.

(** [any(f(x) for x in l)] and [all(...)]: they stop at the first answer, and a
    call that raises before it ends them. *)
Fixpoint anyM {A} (f : A -> option bool) (l : list A) : option bool :=
  match l with
  | [] => Some false
  | x :: l' => b ← f x; if (b : bool) then Some true else anyM f l'
  end.

Fixpoint allM {A} (f : A -> option bool) (l : list A) : option bool :=
  match l with
  | [] => Some true
  | x :: l' => b ← f x; if (b : bool) then allM f l' else Some false
  end.

Definition to_component (raw : str) : option component :=
  if isdigit raw then n ← int_of raw; Some (Num n) else Some (Word raw).

(** [_PART_SPLIT]: a dot or a dash. *)
Definition _PART_SPLIT (c : N) : bool := (c =? 46) || (c =? 45).

Definition nonempty (s : str) : bool := match s with [] => false | _ => true end.

Definition _components (version : str) : option (list component) :=
  let version := (split_first 43 version).1 in
  mapM to_component (List.filter nonempty (split_at _PART_SPLIT version)).

(** ** Comparison *)

Definition compare_component (x y : component) : comparison :=
  match x, y with
  | Num a, Num b => (a ?= b)%Z
  | Num _, Word _ => Gt
  | Word _, Num _ => Lt
  | Word a, Word b => if eqs a b then Eq else if text_ltb a b then Lt else Gt
  end.

(** The comparison from some position on, the second version exhausted or not. *)
Fixpoint compare_nothing (bc : list component) : comparison :=
  match bc with
  | [] => Eq
  | y :: bc' => match compare_component (Num 0) y with Eq => compare_nothing bc' | c => c end
  end.

Fixpoint compare_components (ac bc : list component) : comparison :=
  match ac with
  | [] => compare_nothing bc
  | x :: ac' =>
      match compare_component x (default (Num 0) (head bc)) with
      | Eq => compare_components ac' (tail bc)
      | c => c
      end
  end.

Definition _compare (a b : str) : option comparison :=
  ac ← _components a; bc ← _components b; Some (compare_components ac bc).

Definition compare_versions (a b : str) : option comparison := _compare a b.

(** ** Fabric and Quilt *)

Inductive comparator := GE | LE | GT | LT.

(** [_COMPARATORS], in their order. *)
Definition _COMPARATORS : list (str * comparator) :=
  [([60; 61], LE); ([62; 61], GE); ([60], LT); ([62], GT)].

Definition _compare_op (comp : comparator) (cmp : comparison) : bool :=
  match comp, cmp with
  | GE, Lt => false | GE, _ => true
  | LE, Gt => false | LE, _ => true
  | GT, Gt => true | GT, _ => false
  | LT, Lt => true | LT, _ => false
  end.

(** [x], [X] and the star. *)
Definition is_wildcard (part : str) : bool :=
  bool_decide (part ∈ [[120]; [88]; [42]]).

Definition _is_x_range (target : str) : bool := existsb is_wildcard (split_char 46 target).

Fixpoint x_range_parts (vt target : list str) : bool :=
  match target with
  | [] => true
  | part :: target' =>
      (is_wildcard part || match head vt with Some v => eqs v part | None => false end)
      && x_range_parts (tail vt) target'
  end.

Definition _x_range (version target : str) : bool :=
  x_range_parts (split_char 46 version) (split_char 46 target).

(** [str(n)], with the limit on its digits ([None]: ValueError). *)
Definition str_of_int (n : Z) : option str :=
  let digits := codes (pretty (Z.abs n)) in
  if (max_str_digits <? Z.of_nat (List.length digits))%Z then None else Some (codes (pretty n)).

Definition within (version lower upper : str) : option bool :=
  lo ← _compare version lower;
  match lo with
  | Lt => Some false
  | _ => hi ← _compare version upper; Some (match hi with Lt => true | _ => false end)
  end.

Definition _tilde (version target : str) : option bool :=
  match List.filter nonempty (split_char 46 target) with
  | [] => None
  | [major] => n ← int_of major; up ← str_of_int (n + 1); within version target up
  | major :: minor :: _ =>
      n ← int_of minor; up ← str_of_int (n + 1); within version target (major ++ [46] ++ up)
  end.

(** The components kept below the caret's upper bound, the last one raised. *)
Fixpoint caret_upper (parts : list Z) : list Z :=
  match parts with
  | [] => []
  | [v] => [(v + 1)%Z]
  | v :: parts' => if (v =? 0)%Z then v :: caret_upper parts' else [(v + 1)%Z]
  end.

Fixpoint join_dots (ws : list str) : str :=
  match ws with
  | [] => []
  | [w] => w
  | w :: ws' => w ++ 46 :: join_dots ws'
  end.

Definition _caret (version target : str) : option bool :=
  parts ← mapM int_of (List.filter nonempty (split_char 46 target));
  match parts with
  | [] => None
  | _ => ups ← mapM str_of_int (caret_upper parts); within version target (join_dots ups)
  end.

(** [predicate\[n:\].strip()]. *)
Definition rest_of (n : nat) (predicate : str) : str := strip (drop n predicate).

Definition _semver_predicate (version predicate : str) : option bool :=
  if eqs predicate [42] || eqs predicate [] then Some true
  else
    match List.find (fun pc => startswith pc.1 predicate) _COMPARATORS with
    | Some (p, comp) =>
        cmp ← _compare version (rest_of (List.length p) predicate); Some (_compare_op comp cmp)
    | None =>
        if startswith [126] predicate then _tilde version (rest_of 1 predicate)
        else if startswith [94] predicate then _caret version (rest_of 1 predicate)
        else
          let target := if startswith [61] predicate then rest_of 1 predicate else predicate in
          if _is_x_range target then Some (_x_range version target)
          else cmp ← _compare version target; Some (match cmp with Eq => true | _ => false end)
    end.

(** A comma or white space. *)
Definition predicate_break (c : N) : bool := (c =? 44) || is_space c.

Definition _semver_satisfies (version spec : str) : option bool :=
  anyM (fun alternative =>
    match List.filter nonempty (split_at predicate_break (strip alternative)) with
    | [] => Some true
    | predicates => allM (_semver_predicate version) predicates
    end) (split_bars spec).

(** ** Paper *)

Definition _major_minor (version : str) : option (Z * Z) :=
  parts ← _components version;
  let at_ i := match parts !! i with Some (Num n) => n | _ => 0%Z end in
  Some (at_ 0%nat, at_ 1%nat).

Definition _paper_satisfies (version spec : str) : option bool :=
  v ← _major_minor version; s ← _major_minor spec; Some (negb (pair_ltb Z.ltb Z.ltb v s)).

(** ** Forge and NeoForge *)

Definition opens (c : N) : bool := (c =? 91) || (c =? 40).
Definition closes (c : N) : bool := (c =? 93) || (c =? 41).

(** The pieces between the commas outside brackets. *)
Fixpoint split_depth (depth : Z) (spec : str) : list str :=
  match spec with
  | [] => [[]]
  | ch :: spec' =>
      let depth := if opens ch then (depth + 1)%Z else if closes ch then (depth - 1)%Z else depth in
      if (ch =? 44) && (depth =? 0)%Z then [] :: split_depth depth spec'
      else match split_depth depth spec' with
           | w :: ws => (ch :: w) :: ws
           | [] => [[ch]]
           end
  end.

Definition _split_maven_intervals (spec : str) : list str :=
  map strip (List.filter (fun t => nonempty (strip t)) (split_depth 0 spec)).

Definition first_is (p : N -> bool) (s : str) : bool := match head s with Some c => p c | None => false end.
Definition last_is (p : N -> bool) (s : str) : bool := match last s with Some c => p c | None => false end.

Definition _maven_interval (version token : str) : option bool :=
  if first_is opens token || last_is closes token then
    if negb (first_is opens token && last_is closes token) then None
    else
      let lower_inclusive := first_is (fun c => c =? 91) token in
      let upper_inclusive := last_is (fun c => c =? 93) token in
      let inner := removelast (tail token) in
      match split_first 44 inner with
      | (_, None) =>
          let bound := strip inner in
          if nonempty bound
          then cmp ← _compare version bound; Some (match cmp with Eq => true | _ => false end)
          else Some false
      | (low, Some high) =>
          let low := strip low in
          let high := strip high in
          above ← (if nonempty low
                   then cmp ← _compare version low;
                        Some (match cmp with Lt => false | Eq => lower_inclusive | Gt => true end)
                   else Some true);
          if (above : bool) then
            if nonempty high
            then cmp ← _compare version high;
                 Some (match cmp with Gt => false | Eq => upper_inclusive | Lt => true end)
            else Some true
          else Some false
      end
  else cmp ← _compare version token; Some (match cmp with Eq => true | _ => false end).

(** The loop over the intervals; [any_parsed] so far. *)
Fixpoint maven_any (version : str) (any_parsed : bool) (intervals : list str) : option bool :=
  match intervals with
  | [] => if any_parsed then Some false else None
  | token :: intervals' =>
      match _maven_interval version token with
      | Some true => Some true
      | Some false => maven_any version true intervals'
      | None => maven_any version any_parsed intervals'
      end
  end.

Definition _maven_satisfies (version spec : str) : option bool :=
  match _split_maven_intervals spec with
  | [] => Some true
  | intervals => maven_any version false intervals
  end.

(** ** The predicate *)

Inductive dialect := Maven | Paper | Semver.

(** [_PAPER_LOADERS], [_MAVEN_LOADERS] and the rest. *)
Definition dialect_of (loader : str) : dialect :=
  if eqs loader (codes "paper") then Paper
  else if eqs loader (codes "forge") || eqs loader (codes "neoforge") then Maven
  else Semver.

Definition version_satisfies (version range_spec loader : str) : bool :=
  let spec := strip range_spec in
  if eqs spec [] || eqs spec [42] then true
  else
    default true
      match dialect_of loader with
      | Paper => _paper_satisfies (strip version) spec
      | Maven => _maven_satisfies (strip version) spec
      | Semver => _semver_satisfies (strip version) spec
      end.
End ranges.

(** ** The order of versions *)

Lemma component_antisym x y : compare_component y x = CompOpp (compare_component x y).
Proof.
  destruct x as [a|a], y as [b|b]; cbn; try done; [apply Z.compare_antisym|].
  unfold eqs. destruct (decide (a = b)) as [->|Hne]; [by rewrite bool_decide_eq_true_2|].
  rewrite !bool_decide_eq_false_2 by congruence.
  destruct (ltb_total a b) as [H1|[H1|H1]]; [|done|]; rewrite H1, (ltb_asym _ _ H1); done.
Qed.

Lemma component_Eq x y : compare_component x y = Eq <-> x = y.
Proof.
  destruct x as [a|a], y as [b|b]; cbn; try (split; [done|intros; congruence]).
  - rewrite Z.compare_eq_iff. split; congruence.
  - unfold eqs. destruct (decide (a = b)) as [->|Hne]; [by rewrite bool_decide_eq_true_2|].
    rewrite bool_decide_eq_false_2 by done. split; [by destruct (text_ltb a b)|congruence].
Qed.

Lemma component_Lt_trans x y z :
  compare_component x y = Lt -> compare_component y z = Lt -> compare_component x z = Lt.
Proof.
  destruct x as [a|a], y as [b|b], z as [c|c]; cbn; try done; [rewrite !Z.compare_lt_iff; lia|].
  unfold eqs. repeat case_bool_decide; subst; try done.
  - destruct (text_ltb c b) eqn:E; [|done]. by rewrite (ltb_asym _ _ E).
  - destruct (text_ltb a b) eqn:E1; [|done]. destruct (text_ltb b c) eqn:E2; [|done].
    by rewrite (ltb_trans _ _ _ E1 E2).
Qed.

(** The component at a position, a missing one being zero. *)
Definition component_at (l : list component) (i : nat) : component := default (Num 0) (l !! i).

(** [a] comes before [b]: smaller at the first position where they differ. *)
Definition before (a b : list component) : Prop := exists i,
  (forall j, (j < i)%nat -> component_at a j = component_at b j)
  /\ compare_component (component_at a i) (component_at b i) = Lt.

Definition agree (a b : list component) : Prop := forall i, component_at a i = component_at b i.

Lemma component_at_tail l i : component_at l (S i) = component_at (tail l) i.
Proof. by destruct l. Qed.

Lemma component_at_head l : default (Num 0) (head l) = component_at l 0.
Proof. by destruct l. Qed.

(** What a step of the loop adds to the comparison of the rest. *)
Lemma compare_cons_spec a b c :
  match c with Eq => agree (tail a) (tail b) | Lt => before (tail a) (tail b) | Gt => before (tail b) (tail a) end ->
  match match compare_component (component_at a 0) (component_at b 0) with Eq => c | d => d end with
  | Eq => agree a b | Lt => before a b | Gt => before b a end.
Proof.
  intros Hc. destruct (compare_component (component_at a 0) (component_at b 0)) eqn:E.
  - apply component_Eq in E.
    assert (Hlift : forall a b, component_at a 0 = component_at b 0 -> before (tail a) (tail b) -> before a b).
    { clear. intros a b E (i & Hi & Hlt). exists (S i). rewrite !component_at_tail. split; [|done].
      intros [|j] Hj; [done|]. rewrite !component_at_tail. apply Hi. lia. }
    destruct c; [|by apply Hlift|by apply Hlift].
    intros [|i]; [done|]. rewrite !component_at_tail. apply Hc.
  - exists 0%nat. split; [lia|done].
  - exists 0%nat. split; [lia|]. by rewrite component_antisym, E.
Qed.

Lemma compare_spec a b :
  match compare_components a b with Eq => agree a b | Lt => before a b | Gt => before b a end.
Proof.
  revert b. induction a as [|x a IH]; intros b.
  - induction b as [|y b IH]; [by intros i|]. apply (compare_cons_spec [] (y :: b) _ IH).
  - cbn [compare_components]. rewrite component_at_head. apply (compare_cons_spec (x :: a) b _ (IH (tail b))).
Qed.

Lemma before_trans a b c : before a b -> before b c -> before a c.
Proof.
  intros (i & Hi & Li) (j & Hj & Lj). destruct (lt_eq_lt_dec i j) as [[Hij|Hij]|Hij].
  - exists i. rewrite <- Hj by done. split; [|done]. intros k Hk. rewrite Hi, Hj by lia. done.
  - subst j. exists i. split; [intros k Hk; by rewrite Hi, Hj by done|]. by eapply component_Lt_trans.
  - exists j. rewrite Hi by done. split; [|done]. intros k Hk. rewrite Hi, Hj by lia. done.
Qed.

Lemma before_irrefl a : ~ before a a.
Proof. intros (i & _ & H). by rewrite (proj2 (component_Eq _ _) eq_refl) in H. Qed.

Lemma before_agree a a' b b' : agree a a' -> agree b b' -> before a b -> before a' b'.
Proof. intros Ha Hb (i & Hi & Hlt). exists i. rewrite <- Ha, <- Hb. split; [|done]. intros j Hj. rewrite <- Ha, <- Hb. auto. Qed.

Lemma compare_Lt a b : compare_components a b = Lt <-> before a b.
Proof.
  pose proof (compare_spec a b) as H. destruct (compare_components a b) eqn:E; (split; [done|]); intros Hb; try done.
  - destruct (before_irrefl b). eapply before_agree; [exact H| |exact Hb]. by intros i.
  - destruct (before_irrefl a). by eapply before_trans.
Qed.

Lemma compare_Eq a b : compare_components a b = Eq <-> agree a b.
Proof.
  split; [intros E; pose proof (compare_spec a b) as H; by rewrite E in H|]. intros H.
  pose proof (compare_spec a b) as Hs. destruct (compare_components a b); [done|..]; exfalso.
  - destruct (before_irrefl b). eapply before_agree; [exact H| |exact Hs]. by intros i.
  - destruct (before_irrefl b). eapply before_agree; [| exact H|exact Hs]. by intros i.
Qed.

Lemma compare_antisym a b : compare_components b a = CompOpp (compare_components a b).
Proof.
  pose proof (compare_spec a b) as H. destruct (compare_components a b) eqn:E.
  - apply compare_Eq. intros i. by rewrite H.
  - destruct (compare_components b a) eqn:E'; [|apply compare_Lt in E'|done].
    + apply compare_Eq in E'. destruct (before_irrefl b). eapply before_agree; [| |exact H]; [|by intros i].
      intros i. by rewrite E'.
    + destruct (before_irrefl a). by eapply before_trans.
  - by apply compare_Lt.
Qed.

(** Not after: [compare <= 0]. *)
Lemma compare_le_trans a b c : compare_components a b <> Gt -> compare_components b c <> Gt -> compare_components a c <> Gt.
Proof.
  intros Hab Hbc Hac. rewrite compare_antisym in Hac. apply (f_equal CompOpp) in Hac. rewrite CompOpp_involutive in Hac.
  apply compare_Lt in Hac. pose proof (compare_spec a b) as Sab. pose proof (compare_spec b c) as Sbc.
  destruct (compare_components a b); [| |done]; destruct (compare_components b c); try done.
  - destruct (before_irrefl a). eapply before_agree; [| |exact Hac]; [|by intros i]. intros i. by rewrite Sab, Sbc.
  - destruct (before_irrefl c). eapply before_trans; [exact Hac|]. eapply before_agree; [|by intros i|exact Sbc].
    intros i. by rewrite Sab.
  - destruct (before_irrefl c). eapply before_trans; [exact Hac|]. eapply before_agree; [by intros i| |exact Sab]. done.
  - destruct (before_irrefl a). eapply before_trans; [exact Sab|]. by eapply before_trans.
Qed.

Lemma compare_agree_l a a' b : agree a a' -> compare_components a b = compare_components a' b.
Proof.
  intros Ha. pose proof (compare_spec a b) as S. destruct (compare_components a b); symmetry.
  - apply compare_Eq. intros i. by rewrite <- Ha.
  - apply compare_Lt. by eapply before_agree; [exact Ha| |exact S].
  - rewrite compare_antisym. rewrite (proj2 (compare_Lt b a')); [done|].
    by eapply before_agree; [|exact Ha|exact S].
Qed.

Section theorems.
Context `{Unicode}.

(** Comparing versions is a total preorder on the versions it parses, so newest
    wins is well defined: the two directions agree, at-most is transitive, and the
    versions that compare equal are those with the same components, missing ones
    being zero. *)
Theorem versions_are_ordered a b c ab bc :
  compare_versions a b = Some ab -> compare_versions b c = Some bc ->
  compare_versions b a = Some (CompOpp ab)
  /\ (exists ac, compare_versions a c = Some ac /\ (ab <> Gt -> bc <> Gt -> ac <> Gt))
  /\ (ab = Eq <-> exists x y, _components a = Some x /\ _components b = Some y /\ agree x y).
Proof.
  unfold compare_versions, _compare. destruct (_components a) as [x|]; cbn; [|done].
  destruct (_components b) as [y|]; cbn; [|done]. destruct (_components c) as [z|]; cbn; [|done].
  intros [= <-] [= <-]. split; [by rewrite compare_antisym|]. split.
  - eexists. split; [done|]. apply compare_le_trans.
  - rewrite compare_Eq. split; [intros Ha; by exists x, y|]. by intros (? & ? & [= <-] & [= <-] & Ha).
Qed.

(** ** Equal versions satisfy the same ranges *)

(** No [x]-range in the specification. *)
Definition no_wildcard (spec : str) : Prop :=
  Forall (fun c => bool_decide (c ∈ [120; 88; 42]) = false) spec.

Section alike.
Context (v w : str) (x y : list component).
Context (Hv : _components v = Some x) (Hw : _components w = Some y) (Hxy : agree x y).

Lemma compare_alike t : _compare v t = _compare w t.
Proof using Hv Hw Hxy.
  unfold _compare. rewrite Hv, Hw. cbn. destruct (_components t); [|done]. cbn. by rewrite (compare_agree_l x y).
Qed.

Lemma within_alike lo hi : within v lo hi = within w lo hi.
Proof using Hv Hw Hxy. unfold within. by rewrite !compare_alike. Qed.

Lemma tilde_alike t : _tilde v t = _tilde w t.
Proof using Hv Hw Hxy.
  unfold _tilde. destruct (List.filter nonempty _) as [|a [|b l]]; [done|..];
    (destruct (int_of _); [|done]); cbn; (destruct (str_of_int _); [|done]); apply within_alike.
Qed.

Lemma caret_alike t : _caret v t = _caret w t.
Proof using Hv Hw Hxy.
  unfold _caret. destruct (mapM int_of _) as [[|p ps]|]; [done| |done]. cbn -[caret_upper].
  destruct (mapM str_of_int _); [|done]. apply within_alike.
Qed.

Lemma paper_alike t : _paper_satisfies v t = _paper_satisfies w t.
Proof using Hv Hw Hxy.
  unfold _paper_satisfies, _major_minor. rewrite Hv, Hw. cbn.
  assert (Hat : forall i, match x !! i with Some (Num n) => n | _ => 0%Z end
    = match y !! i with Some (Num n) => n | _ => 0%Z end).
  { intros i. specialize (Hxy i). unfold component_at in Hxy.
    destruct (x !! i) as [[n|s]|], (y !! i) as [[n'|s']|]; cbn in Hxy; congruence. }
  by rewrite !Hat.
Qed.

Lemma maven_interval_alike t : _maven_interval v t = _maven_interval w t.
Proof using Hv Hw Hxy.
  unfold _maven_interval. rewrite compare_alike. destruct (split_first 44 _) as [low [high|]]; by rewrite !compare_alike.
Qed.

Lemma maven_alike t : _maven_satisfies v t = _maven_satisfies w t.
Proof using Hv Hw Hxy.
  unfold _maven_satisfies. destruct (_split_maven_intervals t) as [|i l]; [done|].
  generalize false as parsed. induction (i :: l) as [|i' l' IH]; intros parsed; [done|].
  cbn. rewrite maven_interval_alike. destruct (_maven_interval w i') as [[]|]; [done|apply IH..].
Qed.

Lemma predicate_alike p : no_wildcard p -> _semver_predicate v p = _semver_predicate w p.
Proof using Hv Hw Hxy.
  intros Hp. unfold _semver_predicate. destruct (_ || _); [done|].
  destruct (List.find _ _) as [[q comp]|]; [by rewrite compare_alike|].
  destruct (startswith [126] p); [apply tilde_alike|]. destruct (startswith [94] p); [apply caret_alike|].
  set (target := if startswith [61] p then _ else _).
  assert (Ht : no_wildcard target) by (unfold target; case_match; [by apply Forall_strip, Forall_drop|done]).
  assert (_is_x_range target = false) as ->; [|by rewrite compare_alike].
  clearbody target. unfold _is_x_range, split_char. apply not_true_is_false. intros Hx.
  apply existsb_exists in Hx as (part & Hin & Hpart). apply bool_decide_eq_true_1 in Hpart.
  pose proof (Forall_split_at _ (fun d => d =? 46) _ Ht) as Hparts. rewrite Forall_forall in Hparts.
  apply list_elem_of_In, Hparts in Hin. clear -Hin Hpart.
  set_unfold in Hpart. destruct Hpart as [-> | [-> | [-> | []]]]; inversion Hin as [|? ? Hc]; by vm_compute in Hc.
Qed.

Lemma semver_alike spec : no_wildcard spec -> _semver_satisfies v spec = _semver_satisfies w spec.
Proof using Hv Hw Hxy.
  intros Hs. unfold _semver_satisfies. pose proof (Forall_split_bars _ _ Hs) as Hb.
  induction Hb as [|alt alts Ha _ IH]; [done|]. cbn [anyM]. rewrite IH.
  assert (Hall : Forall no_wildcard (List.filter nonempty (split_at predicate_break (strip alt)))).
  { pose proof (Forall_split_at _ predicate_break _ (Forall_strip _ _ Ha)) as H0. rewrite List.Forall_forall in *.
    intros p Hp. apply filter_In in Hp as [Hp _]. by apply H0. }
  destruct (List.filter nonempty _) as [|p ps]; [done|].
  assert (allM (_semver_predicate v) (p :: ps) = allM (_semver_predicate w) (p :: ps)) as ->; [|done].
  clear IH. induction Hall as [|q qs Hq _ IH]; [done|]. cbn [allM]. by rewrite predicate_alike, IH.
Qed.
End alike.

(** What a range asks of a version it asks of every version that compares equal
    to it, build metadata and trailing zeros included, in all three dialects;
    the [x]-ranges of the semver dialect excepted. *)
Theorem equal_versions_satisfy_alike v w spec loader :
  compare_versions (strip v) (strip w) = Some Eq ->
  (dialect_of loader = Semver -> no_wildcard spec) ->
  version_satisfies v spec loader = version_satisfies w spec loader.
Proof.
  unfold compare_versions, _compare. destruct (_components (strip v)) as [x|] eqn:Hv; cbn; [|done].
  destruct (_components (strip w)) as [y|] eqn:Hw; cbn; [|done]. intros [= Hxy%compare_Eq] Hs.
  unfold version_satisfies. destruct (_ || _); [done|]. f_equal. destruct (dialect_of loader).
  - by eapply maven_alike.
  - by eapply paper_alike.
  - eapply semver_alike; [done..|]. by apply Forall_strip, Hs.
Qed.
End theorems.

(** ** Concrete versions *)

Definition sat (version range_spec loader : string) : bool :=
  version_satisfies (codes version) (codes range_spec) (codes loader).

Lemma versions_are_ordered_witness :
  compare_versions (codes "1.2.0-rc1") (codes "1.2+build.7") = Some Lt
  /\ exists ac, compare_versions (codes "1.2.0-rc1") (codes "1.10") = Some ac /\ ac <> Gt.
Proof.
  assert (H1 : compare_versions (codes "1.2.0-rc1") (codes "1.2+build.7") = Some Lt) by (vm_compute; reflexivity).
  assert (H2 : compare_versions (codes "1.2+build.7") (codes "1.10") = Some Lt) by (vm_compute; reflexivity).
  split; [exact H1|]. destruct (versions_are_ordered _ _ _ _ _ H1 H2) as (_ & (ac & Hac & Hle) & _).
  exists ac. split; [exact Hac|]. by apply Hle.
Defined.

Lemma equal_versions_satisfy_alike_witness :
  sat "0.92.2+1.20.1" ">=0.92 <0.92.3" "fabric" = sat "0.92.2.0" ">=0.92 <0.92.3" "fabric".
Proof.
  apply equal_versions_satisfy_alike; [vm_compute; reflexivity|]. intros _. unfold no_wildcard. repeat constructor.
Defined.

(** An [x]-range is matched against the text of the version: build metadata, which
    the comparison drops, and a missing component, which it reads as zero, decide. *)
Theorem x_range_reads_build_metadata :
  compare_versions (codes "1.2+build") (codes "1.2") = Some Eq
  /\ sat "1.2" "1.2.x" "fabric" = true /\ sat "1.2+build" "1.2.x" "fabric" = false
  /\ compare_versions (codes "1.0") (codes "1") = Some Eq
  /\ sat "1.0" "1.0.x" "fabric" = true /\ sat "1" "1.0.x" "fabric" = false.
Proof. by vm_compute. Qed.
