(* ===== verification/PluginSet.v ===== *)
(** * A server's plugin set

    [servers/domain/plugin.py], [servers/application/catalog_deps.py] and
    [plugin_validation.py]: the plugins installed on a server, the dependency
    edges stored with them, and the checklist of what is wrong with the set. *)
From Stdlib Require Import ZArith NArith Lia String Ascii.
From stdpp Require Import base gmap strings list.
From S2P Require Import Prelude Text VersionRange.

#[local] Open Scope N_scope.

(** ** Plugins *)

(** A JSON value as these modules read it: a [str], or anything else by its truth. *)
Inductive value := Text (s : str) | Other (truth : bool).

Definition truthy (v : value) : bool :=
  match v with Text s => nonempty s | Other b => b end.

(** A stored edge: [dict\[str, object\]]. *)
Definition edge : Type := list (str * value).

(** [d.get(k)], read for its truth. *)
Definition get_truth (k : string) (d : edge) : bool :=
  match od_get (codes k) d with Some v => truthy v | None => false end.

(** [d.get(k)], kept when it is a [str]. *)
Definition get_str (k : string) (d : edge) : option str :=
  match od_get (codes k) d with Some (Text s) => Some s | _ => None end.

Inductive PluginSource := LOCAL | MODRINTH | GEYSER | UNKNOWN.
#[export] Instance PluginSource_eq_dec : EqDecision PluginSource.
Proof. solve_decision. Defined.

Inductive PluginSide := Server | Client | Both.
#[export] Instance PluginSide_eq_dec : EqDecision PluginSide.
Proof. solve_decision. Defined.

(** The fields these modules read. *)
Record ServerPlugin := {
  source : PluginSource;
  source_project_id : option str;
  version_number : option str;
  mod_identifier : option str;
  provides : list str;
  dependencies : list edge;
  mc_versions : list str;
  (* an entry that is not a dict is [None] *)
  catalog_dependencies : list (option edge)
}.

Inductive ServerType := VANILLA | FABRIC | FORGE | PAPER.

Definition server_type_value (t : ServerType) : str :=
  codes match t with VANILLA => "vanilla" | FABRIC => "fabric" | FORGE => "forge" | PAPER => "paper" end.

(** [None] stands for UnsupportedPluginServerTypeError. *)
Definition content_dir_for_server_type (t : ServerType) : option str :=
  match t with
  | FABRIC | FORGE => Some (codes "mods")
  | PAPER => Some (codes "plugins")
  | VANILLA => None
  end.

Inductive LoaderType := MOD | PLUGIN.

Definition loader_type_for_server_type (t : ServerType) : option LoaderType :=
  match t with FABRIC | FORGE => Some MOD | PAPER => Some PLUGIN | VANILLA => None end.

Definition modrinth_loader_for_server_type (t : ServerType) : option str :=
  match t with VANILLA => None | _ => Some (server_type_value t) end.

Definition working_set_present (enabled : bool) (side : PluginSide) : bool :=
  enabled && negb (bool_decide (side = Client)).

Definition working_set_path (clean_path : str) (enabled : bool) (side : PluginSide) : option str :=
  if negb (working_set_present true side) then None
  else Some (if enabled then clean_path else clean_path ++ codes ".disabled").

(** ** Catalog dependencies *)

Record CatalogDep := { cd_project_id : str; cd_slug : option str; cd_title : option str }.

Definition catalog_dep (flag : string) (raw : option edge) : option CatalogDep :=
  match raw with
  | None => None
  | Some d =>
      if get_truth flag d then
        match get_str "project_id" d with
        | Some project_id =>
            if nonempty project_id
            then Some {| cd_project_id := project_id; cd_slug := get_str "slug" d; cd_title := get_str "title" d |}
            else None
        | None => None
        end
      else None
  end.

Definition _catalog_deps (plugin : ServerPlugin) (flag : string) : list CatalogDep :=
  if bool_decide (plugin.(source) = MODRINTH)
  then omap (catalog_dep flag) plugin.(catalog_dependencies) else [].

Definition required_catalog_deps (plugin : ServerPlugin) : list CatalogDep := _catalog_deps plugin "required".
Definition incompatible_catalog_deps (plugin : ServerPlugin) : list CatalogDep := _catalog_deps plugin "incompatible".

Definition installed_project_ids (plugins : list ServerPlugin) : gset str :=
  list_to_set (omap source_project_id plugins).

(** ** Validation *)

(** [if plugin.mod_identifier]: present and not empty. *)
Definition mod_id (plugin : ServerPlugin) : option str :=
  match plugin.(mod_identifier) with
  | Some m => if nonempty m then Some m else None
  | None => None
  end.

(** A required edge's target and range. *)
Definition edge_target (d : edge) : option (str * str) :=
  match get_str "mod_identifier" d with
  | Some target => Some (target, default [] (get_str "version_range" d))
  | None => None
  end.

Definition provide (plugin : ServerPlugin) (provided : list (str * str)) : list (str * str) :=
  match mod_id plugin with
  | Some m =>
      let version := default [] plugin.(version_number) in
      fold_left (fun d pid => od_set pid version d) plugin.(provides) (od_set m version provided)
  | None => provided
  end.

Definition _provided_versions (plugins : list ServerPlugin) : list (str * str) :=
  fold_left (fun d plugin => provide plugin d) plugins [].

Record MissingDependency := { md_mod_id : str; md_depends_on : str; md_version_range : str }.
Record MissingCatalogDependency := { mc_mod_id : str; mc_dep : CatalogDep }.
Record VersionUnsatisfied :=
  { vu_mod_id : str; vu_depends_on : str; vu_version_range : str; vu_present_version : str }.
Record Conflict := { cf_mod_id : str; cf_conflicts_with : str }.
Record McMismatch := { mm_mod_id : str; mm_mc_versions : list str; mm_server : str }.

Record PluginValidation := {
  missing_deps : list MissingDependency;
  missing_catalog_deps : list MissingCatalogDependency;
  version_unsatisfied : list VersionUnsatisfied;
  conflicts : list Conflict;
  mc_mismatch : list McMismatch
}.

Section validation.
Context `{Unicode}.

(** [_loader_dialect]. *)
Definition _loader_dialect (server_type : ServerType) : str :=
  codes match server_type with FORGE => "forge" | PAPER => "paper" | _ => "fabric" end.

(** One edge of a plugin: absent, present out of range, or no finding. *)
Definition required_finding (provided : list (str * str)) (loader m : str) (d : edge)
    : option (MissingDependency + VersionUnsatisfied) :=
  if get_truth "required" d then
    match edge_target d with
    | Some (target, range) =>
        match od_get target provided with
        | None => Some (inl {| md_mod_id := m; md_depends_on := target; md_version_range := range |})
        | Some present =>
            if version_satisfies present range loader then None
            else Some (inr {| vu_mod_id := m; vu_depends_on := target; vu_version_range := range;
                              vu_present_version := present |})
        end
    | None => None
    end
  else None.

Definition findings_of {A} (f : str -> edge -> option A) (plugins : list ServerPlugin) : list A :=
  plugins ≫= fun plugin =>
    match mod_id plugin with
    | Some m => omap (f m) plugin.(dependencies)
    | None => []
    end.

Definition lefts {A B} (l : list (A + B)) : list A := omap (fun x => match x with inl a => Some a | inr _ => None end) l.
Definition rights {A B} (l : list (A + B)) : list B := omap (fun x => match x with inr b => Some b | inl _ => None end) l.

Definition _required_dep_findings (plugins : list ServerPlugin) (provided : list (str * str)) (loader : str)
    : list MissingDependency * list VersionUnsatisfied :=
  let found := findings_of (required_finding provided loader) plugins in (lefts found, rights found).

Definition _missing_catalog_deps (plugins : list ServerPlugin) : list MissingCatalogDependency :=
  let present := installed_project_ids plugins in
  plugins ≫= fun plugin =>
    match mod_id plugin with
    | Some m =>
        map (fun dep => {| mc_mod_id := m; mc_dep := dep |})
          (List.filter (fun dep => negb (bool_decide (dep.(cd_project_id) ∈ present))) (required_catalog_deps plugin))
    | None => []
    end.

Definition conflict_finding (provided : list (str * str)) (loader m : str) (d : edge) : option Conflict :=
  if get_truth "conflict" d then
    match edge_target d with
    | Some (target, break_range) =>
        match od_get target provided with
        | Some present =>
            if version_satisfies present break_range loader
            then Some {| cf_mod_id := m; cf_conflicts_with := target |} else None
        | None => None
        end
    | None => None
    end
  else None.

(** The installed plugin of a project; a later one of the same project wins. *)
Definition by_project_id (plugins : list ServerPlugin) : list (str * str) :=
  fold_left (fun d plugin =>
    match plugin.(source_project_id), mod_id plugin with
    | Some p, Some m => od_set p m d
    | _, _ => d
    end) plugins [].

Definition _conflicts (plugins : list ServerPlugin) (provided : list (str * str)) (loader : str) : list Conflict :=
  let projects := by_project_id plugins in
  plugins ≫= fun plugin =>
    match mod_id plugin with
    | Some m =>
        omap (conflict_finding provided loader m) plugin.(dependencies)
        ++ omap (fun dep => match od_get dep.(cd_project_id) projects with
                            | Some target => Some {| cf_mod_id := m; cf_conflicts_with := target |}
                            | None => None
                            end) (incompatible_catalog_deps plugin)
    | None => []
    end.

Definition _mc_mismatch (plugins : list ServerPlugin) (mc_version loader : str) : list McMismatch :=
  omap (fun plugin =>
    match mod_id plugin, plugin.(mc_versions) with
    | Some m, (_ :: _) as declared =>
        if existsb (fun entry => version_satisfies mc_version entry loader) declared then None
        else Some {| mm_mod_id := m; mm_mc_versions := declared; mm_server := mc_version |}
    | _, _ => None
    end) plugins.

Definition validate_plugin_set (server_type : ServerType) (mc_version : str) (plugins : list ServerPlugin)
    : PluginValidation :=
  let loader := _loader_dialect server_type in
  let provided := _provided_versions plugins in
  let '(missing, unsatisfied) := _required_dep_findings plugins provided loader in
  {| missing_deps := missing;
     missing_catalog_deps := _missing_catalog_deps plugins;
     version_unsatisfied := unsatisfied;
     conflicts := _conflicts plugins provided loader;
     mc_mismatch := _mc_mismatch plugins mc_version loader |}.
End validation.
