(* ===== verification/PluginResolution.v ===== *)
(** * Dependency resolution

    [servers/application/plugin_resolution.py]: the plan that imports a plugin
    set's missing dependencies from the catalog.  The catalog is a parameter: a
    state [S] and what each call answers in it, the same call answering differently
    later if it likes; a call may also raise.  [Raised] stands for an exception that
    leaves the resolution; [Diverged] would be a loop that outran its fuel. *)
From Stdlib Require Import ZArith NArith Lia String Ascii.
From stdpp Require Import base gmap strings list.
From S2P Require Import Prelude Text VersionRange PluginSet.

#[local] Open Scope N_scope.

(** ** Catalog values *)

Record CatalogHit := { hit_project_id : str; hit_slug : str }.
Record CatalogProject := { cp_project_id : str; cp_slug : str }.

Inductive DependencyType := REQUIRED | INCOMPATIBLE | OtherDependency.
#[export] Instance DependencyType_eq_dec : EqDecision DependencyType.
Proof. solve_decision. Defined.

Record CatalogDependency := { dep_project_id : str; dependency_type : DependencyType }.

Record CatalogVersion := {
  version_id : str;
  version_no : str;                        (* [version_number] *)
  has_files : bool;                        (* [files] is not empty *)
  version_dependencies : list CatalogDependency
}.

(** ** Runs *)

(** How a call to the catalog ends: an answer, one of [_CATALOG_ERRORS], another
    exception. *)
Inductive answer (A : Type) := Answer (a : A) | CatalogError | Failure.
Arguments Answer {A} a.
Arguments CatalogError {A}.
Arguments Failure {A}.

Inductive outcome (A : Type) := Done (a : A) | Raised | Diverged.
Arguments Done {A} a.
Arguments Raised {A}.
Arguments Diverged {A}.

Record Catalog (S : Type) := {
  search : str -> str -> str -> S -> answer (list CatalogHit) * S;
  get_project : str -> S -> answer CatalogProject * S;
  list_versions : str -> str -> str -> S -> answer (list CatalogVersion) * S
}.
Arguments search {S} c.
Arguments get_project {S} c.
Arguments list_versions {S} c.

Definition run (S A : Type) : Type := S -> outcome A * S.

Definition ret_ {S A} (a : A) : run S A := fun s => (Done a, s).
Definition raise_ {S A} : run S A := fun s => (Raised, s).
Definition bind_ {S A B} (m : run S A) (f : A -> run S B) : run S B := fun s =>
  match m s with
  | (Done a, s') => f a s'
  | (Raised, s') => (Raised, s')
  | (Diverged, s') => (Diverged, s')
  end.

(** [try: ... except _CATALOG_ERRORS: handler]. *)
Definition call_ {S A B} (c : S -> answer A * S) (handler : run S B) (f : A -> run S B) : run S B := fun s =>
  match c s with
  | (Answer a, s') => f a s'
  | (CatalogError, s') => handler s'
  | (Failure, s') => (Raised, s')
  end.

Notation "x <- m ;; k" := (bind_ m (fun x => k)) (at level 100, m at next level, right associativity).

(** ** Plans *)

Inductive ResolutionStatus := already_satisfied | needs_import | unresolvable | depth_exceeded.
#[export] Instance ResolutionStatus_eq_dec : EqDecision ResolutionStatus.
Proof. solve_decision. Defined.

Definition MAX_RESOLUTION_DEPTH : nat := 10.

Record WillImport := { wi_project_id : str; wi_version_id : str; wi_slug : str; wi_version_number : str }.

Record ResolutionEntry := {
  dep_identifier : str;
  required_range : str;
  status : ResolutionStatus;
  will_import : option WillImport;
  depth : nat;
  required_by : option str;
  blocked : bool
}.

Record ResolutionPlan := { entries : list ResolutionEntry; validation : PluginValidation }.

Record _FrontierDep := {
  fd_identifier : str;
  fd_version_range : str;
  fd_project_id : option str;
  fd_depth : nat;
  fd_required_by : option str
}.

(** ** Edges of the installed set *)

Definition _dep_project_id (d : edge) : option str :=
  match get_str "project_id" d with
  | Some p => if nonempty p then Some p else None
  | None => None
  end.

Definition frontier_edge (depth : nat) (required_by : option str) (d : edge) : option _FrontierDep :=
  if get_truth "required" d && negb (get_truth "conflict" d) then
    match edge_target d with
    | Some (target, range) =>
        Some {| fd_identifier := target; fd_version_range := range; fd_project_id := _dep_project_id d;
                fd_depth := depth; fd_required_by := required_by |}
    | None => None
    end
  else None.

Definition _frontier_from_plugin (plugin : ServerPlugin) (depth : nat) (required_by : option str) : list _FrontierDep :=
  match mod_id plugin with
  | Some _ => omap (frontier_edge depth required_by) plugin.(dependencies)
  | None => []
  end.

(** The loop over the catalog dependencies; [seen] starts as what is skipped. *)
Fixpoint catalog_frontier (seen : gset str) (deps : list CatalogDep) : list _FrontierDep :=
  match deps with
  | [] => []
  | dep :: deps' =>
      let p := dep.(cd_project_id) in
      if bool_decide (p ∈ seen) then catalog_frontier seen deps'
      else {| fd_identifier := p; fd_version_range := []; fd_project_id := Some p;
              fd_depth := 0; fd_required_by := None |} :: catalog_frontier ({[p]} ∪ seen) deps'
  end.

Definition _catalog_frontier (plugins : list ServerPlugin) (manifest_frontier : list _FrontierDep) : list _FrontierDep :=
  let manifest_project_ids := list_to_set (omap fd_project_id manifest_frontier) : gset str in
  catalog_frontier (installed_project_ids plugins ∪ manifest_project_ids) (plugins ≫= required_catalog_deps).

Definition conflict_edge (m : str) (d : edge) : option (str * str) :=
  if get_truth "conflict" d
  then match get_str "mod_identifier" d with Some target => Some (m, target) | None => None end
  else None.

Definition _conflict_edges (plugins : list ServerPlugin) : list (str * str) :=
  findings_of conflict_edge plugins.

Definition _installed_incompatible_edges (plugins : list ServerPlugin) : list (str * str) :=
  plugins ≫= fun plugin =>
    match plugin.(source_project_id) with
    | Some p => map (fun dep => (p, dep.(cd_project_id))) (incompatible_catalog_deps plugin)
    | None => []
    end.

(** ** Choosing a version *)

Section resolution.
Context `{Unicode} {S : Type} (catalog : Catalog S).

(** [max(candidates, key=...)]: the first greatest; [None]: a comparison raised. *)
Definition newer (best v : CatalogVersion) : option bool :=
  cmp ← compare_versions best.(version_no) v.(version_no);
  Some match cmp with
       | Lt => true
       | Eq => text_ltb best.(version_id) v.(version_id)
       | Gt => false
       end.

Fixpoint newest (best : CatalogVersion) (l : list CatalogVersion) : option CatalogVersion :=
  match l with
  | [] => Some best
  | v :: l' => b ← newer best v; newest (if (b : bool) then v else best) l'
  end.

Definition candidates (versions : list CatalogVersion) (range range_loader : str) : list CatalogVersion :=
  List.filter (fun v => v.(has_files) && version_satisfies v.(version_no) range range_loader) versions.

(** The outer [None]: the comparison raised. *)
Definition _select_import_version (versions : list CatalogVersion) (range range_loader : str)
    : option (option CatalogVersion) :=
  match candidates versions range range_loader with
  | [] => Some None
  | v :: l => best ← newest v l; Some (Some best)
  end.

Definition import_of (project : CatalogProject) (version : CatalogVersion) : WillImport :=
  {| wi_project_id := project.(cp_project_id); wi_version_id := version.(version_id);
     wi_slug := project.(cp_slug); wi_version_number := version.(version_no) |}.

(** [_locate_project] and the listing, in the [try] of [_resolve_will_import]. *)
Definition _locate_project {B} (dep_identifier : str) (project_id : option str) (loader mc_version : str)
    (handler : run S B) (f : option CatalogProject -> run S B) : run S B :=
  match project_id with
  | Some p => call_ (catalog.(get_project) p) handler (fun project => f (Some project))
  | None =>
      call_ (catalog.(search) dep_identifier loader mc_version) handler (fun hits =>
        match List.find (fun hit => eqs hit.(hit_slug) dep_identifier) hits with
        | Some chosen => call_ (catalog.(get_project) chosen.(hit_project_id)) handler (fun project => f (Some project))
        | None => f None
        end)
  end.

Definition _resolve_will_import (dep_identifier range range_loader : str) (project_id : option str)
    (loader mc_version : str) : run S (option WillImport) :=
  _locate_project dep_identifier project_id loader mc_version (ret_ None) (fun project =>
    match project with
    | None => ret_ None
    | Some project =>
        call_ (catalog.(list_versions) project.(cp_project_id) loader mc_version) (ret_ None) (fun versions =>
          match _select_import_version versions range range_loader with
          | None => raise_
          | Some None => ret_ None
          | Some (Some version) => ret_ (Some (import_of project version))
          end)
    end).

(** The next level's edges of a chosen version, and its incompatible ones. *)
Definition version_frontier (will : WillImport) (depth : nat) (version : CatalogVersion) : list _FrontierDep :=
  omap (fun cdep =>
    if bool_decide (cdep.(dependency_type) = REQUIRED)
    then Some {| fd_identifier := cdep.(dep_project_id); fd_version_range := [];
                 fd_project_id := Some cdep.(dep_project_id); fd_depth := depth;
                 fd_required_by := Some will.(wi_slug) |}
    else None) version.(version_dependencies).

Definition version_incompatible (will : WillImport) (version : CatalogVersion) : list (str * str) :=
  omap (fun cdep =>
    if bool_decide (cdep.(dependency_type) = INCOMPATIBLE) && nonempty cdep.(dep_project_id)
    then Some (will.(wi_project_id), cdep.(dep_project_id)) else None) version.(version_dependencies).

Definition _frontier_from_will_import (will : WillImport) (loader mc_version : str) (depth : nat)
    : run S (list _FrontierDep * list (str * str)) :=
  call_ (catalog.(list_versions) will.(wi_project_id) loader mc_version) (ret_ ([], [])) (fun versions =>
    match List.find (fun v => eqs v.(version_id) will.(wi_version_id)) versions with
    | None => ret_ ([], [])
    | Some version => ret_ (version_frontier will depth version, version_incompatible will version)
    end).

(** ** The closure *)

Record closure := {
  c_entries : list ResolutionEntry;
  visited : gset str;
  requirers : gmap str (gset (option str));
  import_incompatible_edges : list (str * str)
}.

Definition entry_of (dep : _FrontierDep) (st : ResolutionStatus) (will : option WillImport) : ResolutionEntry :=
  {| dep_identifier := dep.(fd_identifier); required_range := dep.(fd_version_range); status := st;
     will_import := will; depth := dep.(fd_depth); required_by := dep.(fd_required_by); blocked := false |}.

(** [requirers.setdefault(dep.identifier, set()).add(dep.required_by)]. *)
Definition with_requirer (dep : _FrontierDep) (c : closure) : closure :=
  {| c_entries := c.(c_entries); visited := c.(visited);
     requirers := <[dep.(fd_identifier) :=
       {[dep.(fd_required_by)]} ∪ default ∅ (c.(requirers) !! dep.(fd_identifier))]> c.(requirers);
     import_incompatible_edges := c.(import_incompatible_edges) |}.

Definition with_entry (entry : ResolutionEntry) (c : closure) : closure :=
  {| c_entries := c.(c_entries) ++ [entry]; visited := {[entry.(dep_identifier)]} ∪ c.(visited);
     requirers := c.(requirers); import_incompatible_edges := c.(import_incompatible_edges) |}.

Definition with_edges (edges : list (str * str)) (c : closure) : closure :=
  {| c_entries := c.(c_entries); visited := c.(visited); requirers := c.(requirers);
     import_incompatible_edges := c.(import_incompatible_edges) ++ edges |}.

Section walk.
Context (provided : list (str * str)) (installed_projects : gset str) (loader range_loader mc_version : str).

Definition satisfied (dep : _FrontierDep) : bool :=
  match od_get dep.(fd_identifier) provided with
  | Some present => version_satisfies present dep.(fd_version_range) range_loader
  | None => false
  end || bool_decide (dep.(fd_identifier) ∈ installed_projects).

(** The body of [for dep in frontier]; it answers the edges it queues. *)
Definition visit (dep : _FrontierDep) (c : closure) : run S (list _FrontierDep * closure) :=
  let c := with_requirer dep c in
  if bool_decide (dep.(fd_identifier) ∈ c.(visited)) then ret_ ([], c)
  else if satisfied dep then ret_ ([], with_entry (entry_of dep already_satisfied None) c)
  else if (MAX_RESOLUTION_DEPTH <=? dep.(fd_depth))%nat
  then ret_ ([], with_entry (entry_of dep depth_exceeded None) c)
  else
    will <- _resolve_will_import dep.(fd_identifier) dep.(fd_version_range) range_loader
              dep.(fd_project_id) loader mc_version ;;
    match will with
    | None => ret_ ([], with_entry (entry_of dep unresolvable None) c)
    | Some w =>
        let c := with_entry (entry_of dep needs_import (Some w)) c in
        children <- _frontier_from_will_import w loader mc_version (1 + dep.(fd_depth)) ;;
        ret_ (children.1, with_edges children.2 c)
    end.

Fixpoint level (frontier : list _FrontierDep) (c : closure) : run S (list _FrontierDep * closure) :=
  match frontier with
  | [] => ret_ ([], c)
  | dep :: frontier' =>
      r <- visit dep c ;;
      r' <- level frontier' r.2 ;;
      ret_ (r.1 ++ r'.1, r'.2)
  end.

(** [while frontier]. *)
Fixpoint walk (fuel : nat) (frontier : list _FrontierDep) (c : closure) : run S closure :=
  match frontier with
  | [] => ret_ c
  | _ =>
      match fuel with
      | O => fun s => (Diverged, s)
      | Datatypes.S fuel => r <- level frontier c ;; walk fuel r.1 r.2
      end
  end.
End walk.

(** ** Blocking and pruning *)

Definition _entry_added_id (entry : ResolutionEntry) : option str :=
  match entry.(status), entry.(will_import) with
  | needs_import, Some w => Some w.(wi_slug)
  | _, _ => None
  end.

Definition _entry_added_project_id (entry : ResolutionEntry) : option str :=
  match entry.(status), entry.(will_import) with
  | needs_import, Some w => Some w.(wi_project_id)
  | _, _ => None
  end.

(** The entries that are not blocked. *)
Definition surviving (es : list ResolutionEntry) (bl : gset nat) : list ResolutionEntry :=
  omap id (imap (fun i e => if bool_decide (i ∈ bl) then None else Some e) es).

Definition _present_ids (es : list ResolutionEntry) (installed_ids : gset str) (bl : gset nat) : gset str :=
  installed_ids ∪ list_to_set (surviving es bl ≫= fun e =>
    match _entry_added_id e with Some slug => [slug; e.(dep_identifier)] | None => [] end).

Definition _present_project_ids (es : list ResolutionEntry) (installed : gset str) (bl : gset nat) : gset str :=
  installed ∪ list_to_set (omap _entry_added_project_id (surviving es bl)).

Definition _incompatible_project_ids (edges : list (str * str)) (present : gset str) : gset str :=
  list_to_set (edges ≫= fun e =>
    if bool_decide (e.1 ∈ present) && bool_decide (e.2 ∈ present) then [e.1; e.2] else []).

(** [broken_ids | breaking_ids]. *)
Definition conflict_ids (edges : list (str * str)) (present : gset str) : gset str :=
  list_to_set (edges ≫= fun e => if bool_decide (e.2 ∈ present) then [e.1; e.2] else []).

Section prune.
Context (es : list ResolutionEntry) (installed_ids installed_projects : gset str)
        (conflict_edges incompatible_edges : list (str * str)) (reqs : gmap str (gset (option str))).

Definition added_ids (bl : gset nat) : gset str := list_to_set (omap _entry_added_id (surviving es bl)).

Definition conflicting (bl : gset nat) (e : ResolutionEntry) : bool :=
  match _entry_added_id e with
  | None => false
  | Some added_id =>
      bool_decide (added_id ∈ conflict_ids conflict_edges (_present_ids es installed_ids bl))
      || match _entry_added_project_id e with
         | Some p => bool_decide (p ∈ _incompatible_project_ids incompatible_edges
                                          (_present_project_ids es installed_projects bl))
         | None => false
         end
  end.

(** Some requirer is an installed root or a surviving import. *)
Definition supported (bl : gset nat) (e : ResolutionEntry) : bool :=
  existsb (fun req =>
    match req with
    | None => true
    | Some r => bool_decide (r ∈ installed_ids) || bool_decide (r ∈ added_ids bl)
    end) (elements (default {[e.(required_by)]} (reqs !! e.(dep_identifier)))).

Definition newly_blocked (bl : gset nat) : gset nat :=
  list_to_set (omap id (imap (fun i e =>
    if negb (bool_decide (i ∈ bl)) && (conflicting bl e || negb (supported bl e))
    then Some i else None) es)).

(** [while True]; [None]: out of fuel. *)
Fixpoint block (fuel : nat) (bl : gset nat) : option (gset nat) :=
  match fuel with
  | O => None
  | Datatypes.S fuel =>
      let new_blocked := newly_blocked bl in
      if bool_decide (new_blocked = ∅) then Some bl else block fuel (bl ∪ new_blocked)
  end.
End prune.

Definition _replace_entry_blocked (e : ResolutionEntry) : ResolutionEntry :=
  {| dep_identifier := e.(dep_identifier); required_range := e.(required_range); status := e.(status);
     will_import := e.(will_import); depth := e.(depth); required_by := e.(required_by); blocked := true |}.

Definition _mark_blocked (es : list ResolutionEntry) (bl : gset nat) : list ResolutionEntry :=
  imap (fun i e => if bool_decide (i ∈ bl) then _replace_entry_blocked e else e) es.

(** The ids the installed plugins answer to. *)
Definition installed_ids_of (plugins : list ServerPlugin) : gset str :=
  list_to_set (plugins ≫= fun plugin =>
    match mod_id plugin with Some m => m :: plugin.(provides) | None => [] end).

Definition _block_and_prune (es : list ResolutionEntry) (plugins : list ServerPlugin)
    (reqs : gmap str (gset (option str))) (import_edges : list (str * str)) : outcome (list ResolutionEntry) :=
  match block es (installed_ids_of plugins) (installed_project_ids plugins) (_conflict_edges plugins)
          (_installed_incompatible_edges plugins ++ import_edges) reqs (1 + List.length es) ∅ with
  | Some bl => Done (_mark_blocked es bl)
  | None => Diverged
  end.

(** ** [resolve_closure] *)

Definition empty_closure : closure :=
  {| c_entries := []; visited := ∅; requirers := ∅; import_incompatible_edges := [] |}.

Definition first_frontier (plugins : list ServerPlugin) : list _FrontierDep :=
  let manifest := plugins ≫= fun plugin => _frontier_from_plugin plugin 0 None in
  manifest ++ _catalog_frontier plugins manifest.

Definition resolve_closure (server_type : ServerType) (mc_version : str) (plugins : list ServerPlugin)
    : run S ResolutionPlan :=
  match modrinth_loader_for_server_type server_type with
  | None => raise_
  | Some loader =>
      c <- walk (_provided_versions plugins) (installed_project_ids plugins) loader (_loader_dialect server_type)
             mc_version (2 + MAX_RESOLUTION_DEPTH) (first_frontier plugins) empty_closure ;;
      es <- (fun s => (_block_and_prune c.(c_entries) plugins c.(requirers) c.(import_incompatible_edges), s)) ;;
      ret_ {| entries := es; validation := validate_plugin_set server_type mc_version plugins |}
  end.

(** ** Direct dependencies only *)

Record _RequiredDep := { rd_identifier : str; rd_version_range : str; rd_project_id : option str }.

Definition required_edges (plugins : list ServerPlugin) : list edge :=
  plugins ≫= fun plugin =>
    match mod_id plugin with
    | Some _ => List.filter (fun d => get_truth "required" d && negb (get_truth "conflict" d)) plugin.(dependencies)
    | None => []
    end.

(** One dependency per id and range, in first-seen order. *)
Fixpoint distinct_deps (seen : gset (str * str)) (edges : list edge) : list _RequiredDep :=
  match edges with
  | [] => []
  | d :: edges' =>
      match edge_target d with
      | Some (target, range) =>
          if bool_decide ((target, range) ∈ seen) then distinct_deps seen edges'
          else {| rd_identifier := target; rd_version_range := range; rd_project_id := _dep_project_id d |}
               :: distinct_deps ({[(target, range)]} ∪ seen) edges'
      | None => distinct_deps seen edges'
      end
  end.

Definition _required_deps (plugins : list ServerPlugin) : list _RequiredDep :=
  distinct_deps ∅ (required_edges plugins).

Definition direct_entry (identifier range : str) (st : ResolutionStatus) (will : option WillImport) : ResolutionEntry :=
  {| dep_identifier := identifier; required_range := range; status := st; will_import := will; depth := 0;
     required_by := None; blocked := false |}.

Definition resolve_dependencies (server_type : ServerType) (mc_version : str) (plugins : list ServerPlugin)
    : ResolutionPlan :=
  let provided := _provided_versions plugins in
  {| entries := map (fun dep =>
       direct_entry dep.(rd_identifier) dep.(rd_version_range)
         (if satisfied provided ∅ (_loader_dialect server_type)
               {| fd_identifier := dep.(rd_identifier); fd_version_range := dep.(rd_version_range);
                  fd_project_id := dep.(rd_project_id); fd_depth := 0; fd_required_by := None |}
          then already_satisfied else needs_import) None) (_required_deps plugins);
     validation := validate_plugin_set server_type mc_version plugins |}.

(** The first project id captured for each target. *)
Definition _dep_project_ids (plugins : list ServerPlugin) : list (str * str) :=
  fold_left (fun projects d =>
    match get_str "mod_identifier" d, _dep_project_id d with
    | Some target, Some p => if od_get target projects then projects else od_set target p projects
    | _, _ => projects
    end) (plugins ≫= dependencies) [].

Fixpoint enrich (dep_projects : list (str * str)) (loader range_loader mc_version : str)
    (es : list ResolutionEntry) : run S (list ResolutionEntry) :=
  match es with
  | [] => ret_ []
  | entry :: es' =>
      entry' <- (match entry.(status) with
                 | needs_import | unresolvable =>
                     will <- _resolve_will_import entry.(dep_identifier) entry.(required_range) range_loader
                               (od_get entry.(dep_identifier) dep_projects) loader mc_version ;;
                     ret_ (direct_entry entry.(dep_identifier) entry.(required_range)
                             (if will then needs_import else unresolvable) will)
                 | _ => ret_ entry
                 end) ;;
      rest <- enrich dep_projects loader range_loader mc_version es' ;;
      ret_ (entry' :: rest)
  end.

Definition resolve_imports_from_catalog (plan : ResolutionPlan) (server_type : ServerType) (mc_version : str)
    (plugins : list ServerPlugin) : run S ResolutionPlan :=
  match modrinth_loader_for_server_type server_type with
  | None => raise_
  | Some loader =>
      es <- enrich (_dep_project_ids plugins) loader (_loader_dialect server_type) mc_version plan.(entries) ;;
      ret_ {| entries := es; validation := plan.(validation) |}
  end.

(** ** Applying a plan *)

(** How an installation ends: a plugin, a failure the loop isolates, one it does not. *)
Inductive install_result := Installed (p : ServerPlugin) | Isolated | Aborted.

Context (install_from_catalog : str -> str -> S -> install_result * S).

(** The loop of [ApplyPluginResolution] over the plan: what was installed, what failed. *)
Fixpoint apply_entries (es : list ResolutionEntry) (seen_versions : gset str)
    (installed : list ServerPlugin) (failed : list str) : run S (list ServerPlugin * list str) :=
  match es with
  | [] => ret_ (installed, failed)
  | entry :: es' =>
      match entry.(will_import) with
      | Some wi =>
          if entry.(blocked) || bool_decide (wi.(wi_version_id) ∈ seen_versions)
          then apply_entries es' seen_versions installed failed
          else fun s =>
            let seen := {[wi.(wi_version_id)]} ∪ seen_versions in
            match install_from_catalog wi.(wi_project_id) wi.(wi_version_id) s with
            | (Installed p, s') => apply_entries es' seen (installed ++ [p]) failed s'
            | (Isolated, s') => apply_entries es' seen installed (failed ++ [entry.(dep_identifier)]) s'
            | (Aborted, s') => (Raised, s')
            end
      | None => apply_entries es' seen_versions installed failed
      end
  end.

Definition ApplyPluginResolution (server_type : ServerType) (mc_version : str)
    (plugins : S -> list ServerPlugin) : run S (ResolutionPlan * list ServerPlugin * list str) := fun s =>
  (plan <- resolve_closure server_type mc_version (plugins s) ;;
   r <- apply_entries plan.(entries) ∅ [] [] ;;
   new_plan <- (fun s => resolve_closure server_type mc_version (plugins s) s) ;;
   ret_ (new_plan, r.1, r.2)) s.
End resolution.
