(* ===== verification/PluginClosure.v ===== *)
(** * The dependency walk

    What [resolve_closure] of [servers/application/plugin_resolution.py] builds,
    whatever the catalog answers: the loops end, a failure of the catalog costs one
    dependency, and the plan is grounded in the installed set. *)
From Stdlib Require Import ZArith NArith Lia String Ascii.
From stdpp Require Import base gmap strings list.
From S2P Require Import Prelude Text VersionRange PluginSet PluginResolution.

(** ** Reasoning about runs *)

(** The run does not diverge, raises only if [R] allows it, and answers as [P] says. *)
Definition returns {S A} (R : Prop) (m : run S A) (P : A -> Prop) : Prop :=
  forall s, match (m s).1 with Done a => P a | Raised => R | Diverged => False end.

Section returns.
Context {S : Type} (R : Prop).

Lemma returns_ret {A} (a : A) (P : A -> Prop) : P a -> returns (S := S) R (ret_ a) P.
Proof. by intros H s. Qed.

Lemma returns_raise {A} (P : A -> Prop) : R -> returns (S := S) R raise_ P.
Proof. by intros H s. Qed.

Lemma returns_mono {A} (m : run S A) (P Q : A -> Prop) :
  returns R m P -> (forall a, P a -> Q a) -> returns R m Q.
Proof. intros Hm HPQ s. specialize (Hm s). destruct (m s).1; auto. Qed.

Lemma returns_bind {A B} (m : run S A) (f : A -> run S B) P Q :
  returns R m P -> (forall a, P a -> returns R (f a) Q) -> returns R (bind_ m f) Q.
Proof.
  intros Hm Hf s. specialize (Hm s). unfold bind_. destruct (m s) as [[a| |] s']; cbn in *; try done. by apply Hf.
Qed.

Lemma returns_call {A B} (c : S -> answer A * S) (h : run S B) (f : A -> run S B) Q :
  (forall s, (c s).1 = Failure -> R) -> returns R h Q ->
  (forall s a, (c s).1 = Answer a -> returns R (f a) Q) -> returns R (call_ c h f) Q.
Proof.
  intros Hc Hh Hf s. unfold call_. specialize (Hc s). specialize (Hf s).
  destruct (c s) as [[a| |] s']; cbn in *; [by apply (Hf a)|apply Hh|by apply Hc].
Qed.
End returns.

(** ** Where an entry hangs *)

(** A dependency required at [depth]: by an installed plugin, or by an import one
    level up. *)
Definition placed (es : list ResolutionEntry) (depth_ : nat) (by_ : option str) : Prop :=
  match by_ with
  | None => depth_ = 0
  | Some slug => exists p w, p ∈ es /\ p.(will_import) = Some w /\ w.(wi_slug) = slug /\ depth_ = S p.(depth)
  end.

Definition coherent (e : ResolutionEntry) : Prop :=
  e.(blocked) = false /\ e.(depth) <= MAX_RESOLUTION_DEPTH
  /\ (e.(status) = depth_exceeded -> e.(depth) = MAX_RESOLUTION_DEPTH)
  /\ (e.(status) = needs_import <-> is_Some e.(will_import))
  /\ (e.(status) = needs_import -> e.(depth) < MAX_RESOLUTION_DEPTH).

Definition ids (es : list ResolutionEntry) : list str := map dep_identifier es.

Lemma placed_mono es es' d r : es ⊆ es' -> placed es d r -> placed es' d r.
Proof. destruct r as [slug|]; [|done]. intros Hs (p & w & Hp & H). exists p, w. split; [by apply Hs|done]. Qed.

Record grounded (c : closure) : Prop := {
  g_ids : NoDup (ids c.(c_entries));
  g_visited : c.(visited) = list_to_set (ids c.(c_entries));
  g_entries : forall e, e ∈ c.(c_entries) -> coherent e /\ placed c.(c_entries) e.(depth) e.(required_by)
    /\ e.(required_by) ∈ default ∅ (c.(requirers) !! e.(dep_identifier));
  g_requirers : forall i r, Some r ∈ default ∅ (c.(requirers) !! i) -> exists d, placed c.(c_entries) d (Some r)
}.

Lemma grounded_empty : grounded empty_closure.
Proof.
  split; cbn; [constructor|done|by intros e ?%not_elem_of_nil|]. intros i r. rewrite lookup_empty. set_solver.
Qed.

Lemma requirers_with (dep : _FrontierDep) c i r :
  r ∈ default ∅ ((with_requirer dep c).(requirers) !! i) <->
  (i = dep.(fd_identifier) /\ r = dep.(fd_required_by)) \/ r ∈ default ∅ (c.(requirers) !! i).
Proof.
  cbn. destruct (decide (dep.(fd_identifier) = i)) as [->|Hne].
  - rewrite lookup_insert_eq. set_solver.
  - rewrite lookup_insert_ne by done. naive_solver.
Qed.

Lemma grounded_requirer dep c :
  grounded c -> placed c.(c_entries) dep.(fd_depth) dep.(fd_required_by) -> grounded (with_requirer dep c).
Proof.
  intros [Hn Hv He Hr] Hp. split; [done|done| |].
  - intros e H. destruct (He e H) as (? & ? & ?). split_and!; [done|done|]. apply requirers_with. by right.
  - intros i r [[-> Heq]|H]%requirers_with; [|by eapply Hr]. rewrite <- Heq in Hp. eauto.
Qed.

Lemma grounded_entry e c :
  grounded c -> e.(dep_identifier) ∉ c.(visited) -> coherent e -> placed c.(c_entries) e.(depth) e.(required_by) ->
  e.(required_by) ∈ default ∅ (c.(requirers) !! e.(dep_identifier)) -> grounded (with_entry e c).
Proof.
  intros [Hn Hv He Hr] Hnew Hc Hp Hreq. assert (Hsub : c.(c_entries) ⊆ c.(c_entries) ++ [e]) by set_solver.
  split; cbn [with_entry c_entries visited requirers].
  - unfold ids. rewrite map_app. apply NoDup_app. split_and!; [done| |apply NoDup_singleton].
    intros i Hi ->%list_elem_of_singleton. apply Hnew. rewrite Hv. by apply elem_of_list_to_set.
  - unfold ids. rewrite map_app, list_to_set_app_L, Hv. cbn. set_solver.
  - intros e' [H|H]%elem_of_app.
    + destruct (He e' H) as (? & ? & ?). split_and!; [done| |done]. by eapply placed_mono.
    + apply list_elem_of_singleton in H as ->. split_and!; [done| |done]. by eapply placed_mono.
  - intros i r H. destruct (Hr i r H) as [d Hd]. exists d. by eapply placed_mono.
Qed.

Lemma grounded_edges edges c : grounded c -> grounded (with_edges edges c).
Proof. by intros [Hn Hv He Hr]. Qed.

(** ** Levels *)

(** The edges queued from the level at [d]; none from the last one. *)
Definition queued (es : list ResolutionEntry) (d : nat) (f : list _FrontierDep) : Prop :=
  Forall (fun dep => dep.(fd_depth) = d /\ d <= MAX_RESOLUTION_DEPTH /\ placed es d dep.(fd_required_by)) f.

Lemma queued_mono es es' d f : es ⊆ es' -> queued es d f -> queued es' d f.
Proof. intros Hs Hf. eapply Forall_impl; [exact Hf|]. intros dep (? & ? & ?). split_and!; [done|done|]. by eapply placed_mono. Qed.

(** What visiting the edges [f] of depth [d] does to a closure. *)
Definition visited_all (d : nat) (f : list _FrontierDep) (c : closure) (r : list _FrontierDep * closure) : Prop :=
  grounded r.2 /\ c.(c_entries) ⊆ r.2.(c_entries) /\ Forall (fun dep => dep.(fd_identifier) ∈ r.2.(visited)) f
  /\ queued r.2.(c_entries) (S d) r.1.

Lemma with_entry_sub e c : c.(c_entries) ⊆ (with_entry e c).(c_entries).
Proof. cbn. set_solver. Qed.

(** An edge classified without being followed. *)
Lemma visit_leaf dep c st :
  grounded c -> queued c.(c_entries) dep.(fd_depth) [dep] -> dep.(fd_identifier) ∉ c.(visited) ->
  st <> needs_import -> (st = depth_exceeded -> dep.(fd_depth) = MAX_RESOLUTION_DEPTH) ->
  visited_all dep.(fd_depth) [dep] c ([], with_entry (entry_of dep st None) (with_requirer dep c)).
Proof.
  intros Hg Hq Hn Hst Hde. inversion_clear Hq as [|? ? (_ & Hle & Hp) _].
  split_and!; [|exact (with_entry_sub _ (with_requirer dep c))|repeat constructor; cbn; set_solver|constructor].
  apply grounded_entry; [by apply grounded_requirer|done| |done|apply requirers_with; by left].
  split_and!; [done|done|done| |done]. split; [done|by intros []].
Qed.

(** ** The walk *)

Section walk.
Context `{Unicode} {S : Type} (catalog : Catalog S) (R : Prop).

(** What may raise does so only where [R] allows it: a call that fails with an
    exception the walk does not catch, and a listing whose numbers do not parse. *)
Definition tame : Prop :=
  (forall q l m s, (catalog.(search) q l m s).1 <> Failure)
  /\ (forall p s, (catalog.(get_project) p s).1 <> Failure)
  /\ (forall p l m s, (catalog.(list_versions) p l m s).1 <> Failure)
  /\ forall p l m s vs, (catalog.(list_versions) p l m s).1 = Answer vs ->
       Forall (fun v => is_Some (_components v.(version_no))) vs.

Context (HR : R \/ tame).

Lemma compare_versions_Some a b :
  is_Some (_components a) -> is_Some (_components b) -> is_Some (compare_versions a b).
Proof using Type.
  intros [x Hx] [y Hy]. unfold compare_versions, _compare. rewrite Hx, Hy. by eexists.
Qed.

Lemma newest_total l best :
  Forall (fun v => is_Some (_components v.(version_no))) (best :: l) -> is_Some (newest best l).
Proof using Type.
  revert best. induction l as [|v l IH]; intros best Hall; [by eexists|].
  inversion_clear Hall as [|? ? Hb Hl]. inversion_clear Hl as [|? ? Hv Hl'].
  destruct (compare_versions_Some _ _ Hb Hv) as [cmp Hcmp]. cbn [newest]. unfold newer. rewrite Hcmp. cbn.
  apply IH. constructor; [by destruct cmp; [case_match| |]|done].
Qed.

Lemma select_total versions range rl :
  Forall (fun v => is_Some (_components v.(version_no))) versions ->
  is_Some (_select_import_version versions range rl).
Proof using Type.
  intros Hall. unfold _select_import_version. destruct (candidates versions range rl) as [|v l] eqn:E; [by eexists|].
  destruct (newest_total l v) as [b Hb]; [|rewrite Hb; by eexists].
  rewrite <- E. rewrite Forall_forall in *. intros x Hx. unfold candidates in Hx.
  apply list_elem_of_In, filter_In in Hx as [Hx _]. apply Hall. by apply list_elem_of_In.
Qed.

(** The calls, as the walk makes them. *)
Lemma returns_search {B} q l m h (f : _ -> run S B) Q :
  returns R h Q -> (forall a, returns R (f a) Q) -> returns R (call_ (catalog.(search) q l m) h f) Q.
Proof using HR.
  intros Hh Hf. apply returns_call; [|done|by intros]. intros s Hs. destruct HR as [|(Ht & _)]; [done|]. by destruct (Ht q l m s).
Qed.

Lemma returns_project {B} p h (f : _ -> run S B) Q :
  returns R h Q -> (forall a, returns R (f a) Q) -> returns R (call_ (catalog.(get_project) p) h f) Q.
Proof using HR.
  intros Hh Hf. apply returns_call; [|done|by intros]. intros s Hs. destruct HR as [|(_ & Ht & _)]; [done|]. by destruct (Ht p s).
Qed.

Lemma returns_versions {B} p l m h (f : _ -> run S B) Q :
  returns R h Q ->
  (forall vs, R \/ Forall (fun v => is_Some (_components v.(version_no))) vs -> returns R (f vs) Q) ->
  returns R (call_ (catalog.(list_versions) p l m) h f) Q.
Proof using HR.
  intros Hh Hf. apply returns_call; [|done|].
  - intros s Hs. destruct HR as [|(_ & _ & Ht & _)]; [done|]. by destruct (Ht p l m s).
  - intros s vs Hs. apply Hf. destruct HR as [|(_ & _ & _ & Ht)]; [by left|]. right. by eapply Ht.
Qed.

Lemma locate_returns {B} i p l m h (f : _ -> run S B) Q :
  returns R h Q -> (forall a, returns R (f a) Q) -> returns R (_locate_project catalog i p l m h f) Q.
Proof using HR.
  intros Hh Hf. unfold _locate_project. destruct p; [by apply returns_project|]. apply returns_search; [done|].
  intros hits. destruct (List.find _ hits); [by apply returns_project|apply Hf].
Qed.

Lemma resolve_returns i range rl p l m :
  returns R (_resolve_will_import catalog i range rl p l m) (fun _ => True).
Proof using HR.
  apply locate_returns; [by apply returns_ret|]. intros [project|]; [|by apply returns_ret].
  apply returns_versions; [by apply returns_ret|]. intros vs Hvs.
  destruct (_select_import_version vs range rl) as [[v|]|] eqn:E; [by apply returns_ret..|].
  apply returns_raise. destruct Hvs as [|Hvs]; [done|]. destruct (select_total vs range rl Hvs) as [x Hx]. congruence.
Qed.

(** What a version queues hangs under the import it was read for. *)
Lemma frontier_returns w l m d :
  returns R (_frontier_from_will_import catalog w l m d)
    (fun r => Forall (fun f => f.(fd_depth) = d /\ f.(fd_required_by) = Some w.(wi_slug)) r.1).
Proof using HR.
  apply returns_versions; [by apply returns_ret; constructor|]. intros vs _.
  destruct (List.find _ vs) as [v|]; [|by apply returns_ret; constructor]. apply returns_ret. cbn. unfold version_frontier.
  apply Forall_forall. intros f (cdep & _ & Hf)%list_elem_of_omap. by case_bool_decide; simplify_eq.
Qed.

Context (provided : list (str * str)) (projects : gset str) (l rl m : str).

Lemma visit_returns dep c :
  grounded c -> queued c.(c_entries) dep.(fd_depth) [dep] ->
  returns R (visit catalog provided projects l rl m dep c) (visited_all dep.(fd_depth) [dep] c).
Proof using HR.
  intros Hg Hq. pose proof Hq as Hq'. inversion_clear Hq' as [|? ? (_ & Hle & Hp) _]. unfold visit.
  case_bool_decide as Hv.
  { apply returns_ret. split_and!; [by apply grounded_requirer|done|by repeat constructor|constructor]. }
  destruct (satisfied _ _ _ dep); [apply returns_ret; by apply visit_leaf|].
  destruct (_ <=? _) eqn:Hd; [apply Nat.leb_le in Hd; apply returns_ret; apply visit_leaf; try done; lia|].
  apply Nat.leb_gt in Hd. eapply returns_bind; [apply resolve_returns|]. intros [w|] _; [|apply returns_ret; by apply visit_leaf].
  eapply returns_bind; [apply frontier_returns|]. intros [f edges] Hf. apply returns_ret. cbn [fst snd] in *.
  set (e := entry_of dep needs_import (Some w)).
  assert (Hg' : grounded (with_entry e (with_requirer dep c))).
  { apply grounded_entry; [by apply grounded_requirer|done| |done|apply requirers_with; by left].
    split_and!; [done|done|done| |done]. split; [by eexists|done]. }
  split_and!; [by apply grounded_edges|exact (with_entry_sub e (with_requirer dep c))|repeat constructor; cbn; set_solver|].
  eapply Forall_impl; [exact Hf|]. intros x [Hx ->]. split_and!; [done|lia|].
  exists e, w. split_and!; [|done..]. cbn. set_solver.
Qed.

Lemma level_returns f d c :
  grounded c -> queued c.(c_entries) d f ->
  returns R (level catalog provided projects l rl m f c) (visited_all d f c).
Proof using HR.
  revert c. induction f as [|dep f IH]; intros c Hg Hq; [apply returns_ret; split_and!; [done|done|constructor|constructor]|]. cbn [level].
  inversion_clear Hq as [|? ? Hdep Hf]. pose proof Hdep as (<- & _ & _).
  eapply returns_bind; [apply visit_returns; [done|by constructor]|].
  intros [q1 c1] (Hg1 & Hs1 & Hv1 & Hq1). cbn [fst snd] in *.
  eapply returns_bind; [apply IH; [done|by eapply queued_mono]|].
  intros [q2 c2] (Hg2 & Hs2 & Hv2 & Hq2). cbn [fst snd] in *. apply returns_ret.
  inversion_clear Hv1 as [|? ? Hv _]. split_and!; cbn [fst snd]; [done|by etrans| |].
  - constructor; [|done]. rewrite (g_visited _ Hg1) in Hv. rewrite (g_visited _ Hg2).
    apply elem_of_list_to_set in Hv. apply elem_of_list_to_set. unfold ids in *.
    apply list_elem_of_fmap in Hv as (e & -> & He). apply list_elem_of_fmap. exists e. split; [done|by apply Hs2].
  - apply Forall_app. split; [by eapply queued_mono|done].
Qed.

(** [MAX_RESOLUTION_DEPTH] bounds the levels: the last one queues nothing. *)
Lemma walk_returns fuel f d c :
  grounded c -> queued c.(c_entries) d f -> MAX_RESOLUTION_DEPTH < fuel + d ->
  returns R (walk catalog provided projects l rl m fuel f c)
    (fun c' => grounded c' /\ c.(c_entries) ⊆ c'.(c_entries)
               /\ Forall (fun dep => dep.(fd_identifier) ∈ ids c'.(c_entries)) f).
Proof using HR.
  revert f d c. induction fuel as [|fuel IH]; intros f d c Hg Hq Hd;
    (destruct f as [|dep f]; [by apply returns_ret; split_and!|]).
  { inversion_clear Hq as [|? ? (_ & Hle & _)]. lia. }
  cbn [walk]. eapply returns_bind; [by eapply level_returns|]. intros [q c1] (Hg1 & Hs1 & Hv1 & Hq1). cbn [fst snd] in *.
  eapply returns_mono; [apply (IH q (Datatypes.S d)); [done|done|lia]|]. intros c2 (Hg2 & Hs2 & _). split_and!; [done|by etrans|].
  eapply Forall_impl; [exact Hv1|]. cbn. intros x Hx. rewrite (g_visited _ Hg1) in Hx. apply elem_of_list_to_set in Hx.
  unfold ids in *. apply list_elem_of_fmap in Hx as (e & -> & He). apply list_elem_of_fmap. exists e. split; [done|by apply Hs2].
Qed.
End walk.

(** The first frontier hangs under the installed plugins. *)
Lemma first_frontier_queued plugins : queued [] 0 (first_frontier plugins).
Proof.
  assert (Hat : forall f, Forall (fun dep => dep.(fd_depth) = 0 /\ dep.(fd_required_by) = None) f -> queued [] 0 f).
  { intros f Hf. eapply Forall_impl; [exact Hf|]. intros dep [-> ->]. split_and!; [done|unfold MAX_RESOLUTION_DEPTH; lia|done]. }
  apply Hat, Forall_app. split.
  - apply Forall_forall. intros dep (plugin & Hdep & _)%list_elem_of_bind. unfold _frontier_from_plugin in Hdep.
    destruct (mod_id plugin); [|by apply not_elem_of_nil in Hdep]. apply list_elem_of_omap in Hdep as (d & _ & Hd).
    unfold frontier_edge in Hd. destruct (_ && _); [|done]. by destruct (edge_target d) as [[]|]; simplify_eq.
  - unfold _catalog_frontier. generalize (installed_project_ids plugins ∪ list_to_set (omap fd_project_id
      (plugins ≫= fun plugin => _frontier_from_plugin plugin 0 None))) as seen.
    induction (plugins ≫= required_catalog_deps) as [|dep deps IH]; intros seen; [constructor|]. cbn.
    case_bool_decide; [apply IH|]. by constructor.
Qed.
