(* ===== verification/PluginPlan.v ===== *)
(** * The resolution plan

    The plan [resolve_closure] of [servers/application/plugin_resolution.py]
    returns: blocking and pruning end and leave no conflict behind, every run
    returns a plan grounded in the installed set, the version imported is a newest
    one, and applying a plan installs what it leaves unblocked, once. *)
From Stdlib Require Import ZArith NArith Lia String Ascii.
From stdpp Require Import base gmap strings list.
From S2P Require Import Prelude Text VersionRange PluginSet PluginResolution PluginClosure.

(** ** Blocking *)

Lemma elem_of_surviving e es bl : e ∈ surviving es bl <-> exists i, es !! i = Some e /\ i ∉ bl.
Proof.
  unfold surviving. rewrite list_elem_of_omap. split.
  - intros (o & Ho & [= ->]). apply elem_of_lookup_imap_1 in Ho as (i & x & Hx & Hi).
    case_bool_decide; simplify_eq. by exists i.
  - intros (i & Hi & Hn). exists (Some e). split; [|done].
    apply elem_of_lookup_imap. exists i, e. by rewrite bool_decide_eq_false_2.
Qed.

Lemma surviving_mono es bl bl' : bl ⊆ bl' -> surviving es bl' ⊆ surviving es bl.
Proof. intros Hs e. rewrite !elem_of_surviving. intros (i & Hi & Hn). exists i. set_solver. Qed.

Section block.
Context (es : list ResolutionEntry) (installed_ids installed_projects : gset str)
        (conflict_edges incompatible_edges : list (str * str)) (reqs : gmap str (gset (option str))).

#[local] Notation newly := (newly_blocked es installed_ids installed_projects conflict_edges incompatible_edges reqs).
#[local] Notation blocking := (block es installed_ids installed_projects conflict_edges incompatible_edges reqs).
#[local] Notation conflicts_at := (conflicting es installed_ids installed_projects conflict_edges incompatible_edges).
#[local] Notation supported_at := (supported es installed_ids reqs).

Lemma elem_of_newly i bl :
  i ∈ newly bl <-> exists e, es !! i = Some e /\ i ∉ bl /\ (conflicts_at bl e = true \/ supported_at bl e = false).
Proof.
  unfold newly_blocked. rewrite elem_of_list_to_set, list_elem_of_omap. split.
  - intros (o & Ho & [= ->]). apply elem_of_lookup_imap_1 in Ho as (j & e & Hx & Hj).
    case_bool_decide as Hb; [done|]. cbn in Hx.
    destruct (conflicts_at bl e) eqn:Hc, (supported_at bl e) eqn:Hs; simplify_eq/=; exists e; eauto.
  - intros (e & He & Hn & Hor). exists (Some i). split; [|done]. apply elem_of_lookup_imap. exists i, e.
    rewrite (bool_decide_eq_false_2 _ Hn). cbn. destruct Hor as [-> | ->]; [done|]. by rewrite orb_true_r.
Qed.

(** A round that blocks nothing ends the loop; the others add an index. *)
Lemma block_ends fuel bl :
  bl ⊆ set_seq 0 (length es) -> length es < fuel + size bl ->
  exists bl', blocking fuel bl = Some bl' /\ bl ⊆ bl' /\ newly bl' = ∅
    /\ forall i, i ∈ bl' -> i ∈ bl \/ exists e b, es !! i = Some e /\ b ⊆ bl'
         /\ (conflicts_at b e = true \/ supported_at b e = false).
Proof.
  revert bl. induction fuel as [|fuel IH]; intros bl Hin Hlt.
  { apply subseteq_size in Hin. rewrite size_set_seq in Hin. lia. }
  cbn [block]. case_bool_decide as Hn; [exists bl; split_and!; [done|done|done|by left]|].
  assert (Hnew : newly bl ⊆ set_seq 0 (length es) ∖ bl).
  { intros i (e & He & Hni & _)%elem_of_newly. apply lookup_lt_Some in He. rewrite elem_of_difference, elem_of_set_seq. auto with lia. }
  assert (Hsz : size bl < size (bl ∪ newly bl)).
  { rewrite size_union by set_solver. assert (size (newly bl) <> 0); [|lia]. by rewrite size_empty_iff, leibniz_equiv_iff. }
  destruct (IH (bl ∪ newly bl)) as (bl' & Hb & Hsub & Hend & Hwhy); [set_solver|lia|].
  exists bl'. split_and!; [done|set_solver|done|]. intros i [[|Hi]%elem_of_union|Hi]%Hwhy; [by left| |by right].
  apply elem_of_newly in Hi as (e & He & _ & Hor). right. exists e, bl. split_and!; [done|set_solver|done].
Qed.

(** Blocking more leaves fewer requirers and fewer conflicts. *)
Lemma supported_anti bl bl' e : bl ⊆ bl' -> supported_at bl' e = true -> supported_at bl e = true.
Proof.
  intros Hs. unfold supported. rewrite !existsb_exists. intros (r & Hr & H). exists r. split; [done|].
  destruct r as [r|]; [|done]. apply orb_true_iff in H as [-> |H]; [done|]. apply orb_true_iff. right.
  apply bool_decide_eq_true in H. apply bool_decide_eq_true. unfold added_ids in *. rewrite elem_of_list_to_set in *.
  rewrite list_elem_of_omap in *. destruct H as (x & Hx & ?). exists x. split; [|done]. by apply (surviving_mono es bl bl').
Qed.

Lemma present_ids_anti bl bl' : bl ⊆ bl' -> _present_ids es installed_ids bl' ⊆ _present_ids es installed_ids bl.
Proof.
  intros Hs i. unfold _present_ids. rewrite !elem_of_union, !elem_of_list_to_set, !list_elem_of_bind.
  intros [|(x & ? & Hx)]; [by left|]. right. exists x. split; [done|]. by apply (surviving_mono es bl bl').
Qed.

Lemma present_project_ids_anti bl bl' :
  bl ⊆ bl' -> _present_project_ids es installed_projects bl' ⊆ _present_project_ids es installed_projects bl.
Proof.
  intros Hs i. unfold _present_project_ids. rewrite !elem_of_union, !elem_of_list_to_set, !list_elem_of_omap.
  intros [|(x & Hx & ?)]; [by left|]. right. exists x. split; [|done]. by apply (surviving_mono es bl bl').
Qed.

Lemma elem_of_conflict_ids x present :
  x ∈ conflict_ids conflict_edges present <-> exists d t, (d, t) ∈ conflict_edges /\ t ∈ present /\ (x = d \/ x = t).
Proof.
  unfold conflict_ids. rewrite elem_of_list_to_set, list_elem_of_bind. split.
  - intros ([d t] & Hx & He). cbn in Hx. case_bool_decide; [|by apply not_elem_of_nil in Hx]. exists d, t. set_solver.
  - intros (d & t & He & Ht & Hx). exists (d, t). cbn. rewrite bool_decide_eq_true_2 by done. set_solver.
Qed.

Lemma elem_of_incompatible x present :
  x ∈ _incompatible_project_ids incompatible_edges present <->
  exists a b, (a, b) ∈ incompatible_edges /\ a ∈ present /\ b ∈ present /\ (x = a \/ x = b).
Proof.
  unfold _incompatible_project_ids. rewrite elem_of_list_to_set, list_elem_of_bind. split.
  - intros ([a b] & Hx & He). cbn in Hx. do 2 case_bool_decide; try by apply not_elem_of_nil in Hx. exists a, b. set_solver.
  - intros (a & b & He & Ha & Hb & Hx). exists (a, b). cbn. rewrite !bool_decide_eq_true_2 by done. set_solver.
Qed.

(** An entry conflicts: an edge that touches its import is live. *)
Lemma conflicting_spec bl e : conflicts_at bl e = true <->
  e.(status) = needs_import /\ exists w, e.(will_import) = Some w /\
    ((exists d t, (d, t) ∈ conflict_edges /\ t ∈ _present_ids es installed_ids bl /\ (w.(wi_slug) = d \/ w.(wi_slug) = t))
     \/ exists a b, (a, b) ∈ incompatible_edges /\ a ∈ _present_project_ids es installed_projects bl
          /\ b ∈ _present_project_ids es installed_projects bl /\ (w.(wi_project_id) = a \/ w.(wi_project_id) = b)).
Proof.
  unfold conflicting, _entry_added_id, _entry_added_project_id.
  destruct (status e) eqn:Hst; [naive_solver| |naive_solver..].
  destruct (will_import e) as [w|]; [|naive_solver]. rewrite orb_true_iff, !bool_decide_eq_true, elem_of_conflict_ids, elem_of_incompatible.
  split; [intros H; split; [done|]; by exists w|]. by intros (_ & ? & [= <-] & H).
Qed.

Lemma conflicting_anti bl bl' e : bl ⊆ bl' -> conflicts_at bl' e = true -> conflicts_at bl e = true.
Proof.
  intros Hs. rewrite !conflicting_spec. intros (Hst & w & Hw & H). split; [done|]. exists w. split; [done|].
  pose proof (present_ids_anti _ _ Hs). pose proof (present_project_ids_anti _ _ Hs).
  destruct H as [(d & t & ? & ? & ?)|(a & b & ? & ? & ? & ?)]; [left; exists d, t|right; exists a, b]; set_solver.
Qed.
End block.

(** ** What a plan leaves *)

(** The entries a plan leaves unblocked. *)
Definition kept (es : list ResolutionEntry) : list ResolutionEntry := List.filter (fun e => negb e.(blocked)) es.

Definition fresh (es : list ResolutionEntry) : Prop := Forall (fun e => e.(blocked) = false) es.

(** The ids and the projects on the server once the plan is applied. *)
Definition present_after (plugins : list ServerPlugin) (es : list ResolutionEntry) : gset str :=
  _present_ids (kept es) (installed_ids_of plugins) ∅.
Definition projects_after (plugins : list ServerPlugin) (es : list ResolutionEntry) : gset str :=
  _present_project_ids (kept es) (installed_project_ids plugins) ∅.

(** The import is on no live edge: not on a declared conflict whose target is
    present, not on an incompatible pair that is present. *)
Definition unopposed (plugins : list ServerPlugin) (incompatible : list (str * str)) (es : list ResolutionEntry)
    (w : WillImport) : Prop :=
  (forall d t, (d, t) ∈ _conflict_edges plugins -> t ∈ present_after plugins es -> w.(wi_slug) <> d /\ w.(wi_slug) <> t)
  /\ (forall a b, (a, b) ∈ incompatible -> a ∈ projects_after plugins es -> b ∈ projects_after plugins es ->
        w.(wi_project_id) <> a /\ w.(wi_project_id) <> b).

(** A requirer that stays: an installed root, an installed id, a kept import. *)
Definition stays (plugins : list ServerPlugin) (es : list ResolutionEntry) (r : option str) : Prop :=
  match r with
  | None => True
  | Some r => r ∈ installed_ids_of plugins \/ exists e, e ∈ kept es /\ _entry_added_id e = Some r
  end.

Definition requirers_of (reqs : gmap str (gset (option str))) (e : ResolutionEntry) : gset (option str) :=
  default {[e.(required_by)]} (reqs !! e.(dep_identifier)).

Lemma mark_lookup es bl i : _mark_blocked es bl !! i =
  (fun e => if bool_decide (i ∈ bl) then _replace_entry_blocked e else e) <$> es !! i.
Proof. unfold _mark_blocked. by rewrite list_lookup_imap. Qed.

Lemma surviving_empty es : surviving es ∅ = es.
Proof.
  unfold surviving. trans (omap id (Some <$> es)); [f_equal; rewrite <- imap_const; by apply imap_ext|].
  induction es as [|e es IH]; cbn; [done|]. by f_equal.
Qed.

Section plan.
Context (plugins : list ServerPlugin) (reqs : gmap str (gset (option str))) (edges : list (str * str)).
Context (es es' : list ResolutionEntry) (Hfresh : fresh es) (Hrun : _block_and_prune es plugins reqs edges = Done es').

#[local] Notation conflicts_at := (conflicting es (installed_ids_of plugins) (installed_project_ids plugins)
  (_conflict_edges plugins) (_installed_incompatible_edges plugins ++ edges)).

Lemma plan_blocks : exists bl, es' = _mark_blocked es bl
  /\ (forall i e, es !! i = Some e -> i ∉ bl -> conflicts_at bl e = false /\ supported es (installed_ids_of plugins) reqs bl e = true)
  /\ (forall i e, es !! i = Some e -> i ∈ bl -> conflicts_at ∅ e = true \/ supported es (installed_ids_of plugins) reqs bl e = false).
Proof using Hfresh Hrun.
  unfold _block_and_prune in Hrun. destruct (block_ends es (installed_ids_of plugins) (installed_project_ids plugins)
    (_conflict_edges plugins) (_installed_incompatible_edges plugins ++ edges) reqs (1 + length es) ∅)
    as (bl & Hb & _ & Hend & Hwhy); [set_solver|lia|].
  rewrite Hb in Hrun. injection Hrun as <-. exists bl. split; [done|]. split.
  - intros i e He Hi.
    assert (Hni : i ∉ newly_blocked es (installed_ids_of plugins) (installed_project_ids plugins)
      (_conflict_edges plugins) (_installed_incompatible_edges plugins ++ edges) reqs bl) by (rewrite Hend; set_solver).
    rewrite elem_of_newly in Hni. split.
    + apply not_true_is_false. intros Hc. apply Hni. eauto 6.
    + apply not_false_is_true. intros Hc. apply Hni. eauto 6.
  - intros i e He [Hi|(x & b & Hx & Hbl & Hor)]%Hwhy; [set_solver|]. simplify_eq.
    destruct Hor as [Hc|Hs]; [left; by eapply conflicting_anti; [apply empty_subseteq|]|right].
    apply not_true_is_false. intros Hc. eapply supported_anti in Hc; [|exact Hbl]. congruence.
Qed.

Lemma kept_surviving bl e : es' = _mark_blocked es bl -> e ∈ surviving es bl <-> e ∈ kept es'.
Proof using Hfresh Hrun.
  intros ->. unfold kept. rewrite elem_of_filter_bool, elem_of_surviving, negb_true_iff, list_elem_of_lookup. split.
  - intros (i & He & Hi). split; [|exact (Forall_lookup_1 _ _ _ _ Hfresh He)]. exists i. rewrite mark_lookup, He. cbn. by rewrite bool_decide_eq_false_2.
  - intros ((i & Hi) & Hb). exists i. rewrite mark_lookup in Hi. destruct (es !! i) as [x|]; cbn in Hi; [|done].
    case_bool_decide; simplify_eq. done.
Qed.

Lemma kept_present bl : es' = _mark_blocked es bl ->
  _present_ids es (installed_ids_of plugins) bl = present_after plugins es'
  /\ _present_project_ids es (installed_project_ids plugins) bl = projects_after plugins es'.
Proof using Hfresh Hrun.
  intros Hbl. unfold present_after, projects_after, _present_ids, _present_project_ids. rewrite surviving_empty. split; apply set_eq; intros x.
  - rewrite !elem_of_union, !elem_of_list_to_set, !list_elem_of_bind. by setoid_rewrite (kept_surviving bl _ Hbl).
  - rewrite !elem_of_union, !elem_of_list_to_set, !list_elem_of_omap. by setoid_rewrite (kept_surviving bl _ Hbl).
Qed.

Lemma supported_spec bl e : es' = _mark_blocked es bl ->
  supported es (installed_ids_of plugins) reqs bl e = true <-> exists r, r ∈ requirers_of reqs e /\ stays plugins es' r.
Proof using Hfresh Hrun.
  intros Hbl. unfold supported. rewrite existsb_exists. apply exist_proper. intros r.
  rewrite <- list_elem_of_In, elem_of_elements. apply and_iff_compat_l. destruct r as [r|]; [|done]. cbn.
  rewrite orb_true_iff, !bool_decide_eq_true. apply or_iff_compat_l. unfold added_ids.
  rewrite elem_of_list_to_set, list_elem_of_omap. by setoid_rewrite (kept_surviving bl _ Hbl).
Qed.

Lemma unblocked_unopposed e w :
  e ∈ kept es' -> e.(status) = needs_import -> e.(will_import) = Some w ->
  unopposed plugins (_installed_incompatible_edges plugins ++ edges) es' w.
Proof using Hfresh Hrun.
  intros He Hst Hw. destruct plan_blocks as (bl & Hbl & Hno & _). destruct (kept_present bl Hbl) as [Hp Hpp].
  apply (kept_surviving bl _ Hbl), elem_of_surviving in He as (i & Hi & Hni). destruct (Hno i e Hi Hni) as [Hc _].
  apply not_true_iff_false in Hc. rewrite conflicting_spec in Hc. rewrite Hp, Hpp in Hc. split.
  - intros d t Hdt Ht. split; intros Hx; apply Hc; split; [done| |done|]; exists w; (split; [done|]); left; exists d, t; auto.
  - intros a b Hab Ha Hb. split; intros Hx; apply Hc; split; [done| |done|]; exists w; (split; [done|]); right; exists a, b; auto.
Qed.
End plan.

(** ** Plans of [resolve_closure] *)

Lemma mark_from es bl e' : e' ∈ _mark_blocked es bl -> exists e, e ∈ es /\ (e' = e \/ e' = _replace_entry_blocked e).
Proof.
  intros [i Hi]%list_elem_of_lookup. rewrite mark_lookup in Hi. destruct (es !! i) as [e|] eqn:E; cbn in Hi; [|done].
  exists e. split; [by eapply list_elem_of_lookup_2|]. case_bool_decide; simplify_eq; auto.
Qed.

Lemma mark_to es bl e : e ∈ es -> exists e', e' ∈ _mark_blocked es bl /\ (e' = e \/ e' = _replace_entry_blocked e).
Proof.
  intros [i Hi]%list_elem_of_lookup. exists (if bool_decide (i ∈ bl) then _replace_entry_blocked e else e).
  split; [|case_bool_decide; auto]. apply list_elem_of_lookup. exists i. by rewrite mark_lookup, Hi.
Qed.

Lemma ids_mark es bl : ids (_mark_blocked es bl) = ids es.
Proof.
  apply list_eq. intros i. unfold ids. rewrite !list_lookup_fmap, mark_lookup.
  destruct (es !! i); cbn; [|done]. by case_bool_decide.
Qed.

Lemma placed_mark es bl d r : placed es d r -> placed (_mark_blocked es bl) d r.
Proof.
  destruct r as [slug|]; [|done]. intros (p & w & Hp & Hw & Hs & Hd). destruct (mark_to es bl p Hp) as (p' & Hp' & Heq).
  exists p', w. split; [done|]. by destruct Heq as [-> | ->].
Qed.

Section resolution.
Context `{Unicode} {S : Type} (catalog : Catalog S).

(** What the run returns: a plan whose entries are those of a grounded closure. *)
Lemma resolve_returns_plan (R : Prop) server_type mc_version plugins :
  R \/ tame catalog -> (modrinth_loader_for_server_type server_type = None -> R) ->
  returns R (resolve_closure catalog server_type mc_version plugins)
    (fun plan => exists c, grounded c /\ Forall (fun dep => dep.(fd_identifier) ∈ ids c.(c_entries)) (first_frontier plugins)
      /\ _block_and_prune c.(c_entries) plugins c.(requirers) c.(import_incompatible_edges) = Done plan.(entries)
      /\ plan.(validation) = validate_plugin_set server_type mc_version plugins).
Proof.
  intros HR Hl. unfold resolve_closure. destruct (modrinth_loader_for_server_type server_type) as [loader|];
    [|apply returns_raise; by apply Hl].
  eapply returns_bind.
  { eapply walk_returns; [done|apply grounded_empty|apply first_frontier_queued|unfold MAX_RESOLUTION_DEPTH; lia]. }
  intros c (Hg & _ & Hf). eapply (returns_bind _ _ _ (fun es => _block_and_prune c.(c_entries) plugins c.(requirers) c.(import_incompatible_edges) = Done es)).
  - intros s. cbn. unfold _block_and_prune.
    destruct (block_ends c.(c_entries) (installed_ids_of plugins) (installed_project_ids plugins) (_conflict_edges plugins)
      (_installed_incompatible_edges plugins ++ c.(import_incompatible_edges)) c.(requirers) (1 + length c.(c_entries)) ∅)
      as (bl & -> & _); [set_solver|lia|done].
  - intros es Hes. apply returns_ret. by exists c.
Qed.

(** C36: Resolving a set of dependencies ends, whatever the catalog answers: the walk
    goes [MAX_RESOLUTION_DEPTH] levels deep at most, cycles and projects that
    answer differently each time included, and a round of the blocking loop that
    does not end it blocks another entry. *)
Theorem resolution_terminates server_type mc_version plugins s :
  (resolve_closure catalog server_type mc_version plugins s).1 <> Diverged.
Proof.
  assert (Hr := resolve_returns_plan True server_type mc_version plugins (or_introl I) (fun _ => I) s).
  by destruct (resolve_closure _ _ _ _ s).1.
Qed.

(** C38: A call the catalog answers with one of its errors never aborts the plan: if it
    raises nothing else and lists versions whose numbers parse, every server but a
    vanilla one gets a plan. *)
Theorem catalog_errors_are_isolated server_type mc_version plugins s :
  tame catalog -> server_type <> VANILLA ->
  exists plan s', resolve_closure catalog server_type mc_version plugins s = (Done plan, s').
Proof.
  intros Ht Hv. assert (Hr := resolve_returns_plan False server_type mc_version plugins (or_intror Ht)).
  specialize (Hr ltac:(by destruct server_type) s). destruct (resolve_closure _ _ _ _ s) as [[plan| |] s']; [|done..]. eauto.
Qed.

End resolution.

(** C37: Blocking and pruning end, and leave nothing to block: an import left unblocked is
    on no live conflict, whether an installed plugin or another import declares it,
    and every entry left unblocked has a requirer that stays. *)
Theorem pruned_plan_is_safe es plugins reqs edges :
  fresh es ->
  exists es', _block_and_prune es plugins reqs edges = Done es' /\
    forall e, e ∈ kept es' ->
      (forall w, e.(status) = needs_import -> e.(will_import) = Some w ->
         unopposed plugins (_installed_incompatible_edges plugins ++ edges) es' w)
      /\ exists r, r ∈ requirers_of reqs e /\ stays plugins es' r.
Proof.
  intros Hf. destruct (block_ends es (installed_ids_of plugins) (installed_project_ids plugins) (_conflict_edges plugins)
    (_installed_incompatible_edges plugins ++ edges) reqs (1 + length es) ∅) as (bl0 & Hb & _); [set_solver|lia|].
  assert (Hrun : _block_and_prune es plugins reqs edges = Done (_mark_blocked es bl0)) by (unfold _block_and_prune; by rewrite Hb).
  exists (_mark_blocked es bl0). split; [done|]. intros e He. split.
  - intros w Hst Hw. by eapply unblocked_unopposed.
  - destruct (plan_blocks plugins reqs edges es _ Hf Hrun) as (bl & Hbl & Hno & _).
    eapply supported_spec; [exact Hf|exact Hrun|exact Hbl|].
    pose proof He as (i & Hi & Hni)%(kept_surviving plugins reqs edges _ _ Hf Hrun bl _ Hbl)%elem_of_surviving. by destruct (Hno i e Hi Hni).
Qed.

(** Nothing is blocked without a cause: a blocked entry would, were every import of
    the closure made, stand on a live conflict, or else no one who required it
    stays.  The entries are otherwise those that came in, in their order. *)
Theorem blocking_is_justified es plugins reqs edges es' :
  fresh es -> _block_and_prune es plugins reqs edges = Done es' ->
  Forall2 (fun e e' =>
    e' = e \/ e' = _replace_entry_blocked e
      /\ ((exists w, e.(will_import) = Some w /\ ~ unopposed plugins (_installed_incompatible_edges plugins ++ edges) es w)
          \/ forall r, r ∈ requirers_of reqs e -> ~ stays plugins es' r)) es es'.
Proof.
  intros Hf Hrun. destruct (plan_blocks plugins reqs edges es _ Hf Hrun) as (bl & Hbl & _ & Hwhy).
  pose proof (supported_spec plugins reqs edges _ _ Hf Hrun bl) as Hsup.
  assert (Hkept : kept es = es).
  { clear -Hf. unfold kept. induction Hf as [|e es He _ IH]; [done|]. cbn. by rewrite He, IH. }
  apply Forall2_lookup. intros i.
  assert (es' !! i = (fun e => if bool_decide (i ∈ bl) then _replace_entry_blocked e else e) <$> es !! i) as ->
    by (rewrite Hbl; apply mark_lookup). destruct (es !! i) as [e|] eqn:He; constructor.
  case_bool_decide as Hi; [right; split; [done|]|by left]. destruct (Hwhy i e He Hi) as [Hc|Hs]; [left|right].
  - apply conflicting_spec in Hc as (_ & w & Hw & Hc). exists w. split; [done|]. intros [H1 H2].
    unfold present_after, projects_after in *. rewrite Hkept in *.
    destruct Hc as [(d & t & Hdt & Ht & Hx)|(a & b & Hab & Ha & Hb & Hx)].
    + destruct (H1 d t Hdt Ht). by destruct Hx.
    + destruct (H2 a b Hab Ha Hb). by destruct Hx.
  - intros r Hr Hst. apply not_true_iff_false in Hs. apply Hs, Hsup; eauto.
Qed.

(** ** The version imported *)

Section choice.
Context `{Unicode}.

Definition parses (v : CatalogVersion) : Prop := is_Some (_components v.(version_no)).

(** The order [max] uses, as a relation: not after. *)
Definition at_most (v w : CatalogVersion) : Prop :=
  exists cmp, compare_versions v.(version_no) w.(version_no) = Some cmp /\ cmp <> Gt
    /\ (cmp = Eq -> text_ltb w.(version_id) v.(version_id) = false).

Lemma compare_versions_eq v w x y :
  _components v.(version_no) = Some x -> _components w.(version_no) = Some y ->
  compare_versions v.(version_no) w.(version_no) = Some (compare_components x y).
Proof. unfold compare_versions, _compare. by intros -> ->. Qed.

Lemma at_most_refl v : parses v -> at_most v v.
Proof.
  intros [x Hx]. exists Eq. split_and!; [|done|intros _; apply ltb_irrefl].
  rewrite (compare_versions_eq _ _ _ _ Hx Hx). f_equal. apply compare_Eq. by intros i.
Qed.

Lemma at_most_trans u v w : at_most u v -> at_most v w -> at_most u w.
Proof.
  intros (c1 & H1 & N1 & E1) (c2 & H2 & N2 & E2).
  unfold at_most, compare_versions, _compare in *.
  destruct (_components u.(version_no)) as [x|]; cbn in *; [|done].
  destruct (_components v.(version_no)) as [y|]; cbn in *; [|done].
  destruct (_components w.(version_no)) as [z|]; cbn in *; [|done]. simplify_eq.
  eexists. split_and!; [done|by eapply compare_le_trans|]. intros Heq%compare_Eq.
  assert (Hyx : compare_components y x <> Gt).
  { apply compare_le_trans with z; [done|].
    rewrite compare_antisym. rewrite (proj2 (compare_Eq _ _) Heq). done. }
  assert (Hxy : compare_components x y = Eq).
  { rewrite compare_antisym in Hyx. by destruct (compare_components x y). }
  assert (Hyz : compare_components y z = Eq).
  { apply compare_Eq. intros i. apply compare_Eq in Hxy. by rewrite <- Hxy, Heq. }
  eapply leb_trans; [by apply E1|by apply E2].
Qed.

Lemma newer_parses best v b : newer best v = Some b -> parses best /\ parses v.
Proof.
  unfold newer, compare_versions, _compare, parses.
  destruct (_components best.(version_no)) as [x|]; cbn; [|done].
  destruct (_components v.(version_no)) as [y|]; cbn; [|done]. intros _. split; by eexists.
Qed.

Lemma newer_at_most best v b : newer best v = Some b -> if b then at_most best v else at_most v best.
Proof.
  unfold newer, at_most. unfold compare_versions, _compare.
  destruct (_components best.(version_no)) as [x|] eqn:Hx; cbn; [|done].
  destruct (_components v.(version_no)) as [y|] eqn:Hy; cbn; [|done]. rewrite (compare_antisym x y).
  destruct (compare_components x y); intros [= <-]; cbn.
  - destruct (text_ltb (version_id best) (version_id v)) eqn:E; exists Eq; split_and!; try done. intros _. by apply ltb_asym.
  - by exists Lt.
  - by exists Lt.
Qed.

Lemma newest_spec l best v : newest best l = Some v -> parses best \/ l <> [] ->
  v ∈ best :: l /\ forall w, w ∈ best :: l -> at_most w v.
Proof.
  revert best. induction l as [|w l IH]; intros best; cbn [newest].
  - intros [= <-] [Hp|]; [|done]. split; [set_solver|]. intros w ->%list_elem_of_singleton. by apply at_most_refl.
  - destruct (newer best w) as [b|] eqn:Hn; cbn; [|done]. intros Hv _.
    assert (Hpb : parses (if b then w else best)) by (apply newer_parses in Hn as []; by destruct b).
    destruct (IH _ Hv (or_introl Hpb)) as [Hin Hall]. apply newer_at_most in Hn.
    assert (Hle : at_most (if b then w else best) v) by (apply Hall; set_solver).
    split; [destruct b; set_solver|]. intros u Hu.
    destruct b; (apply elem_of_cons in Hu as [->|[->|Hu]%elem_of_cons]; [| |apply Hall; set_solver]);
      try done; by eapply at_most_trans.
Qed.
End choice.

(** A dependency imports the newest version that fits: of the listed versions that
    have a file and are in range, one that no other is newer than, the version id
    deciding between equal numbers; and it imports nothing only when none fits. *)
Theorem import_is_newest `{Unicode} versions range rl chosen :
  _select_import_version versions range rl = Some chosen ->
  match chosen with
  | None => forall w, w ∈ versions -> w.(has_files) = true -> version_satisfies w.(version_no) range rl = false
  | Some v =>
      v ∈ versions /\ v.(has_files) = true /\ version_satisfies v.(version_no) range rl = true
      /\ forall w, w ∈ versions -> w.(has_files) = true -> version_satisfies w.(version_no) range rl = true ->
           w = v \/ at_most w v
  end.
Proof.
  assert (Hc : forall w, w ∈ candidates versions range rl <->
    w ∈ versions /\ w.(has_files) = true /\ version_satisfies w.(version_no) range rl = true).
  { intros w. unfold candidates. by rewrite elem_of_filter_bool, andb_true_iff. }
  unfold _select_import_version. destruct (candidates versions range rl) as [|x l] eqn:E.
  - intros [= <-] w Hw Hf. apply not_true_is_false. intros Hs. destruct (not_elem_of_nil w). by apply Hc.
  - destruct (newest x l) as [v|] eqn:Hv; [|done]. intros [= <-]. destruct l as [|y l].
    + injection Hv as <-. destruct (proj1 (Hc x)) as (? & ? & ?); [set_solver|]. split_and!; [done..|].
      intros w Hw Hf Hs. left. apply list_elem_of_singleton. apply Hc. auto.
    + destruct (newest_spec _ _ _ Hv) as [Hin Hall]; [by right|].
      destruct (proj1 (Hc v) Hin) as (? & ? & ?). split_and!; [done..|]. intros w Hw Hf Hs. right. apply Hall, Hc. auto.
Qed.

(** ** Applying a plan *)

Section apply.
(** An installation answers anything; the state is the calls made so far. *)
Context (result : str -> str -> list (str * str) -> install_result).

Definition logged (p v : str) (log : list (str * str)) : install_result * list (str * str) :=
  (result p v log, log ++ [(p, v)]).

(** The import an entry asks for. *)
Definition wanted (e : ResolutionEntry) : option (str * str) :=
  match e.(will_import) with
  | Some w => if e.(blocked) then None else Some (w.(wi_project_id), w.(wi_version_id))
  | None => None
  end.

Definition apply_ok (es : list ResolutionEntry) (log : list (str * str)) (n : nat)
    (out : outcome (list ServerPlugin * list str) * list (str * str)) : Prop :=
  exists new, out.2 = log ++ new /\ new ⊆ omap wanted es /\ NoDup (log ++ new).*2
    /\ match out.1 with
       | Done r => length r.1 + length r.2 = n + length new
           /\ forall p v, (p, v) ∈ omap wanted es -> v ∈ (log ++ new).*2
       | Raised => exists p v l, result p v l = Aborted
       | Diverged => False
       end.

Lemma wanted_eq e : wanted e = match e.(will_import) with
  | Some w => if e.(blocked) then None else Some (w.(wi_project_id), w.(wi_version_id))
  | None => None
  end.
Proof. done. Qed.

Lemma omap_wanted_cons e es : omap wanted (e :: es) =
  match wanted e with Some x => x :: omap wanted es | None => omap wanted es end.
Proof. done. Qed.

Lemma apply_entries_ok es seen installed failed log :
  seen = list_to_set log.*2 -> NoDup log.*2 ->
  apply_ok es log (length installed + length failed) (apply_entries logged es seen installed failed log).
Proof.
  revert seen installed failed log. induction es as [|e es IH]; intros seen installed failed log Hs Hn.
  { exists []. rewrite app_nil_r. cbn. split_and!; [done|set_solver|done|lia|set_solver]. }
  cbn [apply_entries]. unfold apply_ok. rewrite omap_wanted_cons. pose proof (wanted_eq e) as Hw.
  destruct (will_import e) as [w|]; [|rewrite Hw; by apply IH]. destruct (blocked e); rewrite Hw; [by apply IH|]. cbn [orb].
  set (x := (wi_project_id w, wi_version_id w)). case_bool_decide as Hseen.
  - destruct (IH seen installed failed log Hs Hn) as (new & Hl & Hsub & Hnd & Hout).
    exists new. split_and!; [done|set_solver|done|]. destruct (apply_entries _ _ _ _ _ _).1; [|done..].
    destruct Hout as [Hlen Hall]. split; [done|]. intros p v [Hx|Hx]%elem_of_cons; [|by eapply Hall].
    injection Hx as -> ->. rewrite fmap_app. apply elem_of_app. left. rewrite Hs in Hseen. by apply elem_of_list_to_set in Hseen.
  - rewrite Hs in Hseen. rewrite elem_of_list_to_set in Hseen.
    assert (Hn' : NoDup (log ++ [x]).*2).
    { rewrite fmap_app. apply NoDup_app. split_and!; [done| |apply NoDup_singleton]. intros i Hi ->%list_elem_of_singleton. done. }
    assert (Hs' : {[wi_version_id w]} ∪ seen = list_to_set (log ++ [x]).*2).
    { rewrite fmap_app, list_to_set_app_L, Hs. cbn. set_solver. }
    assert (Hgo : forall installed' failed', length installed' + length failed' = S (length installed + length failed) ->
      exists new, (apply_entries logged es ({[wi_version_id w]} ∪ seen) installed' failed' (log ++ [x])).2 = log ++ new
        /\ new ⊆ x :: omap wanted es /\ NoDup (log ++ new).*2
        /\ match (apply_entries logged es ({[wi_version_id w]} ∪ seen) installed' failed' (log ++ [x])).1 with
           | Done r => length r.1 + length r.2 = length installed + length failed + length new
               /\ forall p v, (p, v) ∈ x :: omap wanted es -> v ∈ (log ++ new).*2
           | Raised => exists p v l, result p v l = Aborted
           | Diverged => False
           end).
    { intros installed' failed' Hlen. destruct (IH _ installed' failed' _ Hs' Hn') as (new & Hl & Hsub & Hnd & Hout).
      exists (x :: new). rewrite <- app_assoc in Hl, Hnd. split_and!; [done|set_solver|done|].
      destruct (apply_entries _ _ _ _ _ _).1; [|done..]. destruct Hout as [Hlen' Hall]. split; [cbn; lia|].
      intros p v [Hx|Hx]%elem_of_cons; [|rewrite <- app_assoc in Hall; by eapply Hall].
      injection Hx as -> ->. rewrite !fmap_app. cbn. set_solver. }
    unfold logged at 1 2. cbn -[apply_entries]. destruct (result _ _ log) eqn:Hr.
    + apply Hgo. rewrite length_app. cbn. lia.
    + apply Hgo. rewrite length_app. cbn. lia.
    + exists [x]. split_and!; [done|set_solver|done|]. cbn. eauto.
Qed.

(** Applying a plan installs the imports it leaves unblocked and nothing else, a
    version once even when two dependencies ask for it, and goes through all of
    them, each ending up installed or failed, unless an installation is refused
    with an error it does not isolate. *)
Theorem apply_installs_what_is_unblocked es :
  let out := apply_entries logged es ∅ [] [] [] in
  out.2 ⊆ omap wanted es /\ NoDup out.2.*2
  /\ match out.1 with
     | Done (installed, failed) => length installed + length failed = length out.2
         /\ forall p v, (p, v) ∈ omap wanted es -> v ∈ out.2.*2
     | Raised => exists p v l, result p v l = Aborted
     | Diverged => False
     end.
Proof.
  destruct (apply_entries_ok es ∅ [] [] []) as (new & Hl & Hsub & Hnd & Hout); [done|constructor|].
  cbn in *. rewrite Hl. split_and!; [done|done|]. by destruct (apply_entries _ _ _ _ _ _).1 as [[] | |].
Qed.
End apply.
