(* ===== verification/PluginScenario.v ===== *)
(** * Dependency resolution on concrete catalogs

    The theorems of [PluginPlan] on small catalogs, and what the resolution does
    there that its documentation does not say. *)
From Stdlib Require Import ZArith NArith Lia String Ascii.
From stdpp Require Import base gmap strings list.
From S2P Require Import Prelude Text VersionRange PluginSet PluginResolution PluginClosure PluginPlan.

#[local] Open Scope N_scope.

(** ** Catalogs and plugins *)

(** A catalog that always answers the same: the projects under their ids. *)
Definition shelf : Type := list (str * (str * list CatalogVersion)).

Definition catalog_of (ps : shelf) : Catalog unit := {|
  search query _ _ s :=
    (Answer (map (fun p => {| hit_project_id := p.1; hit_slug := p.2.1 |})
       (List.filter (fun p => eqs p.2.1 query) ps)), s);
  get_project i s :=
    (match List.find (fun p => eqs p.1 i) ps with
     | Some p => Answer {| cp_project_id := p.1; cp_slug := p.2.1 |}
     | None => CatalogError
     end, s);
  list_versions i _ _ s :=
    (match List.find (fun p => eqs p.1 i) ps with Some p => Answer p.2.2 | None => Answer [] end, s)
|}.

Definition release (i number : string) (requires : list string) : CatalogVersion := {|
  version_id := codes i; version_no := codes number; has_files := true;
  version_dependencies := map (fun p => {| dep_project_id := codes p; dependency_type := REQUIRED |}) requires
|}.

Definition project (i slug : string) (versions : list CatalogVersion) : str * (str * list CatalogVersion) :=
  (codes i, (codes slug, versions)).

Definition text_field (k v : string) : str * value := (codes k, Text (codes v)).

(** A plugin of the jar's manifest, with the dependencies it declares. *)
Definition jar (mod_id_ version : string) (deps : list edge) : ServerPlugin := {|
  source := LOCAL; source_project_id := None; version_number := Some (codes version);
  mod_identifier := Some (codes mod_id_); provides := []; dependencies := deps; mc_versions := [];
  catalog_dependencies := []
|}.

Definition needs (target range : string) : edge :=
  [text_field "mod_identifier" target; text_field "version_range" range; (codes "required", Other true)].

Definition breaks_with (target range : string) : edge :=
  [text_field "mod_identifier" target; text_field "version_range" range; (codes "conflict", Other true)].

(** What a plan says of each id: its status, its depth, whether it is blocked. *)
Definition digest (plan : ResolutionPlan) : list (str * ResolutionStatus * nat * bool) :=
  map (fun e => (e.(dep_identifier), e.(status), e.(depth), e.(blocked))) plan.(entries).

Definition plan_on (ps : shelf) (plugins : list ServerPlugin) : outcome ResolutionPlan :=
  (resolve_closure (catalog_of ps) FABRIC (codes "1.20.1") plugins tt).1.

(** ** A mod with a library *)

Definition voice : shelf :=
  [project "P1" "voicechat" [release "v1" "2.4.0" ["P2"]; release "v2" "2.5.1" ["P2"]; release "v3" "3.0.0" []];
   project "P2" "fabric-api" [release "f1" "0.92.2+1.20.1" []]].

Definition addon : ServerPlugin := jar "addon" "1.0" [needs "voicechat" ">=2.4 <3"].

Definition voice_plan : ResolutionPlan :=
  Eval vm_compute in match plan_on voice [addon] with Done p => p | _ => {| entries := []; validation := Build_PluginValidation [] [] [] [] [] |} end.

Lemma voice_runs : plan_on voice [addon] = Done voice_plan.
Proof. vm_compute. reflexivity. Qed.

Lemma catalog_tame ps :
  Forall (fun p => Forall (fun v => is_Some (_components v.(version_no))) p.2.2) ps -> tame (catalog_of ps).
Proof.
  intros Hps. split_and!; [done|by intros p s; cbn; destruct (List.find _ ps)|by intros p l m s; cbn; destruct (List.find _ ps)|].
  intros i l m s vs. cbn. destruct (List.find _ ps) as [p|] eqn:E; intros [= <-]; [|constructor].
  apply List.find_some in E as [Hin%list_elem_of_In _]. rewrite Forall_forall in Hps. by apply Hps.
Qed.

Lemma catalog_errors_are_isolated_witness :
  exists plan s', resolve_closure (catalog_of voice) FABRIC (codes "1.20.1") [addon] tt = (Done plan, s').
Proof.
  apply catalog_errors_are_isolated; [|done]. apply catalog_tame. repeat constructor; by eexists.
Defined.


(** The newest version in range is the one imported, not the newest. *)
Definition releases : list CatalogVersion :=
  [release "v1" "2.4.0" ["P2"]; release "v2" "2.5.1" ["P2"]; release "v3" "3.0.0" []].

Lemma import_is_newest_witness :
  at_most (release "v1" "2.4.0" ["P2"]) (release "v2" "2.5.1" ["P2"])
  /\ version_satisfies (codes "3.0.0") (codes ">=2.4 <3") (codes "fabric") = false.
Proof.
  split; [|vm_compute; reflexivity].
  assert (H : _select_import_version releases (codes ">=2.4 <3") (codes "fabric")
    = Some (Some (release "v2" "2.5.1" ["P2"]))) by (vm_compute; reflexivity).
  destruct (import_is_newest _ _ _ _ H) as (_ & _ & _ & Hall).
  destruct (Hall (release "v1" "2.4.0" ["P2"])) as [Heq|Hle]; [unfold releases; set_solver|reflexivity|vm_compute; reflexivity| |exact Hle].
  by vm_compute in Heq.
Defined.

(** ** A blocked mod *)

Definition import (i slug by_ : string) (d : nat) : ResolutionEntry := {|
  dep_identifier := codes i; required_range := []; status := needs_import;
  will_import := Some {| wi_project_id := codes i; wi_version_id := codes i; wi_slug := codes slug; wi_version_number := codes "1.0" |};
  depth := d; required_by := match d with O => None | _ => Some (codes by_) end; blocked := false
|}.

(** [X] conflicts with the installed [old]; [Y] is there for [X] alone. *)
Definition torn : list ResolutionEntry := [import "X" "x" "" 0; import "Y" "y" "x" 1; import "Z" "z" "" 0].
Definition old : ServerPlugin := jar "old" "1.0" [breaks_with "x" ""].

Lemma torn_fresh : fresh torn.
Proof. repeat constructor. Qed.

Lemma pruned_plan_is_safe_witness :
  exists es', _block_and_prune torn [old] ∅ [] = Done es' /\ map blocked es' = [true; true; false].
Proof.
  destruct (pruned_plan_is_safe torn [old] ∅ [] torn_fresh) as (es' & Hes & _). exists es'. split; [exact Hes|].
  assert (H : match _block_and_prune torn [old] ∅ [] with Done es => map blocked es | _ => [] end = [true; true; false])
    by (vm_compute; reflexivity).
  by rewrite Hes in H.
Defined.

Lemma blocking_is_justified_witness :
  exists es', _block_and_prune torn [old] ∅ [] = Done es' /\ length torn = length es'.
Proof.
  exists (_mark_blocked torn {[0%nat; 1%nat]}).
  assert (H : _block_and_prune torn [old] ∅ [] = Done (_mark_blocked torn {[0%nat; 1%nat]})) by (vm_compute; reflexivity).
  split; [exact H|]. eapply Forall2_length, blocking_is_justified; [apply torn_fresh|exact H].
Defined.

(** ** A cycle behind a blocked mod *)

(** [core] needs [lib_a]; [lib_a] and [lib_b] need each other. *)
Definition tangle : shelf :=
  [project "core" "core" [release "c1" "1.0" ["lib_a"]];
   project "lib_a" "lib_a" [release "a1" "1.0" ["lib_b"]];
   project "lib_b" "lib_b" [release "b1" "1.0" ["lib_a"]]].

(** One installed mod needs [core], another conflicts with it. *)
Definition split_set : list ServerPlugin :=
  [jar "addon" "1.0" [needs "core" ""]; jar "old" "1.0" [breaks_with "core" ""]].

Definition always_installs (p v : str) (log : list (str * str)) : install_result :=
  Installed (jar "installed" "1.0" []).

(** Pruning does not reach a cycle: the two libraries, in the plan only because the
    blocked mod needs one of them, keep each other alive, and applying the plan
    installs both. *)
Theorem orphaned_cycle_survives :
  exists plan, plan_on tangle split_set = Done plan
  /\ digest plan = [(codes "core", needs_import, 0%nat, true); (codes "lib_a", needs_import, 1%nat, false);
                    (codes "lib_b", needs_import, 2%nat, false)]
  /\ omap required_by plan.(entries) = [codes "core"; codes "lib_a"]
  /\ (apply_entries (logged always_installs) plan.(entries) ∅ [] [] []).2
     = [(codes "lib_a", codes "a1"); (codes "lib_b", codes "b1")].
Proof.
  destruct (plan_on tangle split_set) as [plan| |] eqn:E; [|by vm_compute in E..].
  exists plan. split; [done|]. vm_compute in E. injection E as <-. by vm_compute.
Qed.

(** ** A conflict with a range *)

Definition modern : shelf := [project "core" "core" [release "c3" "3.0" []]].

(** [old] breaks with [core] before 2.0 only. *)
Definition ranged_set : list ServerPlugin :=
  [jar "addon" "1.0" [needs "core" ""]; jar "old" "1.0" [breaks_with "core" "<2.0"]].

(** The resolution blocks an import the validation has nothing against: it reads a
    declared conflict without its version range. *)
Theorem resolution_ignores_the_conflict_range :
  exists plan, plan_on modern ranged_set = Done plan
  /\ digest plan = [(codes "core", needs_import, 0%nat, true)]
  /\ map (fun w => wi_version_number w) (omap will_import plan.(entries)) = [codes "3.0"]
  /\ conflicts (validate_plugin_set FABRIC (codes "1.20.1") (jar "core" "3.0" [] :: ranged_set)) = []
  /\ missing_deps (validate_plugin_set FABRIC (codes "1.20.1") (jar "core" "3.0" [] :: ranged_set)) = []
  /\ conflicts (validate_plugin_set FABRIC (codes "1.20.1") (jar "core" "1.9" [] :: ranged_set)) <> [].
Proof.
  destruct (plan_on modern ranged_set) as [plan| |] eqn:E; [|by vm_compute in E..].
  exists plan. split; [done|]. vm_compute in E. injection E as <-. by vm_compute.
Qed.

(** ** A version that does not parse *)

(** Unicode tables with a superscript two, a digit without a decimal value. *)
Definition superscript_unicode : Unicode := {|
  is_space := is_space; is_digit c := is_digit c || (c =? 178); decimal := decimal
|}.

Lemma superscript_unicode_ok : UnicodeOk superscript_unicode.
Proof. intros c d Hd. destruct (ascii_unicode_ok c d Hd) as [Hc ?]. split; [|done]. cbn in *. by rewrite Hc. Qed.

Definition odd_release : CatalogVersion := {|
  version_id := codes "o1"; version_no := [50; 46; 178]; has_files := true; version_dependencies := []
|}.

Definition odd : shelf := [project "core" "core" [release "c1" "1.0" []; odd_release]].

(** One version number of one dependency ends the whole resolution: the catalog
    answers every call, yet the choice of a version raises. *)
Theorem odd_version_aborts_the_plan :
  (resolve_closure (H := superscript_unicode) (catalog_of odd) FABRIC (codes "1.20.1") [jar "addon" "1.0" [needs "core" ""]] tt).1
    = Raised
  /\ (resolve_closure (H := superscript_unicode) (catalog_of modern) FABRIC (codes "1.20.1")
        [jar "addon" "1.0" [needs "core" ""]] tt).1 <> Raised.
Proof. split; [by vm_compute|]. vm_compute. done. Qed.
