(* ===== verification/Schedule.v ===== *)
(** * Schedules

    [servers/domain/schedule.py], with the cron engine's adapter
    ([servers/adapters/cronsim_next_run_calculator.py]) and the cadence arithmetic
    of [servers/application/schedules.py]: a schedule, the rules its construction
    enforces, and the instants it fires at.

    The time zone database, the cron engine and SHA-256 are the class [Engine]; the
    floating-point jitter is computed with the standard library's binary64. *)
From Stdlib Require Import ZArith NArith Lia String Ascii SpecFloat.
From stdpp Require Import base gmap strings list.
From S2P Require Import Prelude Uuid Calendar Text VersionRange.

#[local] Open Scope Z_scope.

(** ** Values *)

Definition DEFAULT_TIMEZONE : str := codes "UTC".
Definition MAX_WARNING_STEPS : Z := 5.
Definition MAX_WARNING_OFFSET_MINUTES : Z := 120.
Definition MIN_INTERVAL_SECONDS : Z := 60.
Definition WARNING_COMMAND_PREFIX : str := codes "say ".

Inductive ScheduleAction := COMMAND | START | STOP | RESTART | BACKUP.
#[export] Instance ScheduleAction_eq_dec : EqDecision ScheduleAction.
Proof. solve_decision. Defined.

Inductive ScheduleRunOutcome := SUCCESS | FAILURE | SKIPPED.
#[export] Instance ScheduleRunOutcome_eq_dec : EqDecision ScheduleRunOutcome.
Proof. solve_decision. Defined.

Record Cadence := { cron : option str; interval_seconds : option Z }.
#[export] Instance Cadence_eq_dec : EqDecision Cadence.
Proof. solve_decision. Defined.

Record WarningStep := { offset_minutes : Z; message : str }.
#[export] Instance WarningStep_eq_dec : EqDecision WarningStep.
Proof. solve_decision. Defined.

Record Schedule := {
  id : uuid;
  server_id : uuid;
  name : str;
  action : ScheduleAction;
  cadence : Cadence;
  enabled : bool;
  created_at : datetime;
  updated_at : datetime;
  timezone : str;
  command : option str;
  warning_steps : list WarningStep;
  only_when_running : option bool;
  next_run_at : option datetime;
  last_run_at : option datetime;
  created_by : option uuid
}.
#[export] Instance Schedule_eq_dec : EqDecision Schedule.
Proof. solve_decision. Defined.

Record ScheduleRun := {
  run_id : uuid;
  schedule_id : uuid;
  started_at : datetime;
  finished_at : datetime;
  outcome : ScheduleRunOutcome;
  detail : option str
}.

(** What the use cases and the runner raise. *)
Inductive exn :=
| ServerNotFoundError
| ScheduleNotFoundError
| ScheduleNameAlreadyExistsError
| PermissionDeniedError (code : string)
| InvalidScheduleCadenceError
| InvalidScheduleNameError
| InvalidSchedulePayloadError
| InvalidScheduleTimezoneError
| InvalidScheduleError
| InvalidCronExpressionError
| OverflowError
| Failed                                  (* a failure of the layer below *)
| Cancelled.
#[export] Instance exn_eq_dec : EqDecision exn.
Proof. solve_decision. Defined.

(** What is consulted outside the program. *)
Class Engine := {
  zone_exists : str -> bool;                               (* zoneinfo.ZoneInfo *)
  cron_parses : str -> bool;                               (* CronSim(expr, probe) *)
  (* the occurrences CronSim yields from a local start; [None]: CronSimError *)
  cron_yields : str -> str -> datetime -> option (list datetime);
  (* the first eight bytes of sha256(id.bytes), big-endian *)
  digest_head : uuid -> Z
}.

Definition raise_if (b : bool) (e : exn) : result exn unit := require (negb b) e.

Section schedules.
Context `{Unicode} `{Engine}.

(** ** Construction *)

Definition blank (s : str) : bool := negb (nonempty (strip s)).

Definition single_line (s : str) : bool := negb (bool_decide (10%N ∈ s)) && negb (bool_decide (13%N ∈ s)).

(** [Cadence(...)], [WarningStep(...)] and [Schedule(...)], the rules of their
    [__post_init__] included. *)
Definition make_cadence (cron_ : option str) (interval : option Z) : result exn Cadence :=
  _ ← raise_if (bool_decide (is_Some cron_ <-> is_Some interval)) InvalidScheduleCadenceError;
  _ ← raise_if (match cron_ with Some expr => blank expr | None => false end) InvalidScheduleCadenceError;
  _ ← raise_if (match interval with Some n => n <? MIN_INTERVAL_SECONDS | None => false end) InvalidScheduleCadenceError;
  Ok {| cron := cron_; interval_seconds := interval |}.

Definition make_warning_step (offset : Z) (message_ : str) : result exn WarningStep :=
  _ ← raise_if ((offset <? 1) || (MAX_WARNING_OFFSET_MINUTES <? offset)) InvalidSchedulePayloadError;
  _ ← raise_if (blank message_) InvalidSchedulePayloadError;
  _ ← raise_if (negb (single_line message_)) InvalidSchedulePayloadError;
  Ok {| offset_minutes := offset; message := message_ |}.

Definition _validate_timezone (name : str) : result exn unit :=
  raise_if (negb (zone_exists name)) InvalidScheduleTimezoneError.

(** The flag as the payload rules leave it. *)
Definition _validate_payload (s : Schedule) : result exn (option bool) :=
  _ ← match s.(action), s.(command) with
      | COMMAND, None => Err InvalidSchedulePayloadError
      | COMMAND, Some line =>
          _ ← raise_if (blank line) InvalidSchedulePayloadError;
          raise_if (negb (single_line line)) InvalidSchedulePayloadError
      | _, Some _ => Err InvalidSchedulePayloadError
      | _, None => Ok tt
      end;
  _ ← raise_if (negb (bool_decide (s.(warning_steps) = [])) && negb (bool_decide (s.(action) ∈ [STOP; RESTART])))
        InvalidSchedulePayloadError;
  flag ← match s.(action), s.(only_when_running) with
         | BACKUP, None => Ok (Some true)
         | BACKUP, Some b => Ok (Some b)
         | _, Some _ => Err InvalidSchedulePayloadError
         | _, None => Ok None
         end;
  _ ← raise_if (MAX_WARNING_STEPS <? Z.of_nat (List.length s.(warning_steps))) InvalidSchedulePayloadError;
  _ ← raise_if (negb (bool_decide (NoDup (map offset_minutes s.(warning_steps))))) InvalidSchedulePayloadError;
  Ok flag.

Definition with_name_and_flag (name_ : str) (flag : option bool) (s : Schedule) : Schedule :=
  {| id := s.(id); server_id := s.(server_id); name := name_; action := s.(action); cadence := s.(cadence);
     enabled := s.(enabled); created_at := s.(created_at); updated_at := s.(updated_at); timezone := s.(timezone);
     command := s.(command); warning_steps := s.(warning_steps); only_when_running := flag;
     next_run_at := s.(next_run_at); last_run_at := s.(last_run_at); created_by := s.(created_by) |}.

(** [Schedule(...)]: the fields as given, checked and normalised. *)
Definition make_schedule (s : Schedule) : result exn Schedule :=
  let name_ := strip s.(name) in
  _ ← raise_if (negb (nonempty name_)) InvalidScheduleNameError;
  _ ← _validate_timezone s.(timezone);
  flag ← _validate_payload s;
  _ ← raise_if (negb s.(enabled) && bool_decide (is_Some s.(next_run_at))) InvalidScheduleError;
  Ok (with_name_and_flag name_ flag s).

(** ** Interval occurrences *)

Abbreviation float := spec_float.

(** [n * 2^e] rounded to the nearest binary64. *)
Definition binary64 (n e : Z) : float := binary_normalize 53 1024 n e false.
Definition mul64 (x y : float) : float := SFmul 53 1024 x y.

Definition SCHEDULE_JITTER_FRACTION : float := S754_finite false 7205759403792794 (-56).

(** [float(n)]: an integer beyond the format raises. *)
Definition float_of_int (n : Z) : result exn float :=
  match binary64 n 0 with S754_infinity _ => Err OverflowError | f => Ok f end.

(** [round(x)]: to the nearest integer, ties to even. *)
Definition round_half_even (x : float) : Z :=
  match x with
  | S754_finite sign m e =>
      let n := (if sign then -1 else 1) * Zpos m in
      if 0 <=? e then n * 2 ^ e
      else
        let d := 2 ^ (- e) in
        let q := n / d in
        match 2 * (n mod d) ?= d with
        | Lt => q
        | Gt => q + 1
        | Eq => if Z.even q then q else q + 1
        end
  | _ => 0
  end.

Definition interval_jitter_seconds (schedule_id_ : uuid) (interval : Z) : result exn float :=
  let fraction := binary64 (digest_head schedule_id_) (-64) in
  n ← float_of_int interval;
  Ok (mul64 (mul64 fraction n) SCHEDULE_JITTER_FRACTION).

(** [datetime.min] and [datetime.max], as microseconds. *)
Definition datetime_min : datetime := (date_min - 719163) * day_us.
Definition datetime_max : datetime := (date_max - 719163 + 1) * day_us - 1.

(** An instant outside the calendar raises. *)
Definition in_calendar (t : Z) : result exn datetime :=
  if (datetime_min <=? t) && (t <=? datetime_max) then Ok t else Err OverflowError.

(** The first instant of the grid [offset + k * period] after [after]. *)
Definition grid_after (offset period after : Z) : Z :=
  ((after - offset) / period + 1) * period + offset.

Definition next_interval_run (schedule_id_ : uuid) (interval : Z) (after : datetime) : result exn datetime :=
  jitter ← interval_jitter_seconds schedule_id_ interval;
  let jitter_us := round_half_even (mul64 jitter (binary64 1000000 0)) in
  let interval_us := interval * 1000000 in
  in_calendar (grid_after jitter_us interval_us after).

(** ** The cron adapter *)

Definition split_fields (s : str) : list str := List.filter nonempty (split_at is_space s).

Definition calculator_validate (expr : str) : result exn unit :=
  _ ← raise_if (negb (Z.of_nat (List.length (split_fields expr)) =? 5)) InvalidCronExpressionError;
  raise_if (negb (cron_parses expr)) InvalidCronExpressionError.

(** The first occurrence past [after]; running out of them is StopIteration. *)
Definition calculator_next_after (expr tz : str) (after : datetime) : result exn datetime :=
  match cron_yields expr tz after with
  | None => Err InvalidCronExpressionError
  | Some l => match List.find (fun occurrence => after <? occurrence) l with
              | Some occurrence => Ok occurrence
              | None => Err Failed
              end
  end.

(** ** The next run *)

(** [_next_run_at], and [_next_after] of the runner. *)
Definition _next_run_at (s : Schedule) (now : datetime) : result exn datetime :=
  match s.(cadence).(cron), s.(cadence).(interval_seconds) with
  | Some expr, _ => calculator_next_after expr s.(timezone) now
  | None, Some n => next_interval_run s.(id) n now
  | None, None => Err Failed
  end.
End schedules.

(** ** The occurrences of an interval *)

Lemma grid_after_spec offset period after : 0 < period ->
  after < grid_after offset period after <= after + period.
Proof.
  intros Hp. unfold grid_after. pose proof (Z.div_mod (after - offset) period ltac:(lia)).
  pose proof (Z.mod_pos_bound (after - offset) period Hp). nia.
Qed.

Lemma grid_after_unique offset period after k : 0 < period ->
  after < k * period + offset <= after + period -> grid_after offset period after = k * period + offset.
Proof.
  intros Hp Hk. pose proof (grid_after_spec offset period after Hp) as Hs. unfold grid_after in *.
  set (q := (after - offset) / period) in *. assert (q + 1 = k) as <- by nia. done.
Qed.

Lemma grid_after_stable offset period after after' : 0 < period ->
  after <= after' < grid_after offset period after ->
  grid_after offset period after' = grid_after offset period after.
Proof.
  intros Hp Ha. pose proof (grid_after_spec offset period after Hp). unfold grid_after at 2.
  apply grid_after_unique; [done|]. fold (grid_after offset period after). lia.
Qed.

Lemma grid_after_next offset period after : 0 < period ->
  grid_after offset period (grid_after offset period after) = grid_after offset period after + period.
Proof.
  intros Hp. unfold grid_after at 2 3. set (q := (after - offset) / period).
  replace ((q + 1) * period + offset + period) with ((q + 2) * period + offset) by lia.
  apply grid_after_unique; [done|]. lia.
Qed.

Lemma in_calendar_ok t u : in_calendar t = Ok u -> u = t.
Proof. unfold in_calendar. by case_match; intros [= <-]. Qed.

Section occurrences.
Context `{Engine}.

Lemma next_interval_run_grid i n after t :
  next_interval_run i n after = Ok t ->
  exists offset, t = grid_after offset (n * 1000000) after
    /\ forall after', next_interval_run i n after' = in_calendar (grid_after offset (n * 1000000) after').
Proof.
  unfold next_interval_run. destruct (interval_jitter_seconds i n) as [j|]; cbn; [|done].
  intros Ht%in_calendar_ok. by eexists.
Qed.

(** Interval occurrences neither repeat, drift nor skip: the next one is strictly
    later and at most an interval away, whatever instant before it asks the answer is
    the same, and asked at an occurrence the answer is exactly an interval on,
    floating-point jitter included; past the calendar the computation raises. *)
Theorem interval_occurrences_are_regular i n after t :
  0 < n -> next_interval_run i n after = Ok t ->
  after < t <= after + n * 1000000
  /\ (forall after', after <= after' < t -> next_interval_run i n after' = Ok t)
  /\ next_interval_run i n t = in_calendar (t + n * 1000000).
Proof.
  intros Hn Ht. destruct (next_interval_run_grid i n after t Ht) as (offset & Heq & Hall).
  split; [subst t; apply grid_after_spec; lia|]. split.
  - intros after' Ha. rewrite Hall, (grid_after_stable _ _ after); [by rewrite <- (Hall after)|lia|by rewrite <- Heq].
  - by rewrite Hall, Heq, grid_after_next by lia.
Qed.

(** A computed next run is in the future. *)
Lemma next_run_later `{Unicode} s now t :
  (forall n, s.(cadence).(interval_seconds) = Some n -> 0 < n) -> _next_run_at s now = Ok t -> now < t.
Proof.
  intros Hn. unfold _next_run_at, calculator_next_after. destruct (cron (cadence s)) as [expr|].
  - destruct (cron_yields expr (timezone s) now) as [l|]; [|done].
    destruct (List.find _ l) as [o|] eqn:E; intros [= ->]. apply List.find_some in E as [_ E]. by apply Z.ltb_lt.
  - destruct (interval_seconds (cadence s)) as [n|]; [|done]. intros (offset & -> & _)%next_interval_run_grid.
    specialize (Hn n eq_refl). pose proof (grid_after_spec offset (n * 1000000) now). lia.
Qed.
End occurrences.
