(* ===== verification/ScheduleStore.v ===== *)
(** * The schedule tables

    [servers/adapters/schedule_repository.py] and [schedule_models.py]: the rows of
    [schedule] and [schedule_run], their payload, the constraints of the schema, and
    every statement of the two repositories. *)
From Stdlib Require Import ZArith NArith Lia String Ascii.
From stdpp Require Import base gmap strings list sorting.
From S2P Require Import Prelude Uow Uuid Calendar Text VersionRange ServerRow Schedule.

#[local] Open Scope Z_scope.

(** ** Payloads *)

(** A JSON document; of the numbers, the integers. *)
Inductive json :=
| JNull
| JBool (b : bool)
| JInt (n : Z)
| JStr (s : str)
| JList (l : list json)
| JObject (fields : list (string * json)).

(** [d.get(k)], [None] for a missing key; a document that is not an object has no [get]. *)
Definition get (k : string) (d : json) : result exn (option json) :=
  match d with JObject fields => Ok (od_get k fields) | _ => Err Failed end.

(** [d\[k\]]. *)
Definition item (k : string) (d : json) : result exn json :=
  v ← get k d; match v with Some v => Ok v | None => Err Failed end.

(** A value the domain takes as a [str] or as [None]; another one fails there. *)
Definition as_str (v : option json) : result exn (option str) :=
  match v with
  | None | Some JNull => Ok None
  | Some (JStr s) => Ok (Some s)
  | _ => Err Failed
  end.

Definition as_bool (v : option json) : result exn (option bool) :=
  match v with
  | None | Some JNull => Ok None
  | Some (JBool b) => Ok (Some b)
  | _ => Err Failed
  end.

Definition step_json (step : WarningStep) : json :=
  JObject [("offset_minutes"%string, JInt step.(offset_minutes)); ("message"%string, JStr step.(message))].

Definition _payload_json (s : Schedule) : json :=
  match s.(command), s.(only_when_running), s.(warning_steps) with
  | Some line, _, _ => JObject [("command"%string, JStr line)]
  | None, Some b, _ => JObject [("only_when_running"%string, JBool b)]
  | None, None, (_ :: _) as steps => JObject [("warnings"%string, JList (map step_json steps))]
  | None, None, [] => JObject []
  end.

(** ** Rows *)

Record ScheduleModel := {
  m_id : uuid;
  m_server_id : uuid;
  m_name : str;
  m_action : ScheduleAction;
  m_payload : json;
  m_cron : option str;
  m_interval_seconds : option Z;
  m_timezone : str;
  m_enabled : bool;
  m_next_run_at : option datetime;
  m_last_run_at : option datetime;
  m_created_by : option uuid;
  m_created_at : datetime;
  m_updated_at : datetime
}.

Section store.
Context `{Unicode} `{Engine}.

Fixpoint mapR {A B} (f : A -> result exn B) (l : list A) : result exn (list B) :=
  match l with
  | [] => Ok []
  | x :: l' => y ← f x; ys ← mapR f l'; Ok (y :: ys)
  end.

Definition step_of_json (step : json) : result exn WarningStep :=
  o ← item "offset_minutes" step;
  m ← item "message" step;
  match o, m with
  | JInt offset, JStr message_ => make_warning_step offset message_
  | _, _ => Err Failed
  end.

(** Iterating an empty string or object yields nothing; their elements are no steps. *)
Definition _warning_steps (payload : json) : result exn (list WarningStep) :=
  w ← get "warnings" payload;
  match w with
  | None => Ok []
  | Some (JList l) => mapR step_of_json l
  | Some (JStr []) | Some (JObject []) => Ok []
  | Some _ => Err Failed
  end.

Definition _to_schedule (row : ScheduleModel) : result exn Schedule :=
  c ← make_cadence row.(m_cron) row.(m_interval_seconds);
  line ← (v ← get "command" row.(m_payload); as_str v);
  steps ← _warning_steps row.(m_payload);
  flag ← (v ← get "only_when_running" row.(m_payload); as_bool v);
  make_schedule
    {| id := row.(m_id); server_id := row.(m_server_id); name := row.(m_name); action := row.(m_action);
       cadence := c; enabled := row.(m_enabled); created_at := row.(m_created_at);
       updated_at := row.(m_updated_at); timezone := row.(m_timezone); command := line;
       warning_steps := steps; only_when_running := flag; next_run_at := row.(m_next_run_at);
       last_run_at := row.(m_last_run_at); created_by := row.(m_created_by) |}.

(** The row a schedule is written as. *)
Definition to_row (s : Schedule) : ScheduleModel :=
  {| m_id := s.(id); m_server_id := s.(server_id); m_name := s.(name); m_action := s.(action);
     m_payload := _payload_json s; m_cron := s.(cadence).(cron);
     m_interval_seconds := s.(cadence).(interval_seconds); m_timezone := s.(timezone);
     m_enabled := s.(enabled); m_next_run_at := s.(next_run_at); m_last_run_at := s.(last_run_at);
     m_created_by := s.(created_by); m_created_at := s.(created_at); m_updated_at := s.(updated_at) |}.

(** ** The database *)

Record db := {
  servers : gmap uuid Server;
  schedules : gmap uuid ScheduleModel;
  schedule_runs : gmap uuid ScheduleRun
}.

Definition with_schedules (m : gmap uuid ScheduleModel) (d : db) : db :=
  {| servers := d.(servers); schedules := m; schedule_runs := d.(schedule_runs) |}.
Definition with_runs (m : gmap uuid ScheduleRun) (d : db) : db :=
  {| servers := d.(servers); schedules := d.(schedules); schedule_runs := m |}.

(** [integer] columns hold 32 bits. *)
Definition int32_max : Z := 2147483647.

(** The constraints a written row is checked against: the column's width, the CHECKs,
    the foreign key and [uq_schedule_server_id_name], which is translated. *)
Definition row_fits (d : db) (row : ScheduleModel) : result exn unit :=
  _ ← raise_if (match row.(m_interval_seconds) with Some n => int32_max <? n | None => false end) Failed;
  _ ← raise_if (bool_decide (is_Some row.(m_cron) <-> is_Some row.(m_interval_seconds))) Failed;
  _ ← raise_if (match row.(m_payload) with
                | JObject fields =>
                    match row.(m_action), od_get "only_when_running"%string fields with
                    | BACKUP, Some (JBool _) => false
                    | BACKUP, _ => true
                    | _, None => false
                    | _, Some _ => true
                    end
                | _ => bool_decide (row.(m_action) = BACKUP)
                end) Failed;
  _ ← raise_if (bool_decide (d.(servers) !! row.(m_server_id) = None)) Failed;
  raise_if (any_row (fun r => bool_decide (r.(m_server_id) = row.(m_server_id)) && eqs r.(m_name) row.(m_name)
                              && negb (bool_decide (r.(m_id) = row.(m_id)))) d.(schedules))
    ScheduleNameAlreadyExistsError.

Definition stmt := M db exn.

Definition add (s : Schedule) : stmt unit :=
  try_modify (fun d =>
    _ ← raise_if (bool_decide (is_Some (d.(schedules) !! s.(id)))) Failed;
    _ ← row_fits d (to_row s);
    Ok (with_schedules (<[s.(id) := to_row s]> d.(schedules)) d)).

(** [_safe_hydrate]: the rows that load, and the ids of those that do not. *)
Fixpoint _safe_hydrate (rows : list ScheduleModel) : list Schedule * list uuid :=
  match rows with
  | [] => ([], [])
  | row :: rows' =>
      let '(ok, failed) := _safe_hydrate rows' in
      match _to_schedule row with
      | Ok s => (s :: ok, failed)
      | Err _ => (ok, row.(m_id) :: failed)
      end
  end.

Definition loaded (row : ScheduleModel) : option Schedule :=
  match _to_schedule row with Ok s => Some s | Err _ => None end.

Definition get_by_id (i : uuid) : stmt (option Schedule) := gets (fun d => d.(schedules) !! i ≫= loaded).

(** [SELECT ... FOR UPDATE]. *)
Definition lock (i : uuid) : stmt (option Schedule) := get_by_id i.

Record ScheduleRef := { ref_id : uuid; ref_server_id : uuid; ref_action : ScheduleAction }.

Definition get_ref (i : uuid) : stmt (option ScheduleRef) := gets (fun d =>
  row ← d.(schedules) !! i;
  Some {| ref_id := row.(m_id); ref_server_id := row.(m_server_id); ref_action := row.(m_action) |}).

(** [ORDER BY next_run_at, id]. *)
Definition due_order (a b : ScheduleModel) : Prop :=
  let ka := default 0 a.(m_next_run_at) in
  let kb := default 0 b.(m_next_run_at) in
  ka < kb \/ (ka = kb /\ (a.(m_id) <= b.(m_id))%N).

#[local] Instance due_order_dec a b : Decision (due_order a b).
Proof. unfold due_order. apply _. Defined.

Definition rows_where (p : ScheduleModel -> bool) (d : db) : list ScheduleModel :=
  merge_sort due_order (List.filter p (map snd (map_to_list d.(schedules)))).

(** [_quarantine]: the enabled ones among the ids are disabled. *)
Definition quarantine_row (row : ScheduleModel) : ScheduleModel :=
  {| m_id := row.(m_id); m_server_id := row.(m_server_id); m_name := row.(m_name); m_action := row.(m_action);
     m_payload := row.(m_payload); m_cron := row.(m_cron); m_interval_seconds := row.(m_interval_seconds);
     m_timezone := row.(m_timezone); m_enabled := false; m_next_run_at := None;
     m_last_run_at := row.(m_last_run_at); m_created_by := row.(m_created_by);
     m_created_at := row.(m_created_at); m_updated_at := row.(m_updated_at) |}.

Definition _quarantine (ids : list uuid) : stmt unit := modify (fun d =>
  with_schedules ((fun row => if bool_decide (row.(m_id) ∈ ids) && row.(m_enabled) then quarantine_row row else row)
                  <$> d.(schedules)) d).

Definition polled (p : ScheduleModel -> bool) : stmt (list Schedule) :=
  rows ← gets (rows_where p);
  let '(found, failed) := _safe_hydrate rows in
  _ ← (match failed with [] => mret tt | _ => _quarantine failed end);
  mret found.

Definition is_due (now : datetime) (row : ScheduleModel) : bool :=
  row.(m_enabled) && match row.(m_next_run_at) with Some t => t <=? now | None => false end.

Definition list_due (now : datetime) : stmt (list Schedule) := polled (is_due now).

Definition is_warning_candidate (now until : datetime) (row : ScheduleModel) : bool :=
  row.(m_enabled) && bool_decide (row.(m_action) ∈ [STOP; RESTART])
  && match row.(m_next_run_at) with Some t => (now <? t) && (t <=? until) | None => false end.

Definition list_warning_candidates (now until : datetime) : stmt (list Schedule) :=
  polled (is_warning_candidate now until).

(** [ORDER BY name]; the names of one server differ. *)
Definition name_order (a b : ScheduleModel) : Prop := text_ltb b.(m_name) a.(m_name) = false.

#[local] Instance name_order_dec a b : Decision (name_order a b).
Proof. unfold name_order. apply _. Defined.

Definition list_for_server (server : uuid) : stmt (list Schedule) := gets (fun d =>
  (_safe_hydrate (merge_sort name_order
     (List.filter (fun row => bool_decide (row.(m_server_id) = server)) (map snd (map_to_list d.(schedules)))))).1).

(** The columns [update] writes. *)
Definition updated_row (s : Schedule) (row : ScheduleModel) : ScheduleModel :=
  {| m_id := row.(m_id); m_server_id := row.(m_server_id); m_name := s.(name); m_action := s.(action);
     m_payload := _payload_json s; m_cron := s.(cadence).(cron);
     m_interval_seconds := s.(cadence).(interval_seconds); m_timezone := s.(timezone);
     m_enabled := s.(enabled); m_next_run_at := s.(next_run_at); m_last_run_at := s.(last_run_at);
     m_created_by := row.(m_created_by); m_created_at := row.(m_created_at); m_updated_at := s.(updated_at) |}.

Definition update (s : Schedule) : stmt unit := try_modify (fun d =>
  match d.(schedules) !! s.(id) with
  | None => Ok d
  | Some row =>
      let row' := updated_row s row in
      _ ← row_fits d row';
      Ok (with_schedules (<[s.(id) := row']> d.(schedules)) d)
  end).

Definition advanced_row (next : datetime) (last : option datetime) (row : ScheduleModel) : ScheduleModel :=
  {| m_id := row.(m_id); m_server_id := row.(m_server_id); m_name := row.(m_name); m_action := row.(m_action);
     m_payload := row.(m_payload); m_cron := row.(m_cron); m_interval_seconds := row.(m_interval_seconds);
     m_timezone := row.(m_timezone); m_enabled := row.(m_enabled); m_next_run_at := Some next;
     m_last_run_at := last; m_created_by := row.(m_created_by); m_created_at := row.(m_created_at);
     m_updated_at := row.(m_updated_at) |}.

Definition advance_run_state (i : uuid) (fired_occurrence next : datetime) (last : option datetime) : stmt unit :=
  modify (fun d =>
    match d.(schedules) !! i with
    | Some row =>
        if row.(m_enabled) && bool_decide (row.(m_next_run_at) = Some fired_occurrence)
        then with_schedules (<[i := advanced_row next last row]> d.(schedules)) d else d
    | None => d
    end).

(** The runs go with their schedule. *)
Definition delete_schedule (i : uuid) : stmt unit := modify (fun d =>
  {| servers := d.(servers); schedules := delete i d.(schedules);
     schedule_runs := filter (fun kv : uuid * ScheduleRun => kv.2.(schedule_id) <> i) d.(schedule_runs) |}).

(** ** Runs *)

Definition add_run (run : ScheduleRun) : stmt unit := try_modify (fun d =>
  _ ← raise_if (bool_decide (is_Some (d.(schedule_runs) !! run.(run_id)))) Failed;
  _ ← raise_if (bool_decide (d.(schedules) !! run.(schedule_id) = None)) Failed;
  Ok (with_runs (<[run.(run_id) := run]> d.(schedule_runs)) d)).

(** [ORDER BY started_at DESC, id DESC]. *)
Definition newest_first (a b : ScheduleRun) : Prop :=
  b.(started_at) < a.(started_at) \/ (a.(started_at) = b.(started_at) /\ (b.(run_id) <= a.(run_id))%N).

#[local] Instance newest_first_dec a b : Decision (newest_first a b).
Proof. unfold newest_first. apply _. Defined.

Definition runs_of (i : uuid) (d : db) : list ScheduleRun :=
  merge_sort newest_first
    (List.filter (fun run => bool_decide (run.(schedule_id) = i)) (map snd (map_to_list d.(schedule_runs)))).

Definition list_for_schedule (i : uuid) : stmt (list ScheduleRun) := gets (runs_of i).

Definition prune_for_schedule (i : uuid) (keep : nat) : stmt unit := modify (fun d =>
  let ids := map run_id (drop keep (runs_of i d)) in
  with_runs (filter (fun kv : uuid * ScheduleRun => kv.2.(run_id) ∉ ids) d.(schedule_runs)) d).
End store.
