(* ===== verification/Schedules.v ===== *)
(** * Schedule use cases

    [servers/application/schedules.py]: creating, editing, deleting, listing and
    previewing schedules.  [authorize] is the permission decision the route binds to
    the server; the clock's reading and the fresh identity are arguments. *)
From Stdlib Require Import ZArith NArith Lia String Ascii.
From stdpp Require Import base gmap strings list sorting.
From S2P Require Import Prelude Uow Uuid Calendar Text VersionRange ServerRow Schedule ScheduleStore.

#[local] Open Scope Z_scope.

Definition _SCHEDULE_MANAGE_PERMISSION : string := "schedule:manage".

Definition _ACTION_PERMISSION (a : ScheduleAction) : string :=
  match a with
  | COMMAND => "server:command"
  | START => "server:start"
  | STOP => "server:stop"
  | RESTART => "server:restart"
  | BACKUP => "backup:schedule"
  end.

Section use_cases.
Context `{Unicode} `{Engine} (authorize : string -> bool).

Fixpoint first_denied (codes : list string) : option string :=
  match codes with
  | [] => None
  | code :: codes' => if authorize code then first_denied codes' else Some code
  end.

Definition _authorize_write (a : ScheduleAction) : result exn unit :=
  match first_denied [_SCHEDULE_MANAGE_PERMISSION; _ACTION_PERMISSION a] with
  | Some code => Err (PermissionDeniedError code)
  | None => Ok tt
  end.

Definition _require_server (community server : uuid) : stmt unit :=
  found ← gets (fun d => d.(servers) !! server);
  match found with
  | Some row => guard_not (negb (bool_decide (row.(s_community_id) = community))) ServerNotFoundError
  | None => raise ServerNotFoundError
  end.

Definition _load_schedule (community server schedule : uuid) : stmt Schedule :=
  _ ← _require_server community server;
  found ← get_by_id schedule;
  match found with
  | Some s => _ ← guard_not (negb (bool_decide (s.(server_id) = server))) ScheduleNotFoundError; mret s
  | None => raise ScheduleNotFoundError
  end.

Definition _load_schedule_ref (community server schedule : uuid) : stmt ScheduleRef :=
  _ ← _require_server community server;
  found ← get_ref schedule;
  match found with
  | Some r => _ ← guard_not (negb (bool_decide (r.(ref_server_id) = server))) ScheduleNotFoundError; mret r
  | None => raise ScheduleNotFoundError
  end.

Definition _ensure_unique_name (server : uuid) (name_ : str) (exclude : option uuid) : stmt unit :=
  existing ← list_for_server server;
  guard_not (existsb (fun s => eqs s.(name) name_ && negb (bool_decide (Some s.(id) = exclude))) existing)
    ScheduleNameAlreadyExistsError.

Definition steps_of (steps : option (list (Z * str))) : result exn (list WarningStep) :=
  match steps with
  | None => Ok []
  | Some steps => mapR (fun p => make_warning_step p.1 p.2) steps
  end.

Definition _validate_warning_offsets (s : Schedule) : result exn unit :=
  match s.(cadence).(interval_seconds) with
  | None => Ok tt
  | Some interval =>
      raise_if (existsb (fun step => interval <=? step.(offset_minutes) * 60) s.(warning_steps)) InvalidSchedulePayloadError
  end.

(** [replace(s, next_run_at=...)], the checks of the construction again. *)
Definition with_next (next : option datetime) (s : Schedule) : Schedule :=
  {| id := s.(id); server_id := s.(server_id); name := s.(name); action := s.(action); cadence := s.(cadence);
     enabled := s.(enabled); created_at := s.(created_at); updated_at := s.(updated_at); timezone := s.(timezone);
     command := s.(command); warning_steps := s.(warning_steps); only_when_running := s.(only_when_running);
     next_run_at := next; last_run_at := s.(last_run_at); created_by := s.(created_by) |}.

Definition armed (s : Schedule) (now : datetime) : result exn Schedule :=
  if s.(enabled) then next ← _next_run_at s now; make_schedule (with_next (Some next) s) else Ok s.

(** A cadence as the use cases accept it. *)
Definition checked_cadence (cron_ : option str) (interval : option Z) : result exn Cadence :=
  c ← make_cadence cron_ interval;
  _ ← match c.(cron) with Some expr => calculator_validate expr | None => Ok tt end;
  Ok c.

Record new_schedule := {
  n_name : str;
  n_action : ScheduleAction;
  n_cron : option str;
  n_interval_seconds : option Z;
  n_timezone : str;
  n_enabled : bool;
  n_command : option str;
  n_warning_steps : option (list (Z * str));
  n_only_when_running : option bool;
  n_created_by : option uuid
}.

Definition CreateSchedule (now : datetime) (fresh : uuid) (community server : uuid) (n : new_schedule)
    : M db exn Schedule :=
  uow (
    _ ← on (_require_server community server);
    _ ← on (lift (_authorize_write n.(n_action)));
    c ← on (lift (checked_cadence n.(n_cron) n.(n_interval_seconds)));
    steps ← on (lift (steps_of n.(n_warning_steps)));
    s ← on (lift (make_schedule
      {| id := fresh; server_id := server; name := n.(n_name); action := n.(n_action); cadence := c;
         enabled := n.(n_enabled); created_at := now; updated_at := now; timezone := n.(n_timezone);
         command := n.(n_command); warning_steps := steps; only_when_running := n.(n_only_when_running);
         next_run_at := None; last_run_at := None; created_by := n.(n_created_by) |}));
    _ ← on (lift (_validate_warning_offsets s));
    _ ← on (_ensure_unique_name server s.(name) None);
    s ← on (lift (armed s now));
    _ ← on (add s);
    _ ← commit;
    mret s).

Definition ListSchedules (community server : uuid) : M db exn (list Schedule) :=
  uow (_ ← on (_require_server community server); on (list_for_server server)).

Definition ReadSchedule (community server schedule : uuid) : M db exn Schedule :=
  uow (on (_load_schedule community server schedule)).

(** A partial edit: a field left out keeps its value. *)
Record schedule_patch := {
  p_name : option str;
  p_cron : option str;
  p_interval_seconds : option Z;
  p_timezone : option str;
  p_enabled : option bool;
  p_command : option str;
  p_warning_steps : option (list (Z * str));
  p_only_when_running : option bool
}.

Definition edited (now : datetime) (p : schedule_patch) (c : Cadence) (steps : list WarningStep) (s : Schedule) : Schedule :=
  {| id := s.(id); server_id := s.(server_id); name := default s.(name) p.(p_name); action := s.(action);
     cadence := c; enabled := default s.(enabled) p.(p_enabled); created_at := s.(created_at); updated_at := now;
     timezone := default s.(timezone) p.(p_timezone);
     command := match p.(p_command) with None => s.(command) | line => line end;
     warning_steps := steps;
     only_when_running := match p.(p_only_when_running) with None => s.(only_when_running) | flag => flag end;
     next_run_at := None; last_run_at := s.(last_run_at); created_by := s.(created_by) |}.

(** [UpdateSchedule] up to its write: what it reads, checks and computes. *)
Definition plan_update (now : datetime) (community server schedule : uuid) (p : schedule_patch) : stmt Schedule :=
  existing ← _load_schedule community server schedule;
  _ ← lift (_authorize_write existing.(action));
  c ← lift (match p.(p_cron), p.(p_interval_seconds) with
            | None, None => Ok existing.(cadence)
            | cron_, interval => checked_cadence cron_ interval
            end);
  steps ← lift (match p.(p_warning_steps) with
                | None => Ok existing.(warning_steps)
                | steps => steps_of steps
                end);
  s ← lift (make_schedule (edited now p c steps existing));
  _ ← lift (_validate_warning_offsets s);
  _ ← (if eqs s.(name) existing.(name) then mret tt
       else _ensure_unique_name server s.(name) (Some schedule));
  lift (armed s now).

Definition UpdateSchedule (now : datetime) (community server schedule : uuid) (p : schedule_patch) : M db exn Schedule :=
  uow (s ← on (plan_update now community server schedule p);
       _ ← on (update s);
       _ ← commit;
       mret s).

Definition DeleteSchedule (community server schedule : uuid) : M db exn unit :=
  uow (r ← on (_load_schedule_ref community server schedule);
       _ ← on (lift (_authorize_write r.(ref_action)));
       _ ← on (delete_schedule schedule);
       commit).

Definition ListScheduleRuns (community server schedule : uuid) : M db exn (list ScheduleRun) :=
  uow (_ ← on (_load_schedule community server schedule); on (list_for_schedule schedule)).

Definition _PREVIEW_COUNT : nat := 5.

Fixpoint preview (count : nat) (c : Cadence) (timezone_ : str) (after : datetime) : result exn (list datetime) :=
  match count with
  | O => Ok []
  | S count =>
      next ← match c.(cron), c.(interval_seconds) with
             | Some expr, _ => calculator_next_after expr timezone_ after
             | None, Some n => in_calendar (after + seconds n)
             | None, None => Err Failed
             end;
      rest ← preview count c timezone_ next;
      Ok (next :: rest)
  end.

Definition PreviewSchedule (now : datetime) (cron_ : option str) (interval : option Z) (timezone_ : str)
    : result exn (list datetime) :=
  c ← checked_cadence cron_ interval;
  _ ← _validate_timezone timezone_;
  preview _PREVIEW_COUNT c timezone_ now.
End use_cases.
