(* ===== verification/ScheduleRunner.v ===== *)
(** * The schedule runner

    [servers/application/schedule_runner.py]: one pass of the scheduler, as the
    coroutines it consists of.  A transaction, a dispatch to a use case, a
    synchronous access to the runner's own memory are each one event; between two
    events requests and the other groups of the pass may run. *)
From Stdlib Require Import ZArith NArith Lia String Ascii.
From stdpp Require Import base gmap strings list sorting.
From S2P Require Import Prelude Uow Uuid Calendar Program Text VersionRange ServerRow Schedule ScheduleStore Schedules.

#[local] Open Scope Z_scope.

(** ** Constants *)

Definition _HISTORY_CAP : nat := 50.
Definition minutes (n : Z) : timedelta := seconds (n * 60).
Definition _BACKUP_RETRY_DELAY : timedelta := minutes 30.
Definition LATE_RUN_GRACE : timedelta := seconds 300.
Definition WARNING_GRACE_FLOOR : timedelta := seconds 60.

Definition effective_warning_grace (tick : timedelta) : timedelta := Z.max WARNING_GRACE_FLOOR tick.

(** ** Classifying an execution *)

(** How a use case the runner dispatches to raises; the last two are no [ServerError]. *)
Inductive use_case_error :=
| InvalidLifecycleTransitionError
| LifecycleTransitionConflictError
| ServerNotRunningError
| BackupUnsettledError
| CommandDispatchError (reason : option str)
| WorkerUnavailableError
| NoEligibleWorkerError
| BackupCorruptError
| BackupStorageUnavailableError
| OtherServerError
| StorageBackendError (timeout : bool)
| UnexpectedError (class_name : str).

Definition is_ServerError (e : use_case_error) : bool :=
  match e with StorageBackendError _ | UnexpectedError _ => false | _ => true end.

Definition _SKIP_ERRORS (e : use_case_error) : bool :=
  match e with
  | InvalidLifecycleTransitionError | LifecycleTransitionConflictError | ServerNotRunningError
  | BackupUnsettledError => true
  | _ => false
  end.

Definition _is_running (server : Server) : bool :=
  bool_decide (server.(s_desired_state) = D_RUNNING) && bool_decide (server.(s_observed_state) = RUNNING)
  && bool_decide (is_Some server.(s_assigned_worker_id)).

Definition _precondition_skip (server : Server) (a : ScheduleAction) (only_when_running_ : option bool) : option str :=
  match a with
  | START => if is_at_rest server then None else Some (codes "server not stopped")
  | BACKUP =>
      if _is_running server then None
      else if is_at_rest server
      then match only_when_running_ with Some true => Some (codes "server not running") | _ => None end
      else Some (codes "server transitional")
  | _ => if _is_running server then None else Some (codes "server not running")
  end.

Definition _skip_detail (e : use_case_error) : str :=
  codes match e with
        | ServerNotRunningError => "server not running"
        | BackupUnsettledError => "server transitional"
        | _ => "precondition changed"
        end.

Definition _failure_detail (e : use_case_error) : str :=
  match e with
  | CommandDispatchError (Some reason) => if nonempty reason then reason else codes "dispatch failed"
  | CommandDispatchError None => codes "dispatch failed"
  | WorkerUnavailableError => codes "worker unavailable"
  | NoEligibleWorkerError => codes "no eligible worker"
  | BackupCorruptError => codes "backup corrupt"
  | BackupStorageUnavailableError => codes "storage unavailable"
  | _ => codes "action failed"
  end.

Definition _unexpected_detail (e : use_case_error) : str :=
  match e with
  | StorageBackendError timeout => codes (if timeout then "storage timeout" else "storage error")
  | UnexpectedError class_name => class_name
  | _ => []
  end.

Record ActionResult := {
  r_outcome : ScheduleRunOutcome;
  r_detail : option str;
  r_community_id : option uuid;
  r_retryable : bool
}.

Definition result_ (o : ScheduleRunOutcome) (d : option str) (c : option uuid) : ActionResult :=
  {| r_outcome := o; r_detail := d; r_community_id := c; r_retryable := true |}.

Definition classify (e : option use_case_error) (community : uuid) : ActionResult :=
  match e with
  | None => result_ SUCCESS None (Some community)
  | Some e =>
      if _SKIP_ERRORS e then result_ SKIPPED (Some (_skip_detail e)) (Some community)
      else if is_ServerError e
      then {| r_outcome := FAILURE; r_detail := Some (_failure_detail e); r_community_id := Some community;
              r_retryable := match e with BackupCorruptError => false | _ => true end |}
      else result_ FAILURE (Some (_unexpected_detail e)) (Some community)
  end.

(** ** The runner's memory *)

Inductive note := Failing | Recovered.
#[export] Instance note_eq_dec : EqDecision note.
Proof. solve_decision. Defined.

(** A notification, or the moment the state of a vanished schedule is dropped. *)
Inductive frame := Notified (schedule : uuid) (n : note) | Forgotten (schedule : uuid).

Record memory := {
  _backup_retry : list (uuid * datetime);
  _notifying : gset uuid;
  _warned : gset (uuid * datetime * Z);
  _last_tick_at : option datetime;
  bus : list frame
}.

Definition fresh_memory : memory :=
  {| _backup_retry := []; _notifying := ∅; _warned := ∅; _last_tick_at := None; bus := [] |}.

Definition set_retry (l : list (uuid * datetime)) (m : memory) : memory :=
  {| _backup_retry := l; _notifying := m.(_notifying); _warned := m.(_warned);
     _last_tick_at := m.(_last_tick_at); bus := m.(bus) |}.
Definition set_notifying (n : gset uuid) (fs : list frame) (m : memory) : memory :=
  {| _backup_retry := m.(_backup_retry); _notifying := n; _warned := m.(_warned);
     _last_tick_at := m.(_last_tick_at); bus := m.(bus) ++ fs |}.
Definition set_warned (w : gset (uuid * datetime * Z)) (m : memory) : memory :=
  {| _backup_retry := m.(_backup_retry); _notifying := m.(_notifying); _warned := w;
     _last_tick_at := m.(_last_tick_at); bus := m.(bus) |}.
Definition set_last_tick (t : datetime) (m : memory) : memory :=
  {| _backup_retry := m.(_backup_retry); _notifying := m.(_notifying); _warned := m.(_warned);
     _last_tick_at := Some t; bus := m.(bus) |}.

(** [dict.pop(k, None)]. *)
Definition od_pop (k : uuid) (d : list (uuid * datetime)) : list (uuid * datetime) :=
  List.filter (fun p => negb (bool_decide (p.1 = k))) d.

Inductive mem_op : Type -> Type :=
| BeginTick (now : datetime) : mem_op (option datetime)
| Retries : mem_op (list (uuid * datetime))
| PopRetry (schedule : uuid) : mem_op unit
| RescheduleRetry (schedule : uuid) (r : ActionResult) (now : datetime) : mem_op unit
| NotifyOutcome (schedule : uuid) (o : ScheduleRunOutcome) : mem_op unit
| Forget (schedule : uuid) : mem_op unit
| IsWarned (key : uuid * datetime * Z) : mem_op bool
| AddWarned (keys : list (uuid * datetime * Z)) : mem_op unit
| PruneWarned (now : datetime) : mem_op unit.

(** The state transition of the notifications: one frame per failing edge, one on
    the recovery, nothing on a skip. *)
Definition notify_outcome (schedule : uuid) (o : ScheduleRunOutcome) (m : memory) : memory :=
  match o with
  | SUCCESS =>
      if bool_decide (schedule ∈ m.(_notifying))
      then set_notifying (m.(_notifying) ∖ {[schedule]}) [Notified schedule Recovered] m else m
  | FAILURE =>
      if bool_decide (schedule ∈ m.(_notifying)) then m
      else set_notifying ({[schedule]} ∪ m.(_notifying)) [Notified schedule Failing] m
  | SKIPPED => m
  end.

Definition _reschedule_retry (schedule : uuid) (r : ActionResult) (now : datetime) (m : memory) : memory :=
  match r.(r_outcome), r.(r_retryable) with
  | FAILURE, true => set_retry (od_set schedule (now + _BACKUP_RETRY_DELAY) m.(_backup_retry)) m
  | SUCCESS, _ => set_retry (od_pop schedule m.(_backup_retry)) m
  | _, _ => m
  end.

Definition _forget (schedule : uuid) (m : memory) : memory :=
  set_retry (od_pop schedule m.(_backup_retry))
    (set_notifying (m.(_notifying) ∖ {[schedule]}) [Forgotten schedule] m).

Definition mem_do {T} (op : mem_op T) (m : memory) : T * memory :=
  match op in mem_op T return T * memory with
  | BeginTick now => (m.(_last_tick_at), set_last_tick now m)
  | Retries => (m.(_backup_retry), m)
  | PopRetry s => (tt, set_retry (od_pop s m.(_backup_retry)) m)
  | RescheduleRetry s r now => (tt, _reschedule_retry s r now m)
  | NotifyOutcome s o => (tt, notify_outcome s o m)
  | Forget s => (tt, _forget s m)
  | IsWarned key => (bool_decide (key ∈ m.(_warned)), m)
  | AddWarned keys => (tt, set_warned (list_to_set keys ∪ m.(_warned)) m)
  | PruneWarned now => (tt, set_warned (filter (fun key => now < key.1.2) m.(_warned)) m)
  end.

Section runner.
Context `{Unicode} `{Engine}.

(** ** Transactions *)

Inductive txn : Type -> Type :=
| PollDue (now : datetime) : txn (list Schedule)
| PollWarnings (now until : datetime) : txn (list Schedule)
| Claim (schedule : uuid) : txn (option Schedule)
| ReadServer (server : uuid) : txn (option Server)
| RecordRun (s : Schedule) (run : ScheduleRun) (advance : bool) (last : option datetime) : txn bool.

(** [_advance], staged in the record's transaction; [now] is the clock there. *)
Definition _advance (now : datetime) (s : Schedule) (last : option datetime) : stmt unit :=
  match s.(next_run_at) with
  | None => raise Failed
  | Some fired =>
      next ← lift (_next_run_at s now);
      advance_run_state s.(id) fired next last
  end.

Definition record_run (now : datetime) (s : Schedule) (run : ScheduleRun) (advance : bool) (last : option datetime)
    : M (tx db) exn bool :=
  found ← on (lock s.(id));
  match found with
  | None => mret false
  | Some _ =>
      _ ← on (add_run run);
      _ ← on (prune_for_schedule s.(id) _HISTORY_CAP);
      _ ← (if advance then on (_advance now s last) else mret tt);
      _ ← commit;
      mret true
  end.

Definition txn_do {T} (now : datetime) (t : txn T) : M db exn T :=
  match t in txn T return M db exn T with
  | PollDue at_ => uow (due ← on (list_due at_); _ ← commit; mret due)
  | PollWarnings at_ until => uow (found ← on (list_warning_candidates at_ until); _ ← commit; mret found)
  | Claim i => uow (on (lock i))
  | ReadServer i => uow (on (gets (fun d => d.(servers) !! i)))
  | RecordRun s run advance last => uow (record_run now s run advance last)
  end.

(** ** Events *)

Inductive event : Type -> Type :=
| Now : event datetime
| FreshId : event uuid
| Tx {T} (t : txn T) : event T
| Mem {T} (op : mem_op T) : event T
| Dispatch (server : Server) (a : ScheduleAction) (line : option str) : event (option use_case_error)
| SendCommand (community server : uuid) (line : str) : event (option use_case_error)
| PruneBackups (community server : uuid) : event unit
| Audit (schedule : uuid) (o : ScheduleRunOutcome) : event unit
| Acquire : event unit
| Release : event unit.

Abbreviation coroutine := (prog event exn).

(** [except Exception]: logged; a cancellation goes on. *)
Definition except_log (p : coroutine unit) : coroutine unit :=
  try_ p (fun e => match e with Cancelled => Raise Cancelled | _ => Ret tt end).

(** [async with self._bookkeeping_lock]. *)
Definition locked {A} (p : coroutine A) : coroutine A := _ ← call Acquire; finally p (call Release).

(** ** One execution *)

Definition ExecuteScheduleAction (server : uuid) (a : ScheduleAction) (line : option str) (only : option bool)
    : coroutine ActionResult :=
  found ← call (Tx (ReadServer server));
  match found with
  | None => Ret (result_ SKIPPED (Some (codes "server not found")) None)
  | Some row =>
      match _precondition_skip row a only with
      | Some reason => Ret (result_ SKIPPED (Some reason) (Some row.(s_community_id)))
      | None => e ← call (Dispatch row a line); Ret (classify e row.(s_community_id))
      end
  end.

Definition _execute (s : Schedule) : coroutine (ActionResult * datetime * datetime) :=
  started ← call Now;
  r ← ExecuteScheduleAction s.(server_id) s.(action) s.(command) s.(only_when_running);
  finished ← call Now;
  Ret (r, started, finished).

Definition _record (s : Schedule) (r : ActionResult) (started finished : datetime) (advance : bool)
    (last : option datetime) : coroutine bool :=
  fresh ← call FreshId;
  recorded ← call (Tx (RecordRun s
    {| run_id := fresh; schedule_id := s.(id); started_at := started; finished_at := finished;
       outcome := r.(r_outcome); detail := r.(r_detail) |} advance last));
  _ ← match r.(r_outcome) with
      | SKIPPED => Ret tt
      | o => _ ← call (Audit s.(id) o); call (Mem (NotifyOutcome s.(id) o))
      end;
  _ ← (if recorded : bool then Ret tt else call (Mem (Forget s.(id))));
  Ret recorded.

Definition _claim (schedule : uuid) : coroutine (option Schedule) :=
  current ← call (Tx (Claim schedule));
  match current with
  | None => _ ← call (Mem (Forget schedule)); Ret None
  | Some s => Ret (Some s)
  end.

Definition _prune_after_backup (s : Schedule) (r : ActionResult) : coroutine unit :=
  match s.(action), r.(r_outcome), r.(r_community_id) with
  | BACKUP, SUCCESS, Some community => except_log (call (PruneBackups community s.(server_id)))
  | _, _, _ => Ret tt
  end.

Definition _is_stale (s : Schedule) (now : datetime) (prev_tick_at : option datetime) : bool :=
  match s.(next_run_at) with
  | None => false
  | Some t =>
      if now - t <=? LATE_RUN_GRACE then false
      else match prev_tick_at with Some p => negb (p <? t) | None => true end
  end.

(** A claim that lets the occurrence go ahead. *)
Definition still_due (s current : Schedule) : bool :=
  current.(enabled) && bool_decide (current.(next_run_at) = s.(next_run_at)).

Definition _run_due (s : Schedule) (now : datetime) (prev_tick_at : option datetime) : coroutine unit :=
  if negb (bool_decide (s.(action) = BACKUP)) && _is_stale s now prev_tick_at then
    stale_now ← call Now;
    _ ← locked (_record s (result_ SKIPPED (Some (codes "occurrence too stale")) None) stale_now stale_now true s.(last_run_at));
    Ret tt
  else
    current ← locked (_claim s.(id));
    match current with
    | None => Ret tt
    | Some current =>
        if negb (still_due s current) then Ret tt
        else
          x ← _execute s;
          let '(r, started, finished) := x in
          recorded ← locked (_record s r started finished true (Some started));
          _ ← (if (recorded : bool) && bool_decide (s.(action) = BACKUP)
               then call (Mem (RescheduleRetry s.(id) r finished)) else Ret tt);
          locked (_prune_after_backup s r)
    end.

Definition _run_retry (schedule : uuid) : coroutine unit :=
  _ ← call (Mem (PopRetry schedule));
  current ← _claim schedule;
  match current with
  | None => Ret tt
  | Some s =>
      if negb s.(enabled) || negb (bool_decide (s.(action) = BACKUP)) then Ret tt
      else
        x ← _execute s;
        let '(r, started, finished) := x in
        _ ← _record s r started finished false None;
        _prune_after_backup s r
  end.

(** ** Warnings *)

(** The steps whose moment has come, and those that missed it. *)
Fixpoint due_steps (s : Schedule) (occurrence now : datetime) (grace : timedelta) (steps : list WarningStep)
    : coroutine (list WarningStep) :=
  match steps with
  | [] => Ret []
  | step :: steps' =>
      let key := (s.(id), occurrence, step.(offset_minutes)) in
      seen ← call (Mem (IsWarned key));
      let warn_at := occurrence - minutes step.(offset_minutes) in
      if (seen : bool) then due_steps s occurrence now grace steps'
      else if now <? warn_at then due_steps s occurrence now grace steps'
      else if grace <? now - warn_at
      then _ ← call (Mem (AddWarned [key])); due_steps s occurrence now grace steps'
      else rest ← due_steps s occurrence now grace steps'; Ret (step :: rest)
  end.

Fixpoint broadcast (community server : uuid) (steps : list WarningStep) : coroutine unit :=
  match steps with
  | [] => Ret tt
  | step :: steps' =>
      e ← call (SendCommand community server (WARNING_COMMAND_PREFIX ++ step.(message)));
      match e with
      | Some e => if is_ServerError e then broadcast community server steps' else Raise Failed
      | None => broadcast community server steps'
      end
  end.

Definition _warn_schedule (s : Schedule) (now : datetime) (grace : timedelta) : coroutine unit :=
  match s.(next_run_at) with
  | None => Raise Failed
  | Some occurrence =>
      due ← due_steps s occurrence now grace s.(warning_steps);
      match due with
      | [] => Ret tt
      | _ =>
          server ← call (Tx (ReadServer s.(server_id)));
          _ ← call (Mem (AddWarned (map (fun step => (s.(id), occurrence, step.(offset_minutes))) due)));
          match server with
          | Some row => if _is_running row then broadcast row.(s_community_id) s.(server_id) due else Ret tt
          | None => Ret tt
          end
      end
  end.

Fixpoint warn_all (candidates : list Schedule) (now : datetime) (grace : timedelta) : coroutine unit :=
  match candidates with
  | [] => Ret tt
  | s :: rest => _ ← except_log (_warn_schedule s now grace); warn_all rest now grace
  end.

Definition _send_warnings (now : datetime) (grace : timedelta) : coroutine unit :=
  _ ← call (Mem (PruneWarned now));
  candidates ← call (Tx (PollWarnings now (now + minutes MAX_WARNING_OFFSET_MINUTES)));
  warn_all candidates now grace.

(** ** The pass *)

(** One server's schedules, in their order; a failure of one is logged. *)
Fixpoint _run_server_group (schedules : list Schedule) (now : datetime) (prev : option datetime) : coroutine unit :=
  match schedules with
  | [] => Ret tt
  | s :: rest => _ ← except_log (_run_due s now prev); _run_server_group rest now prev
  end.

Definition group_by_server (due : list Schedule) : list (uuid * list Schedule) :=
  fold_left (fun groups s => od_set s.(server_id) (default [] (od_get s.(server_id) groups) ++ [s]) groups) due [].

(** The pending retries that are due and were not handled this pass. *)
Fixpoint run_retries (retries : list (uuid * datetime)) (handled : gset uuid) (now : datetime) : coroutine unit :=
  match retries with
  | [] => Ret tt
  | (schedule, retry_at) :: rest =>
      _ ← (if bool_decide (schedule ∈ handled) || (now <? retry_at) then Ret tt
           else except_log (_run_retry schedule));
      run_retries rest handled now
  end.

(** The pass after its groups have joined. *)
Definition tick_end (now : datetime) (handled : gset uuid) (grace : timedelta) : coroutine unit :=
  retries ← call (Mem Retries);
  _ ← run_retries retries handled now;
  _send_warnings now grace.
End runner.
Abbreviation coroutine := (prog event exn).
