(* ===== verification/ScheduleRows.v ===== *)
(** * Schedule rows

    What is written to the [schedule] table reads back, and what each transaction on
    it can do to a row. *)
From Stdlib Require Import ZArith NArith Lia String Ascii.
From stdpp Require Import base gmap strings list sorting.
From S2P Require Import Prelude Uow Uuid Calendar Text VersionRange ServerRow Schedule ScheduleStore Schedules ScheduleRunner.

#[local] Open Scope Z_scope.

(** ** Stripping twice *)

Section strip.
Context `{Unicode}.

Lemma lstrip_space_head s c r : lstrip_space s = c :: r -> is_space c = false.
Proof. induction s as [|d s IH]; cbn; [done|]. destruct (is_space d) eqn:E; [done|]. by intros [= <- _]. Qed.

Lemma lstrip_fixed s : (forall c r, s = c :: r -> is_space c = false) -> lstrip_space s = s.
Proof. destruct s as [|c r]; [done|]. intros Hs. cbn. by rewrite (Hs c r). Qed.

Lemma lstrip_suffix s : exists p, s = p ++ lstrip_space s.
Proof.
  induction s as [|c s [p IH]]; cbn; [by exists []|]. destruct (is_space c); [|by exists []].
  exists (c :: p). cbn. by rewrite <- IH.
Qed.

Lemma strip_strip s : strip (strip s) = strip s.
Proof.
  unfold strip. set (t := lstrip_space s). assert (Hhead : lstrip_space (rev (lstrip_space (rev t))) = rev (lstrip_space (rev t))).
  { apply lstrip_fixed. intros c r Hr. destruct (lstrip_suffix (rev t)) as [p Hp].
    assert (Ht : t = rev (lstrip_space (rev t)) ++ rev p) by (by rewrite <- rev_app_distr, <- Hp, rev_involutive).
    rewrite Hr in Ht. cbn in Ht. apply (lstrip_space_head s c (r ++ rev p)). exact Ht. }
  rewrite Hhead, rev_involutive. f_equal. apply lstrip_fixed. intros c r. apply lstrip_space_head.
Qed.
End strip.

(** ** Valid schedules *)

Lemma raise_if_ok b e u : raise_if b e = Ok u <-> b = false.
Proof. unfold raise_if. rewrite require_ok. destruct b; cbn; split; done. Qed.

Section rows.
Context `{Unicode} `{Engine}.

(** What a construction accepts and leaves as it is. *)
Record valid (s : Schedule) : Prop := {
  v_schedule : make_schedule s = Ok s;
  v_cadence : make_cadence s.(cadence).(cron) s.(cadence).(interval_seconds) = Ok s.(cadence);
  v_steps : Forall (fun step => make_warning_step step.(offset_minutes) step.(message) = Ok step) s.(warning_steps)
}.

Lemma make_cadence_ok cron_ interval c :
  make_cadence cron_ interval = Ok c -> c = {| cron := cron_; interval_seconds := interval |}.
Proof. unfold make_cadence. intros (? & _ & (? & _ & (? & _ & [= <-])%bind_ok)%bind_ok)%bind_ok. done. Qed.

Lemma make_cadence_again cron_ interval c :
  make_cadence cron_ interval = Ok c -> make_cadence c.(cron) c.(interval_seconds) = Ok c.
Proof. intros Hc. pose proof (make_cadence_ok _ _ _ Hc) as ->. done. Qed.

Lemma valid_interval s n : valid s -> s.(cadence).(interval_seconds) = Some n -> 60 <= n.
Proof.
  intros [_ Hc _] Hn. unfold make_cadence in Hc. rewrite Hn in Hc.
  revert Hc. intros (? & _ & (? & _ & (? & Hlt%raise_if_ok & _)%bind_ok)%bind_ok)%bind_ok.
  unfold MIN_INTERVAL_SECONDS in Hlt. apply Z.ltb_ge in Hlt. lia.
Qed.

Lemma make_step_again o m step : make_warning_step o m = Ok step -> step = {| offset_minutes := o; message := m |}.
Proof. unfold make_warning_step. intros (? & _ & (? & _ & (? & _ & [= <-])%bind_ok)%bind_ok)%bind_ok. done. Qed.

(** The payload rules, read off an accepted payload. *)
Lemma payload_ok s flag : _validate_payload s = Ok flag ->
  (s.(action) <> COMMAND -> s.(command) = None)
  /\ (s.(action) = COMMAND -> exists line, s.(command) = Some line /\ blank line = false /\ single_line line = true)
  /\ (s.(warning_steps) <> [] -> s.(action) = STOP \/ s.(action) = RESTART)
  /\ (s.(action) = BACKUP -> flag = Some (default true s.(only_when_running)))
  /\ (s.(action) <> BACKUP -> flag = None /\ s.(only_when_running) = None).
Proof.
  unfold _validate_payload. intros (u1 & Hline & Hrest)%bind_ok.
  apply bind_ok in Hrest as (u2 & Hact%raise_if_ok & Hrest). apply bind_ok in Hrest as (f & Hflag & Hrest).
  apply bind_ok in Hrest as (u3 & _ & Hrest). apply bind_ok in Hrest as (u4 & _ & [= <-]).
  assert (Hcmd : s.(action) = COMMAND -> exists line, s.(command) = Some line /\ blank line = false /\ single_line line = true).
  { intros Ha. rewrite Ha in Hline. destruct (command s) as [line|]; [|done].
    apply bind_ok in Hline as (? & Hb%raise_if_ok & Hs%raise_if_ok). exists line. split_and!; [done|done|].
    by apply negb_false_iff in Hs. }
  split_and!; [|done| | |].
  - intros Ha. destruct (action s), (command s); done.
  - intros Hs. rewrite (bool_decide_eq_false_2 (warning_steps s = [])) in Hact by done.
    apply andb_false_iff in Hact as [|Hact]; [done|]. apply negb_false_iff, bool_decide_eq_true in Hact. set_solver.
  - intros Ha. rewrite Ha in Hflag. by destruct (only_when_running s); injection Hflag as <-.
  - intros Ha. destruct (action s); try done; destruct (only_when_running s); try done; by injection Hflag as <-.
Qed.

Lemma make_schedule_ok s s' : make_schedule s = Ok s' ->
  exists flag, _validate_payload s = Ok flag /\ s' = with_name_and_flag (strip s.(name)) flag s
    /\ (s.(enabled) = false -> s.(next_run_at) = None).
Proof.
  unfold make_schedule. intros (? & _ & Hrest)%bind_ok. apply bind_ok in Hrest as (? & _ & Hrest).
  apply bind_ok in Hrest as (flag & Hflag & Hrest). apply bind_ok in Hrest as (? & Hn%raise_if_ok & [= <-]).
  exists flag. split_and!; [done|done|]. intros He. rewrite He in Hn. cbn in Hn. apply bool_decide_eq_false in Hn.
  by destruct (next_run_at s) as [t|]; [destruct Hn; eexists|].
Qed.

(** Construction is idempotent. *)
Lemma make_schedule_again s s' : make_schedule s = Ok s' -> make_schedule s' = Ok s'.
Proof.
  intros Hs. pose proof (make_schedule_ok s s' Hs) as (flag & Hflag & -> & _). revert Hs. unfold make_schedule.
  cbn [with_name_and_flag name timezone enabled next_run_at]. rewrite strip_strip.
  intros (u1 & H1 & Hrest)%bind_ok. apply bind_ok in Hrest as (u2 & H2 & Hrest).
  apply bind_ok in Hrest as (f & _ & Hrest). apply bind_ok in Hrest as (u3 & H3 & _).
  rewrite H1. cbn -[_validate_payload]. rewrite H2. cbn -[_validate_payload].
  assert (_validate_payload (with_name_and_flag (strip (name s)) flag s) = Ok flag) as ->.
  { pose proof (payload_ok s flag Hflag) as (_ & _ & _ & Hb & Hnb). revert Hflag. unfold _validate_payload.
    cbn [with_name_and_flag action command warning_steps only_when_running].
    intros (v1 & Hl & Hrest)%bind_ok. apply bind_ok in Hrest as (v2 & Hact & Hrest).
    apply bind_ok in Hrest as (f' & Hf & Hrest). apply bind_ok in Hrest as (v3 & Hlen & Hrest).
    apply bind_ok in Hrest as (v4 & Hnd & [= ->]).
    assert (match s.(action), flag with
            | BACKUP, None => Ok (Some true) | BACKUP, Some b => Ok (Some b)
            | _, Some _ => Err InvalidSchedulePayloadError | _, None => Ok None end = Ok flag) as ->.
    { destruct (action s); try (destruct Hnb as [-> _]; done). by rewrite Hb. }
    rewrite Hl. cbn. rewrite Hact. cbn. rewrite Hlen. cbn. by rewrite Hnd. }
  cbn. by rewrite H3.
Qed.

Lemma make_schedule_valid s s' :
  make_schedule s = Ok s' -> make_cadence s.(cadence).(cron) s.(cadence).(interval_seconds) = Ok s.(cadence) ->
  Forall (fun step => make_warning_step step.(offset_minutes) step.(message) = Ok step) s.(warning_steps) -> valid s'.
Proof.
  intros Hs Hc Hst. split; [by eapply make_schedule_again|..];
    pose proof (make_schedule_ok s s' Hs) as (flag & _ & -> & _); done.
Qed.

(** ** Written and read back *)

Lemma mapR_steps steps :
  Forall (fun step => make_warning_step step.(offset_minutes) step.(message) = Ok step) steps ->
  mapR step_of_json (map step_json steps) = Ok steps.
Proof.
  induction 1 as [|step steps Hs _ IH]; [done|]. cbn [map mapR].
  assert (step_of_json (step_json step) = Ok step) as -> by exact Hs. cbn -[mapR]. by rewrite IH.
Qed.

(** The fields of a payload, as the reader takes them. *)
Lemma payload_reads s : valid s ->
  (v ← get "command" (_payload_json s); as_str v) = Ok s.(command)
  /\ _warning_steps (_payload_json s) = Ok s.(warning_steps)
  /\ (v ← get "only_when_running" (_payload_json s); as_bool v) = Ok s.(only_when_running).
Proof.
  intros [Hs _ Hst]. apply make_schedule_ok in Hs as (flag & Hflag & Heq & _).
  pose proof (payload_ok s flag Hflag) as (Hnc & _ & Hw & Hb & Hnb).
  assert (Hf : only_when_running s = flag) by (rewrite Heq at 1; done). clear Heq. unfold _payload_json.
  assert (Hline : forall line, command s = Some line -> only_when_running s = None /\ warning_steps s = []).
  { intros line Hc. destruct (decide (action s = COMMAND)) as [Ha|Ha]; [|by rewrite Hnc in Hc]. split; [apply Hnb; by rewrite Ha|].
    destruct (warning_steps s); [done|]. destruct Hw as [Hw|Hw]; [done|congruence..]. }
  assert (Hno : forall b, only_when_running s = Some b -> warning_steps s = []).
  { intros b Hob. destruct (warning_steps s); [done|]. destruct (decide (action s = BACKUP)) as [Ha|Ha];
      [|by destruct (Hnb Ha) as [_ Hn]; congruence]. destruct Hw as [Hw|Hw]; [done|congruence..]. }
  destruct (command s) as [line|] eqn:Hc; [by destruct (Hline line eq_refl) as [-> ->]|].
  destruct (only_when_running s) as [b|] eqn:Ho; [by rewrite (Hno b eq_refl)|].
  destruct (warning_steps s) as [|step steps]; [done|]. split_and!; [done| |done]. cbn -[mapR map]. by apply mapR_steps.
Qed.

(** A schedule the domain accepts is written to its row and read back unchanged. *)
Theorem schedule_row_roundtrip s : valid s -> _to_schedule (to_row s) = Ok s.
Proof.
  intros Hv. pose proof (payload_reads s Hv) as (Hc & Hst & Hf). destruct Hv as [Hs Hcad _].
  unfold _to_schedule, to_row. cbn [m_cron m_interval_seconds m_payload m_id m_server_id m_name m_action m_enabled
    m_created_at m_updated_at m_timezone m_next_run_at m_last_run_at m_created_by].
  rewrite Hcad. cbn -[get _payload_json make_schedule _warning_steps as_str as_bool].
  change (match get "command" (_payload_json s) with Ok a => as_str a | Err e => Err e end)
    with (v ← get "command" (_payload_json s); as_str v).
  rewrite Hc. cbn -[get _payload_json make_schedule _warning_steps as_str as_bool]. rewrite Hst.
  cbn -[get _payload_json make_schedule _warning_steps as_str as_bool].
  change (match get "only_when_running" (_payload_json s) with Ok a => as_bool a | Err e => Err e end)
    with (v ← get "only_when_running" (_payload_json s); as_bool v).
  rewrite Hf. cbn -[make_schedule]. destruct s. exact Hs.
Qed.

Lemma mapR_valid {A} (f : A -> result exn WarningStep) l steps :
  (forall x step, f x = Ok step -> make_warning_step step.(offset_minutes) step.(message) = Ok step) ->
  mapR f l = Ok steps ->
  Forall (fun step => make_warning_step step.(offset_minutes) step.(message) = Ok step) steps.
Proof.
  intros Hf. revert steps. induction l as [|x l IH]; intros steps; cbn; [by intros [= <-]|].
  intros (step & Hx & (rest & Hr & [= <-])%bind_ok)%bind_ok. constructor; [by eapply Hf|by apply IH].
Qed.

Lemma make_step_valid o m step : make_warning_step o m = Ok step ->
  make_warning_step step.(offset_minutes) step.(message) = Ok step.
Proof. intros Hs. pose proof (make_step_again _ _ _ Hs) as ->. done. Qed.

(** What loads is valid, and carries the columns of its row. *)
Lemma to_schedule_ok row s : _to_schedule row = Ok s ->
  valid s /\ s.(id) = row.(m_id) /\ s.(server_id) = row.(m_server_id) /\ s.(action) = row.(m_action)
  /\ s.(enabled) = row.(m_enabled) /\ s.(next_run_at) = row.(m_next_run_at) /\ s.(last_run_at) = row.(m_last_run_at)
  /\ s.(created_by) = row.(m_created_by) /\ s.(created_at) = row.(m_created_at)
  /\ (row.(m_enabled) = false -> row.(m_next_run_at) = None).
Proof.
  unfold _to_schedule. intros (c & Hc & Hrest)%bind_ok. apply bind_ok in Hrest as (line & _ & Hrest).
  apply bind_ok in Hrest as (steps & Hst & Hrest). apply bind_ok in Hrest as (flag & _ & Hs).
  split; [eapply make_schedule_valid; [exact Hs|by eapply make_cadence_again|]|].
  - cbn. unfold _warning_steps in Hst. apply bind_ok in Hst as (w & _ & Hst).
    destruct w as [[| | | [] |l| []]|]; try done; try (by injection Hst as <-; constructor).
    eapply mapR_valid; [|exact Hst]. intros x step. unfold step_of_json.
    intros (o & _ & (m & _ & Hm)%bind_ok)%bind_ok. destruct o, m; try done. by eapply make_step_valid.
  - apply make_schedule_ok in Hs as (f & _ & -> & Hn). split_and!; done.
Qed.

Lemma make_schedule_valid_with s s' : valid s' -> make_schedule s = Ok s' -> s'.(enabled) = s.(enabled) /\ s'.(next_run_at) = s.(next_run_at) /\ s'.(id) = s.(id).
Proof. intros _ Hs. apply make_schedule_ok in Hs as (f & _ & -> & _). done. Qed.
End rows.
