(* ===== verification/ScheduleMoves.v ===== *)
(** * What a transaction does to the schedule table

    Each request of [Schedules] and each transaction of [ScheduleRunner] takes a row
    of the table through one kind of step: it goes, it stays armed as it was, it is
    disarmed, or it is armed for an instant still to come. *)
From Stdlib Require Import ZArith NArith Lia String Ascii.
From stdpp Require Import base gmap strings list sorting.
From S2P Require Import Prelude Uow Uuid Calendar Text VersionRange ServerRow Schedule ScheduleStore Schedules ScheduleRunner ScheduleRows.

#[local] Open Scope Z_scope.

Section moves.
Context `{Unicode} `{Engine}.

(** ** The steps of a row *)

Definition loadable (row : ScheduleModel) : Prop := is_Some (loaded row).

(** When the row fires next, if it does. *)
Definition armed_at (row : ScheduleModel) : option datetime :=
  if row.(m_enabled) then row.(m_next_run_at) else None.

Definition moves (now : datetime) (r r' : option ScheduleModel) : Prop :=
  match r' with
  | None => True
  | Some row' =>
      (loadable row' \/ exists row, r = Some row /\ ~ loadable row)
      /\ forall t, armed_at row' = Some t -> now < t \/ exists row, r = Some row /\ armed_at row = Some t
  end.

Definition tables_move (now : datetime) (d d' : db) : Prop :=
  forall i, moves now (d.(schedules) !! i) (d'.(schedules) !! i).

(** Rows are stored under their ids. *)
Definition keyed (d : db) : Prop := forall k row, d.(schedules) !! k = Some row -> row.(m_id) = k.

Lemma loadable_dec row : loadable row \/ ~ loadable row.
Proof. unfold loadable. destruct (loaded row); [left; by eexists|right; by intros []]. Qed.

Lemma moves_refl now r : moves now r r.
Proof. destruct r as [row|]; [|done]. split; [destruct (loadable_dec row); eauto|eauto]. Qed.

Lemma moves_trans now r r' r'' : moves now r r' -> moves now r' r'' -> moves now r r''.
Proof.
  destruct r'' as [row''|]; [|done]. intros H1 [Hl Ha]. split.
  - destruct Hl as [|(row' & -> & Hn)]; [by left|]. destruct H1 as [[|]_]; [done|by right].
  - intros t Ht. destruct (Ha t Ht) as [|(row' & -> & Ht')]; [by left|]. destruct H1 as [_ H1]. by apply H1.
Qed.

Lemma tables_refl now d : tables_move now d d.
Proof. intros i. apply moves_refl. Qed.

Lemma tables_trans now d d' d'' : tables_move now d d' -> tables_move now d' d'' -> tables_move now d d''.
Proof. intros H1 H2 i. by eapply moves_trans. Qed.

(** A row written over another. *)
Lemma tables_insert now d i row :
  keyed d -> row.(m_id) = i -> moves now (d.(schedules) !! i) (Some row) ->
  keyed (with_schedules (<[i := row]> d.(schedules)) d)
  /\ tables_move now d (with_schedules (<[i := row]> d.(schedules)) d).
Proof.
  intros Hk Hid Hm. split.
  - intros k row'. cbn. rewrite lookup_insert_Some. intros [[<- <-]|[_ Hr]]; [done|by apply Hk].
  - intros k. cbn. destruct (decide (i = k)) as [->|Hne]; [by rewrite lookup_insert_eq|].
    rewrite lookup_insert_ne by done. apply moves_refl.
Qed.

(** A valid schedule, enabled only for a later instant. *)
Definition later (now : datetime) (s : Schedule) : Prop :=
  valid s /\ forall t, s.(enabled) = true -> s.(next_run_at) = Some t -> now < t.

Lemma moves_to_row now r row s :
  _to_schedule row = Ok s -> later now s -> moves now r (Some row).
Proof.
  intros Hrow [_ Hl]. pose proof (to_schedule_ok row s Hrow) as (_ & _ & _ & _ & He & Hn & _). split.
  - left. unfold loadable, loaded. rewrite Hrow. by eexists.
  - intros t. unfold armed_at. destruct (m_enabled row) eqn:E; [|done]. intros Ht. left. apply Hl; congruence.
Qed.

Lemma armed_later now s s' :
  armed s now = Ok s' -> valid s -> s.(next_run_at) = None -> later now s'.
Proof.
  unfold armed. destruct (enabled s) eqn:He; [|intros [= <-] Hv _; split; [done|congruence]].
  intros (t & Ht & Hs)%bind_ok Hv _. assert (Hlt : now < t).
  { eapply next_run_later; [|exact Ht]. intros n Hn. pose proof (valid_interval s n Hv Hn). lia. }
  assert (Hv' : valid s') by (eapply make_schedule_valid; [exact Hs|apply (v_cadence s Hv)|apply (v_steps s Hv)]).
  split; [done|]. destruct (make_schedule_valid_with _ _ Hv' Hs) as (_ & -> & _). by intros t' _ [= <-].
Qed.

(** ** Reading, then writing *)

(** A statement that changes nothing. *)
Definition reads {A} (m : stmt A) : Prop := forall d, (m d).2 = d.

Lemma on_read {A B} (m : stmt A) (k : A -> M (tx db) exn B) t :
  reads m -> (on m ≫= k) t = match (m t.(work)).1 with Ok a => k a t | Err e => (Err e, t) end.
Proof.
  intros Hm. specialize (Hm t.(work)). unfold mbind, M_bind, on. destruct (m (work t)) as [[a|e] d']; cbn in *;
    subst d'; by destruct t.
Qed.

Lemma reads_gets {A} (f : db -> A) : reads (gets f).
Proof. done. Qed.
Lemma reads_lift {A} (r : result exn A) : reads (lift r).
Proof. done. Qed.
Lemma reads_get_by_id i : reads (get_by_id i).
Proof. done. Qed.
Lemma reads_get_ref i : reads (get_ref i).
Proof. done. Qed.
Lemma reads_raise {A} e : reads (raise (A := A) e).
Proof. done. Qed.
Lemma reads_ret {A} (a : A) : reads (mret a).
Proof. done. Qed.
Lemma reads_guard b e : reads (guard_not b e).
Proof. by destruct b. Qed.

Lemma reads_bind {A B} (m : stmt A) (k : A -> stmt B) : reads m -> (forall a, reads (k a)) -> reads (m ≫= k).
Proof.
  intros Hm Hk d. unfold mbind, M_bind. specialize (Hm d). destruct (m d) as [[a|e] d']; cbn in *; subst; [apply Hk|done].
Qed.
End moves.

Create HintDb reads discriminated.
#[export] Hint Resolve reads_gets reads_get_by_id reads_get_ref reads_lift reads_raise reads_ret reads_guard reads_bind : reads.
#[export] Hint Extern 2 (reads (match ?x with _ => _ end)) => destruct x : reads.

Section requests.
Context `{Unicode} `{Engine} (authorize : string -> bool).

Lemma reads_require_server c s : reads (_require_server c s).
Proof. unfold _require_server. apply reads_bind; [apply reads_gets|]. intros [row|]; auto with reads. Qed.

Lemma reads_load c s i : reads (_load_schedule c s i).
Proof.
  unfold _load_schedule. apply reads_bind; [apply reads_require_server|]. intros _.
  apply reads_bind; [apply reads_gets|]. intros [x|]; auto with reads.
Qed.

Lemma reads_load_ref c s i : reads (_load_schedule_ref c s i).
Proof.
  unfold _load_schedule_ref. apply reads_bind; [apply reads_require_server|]. intros _.
  apply reads_bind; [apply reads_gets|]. intros [x|]; auto with reads.
Qed.

Lemma reads_unique s n x : reads (_ensure_unique_name s n x).
Proof. unfold _ensure_unique_name. apply reads_bind; [apply reads_gets|]. auto with reads. Qed.

Lemma reads_plan now c s i p : reads (plan_update authorize now c s i p).
Proof.
  unfold plan_update. apply reads_bind; [apply reads_load|]. intros existing.
  repeat (apply reads_bind; [auto using reads_unique with reads|intros ?]).
  all: apply reads_lift.
Qed.
End requests.

(** ** The requests *)

Section effects.
Context `{Unicode} `{Engine} (authorize : string -> bool).

Lemma uow_read_bind {A B} (m : stmt A) (k : A -> M (tx db) exn B) d :
  reads m -> uow (on m ≫= k) d = match (m d).1 with Ok a => uow (k a) d | Err e => (Err e, d) end.
Proof. intros Hm. unfold uow at 1. rewrite on_read by done. cbn. by destruct (m d).1. Qed.

Lemma uow_write_commit {A} (m : stmt unit) (a : A) d :
  uow (_ ← on m; _ ← commit; mret a) d = match m d with (Ok _, d') => (Ok a, d') | (Err e, _) => (Err e, d) end.
Proof. unfold uow, on, mbind, M_bind. cbn. by destruct (m d) as [[]]. Qed.

(** Peel a reading statement off a unit of work. *)
Ltac peel H E :=
  rewrite uow_read_bind in H by auto using reads_require_server, reads_unique, reads_plan, reads_load, reads_load_ref with reads;
  match type of H with (match ?x with Ok _ => _ | Err _ => _ end) = _ => destruct x eqn:E end;
  [unfold lift in E; cbn [fst] in E|injection H as <- <-].

Lemma checked_cadence_ok cron_ interval c :
  checked_cadence cron_ interval = Ok c -> make_cadence c.(cron) c.(interval_seconds) = Ok c.
Proof. unfold checked_cadence. intros (c' & Hc & (? & _ & [= <-])%bind_ok)%bind_ok. by eapply make_cadence_again. Qed.

Lemma steps_of_ok steps l : steps_of steps = Ok l ->
  Forall (fun step => make_warning_step step.(offset_minutes) step.(message) = Ok step) l.
Proof.
  destruct steps as [steps|]; cbn; [|by intros [= <-]; constructor].
  apply (mapR_valid (fun p : Z * str => make_warning_step p.1 p.2)). intros x step. apply make_step_valid.
Qed.

Lemma create_effect now fresh c srv n d r d' :
  keyed d -> CreateSchedule authorize now fresh c srv n d = (r, d') ->
  keyed d' /\ tables_move now d d' /\ d'.(servers) = d.(servers)
  /\ (forall s, r = Ok s -> later now s /\ s.(id) = fresh /\ d'.(schedules) = <[fresh := to_row s]> d.(schedules)
       /\ _authorize_write authorize n.(n_action) = Ok tt).
Proof.
  intros Hk Hc. assert (Hsame : keyed d /\ tables_move now d d) by (split; [done|apply tables_refl]).
  unfold CreateSchedule in Hc. peel Hc E1; [|naive_solver]. peel Hc E2; [|naive_solver]. peel Hc E3; [|naive_solver].
  peel Hc E4; [|naive_solver]. peel Hc E5; [|naive_solver]. peel Hc E6; [|naive_solver]. peel Hc E7; [|naive_solver].
  peel Hc E8; [|naive_solver]. rewrite uow_write_commit in Hc.
  match type of Hc with context [add ?s d] => set (s0 := s) in Hc end.
  assert (Hs : later now s0).
  { eapply armed_later; [exact E8| |by apply make_schedule_ok in E5 as (? & _ & -> & _)].
    eapply make_schedule_valid; [exact E5|by eapply checked_cadence_ok|by eapply steps_of_ok]. }
  assert (Hid : s0.(id) = fresh).
  { unfold armed in E8. apply make_schedule_ok in E5 as (? & _ & -> & _). cbn in E8.
    destruct (n_enabled n); [|by injection E8 as <-]. apply bind_ok in E8 as (? & _ & E8).
    by apply make_schedule_ok in E8 as (? & _ & -> & _). }
  unfold add, try_modify in Hc. rewrite Hid in Hc.
  destruct (raise_if _ _) as [u|e] eqn:Ea; cbn -[row_fits] in Hc; [|by injection Hc as <- <-; naive_solver].
  destruct (row_fits d (to_row s0)) as [u'|e] eqn:Ef; cbn in Hc; [|by injection Hc as <- <-; naive_solver].
  injection Hc as <- <-.
  destruct (tables_insert now d fresh (to_row s0) Hk Hid) as [Hk' Hm'].
  { eapply moves_to_row; [|exact Hs]. apply schedule_row_roundtrip, Hs. }
  split_and!; [done|done|done|]. intros s [= <-]. split_and!; [done|done|done|]. rewrite E2. by match goal with |- Ok ?u = _ => destruct u end.
Qed.

Lemma read_bind {A B} (m : stmt A) (k : A -> stmt B) d :
  reads m -> ((m ≫= k) d).1 = match (m d).1 with Ok a => (k a d).1 | Err e => Err e end.
Proof. intros Hm. specialize (Hm d). unfold mbind, M_bind. destruct (m d) as [[a|e] d']; cbn in *; by subst. Qed.

(** Peel a reading statement off a read. *)
Ltac peek H E :=
  rewrite read_bind in H by auto using reads_require_server, reads_unique, reads_load with reads;
  match type of H with (match ?x with Ok _ => _ | Err _ => _ end) = _ => destruct x eqn:E end;
  [try (unfold lift in E; cbn [fst] in E)|done].

Lemma load_schedule_ok c srv i d s : (_load_schedule c srv i d).1 = Ok s ->
  exists row, d.(schedules) !! i = Some row /\ _to_schedule row = Ok s /\ s.(server_id) = srv.
Proof.
  unfold _load_schedule. intros Hl. peek Hl E1. peek Hl E2. unfold get_by_id, gets in E2. cbn in E2. injection E2 as E2.
  destruct (d.(schedules) !! i) as [row|]; cbn in E2; [|by subst]. unfold loaded in E2.
  destruct (_to_schedule row) as [s'|] eqn:Hrow; [|by subst]. subst. exists row.
  peek Hl E3. injection Hl as ->. unfold guard_not in E3. by case_bool_decide.
Qed.

Lemma edited_ok now p c steps s s' : make_schedule (edited now p c steps s) = Ok s' ->
  s'.(id) = s.(id) /\ s'.(server_id) = s.(server_id) /\ s'.(created_at) = s.(created_at)
  /\ s'.(created_by) = s.(created_by) /\ s'.(next_run_at) = None /\ s'.(last_run_at) = s.(last_run_at)
  /\ s'.(action) = s.(action).
Proof. by intros (? & _ & -> & _)%make_schedule_ok. Qed.

Lemma armed_fields s now s' : armed s now = Ok s' ->
  s'.(id) = s.(id) /\ s'.(server_id) = s.(server_id) /\ s'.(created_at) = s.(created_at)
  /\ s'.(created_by) = s.(created_by) /\ s'.(last_run_at) = s.(last_run_at) /\ s'.(action) = s.(action)
  /\ s'.(enabled) = s.(enabled).
Proof.
  unfold armed. destruct (enabled s) eqn:He; [|by intros [= <-]].
  by intros (? & _ & (? & _ & -> & _)%make_schedule_ok)%bind_ok.
Qed.

Lemma plan_ok now c srv i p d s : (plan_update authorize now c srv i p d).1 = Ok s -> exists row existing,
  d.(schedules) !! i = Some row /\ _to_schedule row = Ok existing /\ later now s
  /\ s.(id) = existing.(id) /\ s.(server_id) = existing.(server_id) /\ s.(created_at) = existing.(created_at)
  /\ s.(created_by) = existing.(created_by) /\ s.(last_run_at) = existing.(last_run_at)
  /\ s.(action) = existing.(action) /\ s.(server_id) = srv
  /\ _authorize_write authorize existing.(action) = Ok tt.
Proof.
  unfold plan_update. intros Hp. peek Hp E1. rename a into existing. peek Hp E2. peek Hp E3. peek Hp E4. peek Hp E5. peek Hp E6.
  rewrite read_bind in Hp by (destruct (eqs _ _); auto using reads_unique with reads).
  match type of Hp with (match ?x with Ok _ => _ | Err _ => _ end) = _ => destruct x eqn:E7; [|done] end.
  unfold lift in Hp. cbn [fst] in Hp. destruct (load_schedule_ok _ _ _ _ _ E1) as (row & Hrow & Hload & Hsrv).
  pose proof (to_schedule_ok row existing Hload) as (Hv & _).
  pose proof (edited_ok _ _ _ _ _ _ E5) as (? & ? & ? & ? & Hnone & ? & ?).
  pose proof (armed_fields _ _ _ Hp) as (? & ? & ? & ? & ? & ? & _).
  assert (Hauth : _authorize_write authorize (action existing) = Ok tt) by (rewrite E2; by match goal with |- Ok ?u = _ => destruct u end).
  exists row, existing. split_and!; try done; try congruence.
  eapply armed_later; [exact Hp| |exact Hnone]. eapply make_schedule_valid; [exact E5| |]; cbn.
  - destruct (p_cron p), (p_interval_seconds p); try (by eapply checked_cadence_ok). injection E3 as <-. apply (v_cadence _ Hv).
  - destruct (p_warning_steps p); [by eapply steps_of_ok|]. injection E4 as <-. apply (v_steps _ Hv).
Qed.

(** Writing an edit over the row it was read from. *)
Lemma update_effect now s row existing d r d' :
  keyed d -> d.(schedules) !! s.(id) = Some row -> _to_schedule row = Ok existing -> later now s ->
  s.(server_id) = existing.(server_id) -> s.(created_at) = existing.(created_at) -> s.(created_by) = existing.(created_by) ->
  update s d = (r, d') ->
  keyed d' /\ tables_move now d d' /\ d'.(servers) = d.(servers)
  /\ (r = Ok tt -> d'.(schedules) = <[s.(id) := to_row s]> d.(schedules)).
Proof.
  intros Hk Hrow Hload Hl Hsrv Hca Hcb. unfold update, try_modify. rewrite Hrow.
  pose proof (to_schedule_ok row existing Hload) as (_ & Hid & Hs & _ & _ & _ & _ & Hb & Ha & _).
  assert (updated_row s row = to_row s) as ->.
  { unfold updated_row, to_row. pose proof (Hk _ _ Hrow). f_equal; congruence. }
  assert (Hsame : keyed d /\ tables_move now d d) by (split; [done|apply tables_refl]).
  destruct (row_fits d (to_row s)) as [u|e]; cbn; intros [= <- <-]; [|naive_solver].
  destruct (tables_insert now d s.(id) (to_row s) Hk eq_refl) as [Hk' Hm'].
  { eapply moves_to_row; [|exact Hl]. apply schedule_row_roundtrip, Hl. }
  split_and!; done.
Qed.

Lemma update_request_effect now c srv i p d r d' :
  keyed d -> UpdateSchedule authorize now c srv i p d = (r, d') ->
  keyed d' /\ tables_move now d d' /\ d'.(servers) = d.(servers).
Proof.
  intros Hk Hc. assert (Hsame : keyed d /\ tables_move now d d) by (split; [done|apply tables_refl]).
  unfold UpdateSchedule in Hc. peel Hc E1; [|naive_solver]. rewrite uow_write_commit in Hc.
  destruct (plan_ok _ _ _ _ _ _ _ E1) as (row & existing & Hrow & Hload & Hl & Hid & Hs & Hca & Hcb & _).
  pose proof (to_schedule_ok row existing Hload) as (_ & Hrid & _). pose proof (Hk _ _ Hrow) as Hkey.
  destruct (update a d) as [r' d1] eqn:Eu.
  pose proof (update_effect now a row existing d r' d1 Hk ltac:(congruence) Hload Hl Hs Hca Hcb Eu) as (? & ? & ? & _).
  destruct r'; injection Hc as <- <-; naive_solver.
Qed.

Lemma delete_effect now c srv i d r d' :
  keyed d -> DeleteSchedule authorize c srv i d = (r, d') ->
  keyed d' /\ tables_move now d d' /\ d'.(servers) = d.(servers).
Proof.
  intros Hk Hc. assert (Hsame : keyed d /\ tables_move now d d) by (split; [done|apply tables_refl]).
  unfold DeleteSchedule in Hc. peel Hc E1; [|naive_solver]. peel Hc E2; [|naive_solver].
  unfold uow, on, commit, mbind, M_bind, delete_schedule, modify in Hc. cbn in Hc. injection Hc as <- <-. cbn. split_and!; [| |done].
  - intros k row. cbn. rewrite lookup_delete_Some. intros [_ Hr]. by apply Hk.
  - intros k. cbn. destruct (decide (i = k)) as [->|Hne]; [by rewrite lookup_delete_eq|].
    rewrite lookup_delete_ne by done. apply moves_refl.
Qed.

(** ** The runner's transactions *)

Lemma quarantine_moves now ids d d' :
  keyed d -> (forall row, row.(m_id) ∈ ids -> d.(schedules) !! row.(m_id) = Some row -> ~ loadable row) ->
  _quarantine ids d = (Ok tt, d') -> keyed d' /\ tables_move now d d' /\ d'.(servers) = d.(servers).
Proof.
  intros Hk Hbad. unfold _quarantine, modify. intros [= <-]. split_and!; [| |done].
  - intros k row. cbn. rewrite lookup_fmap_Some. intros (row0 & <- & Hr). case_match; cbn; by apply Hk.
  - intros k. cbn. rewrite lookup_fmap. destruct (schedules d !! k) as [row|] eqn:Hr; cbn; [|done].
    case_match eqn:Hq; [|apply (moves_refl now (Some row))]. apply andb_prop in Hq as [Hin%bool_decide_eq_true _]. split.
    + right. exists row. split; [done|]. apply Hbad; [done|]. by rewrite (Hk _ _ Hr).
    + by unfold armed_at.
Qed.

Lemma safe_hydrate_spec rows found failed : _safe_hydrate rows = (found, failed) ->
  (forall s, s ∈ found -> exists row, row ∈ rows /\ _to_schedule row = Ok s)
  /\ (forall i, i ∈ failed -> exists row, row ∈ rows /\ row.(m_id) = i /\ ~ loadable row)
  /\ (NoDup (map m_id rows) -> NoDup (map id found)).
Proof.
  revert found failed. induction rows as [|row rows IH]; intros found failed; cbn.
  - intros [= <- <-]. split_and!; [by intros s ?%not_elem_of_nil|by intros i ?%not_elem_of_nil|intros; constructor].
  - destruct (_safe_hydrate rows) as [ok bad]. destruct (IH ok bad eq_refl) as (H1 & H2 & H3).
    destruct (_to_schedule row) as [s|e] eqn:E; intros [= <- <-]; split_and!.
    + intros s' [->|Hs]%elem_of_cons; [exists row; set_solver|]. destruct (H1 s' Hs) as (r & ? & ?). exists r. set_solver.
    + intros i Hi. destruct (H2 i Hi) as (r & ? & ?). exists r. set_solver.
    + cbn. rewrite !NoDup_cons. intros [Hn Hd]. split; [|by apply H3]. intros Hin. apply Hn.
      apply list_elem_of_fmap in Hin as (s' & Heq & Hs'). destruct (H1 s' Hs') as (r & Hr & Hload).
      apply to_schedule_ok in E as (_ & Hid & _). apply to_schedule_ok in Hload as (_ & Hid' & _).
      apply list_elem_of_fmap. exists r. split; [congruence|done].
    + intros s' Hs. destruct (H1 s' Hs) as (r & ? & ?). exists r. set_solver.
    + intros i [->|Hi]%elem_of_cons.
      * exists row. split_and!; [set_solver|done|]. unfold loadable, loaded. rewrite E. by intros [].
      * destruct (H2 i Hi) as (r & ? & ?). exists r. set_solver.
    + cbn. rewrite NoDup_cons. intros [_ Hd]. by apply H3.
Qed.

Lemma elem_of_rows_where p d row : row ∈ rows_where p d <-> (exists k, d.(schedules) !! k = Some row) /\ p row = true.
Proof.
  unfold rows_where. rewrite merge_sort_Permutation, elem_of_filter_bool. apply and_iff_compat_r. split.
  - intros ([k row'] & -> & Hk%elem_of_map_to_list)%list_elem_of_fmap. by exists k.
  - intros [k Hk]. apply list_elem_of_fmap. exists (k, row). split; [done|by apply elem_of_map_to_list].
Qed.

Lemma nodup_rows_where p d : keyed d -> NoDup (map m_id (rows_where p d)).
Proof.
  intros Hk. unfold rows_where.
  assert (Hp : map m_id (merge_sort due_order (List.filter p (map snd (map_to_list d.(schedules)))))
    ≡ₚ map m_id (List.filter p (map snd (map_to_list d.(schedules))))) by (apply fmap_Permutation, merge_sort_Permutation).
  rewrite Hp. clear Hp. eapply sublist_NoDup; [apply (NoDup_fst_map_to_list d.(schedules))|].
  assert (Hall : Forall (fun kv : uuid * ScheduleModel => kv.2.(m_id) = kv.1) (map_to_list d.(schedules))).
  { apply Forall_forall. intros [k row] Hin%elem_of_map_to_list. by apply Hk. }
  induction Hall as [|[k row] l Hkv _ IH]; [constructor|]. cbn in *. case_match; cbn; [rewrite Hkv|]; by constructor.
Qed.

Lemma polled_effect now p d r d' :
  keyed d -> uow (found ← on (polled p); _ ← commit; mret found) d = (r, d') ->
  keyed d' /\ tables_move now d d' /\ d'.(servers) = d.(servers)
  /\ exists found, r = Ok found /\ NoDup (map id found)
     /\ forall s, s ∈ found -> exists row, d.(schedules) !! s.(id) = Some row /\ p row = true /\ _to_schedule row = Ok s.
Proof.
  intros Hk. unfold uow, on, commit, polled, gets, mbind, M_bind, mret, M_ret. cbn.
  destruct (_safe_hydrate (rows_where p d)) as [found failed] eqn:E.
  destruct (safe_hydrate_spec _ _ _ E) as (Hf & Hb & Hnd).
  assert (Hfound : NoDup (map id found) /\ forall s, s ∈ found -> exists row,
    d.(schedules) !! s.(id) = Some row /\ p row = true /\ _to_schedule row = Ok s).
  { split; [by apply Hnd, nodup_rows_where|]. intros s Hs. destruct (Hf s Hs) as (row & Hrow & Hload).
    apply elem_of_rows_where in Hrow as [[k Hkr] Hp]. exists row.
    pose proof (to_schedule_ok row s Hload) as (_ & Hid & _). pose proof (Hk _ _ Hkr). subst k. by rewrite Hid. }
  destruct failed as [|i failed].
  - intros [= <- <-]. cbn. split_and!; [done|apply tables_refl|done|]. by exists found.
  - destruct (_quarantine (i :: failed) d) as [r1 d1] eqn:Eq.
    assert (r1 = Ok tt) as -> by (by unfold _quarantine, modify in Eq; injection Eq as <- <-).
    intros [= <- <-]. cbn.
    destruct (quarantine_moves now (i :: failed) d d1 Hk) as (? & ? & ?); [|done|].
    + intros row Hin Hrow. destruct (Hb _ Hin) as (row' & Hr' & Hid & Hn).
      apply elem_of_rows_where in Hr' as [[k Hkr] _]. pose proof (Hk _ _ Hkr). congruence.
    + split_and!; [done|done|done|]. by exists found.
Qed.

(** A row that loads still does when its run is advanced. *)
Lemma advanced_loads next last row :
  loadable row -> row.(m_enabled) = true -> loadable (advanced_row next last row).
Proof.
  unfold loadable, loaded. intros [s0 Hs] He. destruct (_to_schedule row) as [s|] eqn:Hload; [|done]. clear Hs s0.
  revert Hload. unfold _to_schedule. intros (c & Hc & Hrest)%bind_ok. apply bind_ok in Hrest as (line & Hline & Hrest).
  apply bind_ok in Hrest as (steps & Hst & Hrest). apply bind_ok in Hrest as (flag & Hflag & Hmake).
  cbn [advanced_row m_cron m_interval_seconds m_payload m_id m_server_id m_name m_action m_enabled
    m_created_at m_updated_at m_timezone m_next_run_at m_last_run_at m_created_by].
  revert Hline Hst Hflag. generalize (get "command" (m_payload row) ≫= as_str), (_warning_steps (m_payload row)),
    (get "only_when_running" (m_payload row) ≫= as_bool). intros rl rs rf -> -> ->. rewrite Hc. cbn -[make_schedule].
  revert Hmake. unfold make_schedule, _validate_payload. cbn. rewrite He. cbn.
  intros (u1 & H1 & Hrest)%bind_ok. apply bind_ok in Hrest as (u2 & H2 & Hrest). rewrite H1. cbn. rewrite H2. cbn.
  apply bind_ok in Hrest as (f & Hf & _). rewrite Hf. by eexists.
Qed.

(** A record that commits advances its schedule, or finds it armed for another time. *)
Lemma record_effect now s run adv last t d r d' :
  keyed d -> valid s -> s.(next_run_at) = Some t -> uow (record_run now s run adv last) d = (r, d') ->
  keyed d' /\ tables_move now d d' /\ d'.(servers) = d.(servers)
  /\ (r = Ok false -> d' = d /\ d.(schedules) !! s.(id) ≫= loaded = None)
  /\ (r = Ok true -> adv = true -> forall row' t', d'.(schedules) !! s.(id) = Some row' -> armed_at row' = Some t' ->
       now < t' \/ (t' <> t /\ exists row, d.(schedules) !! s.(id) = Some row /\ armed_at row = Some t')).
Proof.
  intros Hk Hv Hn Hr. assert (Hsame : keyed d /\ tables_move now d d) by (split; [done|apply tables_refl]).
  unfold record_run in Hr. peel Hr E1; [|naive_solver].
  assert (Ea : a = d.(schedules) !! s.(id) ≫= loaded) by (by injection E1 as <-).
  destruct a as [cur|]; [|injection Hr as <- <-; naive_solver].
  unfold uow, on, commit, mbind, M_bind in Hr. cbn in Hr.
  destruct (add_run run d) as [[u|e] d1] eqn:E2; cbn in Hr; [|injection Hr as <- <-; naive_solver].
  assert (Hd1 : d1.(schedules) = d.(schedules) /\ d1.(servers) = d.(servers)).
  { unfold add_run, try_modify in E2. destruct (_ ≫= _) as [d2|] eqn:E3 in E2; [|done]. injection E2 as _ <-.
    apply bind_ok in E3 as (? & _ & E3). apply bind_ok in E3 as (? & _ & [= <-]). done. }
  assert (Hload : forall row, d.(schedules) !! s.(id) = Some row -> loadable row).
  { intros row Hrow. rewrite Hrow in Ea. cbn in Ea. by exists cur. }
  destruct Hd1 as [Hs1 Hv1]. destruct adv; cbn in Hr.
  2:{ injection Hr as <- <-. cbn. split_and!; [by unfold keyed; cbn; rewrite Hs1| |done|done|done].
      intros i. cbn. rewrite Hs1. apply moves_refl. }
  unfold _advance in Hr. rewrite Hn in Hr. cbn in Hr.
  destruct (_next_run_at s now) as [next|e] eqn:E3; cbn in Hr; [|injection Hr as <- <-; naive_solver].
  assert (Hlt : now < next).
  { eapply next_run_later; [|exact E3]. intros n Hni. pose proof (valid_interval s n Hv Hni). lia. }
  injection Hr as <- <-. cbn. rewrite Hs1.
  destruct (d.(schedules) !! s.(id)) as [row|] eqn:Hrow; cbn.
  2:{ split_and!; [by unfold keyed; cbn; rewrite Hs1| |done|done|]; [|intros _ _ row'; rewrite Hs1; congruence].
      intros i. cbn. rewrite Hs1. apply moves_refl. }
  destruct (m_enabled row && bool_decide (m_next_run_at row = Some t)) eqn:Hcas; cbn.
  - apply andb_prop in Hcas as [He _].
    assert (Hm : moves now (d.(schedules) !! s.(id)) (Some (advanced_row next last row))).
    { split; [left; apply advanced_loads; [by apply Hload|done]|].
      intros t'. unfold armed_at. cbn. rewrite He. intros [= <-]. by left. }
    destruct (tables_insert now d s.(id) (advanced_row next last row) Hk (Hk _ _ Hrow) Hm) as [Hk' Hm'].
    split_and!; [by unfold keyed in *; cbn in *|by intros i; specialize (Hm' i)|done|done|].
    intros _ _ row' t'. rewrite lookup_insert_eq. intros [= <-]. unfold armed_at. cbn. rewrite He. intros [= <-]. by left.
  - split_and!; [by unfold keyed; cbn; rewrite Hs1| |done|done|].
    + intros i. cbn. rewrite Hs1. apply moves_refl.
    + intros _ _ row' t'. rewrite Hs1, Hrow. intros [= <-] Hat. right. split; [|by exists row].
      intros ->. unfold armed_at in Hat. destruct (m_enabled row); [|done]. cbn in Hcas. by apply bool_decide_eq_false in Hcas.
Qed.

(** A record that does not advance leaves the table alone. *)
Lemma record_only_effect now s run last d r d' :
  uow (record_run now s run false last) d = (r, d') -> d'.(schedules) = d.(schedules) /\ d'.(servers) = d.(servers).
Proof.
  unfold record_run. intros Hr. peel Hr E1; [|done]. destruct a as [cur|]; [|by injection Hr as <- <-].
  unfold uow, on, commit, mbind, M_bind in Hr. cbn in Hr.
  destruct (add_run run d) as [[u|e] d1] eqn:E2; cbn in Hr; injection Hr as <- <-; [|done]. cbn.
  unfold add_run, try_modify in E2. destruct (_ ≫= _) as [d2|] eqn:E3 in E2; [|done]. injection E2 as _ <-.
  apply bind_ok in E3 as (? & _ & E3). apply bind_ok in E3 as (? & _ & [= <-]). done.
Qed.
End effects.
