(* ===== verification/ScheduleSystem.v ===== *)
(** * The scheduler and its surroundings

    The steps of a process that runs the scheduler ([ScheduleRunner]) among requests
    that create, edit and delete schedules ([Schedules]) and servers that change, and
    the theorem that an occurrence is dispatched once. *)
From Stdlib Require Import ZArith NArith Lia String Ascii.
From stdpp Require Import base gmap strings list sorting.
From S2P Require Import Prelude Uow Uuid Calendar Program Text VersionRange ServerRow Schedule ScheduleStore Schedules ScheduleRunner ScheduleRows ScheduleMoves.

#[local] Open Scope Z_scope.

Section system.
Context `{Unicode} `{Engine}.

(** ** One event *)

Record world := { store : db; mem : memory; held : bool }.

(** A failure of the database's connection, or the task's cancellation. *)
Definition fault (e : exn) : Prop := e = Failed \/ e = Cancelled.

(** What an event does at an instant, and what it answers.  A transaction may fail
    after its commit landed; a use case the runner calls answers anything, and what it
    does to the servers is a step of its own. *)
Definition exec (now : datetime) (w w' : world) {T} (ev : event T) : result exn T -> Prop :=
  match ev in event T return result exn T -> Prop with
  | Now => fun r => r = Ok now /\ w' = w
  | FreshId => fun r => (exists u, r = Ok u) /\ w' = w
  | Tx t => fun r =>
      w'.(mem) = w.(mem) /\ w'.(held) = w.(held)
      /\ ((r, w'.(store)) = txn_do now t w.(store)
          \/ (exists e, r = Err e /\ fault e) /\ (w'.(store) = w.(store) \/ w'.(store) = (txn_do now t w.(store)).2))
  | Mem op => fun r =>
      w'.(store) = w.(store) /\ w'.(held) = w.(held) /\ r = Ok (mem_do op w.(mem)).1 /\ w'.(mem) = (mem_do op w.(mem)).2
  | Dispatch _ _ _ => fun _ => w' = w
  | SendCommand _ _ _ => fun _ => w' = w
  | PruneBackups _ _ => fun _ => w' = w
  | Audit _ _ => fun _ => w' = w
  | Acquire => fun r =>
      w'.(store) = w.(store) /\ w'.(mem) = w.(mem)
      /\ ((w.(held) = false /\ w'.(held) = true /\ r = Ok tt) \/ (w'.(held) = w.(held) /\ r = Err Cancelled))
  | Release => fun r => w'.(store) = w.(store) /\ w'.(mem) = w.(mem) /\ w'.(held) = false /\ r = Ok tt
  end.

(** ** What a group of the pass is at *)

(** Between occurrences; having claimed one; having dispatched one not yet recorded. *)
Inductive gstate := Free | Claimed (i : uuid) (t : datetime) | Out (i : uuid) (t : datetime).

Inductive entry := Dispatched (i : uuid) (t : datetime) | Lost (i : uuid) (t : datetime).
#[export] Instance entry_eq_dec : EqDecision entry.
Proof. solve_decision. Defined.

Definition armed_schedule (s : Schedule) : option datetime := if s.(enabled) then s.(next_run_at) else None.

Definition let_go {A} (q : gstate) (r : result exn A) : gstate :=
  match r, q with Err _, Out _ _ => Free | _, _ => q end.

(** The state after a transaction, and after an event; an exception gives an
    unrecorded dispatch up. *)
Definition gnext_tx {T} (q : gstate) (t : txn T) : result exn T -> gstate :=
  match t in txn T return result exn T -> gstate with
  | Claim i => fun r =>
      match r with
      | Ok (Some cur) => match armed_schedule cur with Some t => Claimed i t | None => Free end
      | Ok None => Free
      | Err _ => let_go q r
      end
  | RecordRun _ _ _ _ => fun _ => Free
  | _ => let_go q
  end.

Definition gnext {T} (q : gstate) (ev : event T) : result exn T -> gstate :=
  match ev in event T return result exn T -> gstate with
  | Tx t => gnext_tx q t
  | Dispatch _ _ _ => fun r =>
      match q, r with
      | Claimed i t, Ok _ => Out i t
      | Claimed _ _, Err _ => Free
      | _, _ => let_go q r
      end
  | _ => let_go q
  end.

(** What goes to the log: a dispatch, and one whose record did not commit. *)
Definition glog {T} (q : gstate) (ev : event T) : result exn T -> list entry :=
  match ev in event T return result exn T -> list entry with
  | Dispatch _ _ _ => fun r =>
      match q, r with
      | Claimed i t, Ok _ => [Dispatched i t]
      | Claimed i t, Err _ => [Dispatched i t; Lost i t]
      | _, _ => []
      end
  | _ => fun r => match r, q with Err _, Out i t => [Lost i t] | _, _ => [] end
  end.

(** What a group of the pass that began at [limit] may do next. *)
Definition gok (ids : gset uuid) (limit : datetime) {T} (q : gstate) (ev : event T) : Prop :=
  match ev with
  | Tx (Claim i) => i ∈ ids /\ match q with Out _ _ => False | _ => True end
  | Dispatch _ _ _ => exists i t, q = Claimed i t /\ t <= limit
  | Tx (RecordRun s _ adv _) =>
      valid s /\ exists t, s.(next_run_at) = Some t /\ match q with Out i t' => s.(id) = i /\ t = t' /\ adv = true | _ => True end
  | _ => True
  end.

Definition settled (q : gstate) : Prop := match q with Out _ _ => False | _ => True end.

Definition any_reply (T : Type) (ev : event T) (r : result exn T) : Prop := True.

Abbreviation gsafe ids limit p q post :=
  (safe any_reply (fun T => @gok ids limit T) (fun T => @gnext T) p q post).

(** ** A group of the pass *)

Section group.
Context (ids : gset uuid) (limit : datetime).

#[local] Notation okay p q post :=
  (safe any_reply (fun T => @gok ids limit T) (fun T => @gnext T) p q post).

Lemma let_go_settled {A} q (e : exn) : settled (let_go (A := A) q (Err e)).
Proof. by destruct q. Qed.

Lemma let_go_ok {A} q (a : A) : let_go q (Ok a) = q.
Proof. done. Qed.

(** Events that do not concern an occurrence. *)
Definition quiet {T} (ev : event T) : Prop := forall q, gok ids limit q ev /\ gnext q ev = let_go q.

Lemma okay_quiet {A T} (ev : event T) (f : T -> coroutine A) q (post : result exn A -> gstate -> Prop) :
  quiet ev -> (forall x, okay (f x) q post) -> (forall e q', settled q' -> post (Err e) q') -> okay (call ev ≫= f) q post.
Proof.
  intros Hq Hf He. destruct (Hq q) as [Hok Hn]. apply safe_bind, safe_call; [done|].
  intros [x|e] _; rewrite Hn; [apply Hf|apply He, let_go_settled].
Qed.

(** Coroutines that leave no dispatch behind them, begun without one. *)
Definition calm {A} (p : coroutine A) : Prop := forall q, settled q -> okay p q (fun _ q' => settled q').

Lemma calm_ret {A} (a : A) : calm (Ret a).
Proof. by intros q. Qed.
Lemma calm_raise {A} e : calm (Raise (A := A) e).
Proof. by intros q. Qed.
Lemma calm_call {T} (ev : event T) : quiet ev -> calm (call ev).
Proof.
  intros Hq q Hs. destruct (Hq q) as [Hok Hn]. apply safe_call; [done|]. intros [x|e] _; rewrite Hn; [done|apply let_go_settled].
Qed.
Lemma calm_bind {A B} (p : coroutine A) (f : A -> coroutine B) : calm p -> (forall a, calm (f a)) -> calm (p ≫= f).
Proof.
  intros Hp Hf q Hs. apply safe_bind. eapply safe_mono; [by apply Hp|]. intros [a|e] q' Hq'; [by apply Hf|done].
Qed.
Lemma calm_log (p : coroutine unit) : calm p -> calm (except_log p).
Proof.
  intros Hp q Hs. apply safe_try. eapply safe_mono; [by apply Hp|]. intros [a|e] q' Hq'; [done|].
  destruct e; done.
Qed.
Lemma okay_locked {A} (p : coroutine A) q (post : result exn A -> gstate -> Prop) :
  okay p q post -> (forall e q', settled q' -> post (Err e) q') -> okay (locked p) q post.
Proof.
  intros Hp He. unfold locked. apply okay_quiet; [by intros q'|intros _|done]. apply safe_finally.
  eapply safe_mono; [exact Hp|]. intros r q' Hr. apply safe_call; [done|].
  intros [[]|e] _; cbn; [done|]. apply He. by destruct q'.
Qed.
Lemma calm_locked {A} (p : coroutine A) : calm p -> calm (locked p).
Proof. intros Hp q Hs. apply okay_locked; [by apply Hp|done]. Qed.

Lemma record_okay s r st fi adv last q t :
  valid s -> s.(next_run_at) = Some t ->
  match q with Out i t' => s.(id) = i /\ t = t' /\ adv = true | _ => True end ->
  okay (_record s r st fi adv last) q (fun _ q' => settled q').
Proof.
  intros Hv Hn Hq. unfold _record. apply okay_quiet; [by intros q'|intros fresh|done].
  apply safe_bind, safe_call; [split; [done|by exists t]|]. intros [recorded|e] _; [|done]. cbn [gnext gnext_tx].
  assert (Hrest : calm (_ ← match r.(r_outcome) with
      | SKIPPED => Ret tt
      | o => _ ← call (Audit s.(id) o); call (Mem (NotifyOutcome s.(id) o))
      end;
    _ ← (if recorded : bool then Ret tt else call (Mem (Forget s.(id))));
    Ret recorded)); [|by apply Hrest].
  apply calm_bind.
  - destruct (r_outcome r); [| |apply calm_ret]; (apply calm_bind; [by apply calm_call|intros _; by apply calm_call]).
  - intros _. apply calm_bind; [|intros; apply calm_ret]. destruct recorded; [apply calm_ret|by apply calm_call].
Qed.

Lemma claim_okay i q : i ∈ ids -> settled q ->
  okay (_claim i) q (fun r q' => settled q' /\
    match r with Ok (Some cur) => forall t, armed_schedule cur = Some t -> q' = Claimed i t | _ => True end).
Proof.
  intros Hi Hs. unfold _claim. apply safe_bind, safe_call; [split; [done|by destruct q]|].
  intros [[cur|]|e] _; cbn -[armed_schedule].
  - destruct (armed_schedule cur) as [t|]; split; try done. by intros t' [= ->].
  - split; [done|]. by intros [].
  - split; [|done]. by destruct q.
Qed.

Lemma execute_okay s i t : t <= limit ->
  okay (_execute s) (Claimed i t) (fun r q' =>
    match r with Ok _ => q' = Claimed i t \/ q' = Out i t | Err _ => settled q' end).
Proof.
  intros Hlt. unfold _execute. apply okay_quiet; [by intros q'|intros started|done].
  assert (Hend : forall q r, q = Claimed i t \/ q = Out i t ->
    okay (finished ← call Now; Ret (r : ActionResult, started, finished)) q (fun r q' =>
      match r with Ok _ => q' = Claimed i t \/ q' = Out i t | Err _ => settled q' end)).
  { intros q r Hq. apply okay_quiet; [by intros q'|by intros finished|done]. }
  apply safe_bind. unfold ExecuteScheduleAction. apply okay_quiet; [by intros q'|intros found|done].
  destruct found as [row|]; [|by apply Hend; left]. destruct (_precondition_skip _ _ _); [by apply Hend; left|].
  apply safe_bind, safe_call; [by exists i, t|]. intros [e|e] _; cbn [gnext]; [by apply Hend; right|done].
Qed.

(** One due schedule: whatever the rest of the system answers, what is dispatched was
    claimed while due, and is recorded or given up before the group goes on. *)
Lemma run_due_okay s now prev q t :
  valid s -> s.(next_run_at) = Some t -> t <= limit -> s.(id) ∈ ids -> settled q ->
  okay (_run_due s now prev) q (fun _ q' => settled q').
Proof.
  intros Hv Hn Hlt Hi Hs. unfold _run_due. destruct (_ && _).
  - apply okay_quiet; [by intros q'|intros stale_now|done]. apply safe_bind, okay_locked; [|done].
    eapply safe_mono; [eapply record_okay; [done|exact Hn|by destruct q]|]. by intros [b|e] q' Hq'.
  - apply safe_bind, okay_locked; [|done]. eapply safe_mono; [by apply claim_okay|].
    intros [[cur|]|e] q' [Hq' Hc]; [|done..]. destruct (still_due s cur) eqn:Hd; cbn [negb]; [|done].
    unfold still_due in Hd. apply andb_prop in Hd as [He Hcur%bool_decide_eq_true].
    rewrite (Hc t) by (unfold armed_schedule; rewrite He; congruence).
    apply safe_bind. eapply safe_mono; [by apply execute_okay|]. intros [[[r st] fi]|e] q2 Hq2; [|done].
    apply safe_bind, okay_locked; [|done].
    eapply safe_mono; [eapply (record_okay s r st fi true _ q2 t Hv Hn)|].
    + destruct Hq2 as [-> | ->]; done.
    + intros [b|e] q3 Hq3; [|done].
      assert (Hrest : calm (_ ← (if b && bool_decide (s.(action) = BACKUP)
               then call (Mem (RescheduleRetry s.(id) r fi)) else Ret tt);
          locked (_prune_after_backup s r))); [|by apply Hrest].
      apply calm_bind; [destruct (b && _); [by apply calm_call|apply calm_ret]|]. intros _. apply calm_locked.
      unfold _prune_after_backup. destruct (action s), (r_outcome r), (r_community_id r); try apply calm_ret.
      by apply calm_log, calm_call.
Qed.
End group.

Lemma group_okay ids limit l now prev q :
  (forall s, s ∈ l -> valid s /\ s.(id) ∈ ids /\ exists t, s.(next_run_at) = Some t /\ t <= limit) -> settled q ->
  safe any_reply (fun T => @gok ids limit T) (fun T => @gnext T) (_run_server_group l now prev) q (fun _ q' => settled q').
Proof.
  revert q. induction l as [|s l IH]; intros q Hl Hs; [done|]. cbn [_run_server_group].
  destruct (Hl s) as (Hv & Hi & t & Hn & Hlt); [set_solver|]. apply safe_bind, safe_try.
  eapply safe_mono; [by eapply run_due_okay|].
  intros [[]|e] q' Hq'; [apply IH; set_solver|]. destruct e; try (apply IH; set_solver). done.
Qed.

(** ** After the groups *)

(** Only the groups advance a schedule. *)
Definition eok {T} (ev : event T) : Prop :=
  match ev with Tx (RecordRun _ _ adv _) => adv = false | _ => True end.

Definition unmonitored {T} (q : unit) (ev : event T) (r : result exn T) : unit := tt.

Definition fine {A} (p : coroutine A) : Prop :=
  safe any_reply (fun T _ => @eok T) (fun T => @unmonitored T) p tt (fun _ _ => True).

Lemma fine_call {T} (ev : event T) : eok ev -> fine (call ev).
Proof. intros He. by apply safe_call. Qed.
Lemma fine_bind {A B} (p : coroutine A) (f : A -> coroutine B) : fine p -> (forall a, fine (f a)) -> fine (p ≫= f).
Proof. intros Hp Hf. apply safe_bind. eapply safe_mono; [exact Hp|]. intros [a|e] [] _; [apply Hf|done]. Qed.
Lemma fine_log (p : coroutine unit) : fine p -> fine (except_log p).
Proof. intros Hp. apply safe_try. eapply safe_mono; [exact Hp|]. intros [a|e] [] _; [done|by destruct e]. Qed.

Lemma fine_execute s : fine (_execute s).
Proof.
  apply fine_bind; [by apply fine_call|]. intros started. apply fine_bind; [|intros; apply fine_bind; [by apply fine_call|done]].
  apply fine_bind; [by apply fine_call|]. intros [row|]; [|done]. destruct (_precondition_skip _ _ _); [done|].
  apply fine_bind; [by apply fine_call|done].
Qed.

Lemma fine_record s r st fi last : fine (_record s r st fi false last).
Proof.
  apply fine_bind; [by apply fine_call|]. intros u. apply fine_bind; [by apply fine_call|]. intros b.
  apply fine_bind; [destruct (r_outcome r); [| |done]; (apply fine_bind; [by apply fine_call|intros; by apply fine_call])|].
  intros _. apply fine_bind; [destruct b; [done|by apply fine_call]|done].
Qed.

Lemma fine_retry i : fine (_run_retry i).
Proof.
  apply fine_bind; [by apply fine_call|]. intros _. apply fine_bind.
  { apply fine_bind; [by apply fine_call|]. intros [s|]; [done|]. apply fine_bind; [by apply fine_call|done]. }
  intros [s|]; [|done]. destruct (_ || _); [done|]. apply fine_bind; [apply fine_execute|]. intros [[r st] fi].
  apply fine_bind; [apply fine_record|]. intros _. unfold _prune_after_backup.
  destruct (action s), (r_outcome r), (r_community_id r); try done. by apply fine_log, fine_call.
Qed.

Lemma fine_retries l handled now : fine (run_retries l handled now).
Proof.
  induction l as [|[i t] l IH]; [done|]. apply fine_bind; [|done]. destruct (_ || _); [done|]. apply fine_log, fine_retry.
Qed.

Lemma fine_due_steps s o now grace steps : fine (due_steps s o now grace steps).
Proof.
  induction steps as [|step steps IH]; [done|]. cbn [due_steps]. apply fine_bind; [by apply fine_call|]. intros [|]; [done|].
  destruct (_ <? _); [done|]. destruct (_ <? _).
  - apply fine_bind; [by apply fine_call|done].
  - apply fine_bind; [done|]. done.
Qed.

Lemma fine_broadcast c srv steps : fine (broadcast c srv steps).
Proof.
  induction steps as [|step steps IH]; [done|]. apply fine_bind; [by apply fine_call|]. intros [e|]; [|done].
  by destruct (is_ServerError e).
Qed.

Lemma fine_warnings now grace : fine (_send_warnings now grace).
Proof.
  apply fine_bind; [by apply fine_call|]. intros _. apply fine_bind; [by apply fine_call|]. intros l.
  induction l as [|s l IH]; [done|]. apply fine_bind; [|done]. apply fine_log. unfold _warn_schedule.
  destruct (next_run_at s) as [o|]; [|done]. apply fine_bind; [apply fine_due_steps|]. intros [|step due]; [done|].
  apply fine_bind; [by apply fine_call|]. intros srv. apply fine_bind; [by apply fine_call|]. intros _.
  destruct srv as [row|]; [|done]. destruct (_is_running row); [apply fine_broadcast|done].
Qed.

Lemma fine_end now handled grace : fine (tick_end now handled grace).
Proof.
  apply fine_bind; [by apply fine_call|]. intros l. apply fine_bind; [apply fine_retries|]. intros _. apply fine_warnings.
Qed.

(** ** Steps *)

Record group := { g_prog : coroutine unit; g_state : gstate; g_ids : gset uuid }.

(** Where the scheduler's loop is. *)
Inductive stage :=
| Idle
| Polling (now : datetime) (prev : option datetime)
| Groups (now : datetime) (handled : gset uuid) (gs : list group)
| Ending (p : coroutine unit).

Record sys := mkSys { clock : datetime; world_ : world; stage_ : stage; log : list entry }.

Definition set_store (d : db) (w : world) : world := {| store := d; mem := w.(mem); held := w.(held) |}.
Definition set_mem (m : memory) (w : world) : world := {| store := w.(store); mem := m; held := w.(held) |}.

(** A request of [Schedules], at the instant its clock reads. *)
Inductive request (now : datetime) (d : db) : db -> Prop :=
| request_create authorize fresh c srv n : request now d (CreateSchedule authorize now fresh c srv n d).2
| request_update authorize c srv i p : request now d (UpdateSchedule authorize now c srv i p d).2
| request_delete authorize c srv i : request now d (DeleteSchedule authorize c srv i d).2.

(** Servers come, change and go, a deleted one with its schedules. *)
Definition servers_change (d d' : db) : Prop :=
  forall i, d'.(schedules) !! i = d.(schedules) !! i \/ d'.(schedules) !! i = None.

Definition set_of (l : list Schedule) : gset uuid := list_to_set (map id l).

Definition fork (due : list Schedule) (now : datetime) (prev : option datetime) : list group :=
  map (fun g => {| g_prog := _run_server_group g.2 now prev; g_state := Free; g_ids := set_of g.2 |}) (group_by_server due).

(** What an interrupted pass gives up. *)
Definition abandoned (st : stage) : list entry :=
  match st with
  | Groups _ _ gs => omap (fun g => match g.(g_state) with Out i t => Some (Lost i t) | _ => None end) gs
  | _ => []
  end.

Definition returned {A} (p : coroutine A) : Prop := exists a, p = Ret a.

Context (grace : timedelta).

Inductive step : sys -> sys -> Prop :=
| step_clock t t' w st lg : t <= t' -> step (mkSys t w st lg) (mkSys t' w st lg)
| step_request t w st lg d' :
    request t w.(store) d' -> step (mkSys t w st lg) (mkSys t (set_store d' w) st lg)
| step_servers t w st lg d' :
    servers_change w.(store) d' -> step (mkSys t w st lg) (mkSys t (set_store d' w) st lg)
| step_begin t w lg :
    step (mkSys t w Idle lg)
      (mkSys t (set_mem (mem_do (BeginTick t) w.(mem)).2 w) (Polling t (mem_do (BeginTick t) w.(mem)).1) lg)
| step_poll t w now prev lg w' due :
    exec t w w' (Tx (PollDue now)) (Ok due) ->
    step (mkSys t w (Polling now prev) lg) (mkSys t w' (Groups now (set_of due) (fork due now prev)) lg)
| step_group t w now handled gs1 g gs2 lg T (ev : event T) k w' r :
    g.(g_prog) = Vis ev k -> exec t w w' ev r ->
    step (mkSys t w (Groups now handled (gs1 ++ g :: gs2)) lg)
      (mkSys t w' (Groups now handled
         (gs1 ++ {| g_prog := k r; g_state := gnext g.(g_state) ev r; g_ids := g.(g_ids) |} :: gs2))
         (lg ++ glog g.(g_state) ev r))
| step_join t w now handled gs lg :
    Forall (fun g => returned g.(g_prog)) gs ->
    step (mkSys t w (Groups now handled gs) lg) (mkSys t w (Ending (tick_end now handled grace)) lg)
| step_ending t w T (ev : event T) k w' r lg :
    exec t w w' ev r -> step (mkSys t w (Ending (Vis ev k)) lg) (mkSys t w' (Ending (k r)) lg)
| step_done t w lg : step (mkSys t w (Ending (Ret tt)) lg) (mkSys t w Idle lg)
(* the pass is cut short by an exception or a shutdown; a restart loses the memory *)
| step_abort t w st lg : step (mkSys t w st lg) (mkSys t w Idle (lg ++ abandoned st))
| step_restart t w st lg :
    step (mkSys t w st lg)
      (mkSys t {| store := w.(store); mem := fresh_memory; held := false |} Idle (lg ++ abandoned st)).

Inductive reachable (σ0 : sys) : sys -> Prop :=
| reach_here : reachable σ0 σ0
| reach_step σ σ' : reachable σ0 σ -> step σ σ' -> reachable σ0 σ'.
End system.
