(* ===== verification/ScheduleOnce.v ===== *)
(** * An occurrence is dispatched once

    The invariant of [ScheduleSystem]: an occurrence that was dispatched is still
    being recorded, or was given up, or its schedule is armed for a later instant. *)
From Stdlib Require Import ZArith NArith Lia String Ascii.
From stdpp Require Import base gmap strings list sorting.
From S2P Require Import Prelude Uow Uuid Calendar Program Text VersionRange ServerRow Schedule ScheduleStore Schedules ScheduleRunner ScheduleRows ScheduleMoves ScheduleSystem.

#[local] Open Scope Z_scope.

(** How often an occurrence was dispatched, and given up. *)
Definition dispatches (lg : list entry) (i : uuid) (t : datetime) : nat := length (filter (eq (Dispatched i t)) lg).
Definition losses (lg : list entry) (i : uuid) (t : datetime) : nat := length (filter (eq (Lost i t)) lg).

Lemma dispatches_app lg es i t : dispatches (lg ++ es) i t = (dispatches lg i t + dispatches es i t)%nat.
Proof. unfold dispatches. by rewrite filter_app, length_app. Qed.
Lemma losses_app lg es i t : losses (lg ++ es) i t = (losses lg i t + losses es i t)%nat.
Proof. unfold losses. by rewrite filter_app, length_app. Qed.

Section once.
Context `{Unicode} `{Engine} (grace : timedelta).

(** ** Rows an occurrence is behind *)

Definition ahead (t : datetime) (r : option ScheduleModel) : Prop :=
  match r with
  | None => True
  | Some row => loadable row /\ forall t', armed_at row = Some t' -> t <= t'
  end.

Definition spent (t : datetime) (r : option ScheduleModel) : Prop :=
  match r with
  | None => True
  | Some row => forall t', armed_at row = Some t' -> t < t'
  end.

Lemma ahead_moves now t r r' : t <= now -> moves now r r' -> ahead t r -> ahead t r'.
Proof.
  destruct r' as [row'|]; [|done]. intros Ht [Hl Ha] Hr. split.
  - destruct Hl as [|(row & -> & Hn)]; [done|]. by destruct Hr.
  - intros t' Hat. destruct (Ha t' Hat) as [|(row & -> & Hat')]; [lia|]. destruct Hr as [_ Hr]. by apply Hr.
Qed.

Lemma spent_moves now t r r' : t <= now -> moves now r r' -> spent t r -> spent t r'.
Proof.
  destruct r' as [row'|]; [|done]. intros Ht [_ Ha] Hr t' Hat.
  destruct (Ha t' Hat) as [|(row & -> & Hat')]; [lia|]. by apply Hr.
Qed.

(** ** The invariant *)

Definition out_of (st : stage) (i : uuid) (t : datetime) : Prop :=
  match st with Groups _ _ gs => exists g, g ∈ gs /\ g.(g_state) = Out i t | _ => False end.

Definition pair_ok (now : datetime) (d : db) (st : stage) (lg : list entry) (i : uuid) (t : datetime) : Prop :=
  (dispatches lg i t <= losses lg i t)%nat
  \/ (dispatches lg i t = S (losses lg i t) /\ t <= now /\ (spent t (d.(schedules) !! i) \/ out_of st i t)).

Definition log_ok (now : datetime) (d : db) (st : stage) (lg : list entry) : Prop := forall i t, pair_ok now d st lg i t.

Definition gstate_ok (now : datetime) (d : db) (lg : list entry) (ids : gset uuid) (q : gstate) : Prop :=
  match q with
  | Free => True
  | Claimed i t => i ∈ ids /\ (t <= now -> (dispatches lg i t <= losses lg i t)%nat /\ ahead t (d.(schedules) !! i))
  | Out i t => i ∈ ids /\ t <= now /\ ahead t (d.(schedules) !! i)
  end.

Definition group_ok (now : datetime) (d : db) (lg : list entry) (g : group) : Prop :=
  safe any_reply (fun T => @gok _ _ g.(g_ids) now T) (fun T => @gnext T) g.(g_prog) g.(g_state) (fun _ q => settled q)
  /\ gstate_ok now d lg g.(g_ids) g.(g_state).

Definition all_ids (gs : list group) : list uuid := gs ≫= fun g => elements g.(g_ids).

Definition stage_ok (t : datetime) (d : db) (lg : list entry) (st : stage) : Prop :=
  match st with
  | Idle => True
  | Polling now _ => now <= t
  | Groups now _ gs => now <= t /\ NoDup (all_ids gs) /\ forall g, g ∈ gs -> group_ok now d lg g
  | Ending p => fine p
  end.

Definition inv (σ : sys) : Prop :=
  keyed σ.(world_).(store)
  /\ log_ok σ.(clock) σ.(world_).(store) σ.(stage_) σ.(log)
  /\ stage_ok σ.(clock) σ.(world_).(store) σ.(log) σ.(stage_).

(** Two groups of a pass have different schedules. *)
Lemma other_group gs1 g gs2 g' i :
  NoDup (all_ids (gs1 ++ g :: gs2)) -> g' ∈ gs1 ++ gs2 -> i ∈ g.(g_ids) -> i ∈ g'.(g_ids) -> False.
Proof.
  unfold all_ids. rewrite bind_app. cbn. intros Hnd Hg Hi Hi'.
  assert (Hin : i ∈ (gs1 ≫= fun g => elements g.(g_ids)) \/ i ∈ (gs2 ≫= fun g => elements g.(g_ids))).
  { rewrite !list_elem_of_bind. apply elem_of_app in Hg as [Hg|Hg]; [left|right]; exists g'; split; [by apply elem_of_elements|done|by apply elem_of_elements|done]. }
  apply NoDup_app in Hnd as (_ & Hd & Hnd). apply NoDup_app in Hnd as (_ & Hd2 & _).
  destruct Hin as [Hin|Hin].
  - apply (Hd i Hin), elem_of_app. left. by apply elem_of_elements.
  - apply (Hd2 i); [by apply elem_of_elements|done].
Qed.

(** *** The table moves, the log stands *)

Lemma gstate_moves t now d d' lg ids q :
  now <= t -> tables_move t d d' -> gstate_ok now d lg ids q -> gstate_ok now d' lg ids q.
Proof.
  intros Hn Hm. destruct q as [|i u|i u]; cbn; [done| |].
  - intros [Hi Hc]. split; [done|]. intros Hu. destruct (Hc Hu). split; [done|]. by eapply ahead_moves; [|apply Hm|]; [lia|].
  - intros (Hi & Hu & Ha). split_and!; [done|done|]. by eapply ahead_moves; [|apply Hm|]; [lia|].
Qed.

Lemma inv_moves t w w' st lg :
  inv (mkSys t w st lg) -> keyed w'.(store) -> tables_move t w.(store) w'.(store) -> inv (mkSys t w' st lg).
Proof.
  intros (Hk & Hl & Hs) Hk' Hm. split_and!; [done| |]; cbn in *.
  - intros i u. destruct (Hl i u) as [|(Hd & Hu & Hor)]; [by left|]. right. split_and!; [done|done|].
    destruct Hor as [Hsp|]; [left|by right]. by eapply spent_moves; [|apply Hm|].
  - destruct st as [|now prev|now handled gs|p]; [done|done| |done]. destruct Hs as (Hn & Hnd & Hg).
    split_and!; [done|done|]. intros g Hin. destruct (Hg g Hin) as [Hsafe Hst]. split; [done|]. by eapply gstate_moves.
Qed.

(** *** One event *)

Definition tok {T} (x : txn T) : Prop :=
  match x with
  | RecordRun s _ adv _ => adv = false \/ (valid s /\ exists t, s.(next_run_at) = Some t)
  | _ => True
  end.

Lemma txn_moves now {T} (x : txn T) d r d' :
  keyed d -> tok x -> txn_do now x d = (r, d') -> keyed d' /\ tables_move now d d'.
Proof.
  intros Hk. destruct x as [at_|at_ until|i|i|s run adv last]; intros Hx E.
  - by edestruct polled_effect as (? & ? & _); [exact Hk|exact E|].
  - by edestruct polled_effect as (? & ? & _); [exact Hk|exact E|].
  - injection E as <- <-. split; [done|apply tables_refl].
  - injection E as <- <-. split; [done|apply tables_refl].
  - destruct adv.
    + destruct Hx as [|(Hv & t & Hn)]; [done|]. edestruct record_effect as (? & ? & _); [exact Hk|exact Hv|exact Hn|exact E|done].
    + destruct (record_only_effect _ _ _ _ _ _ _ E) as [Hs _]. unfold keyed, tables_move. rewrite Hs.
      split; [exact Hk|intros i; apply moves_refl].
Qed.

Definition evok {T} (ev : event T) : Prop := match ev with Tx x => tok x | _ => True end.

Lemma exec_moves now w w' {T} (ev : event T) r :
  keyed w.(store) -> evok ev -> exec now w w' ev r -> keyed w'.(store) /\ tables_move now w.(store) w'.(store).
Proof.
  intros Hk Hev He. assert (Hsame : w'.(store) = w.(store) -> keyed w'.(store) /\ tables_move now w.(store) w'.(store)).
  { intros ->. split; [done|apply tables_refl]. }
  destruct ev as [| |T x|T op|srv a l|c srv l|c srv|i o| |]; cbn in He; try (apply Hsame; intuition congruence).
  destruct He as (_ & _ & He). destruct (txn_do now x (store w)) as [r' d'] eqn:E.
  destruct (txn_moves now x _ _ _ Hk Hev E) as [Hk' Hm'].
  destruct He as [[= _ Hd]|[_ [Hd|Hd]]]; [by rewrite Hd|by apply Hsame|by rewrite Hd].
Qed.

Lemma gok_evok ids limit q {T} (ev : event T) : gok ids limit q ev -> evok ev.
Proof. destruct ev as [| |T x| | | | | | |]; try done. destruct x; try done. cbn. intros (Hv & t & Hn & _). right. eauto. Qed.

Lemma eok_evok {T} (ev : event T) : eok ev -> evok ev.
Proof. destruct ev as [| |T x| | | | | | |]; try done. destruct x; try done. by left. Qed.

(** *** One event of a group *)

(** How an event takes a group from one state to another, and what it logs. *)
Inductive shape (ids : gset uuid) (limit now : datetime) (d d' : db) : gstate -> gstate -> list entry -> Prop :=
| shape_stay q : shape ids limit now d d' q q []
| shape_free q : settled q -> shape ids limit now d d' q Free []
| shape_lost i t : shape ids limit now d d' (Out i t) Free [Lost i t]
| shape_claim q i t row :
    settled q -> i ∈ ids -> d'.(schedules) !! i = Some row -> loadable row -> armed_at row = Some t ->
    shape ids limit now d d' q (Claimed i t) []
| shape_dispatch i t : t <= limit -> shape ids limit now d d' (Claimed i t) (Out i t) [Dispatched i t]
| shape_failed i t : t <= limit -> shape ids limit now d d' (Claimed i t) Free [Dispatched i t; Lost i t]
| shape_recorded i t :
    (ahead t (d.(schedules) !! i) -> t <= now -> spent t (d'.(schedules) !! i)) ->
    shape ids limit now d d' (Out i t) Free [].

Lemma claim_spec now i d r d' s t :
  txn_do now (Claim i) d = (r, d') -> r = Ok (Some s) -> armed_schedule s = Some t ->
  exists row, d'.(schedules) !! i = Some row /\ loadable row /\ armed_at row = Some t.
Proof.
  intros E -> Ha. injection E as Es <-. destruct (d.(schedules) !! i) as [row|]; [|done]. cbn in Es. exists row.
  split; [done|]. unfold loadable. rewrite Es. split; [by eexists|]. unfold loaded in Es.
  destruct (_to_schedule row) as [s'|] eqn:El; [|done]. injection Es as ->.
  apply to_schedule_ok in El as (_ & _ & _ & _ & He & Hn & _). unfold armed_at, armed_schedule in *. by rewrite <- He, <- Hn.
Qed.

Lemma recorded_spent now s run last t d b d' :
  keyed d -> valid s -> s.(next_run_at) = Some t -> txn_do now (RecordRun s run true last) d = (Ok b, d') ->
  ahead t (d.(schedules) !! s.(id)) -> t <= now -> spent t (d'.(schedules) !! s.(id)).
Proof.
  intros Hk Hv Hn E Ha Ht. edestruct record_effect as (_ & _ & _ & Hf & Hr); [exact Hk|exact Hv|exact Hn|exact E|].
  destruct b.
  - destruct (d'.(schedules) !! s.(id)) as [row'|] eqn:Hrow'; [|done]. intros t' Hat'.
    destruct (Hr eq_refl eq_refl row' t' eq_refl Hat') as [|(Hne & row & Hrow & Hat)]; [lia|].
    rewrite Hrow in Ha. destruct Ha as [_ Ha]. pose proof (Ha t' Hat). lia.
  - destruct (Hf eq_refl) as [-> Hnone]. destruct (d.(schedules) !! s.(id)) as [row|]; [|done].
    destruct Ha as [[s0 Hs0] _]. cbn in Hnone. congruence.
Qed.

Lemma let_go_shape ids limit now d d' {A} q (r : result exn A) :
  shape ids limit now d d' q (let_go q r) (match r, q with Err _, Out i t => [Lost i t] | _, _ => [] end).
Proof. destruct r as [a|e]; [apply shape_stay|]. destruct q; try apply shape_stay. apply shape_lost. Qed.

Lemma event_shape ids limit now w w' q {T} (ev : event T) r :
  keyed w.(store) -> gok ids limit q ev -> exec now w w' ev r ->
  shape ids limit now w.(store) w'.(store) q (gnext q ev r) (glog q ev r).
Proof.
  intros Hk Hok He. destruct ev as [| |T x|T op|srv a l|c srv l|c srv|i o| |]; try apply let_go_shape.
  - destruct x as [at_|at_ until|i|i|s run adv last]; try apply let_go_shape; cbn -[armed_schedule txn_do] in *.
    + destruct Hok as [Hi Hq]. destruct r as [[cur|]|e]; [|by destruct q; apply shape_free|apply (let_go_shape _ _ _ _ _ q (Err e))].
      destruct (armed_schedule cur) as [t|] eqn:Ha; [|by destruct q; apply shape_free].
      destruct He as (_ & _ & [He|[(e & [=] & _) _]]).
      destruct (claim_spec now i _ _ _ cur t (eq_sym He) eq_refl Ha) as (row & Hrow & Hl & Hat).
      destruct q; [| |done]; by eapply shape_claim.
    + destruct Hok as (Hv & t & Hn & Hq). destruct q as [|i u|i u]; [by destruct r; apply shape_free..|].
      destruct r as [b|e]; [|apply shape_lost]. destruct Hq as (<- & <- & ->). apply shape_recorded.
      destruct He as (_ & _ & [He|[(e & [=] & _) _]]). by eapply recorded_spent.
  - destruct Hok as (i & t & -> & Ht). destruct r as [e|e]; [by apply shape_dispatch|by apply shape_failed].
Qed.

(** The log after an event: the entries concern a schedule of the group. *)
Lemma shape_entries ids limit now d d' lg q q' es :
  shape ids limit now d d' q q' es -> gstate_ok limit d lg ids q ->
  forall i t, i ∉ ids -> dispatches (lg ++ es) i t = dispatches lg i t /\ losses (lg ++ es) i t = losses lg i t.
Proof.
  intros Hs Hq i t Hi. rewrite dispatches_app, losses_app. unfold dispatches, losses.
  destruct Hs as [q|q|j u|q j u row|j u|j u|j u]; cbn in *; try lia;
    rewrite ?filter_cons, ?filter_nil; repeat (case_decide; try done; simplify_eq; try (by destruct Hq)); cbn; lia.
Qed.

Lemma dispatches_cons e es i t :
  dispatches (e :: es) i t = ((if decide (Dispatched i t = e) then 1 else 0) + dispatches es i t)%nat.
Proof. unfold dispatches. rewrite filter_cons. by case_decide. Qed.
Lemma losses_cons e es i t :
  losses (e :: es) i t = ((if decide (Lost i t = e) then 1 else 0) + losses es i t)%nat.
Proof. unfold losses. rewrite filter_cons. by case_decide. Qed.
Lemma dispatches_nil i t : dispatches [] i t = 0%nat.
Proof. done. Qed.
Lemma losses_nil i t : losses [] i t = 0%nat.
Proof. done. Qed.

Lemma out_of_split lim h gs1 g gs2 i t :
  out_of (Groups lim h (gs1 ++ g :: gs2)) i t <-> g.(g_state) = Out i t \/ exists g', g' ∈ gs1 ++ gs2 /\ g'.(g_state) = Out i t.
Proof.
  cbn. split.
  - intros (g' & Hin & Hg'). rewrite elem_of_app, elem_of_cons in Hin. destruct Hin as [Hin|[->|Hin]]; [|by left|];
      right; exists g'; (split; [|done]); apply elem_of_app; auto.
  - intros [Hg|(g' & Hin & Hg')]; [exists g|exists g']; (split; [|done]); rewrite elem_of_app, elem_of_cons; [auto|].
    apply elem_of_app in Hin as [|]; auto.
Qed.

Section group_step.
Context (now lim : datetime) (h : gset uuid) (gs1 gs2 : list group) (g g' : group) (d d' : db) (lg es : list entry).
Context (Hlim : lim <= now) (Hnd : NoDup (all_ids (gs1 ++ g :: gs2))).
Context (Hgs : forall x, x ∈ gs1 ++ g :: gs2 -> gstate_ok lim d lg x.(g_ids) x.(g_state)).
Context (Hm : tables_move now d d') (Hlog : log_ok now d (Groups lim h (gs1 ++ g :: gs2)) lg).
Context (Hshape : shape g.(g_ids) lim now d d' g.(g_state) g'.(g_state) es) (Hids : g'.(g_ids) = g.(g_ids)).

Lemma self_ok : gstate_ok lim d lg g.(g_ids) g.(g_state).
Proof. apply Hgs. rewrite elem_of_app, elem_of_cons. auto. Qed.

Lemma other_in x : x ∈ gs1 ++ gs2 -> x ∈ gs1 ++ g :: gs2.
Proof. rewrite !elem_of_app, elem_of_cons. tauto. Qed.

Lemma out_in lim0 lg0 ids q i t : gstate_ok lim0 d lg0 ids q -> q = Out i t -> i ∈ ids.
Proof. intros Hq ->. apply Hq. Qed.

Lemma other_out i t x : i ∈ g.(g_ids) -> x ∈ gs1 ++ gs2 -> x.(g_state) = Out i t -> False.
Proof.
  intros Hi Hx Ho. eapply other_group; [exact Hnd|exact Hx|exact Hi|]. eapply out_in; [by apply Hgs, other_in|exact Ho].
Qed.

(** An occurrence of the group itself. *)
Lemma own_pair i t : i ∈ g.(g_ids) -> pair_ok now d' (Groups lim h (gs1 ++ g' :: gs2)) (lg ++ es) i t.
Proof.
  intros Hi. pose proof self_ok as Hself. pose proof (Hlog i t) as Hp. unfold pair_ok in *.
  rewrite out_of_split in *. rewrite dispatches_app, losses_app.
  assert (Hspent : t <= now -> spent t (d.(schedules) !! i) -> spent t (d'.(schedules) !! i)).
  { intros Ht Hs. by eapply spent_moves; [|apply Hm|]. }
  assert (Hno : (exists x, x ∈ gs1 ++ gs2 /\ x.(g_state) = Out i t) -> False).
  { intros (x & Hx & Ho). by eapply other_out. }
  revert Hself Hp. clear Hgs Hlog. destruct Hshape as [q|q Hq|j u|q j u row Hq Hj Hrow Hl Ha|j u Hu|j u Hu|j u Hsp];
    intros Hself Hp; rewrite ?dispatches_cons, ?losses_cons, ?dispatches_nil, ?losses_nil, ?Nat.add_0_r.
  - naive_solver.
  - destruct Hp as [|(? & ? & [|[->|]])]; [by left|right; naive_solver|done|naive_solver].
  - repeat case_decide; simplify_eq; try (left; lia). destruct Hp as [|(? & ? & [|[|]])]; naive_solver lia.
  - destruct Hp as [|(? & ? & [|[->|]])]; [left; lia|right; naive_solver lia|done|naive_solver].
  - destruct Hself as [_ Hself]. repeat case_decide; simplify_eq.
    + destruct (Hself Hu) as [Hle _]. apply le_lt_eq_dec in Hle as [|]; [left; lia|].
      right. split_and!; [lia|lia|]. by right; left.
    + destruct Hp as [|(? & ? & [|[|]])]; naive_solver lia.
  - destruct Hself as [_ Hself]. repeat case_decide; simplify_eq.
    + destruct (Hself Hu) as [Hle _]. left; lia.
    + destruct Hp as [|(? & ? & [|[|]])]; naive_solver lia.
  - destruct Hself as (_ & Ht & Ha). destruct Hp as [|(HD & ? & [|[[= -> ->]|]])]; [left; lia|right; naive_solver lia| |naive_solver].
    right. split_and!; [lia|done|]. left. by apply Hsp.
Qed.

(** The whole log. *)
Lemma log_ok_step : log_ok now d' (Groups lim h (gs1 ++ g' :: gs2)) (lg ++ es).
Proof.
  intros i t. destruct (decide (i ∈ g.(g_ids))) as [Hi|Hi]; [by apply own_pair|].
  destruct (shape_entries _ _ _ _ _ lg _ _ _ Hshape self_ok i t Hi) as [Hd Hl]. unfold pair_ok. rewrite Hd, Hl.
  destruct (Hlog i t) as [|(? & ? & Hor)]; [by left|]. right. split_and!; [done|done|].
  destruct Hor as [Hs|Ho]; [left; by eapply spent_moves; [|apply Hm|]|]. right. rewrite out_of_split in *.
  destruct Ho as [Ho|]; [|by right]. exfalso. by eapply Hi, out_in; [apply self_ok|].
Qed.

(** The state of the group, and of the others. *)
Lemma self_step : gstate_ok lim d' (lg ++ es) g'.(g_ids) g'.(g_state).
Proof.
  pose proof self_ok as Hself. pose proof own_pair as Hown. rewrite Hids. revert Hself Hown. unfold pair_ok.
  setoid_rewrite out_of_split. pose proof other_out as Hother. clear Hlog Hgs.
  destruct Hshape as [q|q Hq|j u|q j u row Hq Hj Hrow Hl Ha|j u Hu|j u Hu|j u Hsp]; intros Hself Hown; try done.
  - rewrite app_nil_r. by eapply gstate_moves.
  - cbn. split; [done|]. intros Hu. rewrite Hrow.
    split; [|split; [done|intros t'; rewrite Ha; intros [= <-]; lia]].
    destruct (Hown j u Hj) as [|(_ & _ & [Hs|[|(x & Hx & Ho)]])]; [done| |done|].
    + rewrite Hrow in Hs. specialize (Hs u Ha). lia.
    + exfalso. by eapply Hother.
  - cbn in *. destruct Hself as [? Hself]. destruct (Hself Hu). split_and!; [done|done|]. by eapply ahead_moves; [|apply Hm|]; [lia|].
Qed.

Lemma others_step x : x ∈ gs1 ++ gs2 -> gstate_ok lim d' (lg ++ es) x.(g_ids) x.(g_state).
Proof.
  intros Hx. pose proof (Hgs x (other_in x Hx)) as Hq. apply (gstate_moves now lim d d') in Hq; [|lia|done].
  destruct (g_state x) as [|i t|i t]; [done| |done]. destruct Hq as [Hi Hq]. split; [done|].
  destruct (shape_entries _ _ _ _ _ lg _ _ _ Hshape self_ok i t) as [-> ->]; [|done].
  intros Hi'. by eapply other_group.
Qed.
End group_step.

(** *** The poll *)

Lemma od_set_snoc k (s : Schedule) (l : list (uuid * list Schedule)) :
  od_set k (default [] (od_get k l) ++ [s]) l ≫= snd ≡ₚ (l ≫= snd) ++ [s].
Proof.
  induction l as [|[k' v] l IH]; cbn; [done|]. destruct (decide (k = k')); cbn.
  - rewrite <- !(assoc_L app). f_equiv. apply Permutation_app_comm.
  - by rewrite IH, (assoc_L app).
Qed.

(** The groups are a partition of the due schedules. *)
Lemma group_by_server_perm due : group_by_server due ≫= snd ≡ₚ due.
Proof.
  unfold group_by_server. enough (H1 : forall l acc, fold_left (fun groups s =>
    od_set s.(server_id) (default [] (od_get s.(server_id) groups) ++ [s]) groups) l acc ≫= snd ≡ₚ (acc ≫= snd) ++ l) by apply H1.
  induction l as [|s l IH]; intros acc; cbn; [by rewrite app_nil_r|]. by rewrite IH, od_set_snoc, <- (assoc_L app).
Qed.

Lemma ids_perm (gs : list (uuid * list Schedule)) :
  NoDup (map id (gs ≫= snd)) -> (gs ≫= fun g => elements (set_of g.2)) ≡ₚ map id (gs ≫= snd).
Proof.
  induction gs as [|[k l] gs IH]; cbn; [done|]. rewrite map_app, NoDup_app. intros (Hl & _ & Hgs).
  unfold set_of at 1. rewrite elements_list_to_set by done. by rewrite IH.
Qed.

Lemma fork_nodup due now prev : NoDup (map id due) -> NoDup (all_ids (fork due now prev)).
Proof.
  intros Hnd. assert (Hp : map id (group_by_server due ≫= snd) ≡ₚ map id due) by (apply fmap_Permutation, group_by_server_perm).
  assert (E : all_ids (fork due now prev) = group_by_server due ≫= fun g => elements (set_of g.2)).
  { unfold all_ids, fork. generalize (group_by_server due). induction l as [|g l IH]; [done|]. cbn. f_equal. exact IH. }
  rewrite E, ids_perm by (by rewrite Hp). by rewrite Hp.
Qed.

Lemma fork_ok due now prev d lg :
  (forall s, s ∈ due -> valid s /\ exists t, s.(next_run_at) = Some t /\ t <= now) ->
  forall g, g ∈ fork due now prev -> group_ok now d lg g.
Proof.
  intros Hdue g (x & -> & Hx)%list_elem_of_fmap. split; [|done]. apply group_okay; [|done]. intros s Hs.
  destruct (Hdue s) as (Hv & t & Hn & Ht).
  { rewrite <- (group_by_server_perm due). apply list_elem_of_bind. by exists x. }
  split_and!; [done| |by exists t]. cbn. unfold set_of. apply elem_of_list_to_set, list_elem_of_fmap. by exists s.
Qed.

Lemma due_loaded now due d r d' : keyed d -> txn_do now (PollDue now) d = (r, d') -> r = Ok due ->
  NoDup (map id due) /\ forall s, s ∈ due -> valid s /\ exists t, s.(next_run_at) = Some t /\ t <= now.
Proof.
  intros Hk E ->. destruct (polled_effect now _ _ _ _ Hk E) as (_ & _ & _ & found & [= <-] & Hnd & Hf).
  split; [done|]. intros s Hs. destruct (Hf s Hs) as (row & _ & Hdue & Hload).
  destruct (to_schedule_ok row s Hload) as (Hv & _ & _ & _ & _ & Hn & _). split; [done|].
  unfold is_due in Hdue. apply andb_prop in Hdue as [_ Hdue]. destruct (m_next_run_at row) as [t|] eqn:Ht; [|done].
  exists t. split; [congruence|by apply Z.leb_le].
Qed.

(** *** Every step *)

Lemma log_ok_weaken now now' d d' st st' lg :
  now <= now' -> tables_move now d d' -> (forall i t, out_of st i t -> out_of st' i t) ->
  log_ok now d st lg -> log_ok now' d' st' lg.
Proof.
  intros Hn Hm Ho Hl i t. destruct (Hl i t) as [|(? & ? & Hor)]; [by left|]. right. split_and!; [done|lia|].
  destruct Hor as [Hs|Hout]; [left; by eapply spent_moves; [|apply Hm|]|right; by apply Ho].
Qed.

Lemma abandoned_dispatches st i t : dispatches (abandoned st) i t = 0%nat.
Proof.
  destruct st as [| |now h gs|]; try done. cbn [abandoned] in *. induction gs as [|g gs IH]; [done|]. cbn -[dispatches].
  destruct (g_state g); [done|done|]. by rewrite dispatches_cons, decide_False.
Qed.

Lemma abandoned_losses st i t : out_of st i t -> (0 < losses (abandoned st) i t)%nat.
Proof.
  destruct st as [| |now h gs|]; try done. intros (g & Hin & Hg). cbn [abandoned]. induction Hin as [g gs'|g g' gs' Hin IH]; cbn -[losses].
  - rewrite Hg. rewrite losses_cons, decide_True by done. lia.
  - destruct (g_state g'); [by apply IH..|]. rewrite losses_cons. specialize (IH Hg). lia.
Qed.

Lemma log_ok_cut now d st lg : log_ok now d st lg -> log_ok now d Idle (lg ++ abandoned st).
Proof.
  intros Hl i t. unfold pair_ok. rewrite dispatches_app, losses_app, abandoned_dispatches.
  destruct (Hl i t) as [|(HD & ? & [|Ho])]; [left; lia| |left; apply abandoned_losses in Ho; lia].
  destruct (decide (losses (abandoned st) i t = 0%nat)); [right; split_and!; [lia|done|by left]|left; lia].
Qed.

Lemma request_moves now d d' : keyed d -> request now d d' -> keyed d' /\ tables_move now d d'.
Proof.
  intros Hk [authorize fresh c srv n|authorize c srv i p|authorize c srv i].
  - destruct (CreateSchedule _ _ _ _ _ _ _) as [r d1] eqn:E. by destruct (create_effect _ _ _ _ _ _ _ _ _ Hk E) as (? & ? & _).
  - destruct (UpdateSchedule _ _ _ _ _ _ _) as [r d1] eqn:E. by destruct (update_request_effect _ _ _ _ _ _ _ _ _ Hk E) as (? & ? & _).
  - destruct (DeleteSchedule _ _ _ _ _) as [r d1] eqn:E. by destruct (delete_effect _ now _ _ _ _ _ _ Hk E) as (? & ? & _).
Qed.

Lemma servers_moves now d d' : keyed d -> servers_change d d' -> keyed d' /\ tables_move now d d'.
Proof.
  intros Hk Hc. split.
  - intros k row Hr. destruct (Hc k) as [E|E]; [|congruence]. apply Hk. congruence.
  - intros k. destruct (Hc k) as [->| ->]; [apply moves_refl|done].
Qed.

Lemma inv_group t w now h gs1 g gs2 lg T (ev : event T) k w' r :
  inv (mkSys t w (Groups now h (gs1 ++ g :: gs2)) lg) -> g.(g_prog) = Vis ev k -> exec t w w' ev r ->
  inv (mkSys t w' (Groups now h
         (gs1 ++ {| g_prog := k r; g_state := gnext g.(g_state) ev r; g_ids := g.(g_ids) |} :: gs2))
         (lg ++ glog g.(g_state) ev r)).
Proof.
  intros (Hk & Hl & Hn & Hnd & Hgs) Hp He. cbn in *.
  destruct (Hgs g) as [Hsafe Hst]; [rewrite elem_of_app, elem_of_cons; auto|]. rewrite Hp in Hsafe. destruct Hsafe as [Hok Hsafe].
  destruct (exec_moves _ _ _ _ _ Hk (gok_evok _ _ _ _ Hok) He) as [Hk' Hm].
  pose proof (event_shape _ _ _ _ _ _ _ _ Hk Hok He) as Hsh.
  assert (Hall : forall x, x ∈ gs1 ++ g :: gs2 -> gstate_ok now (store w) lg (g_ids x) (g_state x)) by (intros x Hx; by apply Hgs).
  set (g' := {| g_prog := k r; g_state := gnext (g_state g) ev r; g_ids := g_ids g |}).
  split_and!; [done| |split_and!; [done| |]]; cbn.
  - by eapply (log_ok_step t now h gs1 gs2 g g').
  - unfold all_ids in *. rewrite bind_app in *. exact Hnd.
  - intros x Hx. rewrite elem_of_app, elem_of_cons in Hx. assert (Hc : x = g' \/ x ∈ gs1 ++ gs2) by (rewrite elem_of_app; tauto).
    destruct Hc as [->|Hx'].
    + split; [by apply Hsafe|]. by eapply (self_step t now h gs1 gs2 g g').
    + split; [by apply Hgs, other_in|]. by eapply (others_step t now gs1 gs2 g g').
Qed.

Lemma inv_step σ σ' : inv σ -> step grace σ σ' -> inv σ'.
Proof.
  intros Hi Hs. destruct Hs as [t t' w st lg Ht|t w st lg d' Hr|t w st lg d' Hr|t w lg|t w now prev lg w' due He
    |t w now h gs1 g gs2 lg T ev k w' r Hp He|t w now h gs lg Hall|t w T ev k w' r lg He|t w lg|t w st lg|t w st lg].
  - destruct Hi as (Hk & Hl & Hst). split_and!; [done| |]; cbn in *.
    + eapply log_ok_weaken; [exact Ht|apply tables_refl|done|done].
    + destruct st; cbn in *; naive_solver lia.
  - destruct (request_moves t _ _ (proj1 Hi) Hr) as [Hk Hm]. by eapply inv_moves.
  - destruct (servers_moves t _ _ (proj1 Hi) Hr) as [Hk Hm]. by eapply inv_moves.
  - destruct Hi as (Hk & Hl & _). split_and!; [done| |cbn; lia].
    eapply log_ok_weaken; [reflexivity|apply tables_refl| |exact Hl]. done.
  - destruct Hi as (Hk & Hl & Hn). destruct (exec_moves _ _ _ (Tx (PollDue now)) _ Hk I He) as [Hk' Hm].
    destruct He as (_ & _ & [He|[(e & [=] & _) _]]).
    destruct (due_loaded now due _ _ _ Hk (eq_sym He) eq_refl) as [Hnd Hdue].
    split_and!; [done| |split_and!; [done|by apply fork_nodup|by apply fork_ok]].
    by eapply log_ok_weaken; [reflexivity|exact Hm| |exact Hl].
  - by eapply inv_group.
  - destruct Hi as (Hk & Hl & Hn & Hnd & Hgs). split_and!; [done| |apply fine_end].
    eapply log_ok_weaken; [reflexivity|apply tables_refl| |exact Hl]. intros i u (g & Hg & Ho).
    rewrite Forall_forall in Hall. destruct (Hall g Hg) as [a Hret]. destruct (Hgs g Hg) as [Hsafe _].
    rewrite Hret in Hsafe. cbn in Hsafe. rewrite Ho in Hsafe. done.
  - destruct Hi as (Hk & Hl & Hok & Hf). destruct (exec_moves _ _ _ _ _ Hk (eok_evok _ Hok) He) as [Hk' Hm].
    split_and!; [done|by eapply log_ok_weaken; [reflexivity|exact Hm| |exact Hl]|by apply Hf].
  - destruct Hi as (Hk & Hl & _). split_and!; [done| |done]. by eapply log_ok_weaken; [reflexivity|apply tables_refl| |exact Hl].
  - destruct Hi as (Hk & Hl & _). split_and!; [done|by apply log_ok_cut|done].
  - destruct Hi as (Hk & Hl & _). split_and!; [done|by apply log_ok_cut|done].
Qed.

(** A system that has dispatched nothing yet: its store keeps rows under their ids. *)
Definition initial (σ : sys) : Prop := keyed σ.(world_).(store) /\ σ.(stage_) = Idle /\ σ.(log) = [].

Lemma inv_initial σ : initial σ -> inv σ.
Proof.
  destruct σ as [t w st lg]. intros (Hk & Hst & Hlg). cbn in *. subst. split_and!; [done| |done].
  intros i u. by left.
Qed.

Lemma inv_reachable σ0 σ : initial σ0 -> reachable grace σ0 σ -> inv σ.
Proof. intros H0' Hr. induction Hr as [|σ σ' _ IH Hs]; [by apply inv_initial|by eapply inv_step]. Qed.

(** ** The rows of a running system *)

Lemma step_moves σ σ' : inv σ -> step grace σ σ' -> tables_move σ.(clock) σ.(world_).(store) σ'.(world_).(store).
Proof.
  intros Hi Hs. pose proof Hi as [Hk _]. destruct Hs; cbn in *; try apply tables_refl.
  - by apply (request_moves t).
  - by apply servers_moves.
  - by eapply (exec_moves t w w' (Tx (PollDue now))).
  - destruct Hi as (_ & _ & _ & _ & Hgs). destruct (Hgs g) as [Hsafe _]; [rewrite elem_of_app, elem_of_cons; auto|].
    match goal with Hp : g_prog g = _ |- _ => rewrite Hp in Hsafe end. destruct Hsafe as [Hok _]. by eapply exec_moves; [exact Hk|eapply gok_evok|].
  - destruct Hi as (_ & _ & Hok & _). by eapply exec_moves; [exact Hk|apply eok_evok|].
Qed.

Definition well_formed (d : db) : Prop := forall i row, d.(schedules) !! i = Some row -> loadable row.

Lemma well_formed_moves now d d' : tables_move now d d' -> well_formed d -> well_formed d'.
Proof.
  intros Hm Hw i row' Hr. specialize (Hm i). rewrite Hr in Hm. destruct Hm as [[|(row & Hrow & Hn)] _]; [done|].
  by destruct Hn; eapply Hw.
Qed.


(** C30: schedule rows stay well-formed: if every row of the table passes the domain's
    validation, every row still does in every state the scheduler can reach, so none is
    quarantined. *)
Theorem rows_stay_well_formed (σ0 σ : sys) :
  initial σ0 -> reachable grace σ0 σ ->
  (forall i row, σ0.(world_).(store).(schedules) !! i = Some row -> is_Some (loaded row)) ->
  forall i row, σ.(world_).(store).(schedules) !! i = Some row -> exists s, loaded row = Some s /\ valid s /\ s.(id) = i.
Proof.
  intros H0' Hr Hw. assert (Hwf : well_formed σ.(world_).(store)).
  { induction Hr as [|σ σ' Hr IH Hs]; [exact Hw|]. eapply well_formed_moves; [eapply step_moves; [by eapply inv_reachable|exact Hs]|exact IH]. }
  intros i row Hrow. destruct (Hwf i row Hrow) as [s Hs]. exists s. split; [done|]. unfold loaded in Hs.
  destruct (_to_schedule row) as [s'|] eqn:E; [|done]. injection Hs as ->.
  destruct (to_schedule_ok row s E) as (Hv & Hid & _). split; [done|]. rewrite Hid.
  destruct (inv_reachable _ _ H0' Hr) as [Hk _]. by apply Hk.
Qed.
End once.
