(* ===== verification/ScheduleRequests.v ===== *)
(** * Guarantees of the schedule requests

    What [Schedules]' requests promise a caller: who may change a schedule, and that
    what was answered is what is stored. *)
From Stdlib Require Import ZArith NArith Lia String Ascii.
From stdpp Require Import base gmap strings list.
From S2P Require Import Prelude Uow Uuid Calendar Text VersionRange ServerRow Schedule ScheduleStore Schedules ScheduleRunner ScheduleRows ScheduleMoves.

#[local] Open Scope Z_scope.

(** ** Authorization *)

Section requests.
Context `{Unicode} `{Engine} (authorize : string -> bool).

(** Holding the management permission and the permission of the action itself. *)
Definition permitted (a : ScheduleAction) : Prop :=
  authorize _SCHEDULE_MANAGE_PERMISSION = true /\ authorize (_ACTION_PERMISSION a) = true.

Definition in_community (d : db) (community server : uuid) : Prop :=
  exists row, d.(servers) !! server = Some row /\ row.(s_community_id) = community.

Lemma authorize_write_ok a : _authorize_write authorize a = Ok tt -> permitted a.
Proof.
  unfold _authorize_write, permitted. cbn.
  destruct (authorize _SCHEDULE_MANAGE_PERMISSION), (authorize (_ACTION_PERMISSION a)); done.
Qed.

Lemma require_server_ok c srv d u : (_require_server c srv d).1 = Ok u -> in_community d c srv.
Proof.
  unfold _require_server, mbind, M_bind, gets. cbn. destruct (servers d !! srv) as [row|] eqn:E; [|done].
  unfold guard_not. case_bool_decide; [|done]. intros _. by exists row.
Qed.

(** Peel a reading statement off a unit of work, and off a read. *)
Ltac peel H E :=
  rewrite uow_read_bind in H by auto using reads_require_server, reads_unique, reads_plan, reads_load, reads_load_ref with reads;
  match type of H with (match ?x with Ok _ => _ | Err _ => _ end) = _ => destruct x eqn:E end;
  [unfold lift in E; cbn [fst] in E|simplify_eq].

Lemma create_guarded now fresh c srv n d r d' :
  CreateSchedule authorize now fresh c srv n d = (r, d') -> d' = d \/ (in_community d c srv /\ permitted n.(n_action)).
Proof.
  unfold CreateSchedule. intros Hc. peel Hc E1; [|by left]. peel Hc E2; [|by left]. right. destruct a, a0.
  split; [by eapply require_server_ok|by apply authorize_write_ok].
Qed.

Lemma plan_in_community now c srv i p d s :
  (plan_update authorize now c srv i p d).1 = Ok s -> in_community d c srv.
Proof.
  unfold plan_update. rewrite read_bind by apply reads_load. destruct (_load_schedule c srv i d).1 eqn:E; [|done]. intros _.
  revert E. unfold _load_schedule. rewrite read_bind by apply reads_require_server.
  destruct (_require_server c srv d).1 eqn:E; [|done]. intros _. by eapply require_server_ok.
Qed.

Lemma update_guarded now c srv i p d r d' :
  keyed d -> UpdateSchedule authorize now c srv i p d = (r, d') -> d' = d \/ exists row,
    d.(schedules) !! i = Some row /\ row.(m_server_id) = srv /\ in_community d c srv /\ permitted row.(m_action).
Proof.
  intros Hk Hc. unfold UpdateSchedule in Hc. peel Hc E1; [|by left]. right.
  destruct (plan_ok _ _ _ _ _ _ _ _ E1) as (row & existing & Hrow & Hload & _ & _ & Hs & _ & _ & _ & _ & Hsrv & Ha).
  pose proof (to_schedule_ok row existing Hload) as (_ & _ & Hrs & _). exists row. split_and!; [done|congruence| |].
  - by eapply plan_in_community.
  - pose proof (to_schedule_ok row existing Hload) as (_ & _ & _ & Hact & _). apply authorize_write_ok. congruence.
Qed.

Lemma delete_guarded c srv i d r d' :
  DeleteSchedule authorize c srv i d = (r, d') -> d' = d \/ exists row,
    d.(schedules) !! i = Some row /\ row.(m_server_id) = srv /\ in_community d c srv /\ permitted row.(m_action).
Proof.
  intros Hc. unfold DeleteSchedule in Hc. peel Hc E1; [|by left]. peel Hc E2; [|by left]. right. destruct a0.
  revert E1. unfold _load_schedule_ref. rewrite read_bind by apply reads_require_server.
  destruct (_require_server c srv d).1 eqn:E; [|done]. apply require_server_ok in E.
  unfold get_ref, gets, mbind, M_bind. cbn. destruct (schedules d !! i) as [row|]; [|done]. cbn.
  unfold guard_not. case_bool_decide; [|done]. intros [= <-]. exists row. split_and!; [done|done|done|by apply authorize_write_ok].
Qed.

(** ** Written and read back *)

Lemma update_stored now c srv i p d s d' :
  keyed d -> UpdateSchedule authorize now c srv i p d = (Ok s, d') ->
  later now s /\ s.(id) = i /\ s.(server_id) = srv /\ in_community d c srv /\ d'.(servers) = d.(servers)
  /\ d'.(schedules) = <[i := to_row s]> d.(schedules).
Proof.
  intros Hk Hc. unfold UpdateSchedule in Hc. peel Hc E1. rewrite uow_write_commit in Hc.
  pose proof (plan_in_community _ _ _ _ _ _ _ E1) as Hin.
  destruct (plan_ok _ _ _ _ _ _ _ _ E1) as (row & existing & Hrow & Hload & Hl & Hid & Hs & Hca & Hcb & _ & _ & Hsrv & _).
  pose proof (to_schedule_ok row existing Hload) as (_ & Hrid & _). pose proof (Hk _ _ Hrow) as Hkey.
  assert (Hai : a.(id) = i) by congruence.
  destruct (update a d) as [r' d1] eqn:Eu.
  destruct (update_effect now a row existing d r' d1 Hk ltac:(congruence) Hload Hl Hs Hca Hcb Eu) as (_ & _ & Hsv & Hsch).
  destruct r' as [[]|]; [|done]. injection Hc as Es <-. subst a. rewrite Hai in Hsch. naive_solver.
Qed.

Lemma create_stored now fresh c srv n d s d' :
  keyed d -> CreateSchedule authorize now fresh c srv n d = (Ok s, d') ->
  later now s /\ s.(id) = fresh /\ s.(server_id) = srv /\ in_community d c srv /\ d'.(servers) = d.(servers)
  /\ d'.(schedules) = <[fresh := to_row s]> d.(schedules).
Proof.
  intros Hk Hc. destruct (create_effect _ _ _ _ _ _ _ _ _ Hk Hc) as (_ & _ & Hsv & Hs).
  destruct (Hs s eq_refl) as (Hl & Hid & Hsch & _). split_and!; [done|done| | |done|done];
    unfold CreateSchedule in Hc; peel Hc E1.
  - do 3 (peel Hc E2; clear E2). peel Hc E5. do 2 (peel Hc E6; clear E6). peel Hc E8.
    rewrite uow_write_commit in Hc. destruct (add _ d) as [[]]; [|done]. injection Hc as <- <-.
    apply armed_fields in E8 as (_ & -> & _). by apply make_schedule_ok in E5 as (? & _ & -> & _).
  - by eapply require_server_ok.
Qed.

Lemma stored_reads c srv i s d :
  valid s -> s.(server_id) = srv -> in_community d c srv -> d.(schedules) !! i = Some (to_row s) ->
  ReadSchedule c srv i d = (Ok s, d).
Proof.
  intros Hv Hs (row & Hrow & Hc) Hi. unfold ReadSchedule. rewrite uow_read. f_equal. unfold _load_schedule.
  rewrite read_bind by apply reads_require_server. unfold _require_server. rewrite read_bind by done. cbn. rewrite Hrow.
  rewrite bool_decide_eq_true_2 by done. cbn. rewrite read_bind by done. cbn. rewrite Hi. cbn. unfold loaded.
  rewrite schedule_row_roundtrip by done. unfold mbind, M_bind, guard_not. by rewrite bool_decide_eq_true_2.
Qed.
End requests.

(** C33: nobody changes a schedule without the permission to manage schedules and the
    permission of the very action it performs, on a server of the addressed community:
    a request that lacks one of them leaves the database as it was. *)
Theorem schedule_writes_are_authorized `{Unicode} `{Engine} (authorize : string -> bool) now fresh c srv i n p d :
  keyed d ->
  ((CreateSchedule authorize now fresh c srv n d).2 <> d -> in_community d c srv /\ permitted authorize n.(n_action))
  /\ ((UpdateSchedule authorize now c srv i p d).2 <> d \/ (DeleteSchedule authorize c srv i d).2 <> d ->
        exists row, d.(schedules) !! i = Some row /\ row.(m_server_id) = srv
          /\ in_community d c srv /\ permitted authorize row.(m_action)).
Proof.
  intros Hk. split.
  - destruct (CreateSchedule _ _ _ _ _ _ _) as [r d'] eqn:E. by destruct (create_guarded _ _ _ _ _ _ _ _ _ E).
  - intros [Hu|Hu].
    + destruct (UpdateSchedule _ _ _ _ _ _ _) as [r d'] eqn:E. by destruct (update_guarded _ _ _ _ _ _ _ _ _ Hk E).
    + destruct (DeleteSchedule _ _ _ _ _) as [r d'] eqn:E. by destruct (delete_guarded _ _ _ _ _ _ _ E).
Qed.

