(* ===== verification/ScheduleHistory.v ===== *)
(** * The run history

    Recording a run keeps the newest runs of its schedule, up to the cap, and leaves
    the history of every other schedule alone. *)
From Stdlib Require Import ZArith NArith Lia String Ascii.
From stdpp Require Import base gmap strings list sorting.
From S2P Require Import Prelude Uow Uuid Calendar Text VersionRange ServerRow Schedule ScheduleStore Schedules ScheduleRunner ScheduleRows ScheduleMoves.

#[local] Open Scope Z_scope.

(** ** The order of a history *)

#[export] Instance newest_first_total : Total newest_first.
Proof. intros a b. unfold newest_first. lia. Qed.
#[export] Instance newest_first_trans : Transitive newest_first.
Proof. intros a b c. unfold newest_first. lia. Qed.

(** Runs are stored under their ids. *)
Definition runs_keyed (d : db) : Prop := forall k run, d.(schedule_runs) !! k = Some run -> run.(run_id) = k.

Lemma elem_of_runs i d run :
  run ∈ runs_of i d <-> (exists k, d.(schedule_runs) !! k = Some run) /\ run.(schedule_id) = i.
Proof.
  unfold runs_of. rewrite merge_sort_Permutation, elem_of_filter_bool, bool_decide_eq_true. apply and_iff_compat_r. split.
  - intros ([k row'] & -> & Hk%elem_of_map_to_list)%list_elem_of_fmap. by exists k.
  - intros [k Hk]. apply list_elem_of_fmap. exists (k, run). split; [done|by apply elem_of_map_to_list].
Qed.

Lemma runs_ids_nodup i d : runs_keyed d -> NoDup (map run_id (runs_of i d)).
Proof.
  intros Hk. unfold runs_of.
  assert (Hp : forall l, map run_id (merge_sort newest_first l) ≡ₚ map run_id l) by (intros l; apply fmap_Permutation, merge_sort_Permutation).
  rewrite Hp. clear Hp. eapply sublist_NoDup; [apply (NoDup_fst_map_to_list d.(schedule_runs))|].
  assert (Hall : Forall (fun kv : uuid * ScheduleRun => kv.2.(run_id) = kv.1) (map_to_list d.(schedule_runs))).
  { apply Forall_forall. intros [k run] Hin%elem_of_map_to_list. by apply Hk. }
  induction Hall as [|[k row] l Hkv _ IH]; [constructor|]. cbn in *. case_match; cbn; [rewrite Hkv|]; by constructor.
Qed.

Lemma runs_nodup i d : runs_keyed d -> NoDup (runs_of i d).
Proof. intros Hk. by eapply NoDup_fmap_1, runs_ids_nodup. Qed.

Lemma runs_sorted i d : StronglySorted newest_first (runs_of i d).
Proof. apply Sorted_StronglySorted; [apply _|]. unfold runs_of. apply Sorted_merge_sort; apply _. Qed.

(** A history is determined by its members. *)
Lemma history_unique i d l :
  runs_keyed d -> NoDup l -> StronglySorted newest_first l ->
  (forall run, run ∈ runs_of i d <-> run ∈ l) -> runs_of i d = l.
Proof.
  intros Hk Hnd Hs He. eapply StronglySorted_unique_strong; [|apply runs_sorted|exact Hs|by apply NoDup_Permutation; [apply runs_nodup|..]].
  intros a b [[k Ha] _]%elem_of_runs [[k' Hb] _]%He%elem_of_runs Hab Hba. unfold newest_first in *.
  assert (k = k') as <- by (rewrite <- (Hk _ _ Ha), <- (Hk _ _ Hb); lia). congruence.
Qed.

(** ** Pruning *)

Lemma take_nodup_iff {A B} (f : A -> B) n (l : list A) x : NoDup (map f l) ->
  x ∈ l /\ f x ∉ map f (drop n l) <-> x ∈ take n l.
Proof.
  intros Hnd. rewrite <- (take_drop n l) in Hnd at 1. rewrite map_app, NoDup_app in Hnd. destruct Hnd as (_ & Hd & _).
  rewrite <- (take_drop n l) at 1. rewrite elem_of_app. split.
  - intros [[|Hin] Hn]; [done|]. exfalso. by apply Hn, list_elem_of_fmap_2.
  - intros Hin. split; [by left|]. by apply Hd, list_elem_of_fmap_2.
Qed.

Lemma prune_spec i keep d d' : runs_keyed d -> prune_for_schedule i keep d = (Ok tt, d') ->
  runs_keyed d' /\ runs_of i d' = take keep (runs_of i d) /\ forall j, j <> i -> runs_of j d' = runs_of j d.
Proof.
  intros Hk [= <-]. set (ids := map run_id (drop keep (runs_of i d))).
  assert (Hl : forall k run, schedule_runs (with_runs (filter (fun kv => run_id kv.2 ∉ ids) d.(schedule_runs)) d) !! k = Some run
    <-> d.(schedule_runs) !! k = Some run /\ run.(run_id) ∉ ids) by (intros k run; apply map_lookup_filter_Some).
  assert (Hk' : runs_keyed (with_runs (filter (fun kv => run_id kv.2 ∉ ids) d.(schedule_runs)) d)).
  { intros k run [Hr _]%Hl. by apply Hk. }
  split_and!; [done| |].
  - apply history_unique; [done|by eapply sublist_NoDup; [apply (runs_nodup i d)|apply sublist_take]| |].
    + pose proof (runs_sorted i d) as Hs. rewrite <- (take_drop keep (runs_of i d)) in Hs. by apply StronglySorted_app_1_l in Hs.
    + intros run. rewrite <- (take_nodup_iff run_id) by (by apply runs_ids_nodup). fold ids. rewrite !elem_of_runs.
      setoid_rewrite Hl. naive_solver.
  - intros j Hj. apply history_unique; [done|by apply runs_nodup|apply runs_sorted|]. intros run. rewrite !elem_of_runs.
    setoid_rewrite Hl. split; [naive_solver|]. intros [[k Hr] Hs]. split; [|done]. exists k. split; [done|].
    intros (x & Hx & Hin)%list_elem_of_fmap. apply (subseteq_drop keep) in Hin. apply elem_of_runs in Hin as [[k' Hr'] Hs'].
    pose proof (Hk _ _ Hr). pose proof (Hk _ _ Hr'). assert (k = k') as <- by congruence. congruence.
Qed.

(** ** Recording *)

Lemma add_run_spec run d d' : runs_keyed d -> add_run run d = (Ok tt, d') ->
  d' = with_runs (<[run.(run_id) := run]> d.(schedule_runs)) d /\ runs_keyed d'
  /\ (forall x, x ∈ runs_of run.(schedule_id) d' <-> x = run \/ x ∈ runs_of run.(schedule_id) d)
  /\ run ∉ runs_of run.(schedule_id) d
  /\ forall j, j <> run.(schedule_id) -> runs_of j d' = runs_of j d.
Proof.
  intros Hk. unfold add_run, try_modify. destruct (_ ≫= _) as [d2|] eqn:E; [|done]. intros [= <-].
  apply bind_ok in E as (u & Hnew%raise_if_ok%bool_decide_eq_false & E). apply bind_ok in E as (u' & _ & [= <-]).
  rewrite <- eq_None_not_Some in Hnew.
  assert (Hk' : runs_keyed (with_runs (<[run.(run_id) := run]> d.(schedule_runs)) d)).
  { intros k x. cbn. rewrite lookup_insert_Some. intros [[<- <-]|[_ Hx]]; [done|by apply Hk]. }
  assert (Hl : forall j x, x ∈ runs_of j (with_runs (<[run.(run_id) := run]> d.(schedule_runs)) d)
    <-> (x = run /\ run.(schedule_id) = j) \/ x ∈ runs_of j d).
  { intros j x. rewrite !elem_of_runs. cbn. setoid_rewrite lookup_insert_Some. split.
    - intros [[k [[<- <-]|[_ Hx]]] Hs]; [by left|right; eauto].
    - intros [[-> Hs]|[[k Hx] Hs]]; [eauto 6|]. split; [|done]. exists k. right. split; [congruence|done]. }
  split_and!; [done|done| | |].
  - intros x. rewrite Hl. naive_solver.
  - intros [[k Hr] _]%elem_of_runs. pose proof (Hk _ _ Hr). congruence.
  - intros j Hj. apply history_unique; [done|by apply runs_nodup|apply runs_sorted|]. intros x. rewrite Hl. naive_solver.
Qed.

Section record.
Context `{Unicode} `{Engine}.

Lemma record_committed now s run adv last d d' :
  uow (record_run now s run adv last) d = (Ok true, d') -> exists d1 d2,
  add_run run d = (Ok tt, d1) /\ prune_for_schedule s.(id) _HISTORY_CAP d1 = (Ok tt, d2)
  /\ d'.(schedule_runs) = d2.(schedule_runs).
Proof.
  unfold record_run. rewrite uow_read_bind by apply reads_get_by_id. destruct (lock (id s) d).1 as [[cur|]|]; [|done..].
  unfold uow, on, commit, mbind, M_bind. cbn. destruct (add_run run d) as [[[]|] d1]; cbn; [|done].
  set (d2 := with_runs _ d1). intros E. exists d1, d2. split_and!; [done|done|]. revert E. destruct adv; cbn.
  - unfold _advance. destruct (next_run_at s) as [t|]; [|done]. destruct (_next_run_at s now) as [next|]; [|done]. cbn.
    intros [= <-]. cbn. repeat case_match; done.
  - by intros [= <-].
Qed.
End record.

(** the history of a schedule is capped: a record that commits leaves the newest
    [_HISTORY_CAP] of the schedule's runs, the recorded one among the candidates, in
    their order, and leaves every other schedule's history as it was. *)
Theorem history_keeps_the_newest `{Unicode} `{Engine} now s run adv last d d' :
  runs_keyed d -> run.(schedule_id) = s.(id) -> txn_do now (RecordRun s run adv last) d = (Ok true, d') ->
  (exists all, StronglySorted (fun a b => b.(started_at) < a.(started_at)
       \/ (a.(started_at) = b.(started_at) /\ (b.(run_id) <= a.(run_id))%N)) all /\ all ≡ₚ run :: runs_of s.(id) d /\ runs_of s.(id) d' = take 50 all)
  /\ (forall j, j <> s.(id) -> runs_of j d' = runs_of j d)
  /\ runs_keyed d'.
Proof.
  intros Hk Hs E. destruct (record_committed _ _ _ _ _ _ _ E) as (d1 & d2 & E1 & E2 & Er).
  destruct (add_run_spec run d d1 Hk E1) as (-> & Hk1 & Hin & Hni & Hj). rewrite Hs in *.
  destruct (prune_spec _ _ _ _ Hk1 E2) as (Hk2 & Hi2 & Hj2).
  assert (Hruns : forall j, runs_of j d' = runs_of j d2) by (intros j; unfold runs_of; by rewrite Er).
  split_and!; [|intros j Hne; by rewrite Hruns, Hj2, Hj|unfold runs_keyed; by rewrite Er].
  eexists. rewrite Hruns, Hi2. split_and!; [apply runs_sorted| |done].
  apply NoDup_Permutation; [by apply runs_nodup|constructor; [done|by apply runs_nodup]|].
  intros x. by rewrite Hin, elem_of_cons.
Qed.
