(* ===== verification/ScheduleNotes.v ===== *)
(** * What the runner tells and what it lets pass

    The notifications of a schedule's failures alternate in every state the scheduler
    reaches, and an occurrence that became stale is skipped. *)
From Stdlib Require Import ZArith NArith Lia String Ascii.
From stdpp Require Import base gmap strings list.
From S2P Require Import Prelude Uow Uuid Calendar Program Text VersionRange ServerRow Schedule ScheduleStore Schedules ScheduleRunner ScheduleRows ScheduleMoves ScheduleSystem.

#[local] Open Scope Z_scope.

(** ** Notifications *)

(** One schedule's notifications, read from its state: a failure is told when the
    schedule is not failing, a recovery when it is; [None] is a breach. *)
Definition heard (i : uuid) (failing : bool) (f : frame) : option bool :=
  match f with
  | Notified j Failing => if decide (j = i) then if failing then None else Some true else Some failing
  | Notified j Recovered => if decide (j = i) then if failing then Some false else None else Some failing
  | Forgotten j => Some (if decide (j = i) then false else failing)
  end.

Fixpoint listen (i : uuid) (failing : bool) (fs : list frame) : option bool :=
  match fs with
  | [] => Some failing
  | f :: fs => failing' ← heard i failing f; listen i failing' fs
  end.

Lemma listen_app i b fs gs : listen i b (fs ++ gs) = (b' ← listen i b fs; listen i b' gs).
Proof. revert b. induction fs as [|f fs IH]; intros b; [done|]. cbn. destruct (heard i b f); [apply IH|done]. Qed.

(** What was told of a schedule ends at its current state. *)
Definition told (m : memory) : Prop := forall i, listen i false m.(bus) = Some (bool_decide (i ∈ m.(_notifying))).

Lemma told_notifying n fs m :
  told m -> (forall i, listen i (bool_decide (i ∈ m.(_notifying))) fs = Some (bool_decide (i ∈ n))) ->
  told (set_notifying n fs m).
Proof. intros Hm Hn i. cbn. rewrite listen_app, Hm. apply Hn. Qed.

Lemma told_op {T} (op : mem_op T) m : told m -> told (mem_do op m).2.
Proof.
  intros Hm. destruct op as [now| |s|s r now|s o|s|key|keys|now]; try exact Hm.
  - unfold mem_do, _reschedule_retry. destruct (r_outcome r), (r_retryable r); exact Hm.
  - cbn. destruct o; cbn; [| |exact Hm]; case_bool_decide; try exact Hm; apply told_notifying; try done; intros i; cbn;
      case_decide as Hi; subst; repeat case_bool_decide; try done; set_solver.
  - cbn. unfold _forget. apply told_notifying; [done|]. intros i. cbn. case_decide as Hi; subst; repeat case_bool_decide; try done; set_solver.
Qed.

Section system.
Context `{Unicode} `{Engine} (grace : timedelta).

Lemma told_exec now w w' {T} (ev : event T) r : exec now w w' ev r -> told w.(mem) -> told w'.(mem).
Proof.
  destruct ev as [| |T x|T op|srv a l|c srv l|c srv|i o| |]; cbn.
  all: try (intros He; assert (w'.(mem) = w.(mem)) as -> by (intuition congruence); done).
  intros (_ & _ & _ & ->). apply told_op.
Qed.

Lemma told_step σ σ' : step grace σ σ' -> told σ.(world_).(mem) -> told σ'.(world_).(mem).
Proof.
  intros Hs Hm. destruct Hs; try exact Hm; [by eapply told_exec..|]. by intros i.
Qed.
End system.

(** C29: failure notifications of a schedule alternate: in every state the scheduler can
    reach, each failing frame on the bus found the schedule healthy and each recovery
    found it failing, whatever executions, deletions and restarts happened between, and
    the runner's set of failing schedules is what the frames add up to. *)
Theorem notifications_alternate `{Unicode} `{Engine} grace σ0 σ :
  σ0.(world_).(mem) = fresh_memory -> reachable grace σ0 σ ->
  forall i, listen i false σ.(world_).(mem).(bus) = Some (bool_decide (i ∈ σ.(world_).(mem).(_notifying))).
Proof.
  intros H0' Hr. induction Hr as [|σ σ' _ IH Hs]; [by rewrite H0'|]. by eapply told_step.
Qed.

(** ** One due schedule *)

Section due.
Context `{Unicode} `{Engine} (s : Schedule) (now : datetime) (prev : option datetime).

(** An occurrence the runner may no longer fire. *)
Definition too_late : Prop :=
  s.(action) <> BACKUP /\ exists t, s.(next_run_at) = Some t /\ LATE_RUN_GRACE < now - t /\ forall p, prev = Some p -> t <= p.

(** Where the handling is: nothing decided; cleared to fire by its locked row; fired,
    with the use case's answer; written down. *)
Inductive phase := Undecided | Cleared | Fired (e : option use_case_error) (row : Server) | Written.

Definition claim_clears (r : result exn (option Schedule)) : phase :=
  match r with
  | Ok (Some cur) => if cur.(enabled) && bool_decide (cur.(next_run_at) = s.(next_run_at)) then Cleared else Undecided
  | _ => Undecided
  end.

Definition due_next_tx {T} (q : phase) (x : txn T) : result exn T -> phase :=
  match x in txn T return result exn T -> phase with
  | Claim _ => claim_clears
  | RecordRun _ _ _ _ => fun _ => Written
  | _ => fun _ => q
  end.

Definition due_next {T} (q : phase) (ev : event T) : result exn T -> phase :=
  match ev in event T return result exn T -> phase with
  | Tx x => due_next_tx q x
  | Dispatch row _ _ => fun r => match r with Ok e => Fired e row | Err _ => q end
  | _ => fun _ => q
  end.

(** A run as it has to be written in a phase. *)
Definition run_written (q : phase) (run : ScheduleRun) (last : option datetime) : Prop :=
  run.(schedule_id) = s.(id) /\
  match q with
  | Undecided => too_late /\ run.(outcome) = SKIPPED /\ last = s.(last_run_at)
  | Cleared => run.(outcome) = SKIPPED /\ last = Some run.(started_at)
  | Fired e row =>
      let r := classify e row.(s_community_id) in
      run.(outcome) = r.(r_outcome) /\ run.(detail) = r.(r_detail) /\ last = Some run.(started_at)
  | Written => False
  end.

Definition due_ok {T} (q : phase) (ev : event T) : Prop :=
  match ev with
  | Tx (Claim i) => q = Undecided /\ i = s.(id)
  | Tx (RecordRun s' run adv last) => s' = s /\ adv = true /\ run_written q run last
  | Dispatch row a line =>
      q = Cleared /\ ~ too_late /\ a = s.(action) /\ line = s.(command)
      /\ _precondition_skip row s.(action) s.(only_when_running) = None
  | PruneBackups _ srv => q = Written /\ s.(action) = BACKUP /\ srv = s.(server_id)
  | SendCommand _ _ _ => False
  | _ => True
  end.

Definition written_down (r : result exn unit) (q : phase) : Prop :=
  match r, q with Ok _, Cleared | Ok _, Fired _ _ => False | _, _ => True end.

#[local] Notation due_safe p q post := (safe any_reply (fun T => @due_ok T) (fun T => @due_next T) p q post).

(** Events of the bookkeeping. *)
Definition plain {T} (ev : event T) : Prop := forall q, due_ok q ev /\ forall r, due_next q ev r = q.

Lemma due_plain {A T} (ev : event T) (f : T -> coroutine A) q (post : result exn A -> phase -> Prop) :
  plain ev -> (forall x, due_safe (f x) q post) -> (forall e, post (Err e) q) -> due_safe (call ev ≫= f) q post.
Proof.
  intros Hp Hf He. destruct (Hp q) as [Hok Hn]. apply safe_bind, safe_call; [done|].
  intros [x|e] _; rewrite Hn; [apply Hf|apply He].
Qed.

Lemma due_locked {A} (p : coroutine A) q (post : result exn A -> phase -> Prop) :
  due_safe p q (fun r q' => post r q' /\ forall e, post (Err e) q') -> (forall e, post (Err e) q) -> due_safe (locked p) q post.
Proof.
  intros Hp He. unfold locked. apply due_plain; [done|intros _|done]. apply safe_finally.
  eapply safe_mono; [exact Hp|]. intros r q' [Hr Hr']. apply safe_call; [done|]. by intros [[]|e] _.
Qed.

Lemma record_due r st fi last q (post : result exn bool -> phase -> Prop) :
  (forall u, run_written q {| run_id := u; schedule_id := s.(id); started_at := st; finished_at := fi;
                              outcome := r.(r_outcome); detail := r.(r_detail) |} last) ->
  (forall r q', q' = Written \/ (q' = q /\ exists e, r = Err e) -> post r q') -> due_safe (_record s r st fi true last) q post.
Proof.
  intros Hw Hpost. unfold _record. apply due_plain; [done|intros u|intros e; apply Hpost; right; eauto].
  apply safe_bind, safe_call; [by split_and!; [..|apply Hw]|]. intros [b|e] _; cbn [due_next due_next_tx]; [|apply Hpost; by left].
  assert (Hend : forall r, post r Written) by (intros r'; apply Hpost; by left).
  assert (Hplain : forall (p : coroutine unit) (f : unit -> coroutine bool), (due_safe p Written (fun _ q' => q' = Written)) ->
    (forall x, due_safe (f x) Written post) -> due_safe (p ≫= f) Written post).
  { intros p f Hp Hf. apply safe_bind. eapply safe_mono; [exact Hp|]. intros [x|e] q' ->; auto. }
  apply Hplain.
  - destruct (r_outcome r); [| |done]; (apply safe_bind, safe_call; [done|]; intros [x|e] _; [by apply safe_call|done]).
  - intros _. apply Hplain; [destruct b; [done|by apply safe_call]|]. intros _. apply Hend.
Qed.

Lemma stale_is_late : s.(action) <> BACKUP -> _is_stale s now prev = true -> too_late.
Proof.
  intros Ha. unfold _is_stale. destruct (next_run_at s) as [t|] eqn:Hn; [|done].
  destruct (now - t <=? LATE_RUN_GRACE) eqn:Hl; [done|]. intros Hp. split; [done|]. exists t.
  split_and!; [done|by apply Z.leb_gt|]. intros p ->. apply negb_true_iff, Z.ltb_ge in Hp. lia.
Qed.

Lemma late_is_stale : too_late -> _is_stale s now prev = true.
Proof.
  intros (_ & t & Hn & Hl & Hp). unfold _is_stale. rewrite Hn. rewrite (proj2 (Z.leb_gt _ _)) by done.
  destruct prev as [p|]; [|done]. specialize (Hp p eq_refl). apply negb_true_iff, Z.ltb_ge. lia.
Qed.

Lemma execute_due : ~ too_late ->
  due_safe (_execute s) Cleared (fun r q =>
    match r with
    | Ok (res, st, fi) =>
        (q = Cleared /\ res.(r_outcome) = SKIPPED)
        \/ exists e row, q = Fired e row /\ res = classify e row.(s_community_id)
    | Err _ => True
    end).
Proof.
  intros Hlate. unfold _execute. apply due_plain; [done|intros st|done]. apply safe_bind. unfold ExecuteScheduleAction.
  apply due_plain; [done|intros found|done].
  assert (Hend : forall q (res : ActionResult), ((q = Cleared /\ res.(r_outcome) = SKIPPED)
      \/ exists e row, q = Fired e row /\ res = classify e row.(s_community_id)) ->
    due_safe (finished ← call Now; Ret (res, st, finished)) q (fun r q => match r with
      | Ok (res, st, fi) => (q = Cleared /\ res.(r_outcome) = SKIPPED)
          \/ exists e row, q = Fired e row /\ res = classify e row.(s_community_id)
      | Err _ => True end)).
  { intros q res Hq. by apply due_plain. }
  destruct found as [row|]; [|apply Hend; by left]. destruct (_precondition_skip row _ _) eqn:Hpre; [apply Hend; by left|].
  apply safe_bind, safe_call; [done|]. intros [e|e] _; cbn [due_next]; [|done]. apply Hend. right. eauto.
Qed.

Lemma claim_due (post : result exn (option Schedule) -> phase -> Prop) :
  (forall r, post r (claim_clears r)) -> (forall e, post (Err e) Undecided) -> post (Ok None) Undecided ->
  due_safe (_claim s.(id)) Undecided post.
Proof.
  intros Hr He Hn. unfold _claim. apply safe_bind, safe_call; [done|]. intros [[cur|]|e] _; [apply (Hr (Ok (Some cur)))| |apply He].
  by apply due_plain.
Qed.
End due.

(** C27: handling a due schedule: whatever the rest of the system answers, the action is
    fired only after the schedule's locked row was found enabled and still armed for
    this occurrence, with the schedule's own action and line, on a server whose state
    passes the precondition, and never for an occurrence that became stale; exactly one
    run is written and it tells what happened, the answer of the use case classified, or
    a skip; after a fired action the handling does not end without the record. *)
Theorem due_schedule_contract `{Unicode} `{Engine} s now prev :
  safe any_reply (fun T => @due_ok s now prev T) (fun T => @due_next s T)
    (_run_due s now prev) Undecided written_down.
Proof.
  unfold _run_due. destruct (negb _ && _) eqn:Hst.
  - apply andb_prop in Hst as [Ha%negb_true_iff%bool_decide_eq_false Hst]. pose proof (stale_is_late s now prev Ha Hst) as Hlate.
    apply due_plain; [done|intros stale_now|done]. apply safe_bind, due_locked; [|done].
    apply record_due; [done|]. intros r q' [->|[-> [e ->]]]; (split; [|done]); [by destruct r|done].
  - assert (Hlate : ~ too_late s now prev).
    { intros Hl. rewrite (late_is_stale s now prev Hl) in Hst. destruct Hl as [Ha _].
      rewrite bool_decide_eq_false_2 in Hst by done. done. }
    apply safe_bind, due_locked; [|done]. apply claim_due; [|done|done]. intros r. split; [|by destruct r as [[]|]].
    destruct r as [[cur|]|e]; [|done..]. cbn [claim_clears]. unfold still_due. clear Hst. destruct (_ && _); cbn [negb]; [|done].
    apply safe_bind. eapply safe_mono; [by apply execute_due|]. intros [[[r st] fi]|e] q Hq; [|done].
    apply safe_bind, due_locked; [|done]. apply record_due.
    + intros u. split; [done|]. destruct Hq as [[-> Hr]|(e & row & -> & ->)]; done.
    + intros r' q' Hq'. split; [|done]. destruct r' as [b|e]; [|done]. destruct Hq' as [->|[_ [e [=]]]].
      apply safe_bind. assert (Hresch : safe any_reply (fun T => @due_ok s now prev T) (fun T => @due_next s T)
        (if b && bool_decide (s.(action) = BACKUP) then call (Mem (RescheduleRetry s.(id) r fi)) else Ret tt) Written
        (fun _ q => q = Written)) by (destruct (b && _); [by apply safe_call|done]).
      eapply safe_mono; [exact Hresch|]. intros [[]|e] q' ->; [|done]. apply due_locked; [|done].
      unfold _prune_after_backup. destruct (action s) eqn:Ha, (r_outcome r), (r_community_id r); try done.
      apply safe_try, safe_call; [done|]. intros [[]|e] _; [done|]. by destruct e.
Qed.
