(* ===== verification/ScheduleWarnings.v ===== *)
(** * Warnings before an occurrence

    [_send_warnings]: what the pass says to the players, followed with the memory of
    what was said. *)
From Stdlib Require Import ZArith NArith Lia String Ascii.
From stdpp Require Import base gmap strings list.
From S2P Require Import Prelude Uow Uuid Calendar Program Text VersionRange ServerRow Schedule ScheduleStore Schedules ScheduleRunner ScheduleRows ScheduleMoves ScheduleSystem.

#[local] Open Scope Z_scope.

Abbreviation warning_key := (uuid * datetime * Z)%type.

Section warnings.
Context `{Unicode} `{Engine} (now : datetime) (grace : timedelta).

Definition key_of (s : Schedule) (occurrence : datetime) (step : WarningStep) : warning_key :=
  (s.(id), occurrence, step.(offset_minutes)).

(** Its moment has come and is not past the grace. *)
Definition in_window (k : warning_key) : bool :=
  (k.1.2 - minutes k.2 <=? now) && (now <=? k.1.2 - minutes k.2 + grace).

(** What was said, the schedules polled, and what the pass is about to say; [Astray]
    once a reply contradicts the memory. *)
Inductive voice := Speaking (said : gset warning_key) (polled : list Schedule) (due : list warning_key) | Astray.

(** A schedule the poll may answer. *)
Definition candidate (s : Schedule) : Prop := valid s /\ exists occurrence, s.(next_run_at) = Some occurrence /\ now < occurrence.

Definition poll_reply (T : Type) (ev : event T) : result exn T -> Prop :=
  match ev in event T return result exn T -> Prop with
  | Tx x =>
      match x in txn T return result exn T -> Prop with
      | PollWarnings _ _ => fun r => match r with Ok l => Forall candidate l | Err _ => True end
      | _ => fun _ => True
      end
  | _ => fun _ => True
  end.

Definition polls {T} (q : voice) (x : txn T) : result exn T -> voice :=
  match x in txn T return result exn T -> voice with
  | PollWarnings _ _ => fun r =>
      match r, q with Ok l, Speaking said _ due => Speaking said l due | _, _ => q end
  | _ => fun _ => q
  end.

Definition remembers {T} (q : voice) (op : mem_op T) : result exn T -> voice :=
  match op in mem_op T return result exn T -> voice with
  | IsWarned k => fun r =>
      match r, q with
      | Ok b, Speaking said _ _ => if Bool.eqb b (bool_decide (k ∈ said)) then q else Astray
      | _, _ => q
      end
  | AddWarned keys => fun _ =>
      match q with
      | Speaking said polled _ => Speaking (list_to_set keys ∪ said) polled (List.filter in_window keys)
      | Astray => q
      end
  | PruneWarned t => fun _ =>
      match q with
      | Speaking said polled due => Speaking (filter (fun k => t < k.1.2) said) polled due
      | Astray => q
      end
  | _ => fun _ => q
  end.

Definition voice_next (T : Type) (q : voice) (ev : event T) : result exn T -> voice :=
  match ev in event T return result exn T -> voice with
  | Tx x => polls q x
  | Mem op => remembers q op
  | SendCommand _ _ _ => fun _ =>
      match q with Speaking said polled due => Speaking said polled (tail due) | Astray => q end
  | _ => fun _ => q
  end.

(** A step of a polled schedule, for the occurrence it is armed for. *)
Definition step_of (polled : list Schedule) (k : warning_key) (s : Schedule) (step : WarningStep) : Prop :=
  s ∈ polled /\ step ∈ s.(warning_steps)
  /\ exists occurrence, s.(next_run_at) = Some occurrence /\ now < occurrence /\ k = key_of s occurrence step.

Definition voice_ok (T : Type) (q : voice) (ev : event T) : Prop :=
  match q with
  | Astray => True
  | Speaking said polled due =>
      match ev with
      | Mem (AddWarned keys) => NoDup keys /\ forall k, k ∈ keys -> k ∉ said /\ exists s step, step_of polled k s step
      | Mem (PruneWarned t) => t = now
      | SendCommand _ srv line =>
          exists k due' s step, due = k :: due' /\ in_window k = true /\ step_of polled k s step
            /\ srv = s.(server_id) /\ line = WARNING_COMMAND_PREFIX ++ step.(message)
      | Dispatch _ _ _ | Tx (RecordRun _ _ _ _) => False
      | _ => True
      end
  end.

#[local] Notation speaks p q post := (safe poll_reply voice_ok voice_next p q post).

Lemma next_astray T (ev : event T) r : voice_next T Astray ev r = Astray.
Proof. destruct ev as [| |T x|T op|srv a l|c srv l|c srv|i o| |]; try done; [destruct x, r|destruct op, r]; done. Qed.

Lemma astray {A} (p : coroutine A) : speaks p Astray (fun _ q => q = Astray).
Proof. induction p as [a|e|T ev k IH]; [done|done|]. split; [done|]. intros r _. rewrite next_astray. apply IH. Qed.

Lemma mem_one (k x : warning_key) (said : gset warning_key) : x ∈ {[k]} ∪ ∅ ∪ said -> x = k \/ x ∈ said.
Proof. set_solver. Qed.

(** The loop over the steps: those it returns are new, in the window and in order; the
    memory grows only by steps of the loop. *)
Lemma due_steps_speaks s occurrence polled steps said pend :
  s ∈ polled -> s.(next_run_at) = Some occurrence -> now < occurrence -> steps ⊆ s.(warning_steps) ->
  NoDup (map offset_minutes steps) ->
  speaks (due_steps s occurrence now grace steps) (Speaking said polled pend) (fun r q =>
    q = Astray \/ exists said' pend', q = Speaking said' polled pend'
      /\ (forall k, k ∈ said' -> k ∈ said \/ exists step, step ∈ steps /\ k = key_of s occurrence step)
      /\ forall due, r = Ok due -> sublist due steps
         /\ forall step, step ∈ due -> key_of s occurrence step ∉ said' /\ in_window (key_of s occurrence step) = true).
Proof.
  intros Hs Hn Hlt. revert said pend. induction steps as [|step steps IH]; intros said pend Hsub Hnd; cbn [due_steps].
  { right. exists said, pend. split_and!; [done|by left|]. intros due [= <-]. split; [done|]. by intros x ?%not_elem_of_nil. }
  apply NoDup_cons in Hnd as [Hnew Hnd]. assert (Hsub' : steps ⊆ warning_steps s) by (intros x Hx; apply Hsub; by right).
  fold (key_of s occurrence step). set (k := key_of s occurrence step).
  assert (Htail : forall said0 pend0, speaks (due_steps s occurrence now grace steps) (Speaking said0 polled pend0) (fun r q =>
    q = Astray \/ exists said' pend', q = Speaking said' polled pend'
      /\ (forall k, k ∈ said' -> k ∈ said0 \/ exists step', step' ∈ step :: steps /\ k = key_of s occurrence step')
      /\ forall due, r = Ok due -> sublist due (step :: steps)
         /\ forall step, step ∈ due -> key_of s occurrence step ∉ said' /\ in_window (key_of s occurrence step) = true)).
  { intros said0 pend0. eapply safe_mono; [by apply IH|]. intros r q [->|(said' & pend' & -> & Hk & Hd)]; [by left|].
    right. exists said', pend'. split_and!; [done| |].
    - intros x Hx. destruct (Hk x Hx) as [|(st & ? & ?)]; [by left|]. right. exists st. split; [by right|done].
    - intros due Hr. destruct (Hd due Hr). split; [by constructor|done]. }
  apply safe_bind, safe_call; [done|]. intros [b|e] _; cbn [voice_next remembers].
  2:{ right. exists said, pend. split_and!; [done|by left|done]. }
  destruct (Bool.eqb b (bool_decide (k ∈ said))) eqn:Eb; [|eapply safe_mono; [apply astray|by left]].
  destruct b; [by apply Htail|]. apply Bool.eqb_prop in Eb. symmetry in Eb. apply bool_decide_eq_false in Eb.
  destruct (now <? occurrence - minutes (offset_minutes step)) eqn:Hearly; [by apply Htail|].
  apply Z.ltb_ge in Hearly.
  destruct (grace <? now - (occurrence - minutes (offset_minutes step))) eqn:Hlate.
  - apply safe_bind, safe_call.
    + split; [apply NoDup_singleton|]. intros x ->%list_elem_of_singleton. split; [done|]. exists s, step.
      split_and!; [done|apply Hsub; by left|by exists occurrence].
    + intros r _. assert (Hw : in_window k = false).
      { unfold in_window, k, key_of. cbn. apply andb_false_iff. right. apply Z.leb_gt. apply Z.ltb_lt in Hlate. lia. }
      cbn [voice_next remembers List.filter]. rewrite Hw. cbn [list_to_set]. destruct r as [[]|e].
      * eapply safe_mono; [apply Htail|]. intros r q [->|(said' & pend' & -> & Hk & Hd)]; [by left|]. right. exists said', pend'.
        split_and!; [done| |done]. intros x Hx. destruct (Hk x Hx) as [Hx'|]; [|by right].
        destruct (mem_one _ _ _ Hx') as [->|]; [|by left]. right. exists step. by split; [left|].
      * right. exists ({[k]} ∪ ∅ ∪ said), []. split_and!; [done| |done]. intros x Hx.
        destruct (mem_one _ _ _ Hx) as [->|]; [|by left]. right. exists step. by split; [left|].
  - apply safe_bind. eapply safe_mono; [by apply IH|]. intros r q [->|(said' & pend' & -> & Hk & Hd)].
    { destruct r; by left. }
    assert (Hk' : forall x, x ∈ said' -> x ∈ said \/ exists step', step' ∈ step :: steps /\ x = key_of s occurrence step').
    { intros x Hx. destruct (Hk x Hx) as [|(st & ? & ?)]; [by left|]. right. exists st. split; [by right|done]. }
    destruct r as [due|e]; right; exists said', pend'; (split_and!; [done|done|]); [|done]. intros due' [= <-].
    destruct (Hd due eq_refl) as [Hsub2 Hdue]. split; [by constructor|]. intros x [->|Hx]%elem_of_cons; [|by apply Hdue].
    split.
    + intros Hin. destruct (Hk _ Hin) as [|(st & Hst & Heq)]; [done|]. apply Hnew, list_elem_of_fmap. exists st.
      split; [|done]. unfold key_of in Heq. congruence.
    + unfold in_window, key_of. cbn. apply Z.ltb_ge in Hlate. apply andb_true_iff. split; apply Z.leb_le; lia.
Qed.

(** What is due is said, one line a step. *)
Lemma broadcast_speaks s occurrence polled said steps c :
  s ∈ polled -> s.(next_run_at) = Some occurrence -> now < occurrence ->
  (forall step, step ∈ steps -> step ∈ s.(warning_steps) /\ in_window (key_of s occurrence step) = true) ->
  speaks (broadcast c s.(server_id) steps) (Speaking said polled (map (key_of s occurrence) steps))
    (fun _ q => exists due, q = Speaking said polled due).
Proof.
  intros Hs Hn Hlt. induction steps as [|step steps IH]; intros Hst; [by eexists|]. cbn [broadcast].
  destruct (Hst step) as [Hin Hw]; [by left|].
  assert (Hrest : speaks (broadcast c s.(server_id) steps) (Speaking said polled (map (key_of s occurrence) steps))
    (fun _ q => exists due, q = Speaking said polled due)) by (apply IH; intros x Hx; apply Hst; by right).
  apply safe_bind, safe_call.
  - exists (key_of s occurrence step), (map (key_of s occurrence) steps), s, step. split_and!; try done. split_and!; [done..|by exists occurrence].
  - intros [[e|]|e] _; cbn; [destruct (is_ServerError e); [exact Hrest|by eexists]|exact Hrest|by eexists].
Qed.

Lemma valid_offsets s : valid s -> NoDup (map offset_minutes s.(warning_steps)).
Proof.
  intros [Hs _ _]. apply make_schedule_ok in Hs as (flag & Hflag & _ & _).
  unfold _validate_payload in Hflag. apply bind_ok in Hflag as (? & _ & Hflag). apply bind_ok in Hflag as (? & _ & Hflag).
  apply bind_ok in Hflag as (? & _ & Hflag). apply bind_ok in Hflag as (? & _ & Hflag).
  apply bind_ok in Hflag as (? & Hnd%raise_if_ok & _). by apply negb_false_iff, bool_decide_eq_true in Hnd.
Qed.

Definition speaking_of (polled : list Schedule) (q : voice) : Prop :=
  q = Astray \/ exists said due, q = Speaking said polled due.

Lemma sublist_map {A B} (f : A -> B) l k : sublist l k -> sublist (map f l) (map f k).
Proof. induction 1; cbn; [constructor|by apply sublist_skip|by apply sublist_cons]. Qed.

Lemma nodup_keys s occurrence steps : NoDup (map offset_minutes steps) -> NoDup (map (key_of s occurrence) steps).
Proof.
  induction steps as [|step steps IH]; cbn; [intros; constructor|]. rewrite !NoDup_cons. intros [Hn Hnd]. split; [|by apply IH].
  intros (x & Hx & Hin)%list_elem_of_fmap. apply Hn, list_elem_of_fmap. exists x. split; [|done]. unfold key_of in Hx. congruence.
Qed.

Lemma warn_schedule_speaks s polled said pend :
  candidate s -> s ∈ polled -> speaks (_warn_schedule s now grace) (Speaking said polled pend) (fun _ => speaking_of polled).
Proof.
  intros (Hv & occurrence & Hn & Hlt) Hs. unfold _warn_schedule. rewrite Hn. pose proof (valid_offsets s Hv) as Hnd.
  apply safe_bind. eapply safe_mono; [by apply due_steps_speaks|]. intros r q [->|(said' & pend' & -> & _ & Hdue)].
  { destruct r as [[|step due]|e]; [by left| |by left]. eapply safe_mono; [apply astray|by left]. }
  destruct r as [due|e]; [|right; by eexists _, _]. destruct (Hdue due eq_refl) as [Hsub Hin]. clear Hdue.
  destruct due as [|step due]; [right; by eexists _, _|]. set (all := step :: due) in *.
  apply safe_bind, safe_call; [done|]. intros [srv|e] _; cbn [voice_next polls]; [|right; by eexists _, _].
  apply safe_bind, safe_call.
  - split.
    + apply (nodup_keys s occurrence). eapply sublist_NoDup; [exact Hnd|by apply sublist_map].
    + intros k (x & -> & Hx)%list_elem_of_fmap. split; [by apply Hin|]. exists s, x.
      split_and!; [done|by eapply sublist_subseteq|by exists occurrence].
  - intros r _. cbn [voice_next remembers].
    assert (Hf : List.filter in_window (map (key_of s occurrence) all) = map (key_of s occurrence) all).
    { clear Hsub. induction all as [|x l IH]; [done|]. cbn. destruct (Hin x) as [_ ->]; [by left|]. f_equal. apply IH. intros y Hy. apply Hin. by right. }
    destruct r as [[]|e]; [|right; by eexists _, _].
    change (map (fun step0 => (s.(id), occurrence, step0.(offset_minutes))) all) with (map (key_of s occurrence) all). rewrite Hf.
    destruct srv as [row|]; [|right; by eexists _, _]. destruct (_is_running row); [|right; by eexists _, _].
    eapply safe_mono; [apply (broadcast_speaks s occurrence); try done|].
    + intros x Hx. split; [by eapply sublist_subseteq|by apply Hin].
    + intros r q (due' & ->). right. by eexists _, _.
Qed.

Lemma warn_all_speaks l polled q :
  Forall candidate l -> l ⊆ polled -> speaking_of polled q -> speaks (warn_all l now grace) q (fun _ => speaking_of polled).
Proof.
  intros Hc. revert q. induction Hc as [|s l Hs Hc IH]; intros q Hsub Hq; [done|]. cbn [warn_all].
  assert (Hl : l ⊆ polled) by (intros x Hx; apply Hsub; by right).
  destruct Hq as [->|(said & due & ->)]; [eapply safe_mono; [apply astray|by left]|].
  apply safe_bind, safe_try. eapply safe_mono; [apply warn_schedule_speaks; [done|apply Hsub; by left]|].
  intros [[]|e] q' Hq'; [by apply IH|]. destruct e; try (by apply IH). done.
Qed.
End warnings.

Definition speaks_up `{Unicode} `{Engine} now grace said (p : coroutine unit) : Prop :=
  safe (poll_reply now) (voice_ok now grace) (voice_next now grace) p (Speaking said [] []) (fun _ _ => True).

(** What the poll answers are candidates. *)
Lemma poll_reply_true `{Unicode} `{Engine} at_ until now d :
  keyed d -> poll_reply now _ (Tx (PollWarnings now until)) (txn_do at_ (PollWarnings now until) d).1.
Proof.
  intros Hk. destruct (txn_do at_ (PollWarnings now until) d) as [r d'] eqn:E.
  destruct (polled_effect at_ _ _ _ _ Hk E) as (_ & _ & _ & found & -> & _ & Hf). cbn. apply Forall_forall. intros s Hs.
  destruct (Hf s Hs) as (row & _ & Hp & Hload). destruct (to_schedule_ok row s Hload) as (Hv & _ & _ & _ & _ & Hn & _).
  split; [done|]. unfold is_warning_candidate in Hp. apply andb_prop in Hp as [_ Hp].
  destruct (m_next_run_at row) as [t|] eqn:Ht; [|done]. apply andb_prop in Hp as [Hp%Z.ltb_lt _]. exists t. split; [congruence|done].
Qed.

(** C28: warnings are timely and said once: whatever the poll, the reads and the commands
    answer, each line the pass sends announces a step of a polled schedule, in the
    window from the step's moment to its grace and before the occurrence, the step was
    not said or dropped before and is remembered from then on; what the pass forgets
    concerns occurrences that are past. *)
Theorem warnings_are_timely `{Unicode} `{Engine} now grace said :
  speaks_up now grace said (_send_warnings now grace).
Proof.
  unfold speaks_up, _send_warnings. apply safe_bind, safe_call; [done|]. intros [[]|e] _; [|done]. cbn [voice_next remembers].
  apply safe_bind, safe_call; [done|]. intros [l|e] Hl; [|done]. cbn [voice_next polls].
  eapply safe_mono; [apply (warn_all_speaks now grace l l); [exact Hl|done|right; by eexists _, _]|done].
Qed.
