(* ===== verification/ScheduleScenario.v ===== *)
(** * The scheduler at work

    A server with one schedule, the scheduler driven step by step with every use case
    answering success, and the theorems at these concrete inputs. *)
From Stdlib Require Import ZArith NArith Lia String Ascii.
From stdpp Require Import base gmap strings list sorting.
From S2P Require Import Prelude Uow Uuid Calendar Program Text VersionRange ServerRow Schedule ScheduleStore Schedules ScheduleRunner ScheduleRows ScheduleMoves ScheduleSystem ScheduleOnce ScheduleRequests ScheduleHistory ScheduleNotes.

#[local] Open Scope Z_scope.

(** ** A driver *)

#[local] Instance engine : Engine := {|
  zone_exists name := eqs name (codes "UTC");
  cron_parses _ := true;
  cron_yields _ _ after := Some [after + minutes 1];
  digest_head _ := 2 ^ 63
|}.

Section driver.
Context (reply : option use_case_error).

(** Every event answered from the state, a use case with [reply]. *)
Definition answer (now : datetime) (w : world) {T} (ev : event T) : result exn T * world :=
  match ev in event T return result exn T * world with
  | Now => (Ok now, w)
  | FreshId => (Ok 77%N, w)
  | Tx t => let '(r, d) := txn_do now t w.(store) in (r, set_store d w)
  | Mem op => let '(x, m) := mem_do op w.(mem) in (Ok x, set_mem m w)
  | Dispatch _ _ _ => (Ok reply, w)
  | SendCommand _ _ _ => (Ok None, w)
  | PruneBackups _ _ => (Ok tt, w)
  | Audit _ _ => (Ok tt, w)
  | Acquire => if w.(held) then (Err Cancelled, w) else (Ok tt, {| store := w.(store); mem := w.(mem); held := true |})
  | Release => (Ok tt, {| store := w.(store); mem := w.(mem); held := false |})
  end.

Lemma answer_exec now w {T} (ev : event T) : exec now w (answer now w ev).2 ev (answer now w ev).1.
Proof.
  destruct ev as [| |T x|T op|srv a l|c srv l|c srv|i o| |]; cbn; try done.
  - split; [by eexists|done].
  - destruct (txn_do now x (store w)) as [r d]. cbn. auto.
  - destruct (mem_do op (mem w)) as [x m]. done.
  - destruct (held w) eqn:E; cbn; auto 10.
Qed.

Definition grace : timedelta := effective_warning_grace (seconds 30).

(** One step of a pass; the first group that is not done moves. *)
Definition advance (σ : sys) : sys :=
  let '(mkSys t w st lg) := σ in
  match st with
  | Idle => mkSys t (set_mem (mem_do (BeginTick t) w.(mem)).2 w) (Polling t (mem_do (BeginTick t) w.(mem)).1) lg
  | Polling now prev =>
      match answer t w (Tx (PollDue now)) with
      | (Ok due, w') => mkSys t w' (Groups now (set_of due) (fork due now prev)) lg
      | _ => σ
      end
  | Groups now h [] => mkSys t w (Ending (tick_end now h grace)) lg
  | Groups now h (g :: gs) =>
      match g.(g_prog) with
      | Vis ev k =>
          let '(r, w') := answer t w ev in
          mkSys t w' (Groups now h ({| g_prog := k r; g_state := gnext g.(g_state) ev r; g_ids := g.(g_ids) |} :: gs))
            (lg ++ glog g.(g_state) ev r)
      | Ret tt => match gs with [] => mkSys t w (Ending (tick_end now h grace)) lg | _ => σ end
      | _ => σ
      end
  | Ending (Vis ev k) => let '(r, w') := answer t w ev in mkSys t w' (Ending (k r)) lg
  | Ending (Ret tt) => mkSys t w Idle lg
  | Ending (Raise _) => σ
  end.

Lemma advance_reaches σ0 σ : reachable grace σ0 σ -> reachable grace σ0 (advance σ).
Proof.
  intros Hr. destruct σ as [t w [|now prev|now h [|[[[]|e|T ev k] q ids] gs]|[[]|e|T ev k]] lg]; cbn -[txn_do]; try done.
  - eapply reach_step; [exact Hr|constructor].
  - pose proof (answer_exec t w (Tx (PollDue now))) as He. cbn -[exec txn_do] in He.
    destruct (txn_do t (PollDue now) (store w)) as [[due|e] d]; [|done].
    eapply reach_step; [exact Hr|by constructor].
  - eapply reach_step; [exact Hr|by constructor].
  - destruct gs; [|done]. eapply reach_step; [exact Hr|]. constructor. constructor; [by exists tt|constructor].
  - pose proof (answer_exec t w ev) as He. destruct (answer t w ev) as [r w'].
    eapply reach_step; [exact Hr|]. by apply (step_group grace t w now h [] {| g_prog := Vis ev k; g_state := q; g_ids := ids |} gs lg T ev k w' r).
  - eapply reach_step; [exact Hr|constructor].
  - pose proof (answer_exec t w ev) as He. destruct (answer t w ev) as [r w'].
    eapply reach_step; [exact Hr|by constructor].
Qed.

Lemma iter_reaches n σ0 σ : reachable grace σ0 σ -> reachable grace σ0 (Nat.iter n advance σ).
Proof. intros Hr. induction n; [done|]. by apply advance_reaches. Qed.
End driver.

(** ** A server with an hourly restart *)

Definition t0 : datetime := 1700000000 * 1000000.
Definition T : datetime := t0 + minutes 60.

Definition server_row : Server :=
  mkServer 1 9 "lobby" "java" "1.21" PAPER ∅ D_RUNNING RUNNING None (Some 5%N) 0 0 (Some 25565) None "lobby" None.

Definition d0 : db := {| servers := {[1%N := server_row]}; schedules := ∅; schedule_runs := ∅ |}.

Definition hourly : new_schedule := {|
  n_name := codes " hourly "; n_action := RESTART; n_cron := None; n_interval_seconds := Some 3600;
  n_timezone := codes "UTC"; n_enabled := true; n_command := None;
  n_warning_steps := Some [(5, codes "restarting soon")]; n_only_when_running := None; n_created_by := Some 3%N
|}.

Definition allow (code : string) : bool := bool_decide (code ∈ ["schedule:manage"; "server:restart"]%string).

Definition d1 : db := (CreateSchedule allow t0 7 9 1 hourly d0).2.
Definition created : result exn Schedule := (CreateSchedule allow t0 7 9 1 hourly d0).1.

Definition due_at : datetime := match created with Ok s => default 0 s.(next_run_at) | Err _ => 0 end.

Definition start : sys := mkSys due_at {| store := d1; mem := fresh_memory; held := false |} Idle [].

(** The process dies after its tenth event, the dispatch just made, and starts over. *)
Definition dispatched : sys := Nat.iter 10 (advance None) start.
Definition restarted : sys :=
  mkSys dispatched.(clock) {| store := dispatched.(world_).(store); mem := fresh_memory; held := false |} Idle
    (dispatched.(log) ++ abandoned dispatched.(stage_)).
Definition rerun : sys := Nat.iter 35 (advance None) restarted.

Lemma d0_keyed : keyed d0.
Proof. intros k row. cbn. by rewrite lookup_empty. Qed.

Lemma creates : CreateSchedule allow t0 7 9 1 hourly d0 = (created, d1).
Proof. apply surjective_pairing. Qed.

Lemma d1_keyed : keyed d1.
Proof. exact (proj1 (create_effect _ _ _ _ _ _ _ _ _ d0_keyed creates)). Qed.

Lemma start_initial : initial start.
Proof. split; [exact d1_keyed|split; reflexivity]. Qed.

Lemma rerun_reachable : reachable grace start rerun.
Proof.
  apply iter_reaches. apply reach_step with dispatched; [apply iter_reaches; constructor|].
  unfold restarted. destruct dispatched as [t w st lg]. apply step_restart.
Qed.


(** A pass whose use case fails. *)
Definition failed : sys := Nat.iter 40 (advance (Some WorkerUnavailableError)) start.

Lemma notifications_alternate_witness :
  (start.(world_).(mem) = fresh_memory /\ reachable grace start failed
   /\ failed.(world_).(mem).(bus) = [Notified 7 Failing])
  /\ listen 7 false failed.(world_).(mem).(bus) = Some (bool_decide (7%N ∈ failed.(world_).(mem).(_notifying))).
Proof.
  assert (Hr : reachable grace start failed) by (apply iter_reaches; constructor).
  split; [split_and!; [reflexivity|exact Hr|by vm_compute]|].
  exact (notifications_alternate grace start failed eq_refl Hr 7%N).
Defined.

Lemma interval_occurrences_are_regular_witness :
  (0 < 3600 /\ next_interval_run 7 3600 t0 = Ok due_at) /\ t0 < due_at <= t0 + 3600 * 1000000.
Proof.
  assert (E : next_interval_run 7 3600 t0 = Ok due_at) by (vm_compute; reflexivity).
  split; [split; [lia|exact E]|]. exact (proj1 (interval_occurrences_are_regular 7 3600 t0 due_at ltac:(lia) E)).
Defined.

(** The schedule as it was created. *)
Definition the_schedule : Schedule := {|
  id := 7; server_id := 1; name := codes "hourly"; action := RESTART;
  cadence := {| cron := None; interval_seconds := Some 3600 |}; enabled := true; created_at := t0; updated_at := t0;
  timezone := codes "UTC"; command := None;
  warning_steps := [{| offset_minutes := 5; message := codes "restarting soon" |}]; only_when_running := None;
  next_run_at := Some due_at; last_run_at := None; created_by := Some 3%N
|}.

Lemma creates_it : CreateSchedule allow t0 7 9 1 hourly d0 = (Ok the_schedule, d1).
Proof. rewrite creates. apply (f_equal2 pair); [vm_compute; reflexivity|reflexivity]. Qed.


(** The row after the crash, the second run and the passes that followed. *)
Definition row_after : ScheduleModel :=
  default (to_row the_schedule) (rerun.(world_).(store).(schedules) !! 7%N).

Lemma row_is_there : rerun.(world_).(store).(schedules) !! 7%N = Some row_after.
Proof. vm_compute. reflexivity. Qed.

Lemma d1_loads i row : start.(world_).(store).(schedules) !! i = Some row -> is_Some (loaded row).
Proof.
  destruct (create_stored _ _ _ _ _ _ _ _ _ d0_keyed creates_it) as ([Hv _] & _ & _ & _ & _ & Hsch).
  change (start.(world_).(store)) with d1. rewrite Hsch. intros [[_ <-]|[_ Hr]]%lookup_insert_Some; [|change (d0.(schedules)) with (∅ : gmap uuid ScheduleModel) in Hr; by rewrite lookup_empty in Hr].
  unfold loaded. rewrite schedule_row_roundtrip by done. by eexists.
Qed.

Lemma rows_stay_well_formed_witness :
  (initial start /\ reachable grace start rerun /\ rerun.(world_).(store).(schedules) !! 7%N = Some row_after)
  /\ exists s, loaded row_after = Some s /\ valid s /\ s.(id) = 7%N.
Proof.
  split; [split_and!; [exact start_initial|exact rerun_reachable|exact row_is_there]|].
  exact (rows_stay_well_formed grace start rerun start_initial rerun_reachable d1_loads 7%N row_after row_is_there).
Defined.

Lemma d1_changed : (CreateSchedule allow t0 7 9 1 hourly d0).2 <> d0.
Proof. rewrite creates_it. intros E. apply (f_equal (fun d => bool_decide (schedules d = ∅))) in E. vm_compute in E. discriminate. Qed.

Lemma schedule_writes_are_authorized_witness :
  (keyed d0 /\ (CreateSchedule allow t0 7 9 1 hourly d0).2 <> d0) /\ permitted allow RESTART.
Proof.
  split; [split; [exact d0_keyed|exact d1_changed]|].
  exact (proj2 (proj1 (schedule_writes_are_authorized allow t0 7 9 1 0 hourly
    {| p_name := None; p_cron := None; p_interval_seconds := None; p_timezone := None; p_enabled := None;
       p_command := None; p_warning_steps := None; p_only_when_running := None |} d0 d0_keyed) d1_changed)).
Defined.

Definition first_run : ScheduleRun :=
  {| run_id := 40; schedule_id := 7; started_at := due_at; finished_at := due_at; outcome := SUCCESS; detail := None |}.
Definition recorded : db := (txn_do due_at (RecordRun the_schedule first_run true (Some due_at)) d1).2.

Lemma records : txn_do due_at (RecordRun the_schedule first_run true (Some due_at)) d1 = (Ok true, recorded).
Proof. rewrite (surjective_pairing (txn_do _ _ _)). apply (f_equal2 pair); [vm_compute; reflexivity|reflexivity]. Qed.

Lemma d1_no_runs : runs_keyed d1.
Proof. intros k run. vm_compute. discriminate. Qed.

Lemma history_keeps_the_newest_witness :
  (runs_keyed d1 /\ first_run.(schedule_id) = the_schedule.(id)
   /\ txn_do due_at (RecordRun the_schedule first_run true (Some due_at)) d1 = (Ok true, recorded)
   /\ runs_of 7 recorded = [first_run])
  /\ runs_keyed recorded.
Proof.
  split; [split_and!; [exact d1_no_runs|reflexivity|exact records|vm_compute; reflexivity]|].
  exact (proj2 (proj2 (history_keeps_the_newest due_at the_schedule first_run true (Some due_at) d1 recorded d1_no_runs eq_refl records))).
Defined.

(** ** Edits around an occurrence

    [UpdateSchedule] reads, plans and writes without holding the row: what another
    transaction commits in between is overwritten. *)

Definition rename : schedule_patch :=
  {| p_name := Some (codes "renamed"); p_cron := None; p_interval_seconds := None; p_timezone := None;
     p_enabled := None; p_command := None; p_warning_steps := None; p_only_when_running := None |}.

Definition due_rows (now : datetime) (d : db) : list (uuid * option datetime) :=
  match txn_do now (PollDue now) d with (Ok l, _) => map (fun s => (s.(id), s.(next_run_at))) l | _ => [] end.

(** An edit planned a second before the occurrence and written after the occurrence was
    run and recorded arms it again. *)
Lemma torn_edit_fires_twice :
  match (plan_update allow (due_at - seconds 1) 9 1 7 rename d1).1 with
  | Ok edit => due_rows (due_at + seconds 30) recorded = [] /\ due_rows (due_at + seconds 30) (update edit recorded).2 = [(7%N, Some due_at)]
  | Err _ => False
  end.
Proof. vm_compute. split; reflexivity. Qed.

(** A renaming between the occurrence and the pass that would run it loses it. *)
Lemma rename_drops_a_due_occurrence :
  due_rows (due_at + seconds 2) d1 = [(7%N, Some due_at)]
  /\ due_rows (due_at + seconds 2) (UpdateSchedule allow (due_at + seconds 1) 9 1 7 rename d1).2 = [].
Proof. vm_compute. split; reflexivity. Qed.
