(* ===== verification/RelyGuarantee.v ===== *)
(** * Rely and guarantee

    Proof rules for the coroutines of [Program] that run among others over a shared
    world: [rg R G p w post] says that, from [w], whatever the others do within the
    rely [R], each event of [p] stays within the guarantee [G] and its result
    satisfies [post].  [rg_threads] puts threads that rely on what the others
    guarantee together. *)
From Stdlib Require Import ZArith.
From stdpp Require Import base gmap list.
From S2P Require Import Prelude Program.

Section rules.
Context {E : Type -> Type} {X W : Type}.
Context (exec : forall T, W -> E T -> result X T -> W -> Prop).
Context (R G : W -> W -> Prop).

Fixpoint rg {A} (p : prog E X A) (w : W) (post : result X A -> W -> Prop) : Prop :=
  match p with
  | Ret a => post (Ok a) w
  | Raise e => post (Err e) w
  | @Vis _ _ _ T ev k =>
      forall w1, R w w1 -> forall r w2, exec T w1 ev r w2 -> G w1 w2 /\ rg (k r) w2 post
  end.

Lemma rg_mono {A} (p : prog E X A) w (post post' : result X A -> W -> Prop) :
  rg p w post -> (forall r w', post r w' -> post' r w') -> rg p w post'.
Proof.
  revert w. induction p as [a|e|T ev k IH]; intros w H Hpost; cbn in *; [auto..|].
  intros w1 Hr r w2 He. destruct (H w1 Hr r w2 He) as [Hg Hk]. eauto.
Qed.

Lemma rg_bind {A B} (p : prog E X A) (f : A -> prog E X B) w post :
  rg p w (fun r w' => match r with Ok a => rg (f a) w' post | Err e => post (Err e) w' end) ->
  rg (mbind f p) w post.
Proof.
  unfold mbind, prog_mbind. revert w. induction p as [a|e|T ev k IH]; intros w H; cbn in *; [done..|].
  intros w1 Hr r w2 He. destruct (H w1 Hr r w2 He) as [Hg Hk]. eauto.
Qed.

Lemma rg_try {A} (p : prog E X A) h w post :
  rg p w (fun r w' => match r with Ok a => post (Ok a) w' | Err e => rg (h e) w' post end) ->
  rg (try_ p h) w post.
Proof.
  revert w. induction p as [a|e|T ev k IH]; intros w H; cbn in *; [done..|].
  intros w1 Hr r w2 He. destruct (H w1 Hr r w2 He) as [Hg Hk]. eauto.
Qed.

Lemma rg_attempt {A} (p : prog E X A) w post :
  rg p w (fun r w' => post (Ok r) w') -> rg (attempt p) w post.
Proof.
  revert w. induction p as [a|e|T ev k IH]; intros w H; cbn in *; [done..|].
  intros w1 Hr r w2 He. destruct (H w1 Hr r w2 He) as [Hg Hk]. eauto.
Qed.

Lemma rg_pure {A} (r : result X A) w post : post r w -> rg (pure r) w post.
Proof. by destruct r. Qed.

Lemma rg_call {T} (ev : E T) w (post : result X T -> W -> Prop) :
  (forall w1, R w w1 -> forall r w2, exec T w1 ev r w2 -> G w1 w2 /\ post r w2) -> rg (call ev) w post.
Proof. intros H w1 Hr r w2 He. destruct (H w1 Hr r w2 He) as [Hg Hp]. by destruct r. Qed.

Lemma rg_finally {A} (p : prog E X A) c w post :
  rg p w (fun r w' => rg c w' (fun rc w'' =>
    match rc with Ok _ => post r w'' | Err e => post (Err e) w'' end)) ->
  rg (finally p c) w post.
Proof.
  intros H. apply rg_bind, rg_attempt. eapply rg_mono; [exact H|]. cbn.
  intros r w' Hc. apply rg_bind. eapply rg_mono; [exact Hc|]. cbn.
  intros [[]|e] w'' Hp; [by apply rg_pure|done].
Qed.

(** An event followed by the rest, given what the event does. *)
Lemma rg_step {A T} (ev : E T) (f : T -> prog E X A) w post :
  (forall w1, R w w1 -> forall r w2, exec T w1 ev r w2 ->
    G w1 w2 /\ match r with Ok x => rg (f x) w2 post | Err e => post (Err e) w2 end) ->
  rg (call ev ≫= f) w post.
Proof. intros H. apply rg_bind, rg_call. intros w1 Hr r w2 He. exact (H w1 Hr r w2 He). Qed.

(** The others may move before the first event, if [R] is transitive and [post] stands it. *)
Lemma rg_stable `{!Transitive R} {A} (p : prog E X A) w w' post :
  (forall r u u', R u u' -> post r u -> post r u') -> R w w' -> rg p w post -> rg p w' post.
Proof.
  intros Hs Hr H. destruct p as [a|e|T ev k]; cbn in *; [by eapply Hs..|].
  intros w1 Hr1. apply H. by transitivity w'.
Qed.
End rules.

(** ** Threads *)

Section threads.
Context {E : Type -> Type} {X W A : Type}.
Context (exec : nat -> forall T, W -> E T -> result X T -> W -> Prop).
Context (R G : nat -> W -> W -> Prop) (I : W -> W -> Prop).
Context `{!forall t, Transitive (R t)}.

(** What a thread guarantees the others rely on, and so is what the rest does. *)
Context (compatible : forall t u w w', t <> u -> G t w w' -> R u w w').
Context (environment : forall u w w', I w w' -> R u w w').

Abbreviation thread := (prog E X A).

(** An invariant of the world. *)
Context (J : W -> Prop).
Context (invariant_kept : forall t w w', J w -> G t w w' -> J w').
Context (invariant_outside : forall w w', J w -> I w w' -> J w').

(** The requests that may begin, each proved to keep its guarantee. *)
Context (request : thread -> Prop).
Context (requests_ok : forall t p w, request p -> J w -> rg (exec t) (R t) (G t) p w (fun _ _ => True)).

Record state := { threads : gmap nat thread; shared : W }.

Inductive step (s s' : state) : Prop :=
| Begins (t : nat) (p : thread) (_ : s.(threads) !! t = None) (_ : request p)
    (_ : s' = {| threads := <[t := p]> s.(threads); shared := s.(shared) |})
| Runs (t : nat) (T : Type) (ev : E T) (k : result X T -> thread) (r : result X T)
    (_ : s.(threads) !! t = Some (Vis ev k)) (_ : exec t T s.(shared) ev r s'.(shared))
    (_ : s'.(threads) = <[t := k r]> s.(threads))
| Ends (t : nat) (p : thread) (_ : s.(threads) !! t = Some p)
    (_ : match p with Vis _ _ => False | _ => True end)
    (_ : s' = {| threads := delete t s.(threads); shared := s.(shared) |})
| Moves (_ : I s.(shared) s'.(shared)) (_ : s'.(threads) = s.(threads)).

Inductive reachable (w0 : W) : state -> Prop :=
| Initial : reachable w0 {| threads := ∅; shared := w0 |}
| Later s s' (_ : reachable w0 s) (_ : step s s') : reachable w0 s'.

Definition threads_ok (s : state) : Prop := J s.(shared) /\
  forall t p, s.(threads) !! t = Some p -> rg (exec t) (R t) (G t) p s.(shared) (fun _ _ => True).

Lemma rg_reflexive t `{!Reflexive (R t)} T (ev : E T) (k : result X T -> thread) w r w' :
  rg (exec t) (R t) (G t) (Vis ev k) w (fun _ _ => True) -> exec t T w ev r w' ->
  G t w w' /\ rg (exec t) (R t) (G t) (k r) w' (fun _ _ => True).
Proof using. intros Hp He. by apply (Hp w). Qed.

Context `{!forall t, Reflexive (R t)}.

Lemma threads_stay_ok s s' : threads_ok s -> step s s' -> threads_ok s'.
Proof using All.
  intros [HJ Hok] [t p Hn Hq -> | t T ev k r Ht He Hs | t p Ht _ -> | Hi Hs].
  - split; [done|]. intros u q Hu. cbn in *. apply lookup_insert_Some in Hu as [[<- <-]|[_ Hu]]; [by apply requests_ok|by apply Hok].
  - destruct (rg_reflexive t T ev k _ _ _ (Hok t _ Ht) He) as [Hg Hk]. split; [by eapply invariant_kept|].
    intros u q Hu. rewrite Hs in Hu. apply lookup_insert_Some in Hu as [[<- <-]|[Hne Hu]]; [done|].
    eapply rg_stable; [apply _|done|by eapply compatible|by apply Hok].
  - split; [done|]. intros u q Hu. cbn in *. apply lookup_delete_Some in Hu as [_ Hu]. by apply Hok.
  - split; [by eapply invariant_outside|]. intros u q Hu. rewrite Hs in Hu.
    eapply rg_stable; [apply _|done|by apply environment|by apply Hok].
Qed.

Lemma reachable_ok w0 s : J w0 -> reachable w0 s -> threads_ok s.
Proof using All. intros HJ. induction 1 as [|s s' _ IH Hs]; [by split|by eapply threads_stay_ok]. Qed.

(** Every step of a reachable state is one of the environment, is within the
    guarantee of the thread that made it, or leaves the world alone. *)
Lemma rg_threads w0 s s' : J w0 -> reachable w0 s -> step s s' ->
  s'.(shared) = s.(shared) \/ (s'.(threads) = s.(threads) /\ I s.(shared) s'.(shared)) \/ exists t, G t s.(shared) s'.(shared).
Proof using All.
  intros HJ Hr Hs. destruct (reachable_ok _ _ HJ Hr) as [_ Hok].
  destruct Hs as [t p Hn Hq -> | t T ev k r Ht He Hs | t p Ht _ -> | Hi Hs]; [by left| |by left|by right; left].
  right. right. exists t. by destruct (rg_reflexive t T ev k _ _ _ (Hok t _ Ht) He).
Qed.
End threads.
Arguments state E X W A : clear implicits.

(** ** Driving a system *)

(** Runs in which each event is given the answer of an oracle, where it has one. *)
Section driver.
Context {E : Type -> Type} {X W A : Type}.
Context (exec : nat -> forall T, W -> E T -> result X T -> W -> Prop) (I : W -> W -> Prop).
Context (request : prog E X A -> Prop).
Context (answer : nat -> forall T, W -> E T -> option (result X T * W)).
Context (answers : forall t T w ev r w', answer t T w ev = Some (r, w') -> exec t T w ev r w').

Definition reply (t : nat) (s : state E X W A) : option (state E X W A) :=
  match s.(threads) !! t with
  | Some (Vis ev k) =>
      match answer t _ s.(shared) ev with
      | Some (r, w') => Some {| threads := <[t := k r]> s.(threads); shared := w' |}
      | None => None
      end
  | _ => None
  end.

(** Thread [t] performs its next event, if it can. *)
Definition perform (t : nat) (s : state E X W A) : state E X W A := default s (reply t s).

Definition begin_thread (t : nat) (p : prog E X A) (s : state E X W A) : state E X W A :=
  {| threads := <[t := p]> s.(threads); shared := s.(shared) |}.

Lemma reply_step t s s' : reply t s = Some s' -> step exec I request s s'.
Proof using answers.
  unfold reply. destruct (threads s !! t) as [[a|e|T ev k]|] eqn:Et; try done.
  destruct (answer t T (shared s) ev) as [[r w']|] eqn:Ea; [|done]. intros [= <-]. by eapply Runs; [exact Et|apply answers|].
Qed.

Lemma perform_step t s : is_Some (reply t s) -> step exec I request s (perform t s).
Proof using answers. intros [s' Hs]. unfold perform. rewrite Hs. by eapply reply_step. Qed.

Lemma perform_reachable w0 t n s : reachable exec I request w0 s ->
  reachable exec I request w0 (Nat.iter n (perform t) s).
Proof using answers.
  intros Hr. induction n as [|n IH]; [done|]. rewrite Nat.iter_succ. unfold perform at 1.
  destruct (reply t _) as [s'|] eqn:Hs; [|done]. eapply Later; [exact IH|]. by eapply reply_step.
Qed.

Lemma begin_reachable w0 t p s : reachable exec I request w0 s -> s.(threads) !! t = None -> request p ->
  reachable exec I request w0 (begin_thread t p s).
Proof using. intros Hr Ht Hp. eapply Later; [exact Hr|]. by eapply Begins. Qed.
End driver.
