(* ===== verification/ServerPolicies.v ===== *)
(** * Server policies

    The pure rules a server's settings obey: the slug ([servers/domain/slug.py]), the
    game ports ([domain/ports.py]) and the snapshot cadence
    ([domain/snapshot_cadence.py]). *)
From Stdlib Require Import ZArith NArith Lia String Ascii.
From stdpp Require Import base gmap strings list list_numbers fin_sets sorting.
From S2P Require Import Prelude Program Calendar Uuid Retention.

Open Scope Z_scope.

(** ** Slugs *)

(** [[a-z0-9]]. *)
Definition label_char (c : ascii) : bool :=
  let n := N_of_ascii c in ((97 <=? n) && (n <=? 122))%N || ((48 <=? n) && (n <=? 57))%N.

(** [^\[a-z0-9\](?:\[a-z0-9-\]{0,61}\[a-z0-9\])?$], all of the slug. *)
Definition _SLUG_RE (slug : string) : bool :=
  match list_ascii_of_string slug with
  | [] => false
  | c :: r =>
      label_char c &&
      match rev r with
      | [] => true
      | z :: mid =>
          label_char z && forallb (fun c => label_char c || Ascii.eqb c "-") mid
          && (List.length mid <=? 61)%nat
      end
  end.

Definition _RESERVED : list string :=
  ["www"; "api"; "mail"; "relay"; "admin"; "ns1"; "ns2"; "mc"; "smtp"; "pop"; "imap"; "ftp"; "ssh";
   "vpn"; "gateway"].

Definition _SLUG_CHARS : list ascii :=
  list_ascii_of_string "abcdefghijklmnopqrstuvwxyz0123456789".

Definition _SLUG_LENGTH : nat := 6.
Definition _MAX_ATTEMPTS : nat := 20.

(** [true] where [validate_slug] returns. *)
Definition validate_slug (slug : string) : bool :=
  _SLUG_RE slug && negb (bool_decide (slug ∈ _RESERVED)).

Section generate.
Context {E : Type -> Type} {X : Type} (choice : prog E X ascii) (SlugExhaustedError : X).

(** ["".join(secrets.choice(_SLUG_CHARS) for _ in range(n))]. *)
Fixpoint draw (n : nat) : prog E X string :=
  match n with
  | O => Ret EmptyString
  | S n => c ← choice; s ← draw n; Ret (String c s)
  end.

Fixpoint generate (attempts : nat) (taken : gset string) : prog E X string :=
  match attempts with
  | O => Raise SlugExhaustedError
  | S attempts =>
      candidate ← draw _SLUG_LENGTH;
      if validate_slug candidate && negb (bool_decide (candidate ∈ taken)) then Ret candidate
      else generate attempts taken
  end.

Definition generate_slug (taken : gset string) : prog E X string := generate _MAX_ATTEMPTS taken.
End generate.

(** ** Ports *)

Record PortRange := { pr_start : Z; pr_end : Z; pr_reserved : gset Z }.

Inductive port_error : Set := PortOutOfRange | PortTaken | PortRangeExhausted.

Definition in_range (r : PortRange) (port : Z) : bool := (r.(pr_start) <=? port) && (port <=? r.(pr_end)).

(** [range(start, end + 1)]. *)
Definition ports (r : PortRange) : list Z := seqZ r.(pr_start) (r.(pr_end) + 1 - r.(pr_start)).

Definition port_free (r : PortRange) (taken : gset Z) (port : Z) : bool :=
  negb (bool_decide (port ∈ taken)) && negb (bool_decide (port ∈ r.(pr_reserved))).

Definition pick_lowest_free_port (r : PortRange) (taken : gset Z) : result port_error Z :=
  match List.find (port_free r taken) (ports r) with
  | Some port => Ok port
  | None => Err PortRangeExhausted
  end.

Definition validate_explicit_port (port : Z) (r : PortRange) (taken : gset Z) : result port_error Z :=
  if negb (in_range r port) then Err PortOutOfRange
  else if negb (port_free r taken port) then Err PortTaken
  else Ok port.

Fixpoint free_ports (p : Z -> bool) (count : Z) (l : list Z) (free : list Z) : list Z :=
  match l with
  | [] => free
  | port :: l' =>
      if count <=? Z.of_nat (List.length free) then free
      else free_ports p count l' (if p port then free ++ [port] else free)
  end.

Definition next_free_ports (r : PortRange) (taken : gset Z) (count : Z) : list Z :=
  free_ports (port_free r taken) count (ports r) [].

(** ** Cadence *)

Definition SNAPSHOT_INTERVAL_CONFIG_KEY : string := "snapshot_interval_seconds".

(** [None] where the key is absent; [Err] is InvalidSnapshotIntervalError. *)
Definition override_from_config (config : gmap string json) (floor : Z) : result unit (option Z) :=
  match config !! SNAPSHOT_INTERVAL_CONFIG_KEY with
  | None => Ok None
  | Some (JInt value) => if value <? floor then Err tt else Ok (Some value)
  | Some _ => Err tt
  end.

Definition effective_interval_seconds (override : option Z) (default floor : Z) : Z :=
  Z.max (match override with None => default | Some value => value end) floor.

(** ** Slugs: what is accepted *)

Lemma label_char_spec c : label_char c = true <->
  (97 <= N_of_ascii c <= 122)%N \/ (48 <= N_of_ascii c <= 57)%N.
Proof. unfold label_char. rewrite orb_true_iff, !andb_true_iff, !N.leb_le. tauto. Qed.

Lemma slug_chars_label c : c ∈ _SLUG_CHARS -> label_char c = true.
Proof.
  assert (forallb label_char _SLUG_CHARS = true) as H by (vm_compute; reflexivity).
  intros Hc. rewrite forallb_forall in H. by apply H, list_elem_of_In.
Qed.

(** A DNS label that is not reserved. *)
Definition dns_label (slug : string) : Prop :=
  let l := list_ascii_of_string slug in
  (1 <= List.length l <= 63)%nat
  /\ Forall (fun c => label_char c = true \/ c = "-"%char) l
  /\ (forall c, head l = Some c \/ last l = Some c -> label_char c = true).

Lemma validate_slug_spec slug : validate_slug slug = true <-> dns_label slug /\ slug ∉ _RESERVED.
Proof.
  unfold validate_slug, dns_label, _SLUG_RE. rewrite andb_true_iff, negb_true_iff, bool_decide_eq_false.
  apply and_iff_compat_r. destruct (list_ascii_of_string slug) as [|c r]; cbn; [split; [done|lia]|].
  destruct (rev r) as [|z mid] eqn:Er.
  - apply (f_equal (@rev ascii)) in Er. rewrite rev_involutive in Er. subst r. cbn. rewrite andb_true_r. split.
    + intros Hc. split; [lia|]. split; [constructor; [by left|done]|]. by intros c' [[= <-]|[= <-]].
    + intros (_ & _ & H). apply H. by left.
  - apply (f_equal (@rev ascii)) in Er. rewrite rev_involutive in Er. cbn in Er. subst r.
    assert (Hl : last (c :: rev mid ++ [z]) = Some z) by exact (last_snoc z (c :: rev mid)).
    rewrite !andb_true_iff, forallb_forall, Nat.leb_le, length_app, length_rev. cbn [List.length].
    rewrite Forall_cons, Forall_app, Forall_singleton. split.
    + intros (Hc & (Hz & Hm) & Hn). split; [lia|]. split.
      * split; [by left|]. split; [|by left]. rewrite Forall_forall. intros x Hx%list_elem_of_In.
        apply in_rev in Hx. specialize (Hm x Hx). apply orb_true_iff in Hm as [Hm|Hm%Ascii.eqb_eq]; auto.
      * rewrite Hl. by intros c' [[= <-]|[= <-]].
    + intros (Hn & (_ & Hm & _) & H). split; [apply H; by left|]. split; [|lia].
      split; [apply H; right; apply Hl|]. intros x Hx. apply orb_true_iff. rewrite Ascii.eqb_eq.
      rewrite Forall_forall in Hm. apply Hm, list_elem_of_In. by apply in_rev in Hx.
Qed.

(** ** Ports: what is picked *)

Lemma elem_of_ports r port : port ∈ ports r <-> in_range r port = true.
Proof. unfold ports, in_range. rewrite elem_of_seqZ, andb_true_iff, !Z.leb_le. lia. Qed.

Lemma find_first {A} (p : A -> bool) l :
  match List.find p l with
  | Some x => exists l1 l2, l = l1 ++ x :: l2 /\ p x = true /\ forall y, y ∈ l1 -> p y = false
  | None => forall y, y ∈ l -> p y = false
  end.
Proof.
  induction l as [|x l IH]; cbn; [by intros y ?%not_elem_of_nil|].
  destruct (p x) eqn:Hp.
  - exists [], l. split; [done|]. split; [done|]. by intros y ?%not_elem_of_nil.
  - destruct (List.find p l) as [z|].
    + destruct IH as (l1 & l2 & -> & Hz & H). exists (x :: l1), l2. split; [done|]. split; [done|].
      intros y [->|Hy]%elem_of_cons; auto.
    + intros y [->|Hy]%elem_of_cons; auto.
Qed.

Lemma ports_sorted r l1 x l2 y : ports r = l1 ++ x :: l2 -> in_range r y = true -> y < x -> y ∈ l1.
Proof.
  intros Hp Hy%elem_of_ports Hlt. rewrite Hp, elem_of_app, elem_of_cons in Hy.
  destruct Hy as [Hy|[->|Hy]]; [done|lia|exfalso].
  apply list_elem_of_lookup in Hy as [j Hj].
  assert (Hx : ports r !! List.length l1 = Some x) by (rewrite Hp; by apply list_lookup_middle).
  assert (Hz : ports r !! (List.length l1 + S j)%nat = Some y).
  { rewrite Hp, lookup_app_r by lia. replace (_ + S j - _)%nat with (S j) by lia. done. }
  unfold ports in Hx, Hz. apply lookup_seqZ in Hx as [-> _], Hz as [-> _]. lia.
Qed.

Lemma pick_lowest_spec r taken :
  match pick_lowest_free_port r taken with
  | Ok port => in_range r port = true /\ port_free r taken port = true
      /\ forall q, in_range r q = true -> q < port -> port_free r taken q = false
  | Err e => e = PortRangeExhausted /\ forall q, in_range r q = true -> port_free r taken q = false
  end.
Proof.
  unfold pick_lowest_free_port. pose proof (find_first (port_free r taken) (ports r)) as H.
  destruct (List.find _ _) as [port|].
  - destruct H as (l1 & l2 & Hl & Hf & Hb). split; [apply elem_of_ports; rewrite Hl; set_solver|].
    split; [done|]. intros q Hq Hlt. apply Hb. by eapply ports_sorted.
  - split; [done|]. intros q Hq. by apply H, elem_of_ports.
Qed.

Lemma free_ports_spec p count l free : Z.of_nat (List.length free) <= Z.max 0 count ->
  free_ports p count l free = free ++ take (Z.to_nat count - List.length free) (List.filter p l).
Proof.
  revert free. induction l as [|port l IH]; intros free Hf; cbn; [by rewrite take_nil, app_nil_r|].
  destruct (Z.leb_spec count (Z.of_nat (List.length free))).
  - replace (Z.to_nat count - List.length free)%nat with 0%nat by lia. by rewrite app_nil_r.
  - destruct (p port).
    + rewrite IH by (rewrite length_app; cbn; lia). rewrite length_app. cbn [List.length].
      replace (Z.to_nat count - List.length free)%nat with (S (Z.to_nat count - (List.length free + 1)))%nat by lia.
      by rewrite <- app_assoc.
    + by apply IH.
Qed.

Lemma next_free_ports_spec r taken count :
  next_free_ports r taken count = take (Z.to_nat count) (List.filter (port_free r taken) (ports r)).
Proof. unfold next_free_ports. rewrite free_ports_spec by (cbn; lia). by rewrite Nat.sub_0_r. Qed.

(** ** The allocator *)

(** A port that may be assigned. *)
Definition assignable (r : PortRange) (taken : gset Z) (p : Z) : Prop :=
  r.(pr_start) <= p <= r.(pr_end) /\ p ∉ taken /\ p ∉ r.(pr_reserved).

Lemma assignable_spec r taken p : assignable r taken p <-> in_range r p = true /\ port_free r taken p = true.
Proof.
  unfold assignable, in_range, port_free.
  rewrite !andb_true_iff, !negb_true_iff, !bool_decide_eq_false, !Z.leb_le. done.
Qed.

Lemma ports_increase r : StronglySorted Z.lt (ports r).
Proof.
  unfold ports. generalize (pr_start r) as m, (pr_end r + 1 - pr_start r) as n. intros m n.
  destruct (Z.le_gt_cases 0 n) as [Hn|Hn]; [|rewrite seqZ_nil by lia; constructor].
  revert m. pattern n. apply natlike_ind; [intros; rewrite seqZ_nil by lia; constructor| |done].
  intros k Hk IH m. rewrite seqZ_cons by lia. replace (Z.pred (Z.succ k)) with k by lia. constructor; [apply IH|].
  apply Forall_forall. intros x Hx%elem_of_seqZ. lia.
Qed.

Lemma filter_sorted {A} (R : A -> A -> Prop) p l : StronglySorted R l -> StronglySorted R (List.filter p l).
Proof.
  induction 1 as [|x l Hl IH Hx]; cbn; [constructor|]. destruct (p x); [|done]. constructor; [done|].
  rewrite Forall_forall in *. intros y [Hy _]%elem_of_filter_bool. by apply Hx.
Qed.

(** The assigned port is the least that may be assigned, and there is none only when
    every port of the range is taken or reserved; an explicit port is accepted exactly
    when it may be assigned; and the ports offered are the first of all of them, in
    increasing order, as many as were asked for. *)
Theorem ports_are_allocated_from_below r taken :
  (forall p, pick_lowest_free_port r taken = Ok p <->
     assignable r taken p /\ forall q, assignable r taken q -> p <= q)
  /\ (pick_lowest_free_port r taken = Err PortRangeExhausted <-> forall p, ~ assignable r taken p)
  /\ (forall p, validate_explicit_port p r taken = Ok p <-> assignable r taken p)
  /\ exists all, StronglySorted Z.lt all /\ (forall p, p ∈ all <-> assignable r taken p)
     /\ forall count, next_free_ports r taken count = take (Z.to_nat count) all.
Proof.
  pose proof (pick_lowest_spec r taken) as Hp. split; [|split; [|split]].
  - intros p. destruct (pick_lowest_free_port r taken) as [port|e].
    + destruct Hp as (Hr & Hf & Hlow). assert (Hport : assignable r taken port) by by apply assignable_spec.
      assert (Hle : forall q, assignable r taken q -> port <= q).
      { intros q [Hqr Hqf]%assignable_spec. destruct (Z.lt_ge_cases q port); [|lia].
        rewrite (Hlow q) in Hqf by done. done. }
      split; [by intros [= <-]|]. intros [Ha Hmin]. f_equal. pose proof (Hmin port Hport). pose proof (Hle p Ha). lia.
    + destruct Hp as [_ Hnone]. split; [done|]. intros [[Hr Hf]%assignable_spec _]. rewrite Hnone in Hf by done. done.
  - destruct (pick_lowest_free_port r taken) as [port|e].
    + destruct Hp as (Hr & Hf & _). split; [done|]. intros Hn. destruct (Hn port). by apply assignable_spec.
    + destruct Hp as [-> Hnone]. split; [|done]. intros _ p [Hr Hf]%assignable_spec. rewrite Hnone in Hf by done. done.
  - intros p. rewrite assignable_spec. unfold validate_explicit_port.
    destruct (in_range r p), (port_free r taken p); cbn; naive_solver.
  - exists (List.filter (port_free r taken) (ports r)). split; [apply filter_sorted, ports_increase|]. split.
    + intros p. rewrite elem_of_filter_bool, elem_of_ports, assignable_spec. done.
    + intros count. apply next_free_ports_spec.
Qed.
