(* ===== verification/Utf8.v ===== *)
(** * UTF-8

    A [str] is its UTF-8 bytes in the rows ([ServerRow]) and its code points in a
    properties file ([Properties]): the conversion between the two. *)
From Stdlib Require Import ZArith NArith Lia String Ascii.
From stdpp Require Import base strings list.
From S2P Require Import Prelude Text PropertiesEscape.

#[local] Open Scope N_scope.

Definition utf8_bytes (s : string) : list N := map N_of_ascii (list_ascii_of_string s).

(** A scalar value; anything else reads as the replacement character. *)
Definition scalar (c : N) : N :=
  if ((0xD800 <=? c) && (c <=? 0xDFFF)) || (0x110000 <=? c) then 0xFFFD else c.

Fixpoint decode (l : list N) : str :=
  match l with
  | [] => []
  | b0 :: r =>
      if b0 <? 0x80 then b0 :: decode r
      else match r with
      | [] => [0xFFFD]
      | b1 :: r1 =>
          if b0 <? 0xE0 then scalar ((b0 - 0xC0) * 64 + (b1 - 0x80)) :: decode r1
          else match r1 with
          | [] => [0xFFFD]
          | b2 :: r2 =>
              if b0 <? 0xF0 then scalar (((b0 - 0xE0) * 64 + (b1 - 0x80)) * 64 + (b2 - 0x80)) :: decode r2
              else match r2 with
              | [] => [0xFFFD]
              | b3 :: r3 =>
                  scalar ((((b0 - 0xF0) * 64 + (b1 - 0x80)) * 64 + (b2 - 0x80)) * 64 + (b3 - 0x80)) :: decode r3
              end
          end
      end
  end.

Definition encode_char (c : N) : list N :=
  if c <? 0x80 then [c]
  else if c <? 0x800 then [0xC0 + c / 64; 0x80 + c mod 64]
  else if c <? 0x10000 then [0xE0 + c / 4096; 0x80 + c / 64 mod 64; 0x80 + c mod 64]
  else [0xF0 + c / 262144; 0x80 + c / 4096 mod 64; 0x80 + c / 64 mod 64; 0x80 + c mod 64].

Definition encode (s : str) : list N := flat_map encode_char s.

(** The code points of a [str] held as bytes. *)
Definition points (s : string) : str := decode (utf8_bytes s).

(** What every [str] without surrogates is. *)
Definition well_formed (s : string) : Prop := encode (points s) = utf8_bytes s.

#[export] Instance well_formed_dec s : Decision (well_formed s).
Proof. unfold well_formed. apply _. Defined.

Lemma utf8_bytes_inj s t : utf8_bytes s = utf8_bytes t -> s = t.
Proof.
  unfold utf8_bytes. intros H. rewrite <- (string_of_list_ascii_of_string s), <- (string_of_list_ascii_of_string t).
  f_equal. revert H. generalize (list_ascii_of_string s), (list_ascii_of_string t).
  induction l as [|a l IH]; intros [|b l'] H; cbn in H; try done. injection H as Hab Hl.
  f_equal; [|by apply IH]. rewrite <- (ascii_N_embedding a), <- (ascii_N_embedding b). by f_equal.
Qed.

(** Distinct strings have distinct code points. *)
Lemma points_inj s t : well_formed s -> well_formed t -> points s = points t -> s = t.
Proof. unfold well_formed. intros Hs Ht E. apply utf8_bytes_inj. by rewrite <- Hs, <- Ht, E. Qed.

Definition is_scalar (c : N) : Prop := c < 0xD800 \/ 0xDFFF < c < 0x110000.

Lemma scalar_spec c : is_scalar (scalar c).
Proof.
  unfold scalar, is_scalar.
  destruct (N.leb_spec 0xD800 c), (N.leb_spec c 0xDFFF), (N.leb_spec 0x110000 c); cbn; lia.
Qed.

Lemma decode_scalars l : Forall is_scalar (decode l).
Proof.
  remember (List.length l) as n eqn:En. revert l En.
  induction (lt_wf n) as [n _ IH]. intros l ->.
  assert (Hs : forall l', (List.length l' < List.length l)%nat -> Forall is_scalar (decode l')).
  { intros l' Hl. by eapply IH. }
  assert (Hr : is_scalar 0xFFFD) by (right; lia).
  destruct l as [|b0 r]; [constructor|]. cbn [decode]. destruct (N.ltb_spec b0 0x80).
  { constructor; [left; lia|]. apply Hs. cbn. lia. }
  destruct r as [|b1 r1]; [by repeat constructor|]. destruct (b0 <? 0xE0).
  { constructor; [apply scalar_spec|]. apply Hs. cbn. lia. }
  destruct r1 as [|b2 r2]; [by repeat constructor|]. destruct (b0 <? 0xF0).
  { constructor; [apply scalar_spec|]. apply Hs. cbn. lia. }
  destruct r2 as [|b3 r3]; [by repeat constructor|].
  constructor; [apply scalar_spec|]. apply Hs. cbn. lia.
Qed.

Lemma scalars_writable s : Forall is_scalar s -> writable s.
Proof.
  intros Hs. split; [eapply Forall_impl; [exact Hs|]; unfold is_scalar; intros c; lia|].
  induction Hs as [|c s Hc Hs IH]; [done|]. destruct s as [|d s]; [done|]. cbn [unmerged] in *.
  rewrite IH, andb_true_r. apply negb_true_iff. unfold is_high.
  destruct (N.leb_spec 0xD800 c), (N.leb_spec c 0xDBFF); cbn; try done.
  exfalso. unfold is_scalar in Hc. lia.
Qed.

(** Every key and value can be written to a properties file. *)
Lemma points_writable s : writable (points s).
Proof. apply scalars_writable, decode_scalars. Qed.

Lemma points_nonempty s : well_formed s -> s <> EmptyString -> points s <> [].
Proof.
  unfold well_formed. intros Hw Hne E. rewrite E in Hw. apply Hne, utf8_bytes_inj. by rewrite <- Hw.
Qed.
