(* ===== verification/SettingsStore.v ===== *)
(** * The servers' settings: what their use cases call

    The statements of [servers/adapters/repositories.py] that create, edit and delete
    servers, with the constraints of [adapters/models.py] and the translation of
    [adapters/integrity.py]; the two reads of the resource packs; the file store, the
    archives, the lifecycle lock and the other awaits of
    [application/manage_server.py], each an event of a coroutine ([Program]).  A
    transaction of that module writes once and commits with it, so the write and its
    commit are one event and every read before it is one of its own. *)
From Stdlib Require Import ZArith NArith Lia String Ascii.
From stdpp Require Import base gmap strings list sorting.
From S2P Require Import Prelude Uow Uuid Calendar Retention Program Text PyString ServerRow Properties.

#[local] Open Scope Z_scope.

(** ** Exceptions *)

Inductive exn : Set :=
| UnsupportedEditionError
| UnknownServerTypeError
| RetiredConfigKeyError
| InvalidConfigError (e : config_error)
| InvalidSnapshotIntervalError
| UnknownVersionError
| PortOutOfRangeError
| PortAlreadyTakenError
| PortRangeExhaustedError
| InvalidSlugError
| SlugAlreadyTakenError
| SlugExhaustedError
| InvalidServerNameError
| ServerNameAlreadyExistsError
| CommunityNotFoundError
| ServerNotFoundError
| PermissionDeniedError
| ServerNotStoppedError
| ServerBusyError
| ServerFileNotFoundError
| ServerPropertiesMissingError (committed : bool)
| WorkingSetSeedFailedError
| UnicodeEncodeError
| Failure
| Cancelled.

#[export] Instance exn_eq_dec : EqDecision exn.
Proof. solve_decision. Defined.

(** [except Exception]: everything but [asyncio.CancelledError]. *)
Definition is_Exception (e : exn) : bool := negb (bool_decide (e = Cancelled)).

(** ** Tables *)

(** The columns of a backup row that are read here. *)
Record BackupRow := { b_id : uuid; b_server_id : uuid; b_created_at : datetime; b_storage_ref : string }.

Record PackRow := { p_id : uuid; p_filename : string; p_sha1_hash : string }.

Record AssignmentRow := { a_pack_id : uuid; a_require : bool; a_prompt : option string }.

Record db := {
  rows : gmap uuid Server;
  communities : gset uuid;
  backups : gmap uuid BackupRow;
  assignments : gmap uuid AssignmentRow;
  packs : gmap uuid PackRow
}.

Definition set_rows (m : gmap uuid Server) (d : db) : db :=
  {| rows := m; communities := d.(communities); backups := d.(backups);
     assignments := d.(assignments); packs := d.(packs) |}.

Abbreviation stmt := (M db exn).

(** *** Reads *)

Definition get_by_id (server_id : uuid) : stmt (option Server) := gets (fun d => d.(rows) !! server_id).

Definition get_by_community_and_name (community_id : uuid) (name : string) : stmt (option Server) :=
  gets (fun d => find_row (fun r =>
    bool_decide (r.(s_community_id) = community_id) && String.eqb r.(s_name) name) d.(rows)).

Definition get_by_slug (slug : string) : stmt (option Server) :=
  gets (fun d => find_row (fun r => String.eqb r.(s_slug) slug) d.(rows)).

Definition list_for_community (community_id : uuid) : stmt (list Server) :=
  gets (fun d => List.filter (fun r => bool_decide (r.(s_community_id) = community_id))
                   (map snd (map_to_list d.(rows)))).

(** [{column of row for row in rows if it is set}]. *)
Definition column {A} `{Countable A} (f : Server -> option A) (d : db) : gset A :=
  list_to_set (omap f (map snd (map_to_list d.(rows)))).

Definition list_game_ports : stmt (gset Z) := gets (column s_game_port).
Definition list_bedrock_ports : stmt (gset Z) := gets (column s_bedrock_port).
Definition list_slugs : stmt (gset string) :=
  gets (column (fun r => if String.eqb r.(s_slug) "" then None else Some r.(s_slug))).

(** [ORDER BY created_at DESC, id DESC]. *)
Definition newest_first (a b : BackupRow) : Prop :=
  b.(b_created_at) < a.(b_created_at)
  \/ (a.(b_created_at) = b.(b_created_at) /\ (b.(b_id) <= a.(b_id))%N).

#[export] Instance newest_first_dec a b : Decision (newest_first a b).
Proof. unfold newest_first. apply _. Defined.

Definition backups_of (server_id : uuid) (d : db) : list BackupRow :=
  merge_sort newest_first
    (List.filter (fun b => bool_decide (b.(b_server_id) = server_id)) (map snd (map_to_list d.(backups)))).

Definition list_for_server (server_id : uuid) : stmt (list BackupRow) := gets (backups_of server_id).

Definition get_assignment_by_server (server_id : uuid) : stmt (option AssignmentRow) :=
  gets (fun d => d.(assignments) !! server_id).
Definition get_pack (pack_id : uuid) : stmt (option PackRow) := gets (fun d => d.(packs) !! pack_id).

(** *** Writes *)

(** The UNIQUE constraints of the table, the translation of each. *)
Inductive constraint := uq_server_community_name | uq_server_game_port | uq_server_slug | uq_server_bedrock_port.

Definition translate_integrity_error (c : constraint) : exn :=
  match c with
  | uq_server_community_name => ServerNameAlreadyExistsError
  | uq_server_game_port | uq_server_bedrock_port => PortAlreadyTakenError
  | uq_server_slug => SlugAlreadyTakenError
  end.

(** Two ports that are not NULL and equal. *)
Definition same_port (a b : option Z) : bool :=
  match a, b with Some p, Some q => p =? q | _, _ => false end.

(** The constraint [row] would violate beside the rows of the other ids. *)
Definition violated (row : Server) (m : gmap uuid Server) : option constraint :=
  let others := delete row.(s_id) m in
  if any_row (fun r => bool_decide (r.(s_community_id) = row.(s_community_id))
                       && String.eqb r.(s_name) row.(s_name)) others then Some uq_server_community_name
  else if any_row (fun r => same_port r.(s_game_port) row.(s_game_port)) others then Some uq_server_game_port
  else if any_row (fun r => String.eqb r.(s_slug) row.(s_slug)) others then Some uq_server_slug
  else if any_row (fun r => same_port r.(s_bedrock_port) row.(s_bedrock_port)) others then Some uq_server_bedrock_port
  else None.

(** [session.add] and the commit that flushes it: the primary key and the constraints
    first, the foreign key at the end of the statement. *)
Definition add (server : Server) : stmt unit := try_modify (fun d =>
  match d.(rows) !! server.(s_id) with
  | Some _ => Err Failure
  | None =>
      match violated server d.(rows) with
      | Some c => Err (translate_integrity_error c)
      | None =>
          if bool_decide (server.(s_community_id) ∈ d.(communities))
          then Ok (set_rows (<[server.(s_id) := server]> d.(rows)) d)
          else Err CommunityNotFoundError
      end
  end).

(** The columns [update] writes. *)
Definition set_settings (name : string) (config : gmap string json) (game_port bedrock_port : option Z)
    (slug : string) (updated_at : datetime) (r : Server) : Server :=
  mkServer r.(s_id) r.(s_community_id) name r.(s_mc_edition) r.(s_mc_version) r.(s_server_type) config
    r.(s_desired_state) r.(s_observed_state) r.(s_observed_at) r.(s_assigned_worker_id) r.(s_created_at)
    updated_at game_port bedrock_port slug r.(s_backup_retention).

(** [UPDATE server SET name, config, game_port, bedrock_port, slug, updated_at], and
    the commit that follows it. *)
Definition update (server : Server) : stmt unit := try_modify (fun d =>
  match d.(rows) !! server.(s_id) with
  | None => Ok d
  | Some row =>
      let row' := set_settings server.(s_name) server.(s_config) server.(s_game_port)
                    server.(s_bedrock_port) server.(s_slug) server.(s_updated_at) row in
      match violated row' d.(rows) with
      | Some c => Err (translate_integrity_error c)
      | None => Ok (set_rows (<[server.(s_id) := row']> d.(rows)) d)
      end
  end).

(** [DELETE FROM server] with its cascades, and the commit that follows it. *)
Definition delete_ (server_id : uuid) : stmt unit := modify (fun d =>
  {| rows := delete server_id d.(rows); communities := d.(communities);
     backups := filter (fun kv : uuid * BackupRow => kv.2.(b_server_id) <> server_id) d.(backups);
     assignments := delete server_id d.(assignments); packs := d.(packs) |}).

(** ** Files and archives *)

Abbreviation files := (gmap (uuid * string) bytes).

Definition read_file (server_id : uuid) (rel_path : string) : M files exn bytes := fun f =>
  match f !! (server_id, rel_path) with
  | Some content => (Ok content, f)
  | None => (Err ServerFileNotFoundError, f)
  end.

Definition write_file (server_id : uuid) (rel_path : string) (content : bytes) : M files exn unit :=
  modify (<[(server_id, rel_path) := content]>).

(** What of a server lies in the archive store: its final packs and its archives. *)
Record shelf := { packed : bool; archives : gset string }.

Abbreviation shelves := (gmap uuid shelf).

Definition shelf_of (server_id : uuid) (s : shelves) : shelf :=
  default {| packed := false; archives := ∅ |} (s !! server_id).

Definition prune_to_final_snapshot (server_id : uuid) : M shelves exn unit := modify (fun s =>
  <[server_id := {| packed := true; archives := (shelf_of server_id s).(archives) |}]> s).

Definition list_archive_refs (server_id : uuid) : M shelves exn (list string) :=
  gets (fun s => elements (shelf_of server_id s).(archives)).

Definition delete_archive (server_id : uuid) (ref : string) : M shelves exn unit := modify (fun s =>
  let sh := shelf_of server_id s in
  <[server_id := {| packed := sh.(packed); archives := sh.(archives) ∖ {[ref]} |}]> s).

(** ** The world and its events *)

Record world := {
  w_db : db;
  w_files : files;
  w_shelves : shelves;
  w_locks : gmap uuid nat                  (* who holds the lock of a server *)
}.

Definition put_db (d : db) (w : world) : world :=
  {| w_db := d; w_files := w.(w_files); w_shelves := w.(w_shelves); w_locks := w.(w_locks) |}.
Definition put_files (f : files) (w : world) : world :=
  {| w_db := w.(w_db); w_files := f; w_shelves := w.(w_shelves); w_locks := w.(w_locks) |}.
Definition put_shelves (s : shelves) (w : world) : world :=
  {| w_db := w.(w_db); w_files := w.(w_files); w_shelves := s; w_locks := w.(w_locks) |}.
Definition put_locks (l : gmap uuid nat) (w : world) : world :=
  {| w_db := w.(w_db); w_files := w.(w_files); w_shelves := w.(w_shelves); w_locks := l |}.

Inductive event : Type -> Type :=
| Now : event datetime
| FreshId : event uuid
| Token : event str
| Choice : event ascii
| Validate (server_type version : string) : event unit
| Authorize (permission : string) : event bool
| Lock (server_id : uuid) : event unit
| Unlock (server_id : uuid) : event unit
| Db {T} (m : stmt T) : event T
| Files {T} (m : M files exn T) : event T
| Shelves {T} (m : M shelves exn T) : event T
| CloseTunnel (server_id : uuid) : event unit.

Abbreviation coroutine := (prog event exn).

(** A failure of the layer below, or the task's cancellation. *)
Definition fault (e : exn) : Prop := e = Failure \/ e = Cancelled.

(** A call on a store: its answer, or a fault after which it happened or did not. *)
Definition stored {S T} (m : M S exn T) (s s' : S) (r : result exn T) : Prop :=
  (r, s') = m s \/ (exists e, r = Err e /\ fault e) /\ (s' = s \/ s' = (m s).2).

(** What an event of request [t] does to the world, and what it answers; a token is
    ASCII, as those of [secrets] are. *)
Definition exec (chars : list ascii) (t : nat) (T : Type) (w : world) (ev : event T)
    (r : result exn T) (w' : world) : Prop :=
  match ev in event T return result exn T -> Prop with
  | Now => fun r => w' = w /\ exists at_, r = Ok at_
  | FreshId => fun r => w' = w /\ exists u, r = Ok u
  | Token => fun r => w' = w /\ exists s, r = Ok s /\ s <> [] /\ Forall (fun c => c < 128)%N s
  | Choice => fun r => w' = w /\ exists c, r = Ok c /\ c ∈ chars
  | Validate _ _ => fun r =>
      w' = w /\ (r = Ok tt \/ r = Err UnknownServerTypeError \/ r = Err UnknownVersionError \/ exists e, r = Err e /\ fault e)
  | Authorize _ => fun r => w' = w /\ ((exists b, r = Ok b) \/ exists e, r = Err e /\ fault e)
  | Lock i => fun r =>
      (w.(w_locks) !! i = None /\ w' = put_locks (<[i := t]> w.(w_locks)) w /\ r = Ok tt)
      \/ (w' = w /\ exists e, r = Err e /\ (e = ServerBusyError \/ fault e))
  | Unlock i => fun r => w' = put_locks (delete i w.(w_locks)) w /\ r = Ok tt
  | Db m => fun r => exists d, w' = put_db d w /\ stored m w.(w_db) d r
  | Files m => fun r => exists f, w' = put_files f w /\ stored m w.(w_files) f r
  | Shelves m => fun r => exists s, w' = put_shelves s w /\ stored m w.(w_shelves) s r
  | CloseTunnel _ => fun r => w' = w /\ r = Ok tt
  end r.

(** [async with lifecycle_lock.hold(server_id): p]. *)
Definition with_lock {A} (server_id : uuid) (p : coroutine A) : coroutine A :=
  _ ← call (Lock server_id);
  finally p (call (Unlock server_id)).

(** [if b: raise e]. *)
Definition raise_if (b : bool) (e : exn) : coroutine unit := if b then Raise e else Ret tt.

(** [try: p except Exception as e: h(e)]. *)
Definition except_Exception {A} (p : coroutine A) (h : exn -> coroutine A) : coroutine A :=
  try_ p (fun e => if is_Exception e then h e else Raise e).
