(* ===== verification/ManageServer.v ===== *)
(** * Server use cases

    [servers/application/manage_server.py]: creating, reading, editing and deleting a
    server, with the two reads of [application/platform_properties.py].  The routes
    admit the caller first; the configured ranges, ceilings and defaults are
    arguments.  A config blob is a [gmap], so its overrides are written in the map's
    order instead of the request's. *)
From Stdlib Require Import ZArith NArith Lia String Ascii.
From stdpp Require Import base gmap strings list sorting pretty.
From S2P Require Import Prelude Uow Uuid Calendar Retention Program Text PyString ServerRow Properties Utf8 ServerPolicies SettingsStore.

#[local] Open Scope Z_scope.

(** What the values [JOther] stands for (floats and arrays) compare as and print as,
    and what a JSON object prints as. *)
Class JsonOther := {
  other_eq : json -> json -> bool;
  other_str : json -> string
}.

Abbreviation config_blob := (gmap string json).

Section use_cases.
Context `{PyStr} `{JsonOther}.

(** ** Values *)

Definition as_number (v : json) : option Z :=
  match v with JInt n => Some n | JBool b => Some (if b then 1 else 0) | _ => None end.

(** [a == b]: a bool is the int it counts as. *)
Fixpoint py_eq (a b : json) : bool :=
  match a, b with
  | JNull, JNull => true
  | JStr s, JStr t => String.eqb s t
  | JObject f, JObject g =>
      Nat.eqb (List.length f) (List.length g)
      && (fix fields (f : list (string * json)) : bool :=
            match f with
            | [] => true
            | (k, v) :: f' => match od_get k g with Some w => py_eq v w | None => false end && fields f'
            end) f
  | JOther, _ | _, JOther => other_eq a b
  | _, _ => match as_number a, as_number b with Some x, Some y => x =? y | _, _ => false end
  end.

(** [str(value)]. *)
Definition py_str (v : json) : string :=
  match v with
  | JStr s => s
  | JInt n => pretty n
  | JBool b => if b then "True" else "False"
  | JNull => "None"
  | JOther | JObject _ => other_str v
  end.

(** ** The config blob *)

Definition _SUPPORTED_EDITION : string := "java".
Definition _EULA_REL_PATH : string := "eula.txt".
Definition _EULA_ACCEPTED_CONTENT : bytes := Eval compute in codes "eula=true" ++ LF.
Definition _PROPERTIES_REL_PATH : string := "server.properties".
Definition _SERVER_UPDATE_PERMISSION : string := "server:update".

Definition _SAFE_CONFIG_KEYS : list string := [SNAPSHOT_INTERVAL_CONFIG_KEY].
Definition _RETIRED_CONFIG_KEYS : list string := ["backup_interval_hours"].
Definition _SYSTEM_MANAGED_JAR_KEYS : list string := [JAR_KEY_CONFIG_FIELD; JAR_SOURCE_CONFIG_FIELD].

(** Membership in [_RESERVED_CONFIG_KEYS]. *)
Definition reserved_key (key : string) : bool :=
  bool_decide (key ∈ [MEMORY_LIMIT_CONFIG_KEY; CPU_ALLOCATION_CONFIG_KEY; SNAPSHOT_INTERVAL_CONFIG_KEY;
                      JAR_KEY_CONFIG_FIELD; JAR_SOURCE_CONFIG_FIELD])
  || bool_decide (points key ∈ PLATFORM_MANAGED_KEYS).

Definition _strip_system_jar_keys (config : config_blob) : config_blob :=
  foldr delete config _SYSTEM_MANAGED_JAR_KEYS.

(** [true] where [_reject_retired_config_keys] raises. *)
Definition retired (config : config_blob) : bool :=
  existsb (fun key => bool_decide (is_Some (config !! key))) _RETIRED_CONFIG_KEYS.

(** Whether a key's presence or value differs. *)
Definition key_changed (current incoming : config_blob) (key : string) : bool :=
  match current !! key, incoming !! key with
  | Some a, Some b => negb (py_eq a b)
  | None, None => false
  | _, _ => true
  end.

Definition _changed_config_keys (current incoming : config_blob) : gset string :=
  filter (fun key => key_changed current incoming key = true) (dom current ∪ dom incoming).

Definition override_of (kv : string * json) : option (str * str) :=
  if reserved_key kv.1 then None else Some (points kv.1, points (py_str kv.2)).

Definition _properties_overrides (config : config_blob) : gmap str str :=
  list_to_map (omap override_of (map_to_list config)).

(** [config[key] = current[key]] for each system key the row has. *)
Definition restore_jar_keys (current config : config_blob) : config_blob :=
  foldr (fun key c => match current !! key with Some v => <[key := v]> c | None => c end)
    config _SYSTEM_MANAGED_JAR_KEYS.

Definition _parse_server_type (value : string) : option ServerType :=
  if String.eqb value "vanilla" then Some VANILLA
  else if String.eqb value "paper" then Some PAPER
  else if String.eqb value "fabric" then Some FABRIC
  else if String.eqb value "forge" then Some FORGE
  else None.

(** [ServerName(value)]. *)
Definition ServerName (value : string) : result exn string :=
  let trimmed := str_strip value in
  if String.eqb trimmed "" then Err InvalidServerNameError else Ok trimmed.

Definition config_ok {A} (r : result config_error A) : coroutine A :=
  pure (match r with Ok x => Ok x | Err e => Err (InvalidConfigError e) end).

Definition port_ok (r : result port_error Z) : coroutine Z :=
  pure (match r with
        | Ok p => Ok p
        | Err PortOutOfRange => Err PortOutOfRangeError
        | Err PortTaken => Err PortAlreadyTakenError
        | Err PortRangeExhausted => Err PortRangeExhaustedError
        end).

(** The bytes of a rewrite; [None] is UnicodeEncodeError. *)
Definition encoded (content : option bytes) : coroutine bytes :=
  pure (match content with Some c => Ok c | None => Err UnicodeEncodeError end).

(** ** CreateServer *)

Record CreateRequest := {
  cr_community_id : uuid;
  cr_name : string;
  cr_mc_edition : string;
  cr_mc_version : string;
  cr_server_type : string;
  cr_config : config_blob;
  cr_accept_eula : bool;
  cr_game_port : option Z;
  cr_slug : option string
}.

Section create.
Context (port_range : PortRange) (default_memory_limit_mb max_memory_limit_mb : option Z).

Fixpoint write_seeds (server_id : uuid) (seeds : list (string * bytes)) : coroutine unit :=
  match seeds with
  | [] => Ret tt
  | (rel_path, content) :: seeds' =>
      _ ← call (Files (write_file server_id rel_path content));
      write_seeds server_id seeds'
  end.

(** The first content of server.properties. *)
Definition seed_properties (game_port : Z) (password : str) (config : config_blob) : option bytes :=
  content ← set_server_port [] game_port;
  properties ← set_rcon_properties content password;
  let overrides := _properties_overrides config in
  if bool_decide (overrides = ∅) then Some properties
  else apply_overrides properties (map_to_list overrides).

Definition _seed_initial_working_set (server_id : uuid) (game_port : Z) (accept_eula : bool)
    (config : config_blob) : coroutine unit :=
  password ← call Token;
  properties ← encoded (seed_properties game_port password config);
  let seeds := (_PROPERTIES_REL_PATH, properties)
               :: (if accept_eula then [(_EULA_REL_PATH, _EULA_ACCEPTED_CONTENT)] else []) in
  except_Exception (write_seeds server_id seeds) (fun _ => Raise WorkingSetSeedFailedError).

(** [slug.strip() if slug is not None and slug.strip() else None]. *)
Definition explicit_slug (slug : option string) : option string :=
  match slug with
  | Some s => if String.eqb (str_strip s) "" then None else Some (str_strip s)
  | None => None
  end.

Definition assign_slug (slug : option string) (taken : gset string) : coroutine string :=
  match explicit_slug slug with
  | Some s =>
      _ ← raise_if (negb (validate_slug s)) InvalidSlugError;
      _ ← raise_if (bool_decide (s ∈ taken)) SlugAlreadyTakenError;
      Ret s
  | None => generate_slug (call Choice) SlugExhaustedError taken
  end.

(** The config the row is given: no system key, the default limit where none is asked. *)
Definition created_config (config : config_blob) : config_blob :=
  let config := _strip_system_jar_keys config in
  match default_memory_limit_mb, config !! MEMORY_LIMIT_CONFIG_KEY with
  | Some mb, None => <[MEMORY_LIMIT_CONFIG_KEY := JInt mb]> config
  | _, _ => config
  end.

Definition CreateServer (req : CreateRequest) : coroutine Server :=
  _ ← raise_if (negb (String.eqb req.(cr_mc_edition) _SUPPORTED_EDITION)) UnsupportedEditionError;
  parsed_type ← pure (match _parse_server_type req.(cr_server_type) with
                      | Some t => Ok t | None => Err UnknownServerTypeError end);
  _ ← raise_if (retired req.(cr_config)) RetiredConfigKeyError;
  let config := created_config req.(cr_config) in
  _ ← config_ok (memory_limit_from_config config max_memory_limit_mb);
  _ ← config_ok (cpu_allocation_from_config config);
  _ ← call (Validate req.(cr_server_type) req.(cr_mc_version));
  now ← call Now;
  taken ← call (Db list_game_ports);
  assigned_port ← port_ok (match req.(cr_game_port) with
                           | None => pick_lowest_free_port port_range taken
                           | Some p => validate_explicit_port p port_range taken
                           end);
  taken_slugs ← call (Db list_slugs);
  assigned_slug ← assign_slug req.(cr_slug) taken_slugs;
  server_id ← call FreshId;
  name ← pure (ServerName req.(cr_name));
  let server := mkServer server_id req.(cr_community_id) name req.(cr_mc_edition) req.(cr_mc_version)
                  parsed_type config D_STOPPED STOPPED None None now now
                  (Some assigned_port) None assigned_slug None in
  _ ← call (Db (add server));
  _ ← _seed_initial_working_set server_id assigned_port req.(cr_accept_eula) config;
  Ret server.
End create.

(** ** Reads *)

(** The row, if it is one of the community's. *)
Definition in_community (community_id : uuid) (found : option Server) : coroutine Server :=
  match found with
  | Some server =>
      if bool_decide (server.(s_community_id) = community_id) then Ret server else Raise ServerNotFoundError
  | None => Raise ServerNotFoundError
  end.

Definition ReadServer (community_id server_id : uuid) : coroutine Server :=
  found ← call (Db (get_by_id server_id));
  in_community community_id found.

Definition LookupServerCommunity (server_id : uuid) : coroutine (option uuid) :=
  found ← call (Db (get_by_id server_id));
  Ret (option_map s_community_id found).

Definition ListServers (community_id : uuid) : coroutine (list Server) :=
  call (Db (list_for_community community_id)).

(** ** platform_properties.py *)

(** [quote(s, safe="")]: the bytes that are not unreserved are escaped. *)
Definition unreserved (b : N) : bool :=
  (((65 <=? b) && (b <=? 90)) || ((97 <=? b) && (b <=? 122)) || ((48 <=? b) && (b <=? 57))
   || bool_decide (b ∈ [45; 46; 95; 126]))%N.

Definition quote (s : string) : str :=
  flat_map (fun b => if unreserved b then [b] else [37%N; hex_digit (N.shiftr b 4); hex_digit (N.land b 15)])
    (utf8_bytes s).

Definition pack_download_url (public_base_url : string) (pack_id : uuid) (filename : string) : str :=
  points public_base_url ++ codes "/api/public/resource-packs/" ++ codes (uuid_str pack_id)
  ++ codes "/" ++ quote filename.

Definition read_properties (server_id : uuid) : coroutine (option bytes) :=
  try_ (content ← call (Files (read_file server_id _PROPERTIES_REL_PATH)); Ret (Some content))
    (fun e => match e with ServerFileNotFoundError => Ret None | _ => Raise e end).

Definition assigned_resource_pack (server_id : uuid) (public_base_url : string)
    : coroutine (option ResourcePackProperties) :=
  assignment ← call (Db (get_assignment_by_server server_id));
  match assignment with
  | None => Ret None
  | Some a =>
      pack ← call (Db (get_pack a.(a_pack_id)));
      Ret (match pack with
           | None => None
           | Some p => Some {| rp_url := pack_download_url public_base_url p.(p_id) p.(p_filename);
                               rp_sha1 := points p.(p_sha1_hash); rp_require := a.(a_require);
                               rp_prompt := points <$> a.(a_prompt) |}
           end)
  end.

(** ** UpdateServer *)

Record UpdateRequest := {
  ur_community_id : uuid;
  ur_server_id : uuid;
  ur_name : option string;
  ur_config : option config_blob;
  ur_game_port : option Z;
  ur_slug : option string
}.

Section update.
Context (port_range : PortRange) (min_interval_seconds : Z) (max_memory_limit_mb : option Z)
  (public_base_url : string).

(** What of the request is checked before anything is read. *)
Definition checked_config (config : option config_blob) : coroutine (option config_blob) :=
  match config with
  | None => Ret None
  | Some config =>
      _ ← raise_if (retired config) RetiredConfigKeyError;
      let config := _strip_system_jar_keys config in
      _ ← pure (match override_from_config config min_interval_seconds with
                | Ok x => Ok x | Err _ => Err InvalidSnapshotIntervalError end);
      _ ← config_ok (memory_limit_from_config config max_memory_limit_mb);
      _ ← config_ok (cpu_allocation_from_config config);
      Ret (Some config)
  end.

Definition changed_keys (server : Server) (config : option config_blob) : gset string :=
  match config with None => ∅ | Some config => _changed_config_keys server.(s_config) config end.

(** An edit that may run in any state. *)
Definition safe_only (server : Server) (new_name : option string) (config : option config_blob)
    (game_port : option Z) : bool :=
  match new_name, game_port with
  | None, None => bool_decide (changed_keys server config ⊆ list_to_set _SAFE_CONFIG_KEYS)
  | _, _ => false
  end.

(** The rename, the repeated attribute left alone. *)
Definition renamed (req : UpdateRequest) (server : Server) (new_name : option string) : coroutine string :=
  match new_name with
  | Some name =>
      if String.eqb name server.(s_name) then Ret server.(s_name)
      else
        clash ← call (Db (get_by_community_and_name req.(ur_community_id) name));
        _ ← raise_if (match clash with
                      | Some row => negb (bool_decide (row.(s_id) = req.(ur_server_id)))
                      | None => false end) ServerNameAlreadyExistsError;
        Ret name
  | None => Ret server.(s_name)
  end.

(** The overrides to write to the file and the keys to remove from it. *)
Definition pending_overrides (server : Server) (config : option config_blob)
    : option (gmap str str * list str) :=
  match config with
  | None => None
  | Some config =>
      let old := _properties_overrides server.(s_config) in
      let new := _properties_overrides config in
      if bool_decide (new = old) then None
      else Some (new, List.filter (fun k => negb (bool_decide (is_Some (new !! k)))) (map fst (map_to_list old)))
  end.

Definition _read_properties (server_id : uuid) (committed : bool) : coroutine bytes :=
  try_ (call (Files (read_file server_id _PROPERTIES_REL_PATH)))
    (fun e => match e with
              | ServerFileNotFoundError => Raise (ServerPropertiesMissingError committed)
              | _ => Raise e end).

(** The new port where it changes, the file it is written to being there. *)
Definition pending_port (req : UpdateRequest) (server : Server) : coroutine (option Z) :=
  match req.(ur_game_port) with
  | None => Ret None
  | Some port =>
      if bool_decide (server.(s_game_port) = Some port) then Ret None
      else
        taken ← call (Db list_game_ports);
        let taken := match server.(s_game_port) with Some own => taken ∖ {[own]} | None => taken end in
        _ ← raise_if (bool_decide (port ∈ taken)) PortAlreadyTakenError;
        _ ← _read_properties req.(ur_server_id) false;
        Ret (Some port)
  end.

Definition new_slug (req : UpdateRequest) (server : Server) : coroutine string :=
  match req.(ur_slug) with
  | None => Ret server.(s_slug)
  | Some slug =>
      if String.eqb slug server.(s_slug) then Ret server.(s_slug)
      else
        clash ← call (Db (get_by_slug slug));
        _ ← raise_if (match clash with
                      | Some row => negb (bool_decide (row.(s_id) = req.(ur_server_id)))
                      | None => false end) SlugAlreadyTakenError;
        Ret slug
  end.

Definition _rewrite_server_port (server_id : uuid) (port : Z) : coroutine unit :=
  current ← _read_properties server_id true;
  except_Exception
    (content ← encoded (set_server_port current port);
     call (Files (write_file server_id _PROPERTIES_REL_PATH content)))
    (fun _ => Raise WorkingSetSeedFailedError).

Definition _rewrite_properties_overrides (server_id : uuid) (overrides : gmap str str)
    (removed_keys : list str) (game_port : option Z) : coroutine unit :=
  found ← read_properties server_id;
  current ← match found with
            | Some current => Ret current
            | None =>
                password ← call Token;
                pack ← assigned_resource_pack server_id public_base_url;
                encoded (apply_platform_properties [] game_port password pack)
            end;
  except_Exception
    (updated ← encoded (apply_overrides current (map_to_list overrides));
     updated ← (match removed_keys with [] => Ret updated | _ => encoded (remove_keys updated removed_keys) end);
     call (Files (write_file server_id _PROPERTIES_REL_PATH updated)))
    (fun _ => Raise WorkingSetSeedFailedError).

(** The files the committed edit asks for, after it. *)
Definition rewrite_files (server_id : uuid) (overrides : option (gmap str str * list str))
    (port : option Z) (game_port : option Z) : coroutine unit :=
  _ ← match overrides with
      | Some (new, removed) => _rewrite_properties_overrides server_id new removed game_port
      | None => Ret tt
      end;
  match port with Some p => _rewrite_server_port server_id p | None => Ret tt end.

(** The block under the lock. *)
Definition update_locked (req : UpdateRequest) (new_name : option string) (config : option config_blob)
    : coroutine Server :=
  found ← call (Db (get_by_id req.(ur_server_id)));
  server ← in_community req.(ur_community_id) found;
  let config := option_map (restore_jar_keys server.(s_config)) config in
  allowed ← call (Authorize _SERVER_UPDATE_PERMISSION);
  _ ← raise_if (negb allowed) PermissionDeniedError;
  _ ← raise_if (negb (safe_only server new_name config req.(ur_game_port)) && negb (is_at_rest server))
        ServerNotStoppedError;
  name ← renamed req server new_name;
  let overrides := pending_overrides server config in
  port ← pending_port req server;
  slug ← new_slug req server;
  now ← call Now;
  let game_port := match port with Some p => Some p | None => server.(s_game_port) end in
  let server' := set_settings name (default server.(s_config) config) game_port
                   server.(s_bedrock_port) slug now server in
  _ ← call (Db (update server'));
  _ ← rewrite_files req.(ur_server_id) overrides port game_port;
  Ret server'.

Definition UpdateServer (req : UpdateRequest) : coroutine Server :=
  _ ← match req.(ur_slug) with
      | Some slug => raise_if (negb (validate_slug slug)) InvalidSlugError
      | None => Ret tt
      end;
  new_name ← match req.(ur_name) with
             | None => Ret None
             | Some n => name ← pure (ServerName n); Ret (Some name)
             end;
  config ← checked_config req.(ur_config);
  _ ← match req.(ur_game_port) with
      | Some port => raise_if (negb (in_range port_range port)) PortOutOfRangeError
      | None => Ret tt
      end;
  with_lock req.(ur_server_id) (update_locked req new_name config).
End update.

(** ** DeleteServer *)

(** The checks of both transactions. *)
Definition deletable (community_id server_id : uuid) : coroutine unit :=
  found ← call (Db (get_by_id server_id));
  server ← in_community community_id found;
  _ ← raise_if (negb (is_at_rest server)) ServerNotStoppedError;
  raise_if (negb (bool_decide (server.(s_assigned_worker_id) = None))) ServerBusyError.

Fixpoint delete_others (server_id : uuid) (head_ref : option string) (refs : list string) : coroutine unit :=
  match refs with
  | [] => Ret tt
  | ref :: refs' =>
      _ ← (if bool_decide (Some ref = head_ref) then Ret tt
           else call (Shelves (delete_archive server_id ref)));
      delete_others server_id head_ref refs'
  end.

Definition DeleteServer (community_id server_id : uuid) : coroutine unit :=
  _ ← with_lock server_id (
    _ ← deletable community_id server_id;
    _ ← call (Shelves (prune_to_final_snapshot server_id));
    _ ← deletable community_id server_id;
    backups ← call (Db (list_for_server server_id));
    let head_ref := option_map b_storage_ref (head backups) in
    all_refs ← call (Shelves (list_archive_refs server_id));
    _ ← delete_others server_id head_ref all_refs;
    call (Db (delete_ server_id)));
  call (CloseTunnel server_id).
End use_cases.
