(* ===== verification/SettingsTables.v ===== *)
(** * The server table's constraints

    What the UNIQUE and FOREIGN KEY constraints of [SettingsStore] keep true of the
    table, and how the three writes move a row. *)
From Stdlib Require Import ZArith NArith Lia String Ascii.
From stdpp Require Import base gmap strings list sorting.
From S2P Require Import Prelude Uow Uuid Calendar Retention Program ServerRow Properties SettingsStore.

#[local] Open Scope Z_scope.

(** Two rows that no constraint keeps apart. *)
Definition compatible (a b : Server) : Prop :=
  ~ (a.(s_community_id) = b.(s_community_id) /\ a.(s_name) = b.(s_name))
  /\ same_port a.(s_game_port) b.(s_game_port) = false
  /\ a.(s_slug) <> b.(s_slug)
  /\ same_port a.(s_bedrock_port) b.(s_bedrock_port) = false.

(** Rows lie under their ids, no two of them collide, and each community exists. *)
Record tables_ok (d : db) : Prop := {
  to_ids : forall i r, d.(rows) !! i = Some r -> r.(s_id) = i;
  to_unique : forall i j a b, i <> j -> d.(rows) !! i = Some a -> d.(rows) !! j = Some b -> compatible a b;
  to_community : forall i r, d.(rows) !! i = Some r -> r.(s_community_id) ∈ d.(communities)
}.

Lemma same_port_sym a b : same_port a b = same_port b a.
Proof. destruct a, b; cbn; try done. apply Z.eqb_sym. Qed.

#[export] Instance compatible_sym : Symmetric compatible.
Proof.
  intros a b (Hn & Hg & Hs & Hb). split; [naive_solver|].
  rewrite same_port_sym, (same_port_sym b.(s_bedrock_port)). naive_solver.
Qed.

Lemma same_port_false a b : same_port a b = false <-> forall p, a = Some p -> b <> Some p.
Proof.
  destruct a as [p|], b as [q|]; cbn; split; try done.
  - intros Hne x [= ->] [= ->]. by rewrite Z.eqb_refl in Hne.
  - intros Hne. apply Z.eqb_neq. intros ->. by apply (Hne q).
Qed.

(** The constraints' verdict on one row. *)
Lemma violated_none row m : violated row m = None <->
  forall j r, j <> row.(s_id) -> m !! j = Some r -> compatible r row.
Proof.
  unfold violated, compatible. set (others := delete _ m).
  assert (Ho : forall (p : Server -> bool), any_row p others = false <->
    forall j r, j <> row.(s_id) -> m !! j = Some r -> p r = false).
  { intros p. rewrite any_row_false. unfold others. split.
    - intros Hp j r Hne Hj. apply (Hp j). by rewrite lookup_delete_ne.
    - intros Hp j r [Hne Hj]%lookup_delete_Some. by apply (Hp j). }
  assert (Hn : forall r, bool_decide (s_community_id r = s_community_id row) && String.eqb (s_name r) (s_name row) = false
    <-> ~ (s_community_id r = s_community_id row /\ s_name r = s_name row)).
  { intros r. rewrite <- not_true_iff_false, andb_true_iff, bool_decide_eq_true, String.eqb_eq. done. }
  split.
  - destruct (any_row _ others) eqn:E1; [done|]. destruct (any_row _ others) eqn:E2 in |- *; [done|].
    destruct (any_row _ others) eqn:E3 in |- *; [done|]. destruct (any_row _ others) eqn:E4 in |- *; [done|].
    intros _ j r Hne Hj. split; [apply Hn; by eapply Ho in E1|].
    split; [by eapply Ho in E2|]. split; [eapply Ho in E3; [|done|done]; by apply String.eqb_neq|by eapply Ho in E4].
  - intros Hc. assert (Hf : forall p : Server -> bool, (forall j r, j <> row.(s_id) -> m !! j = Some r -> p r = false) ->
      any_row p others = false) by (intros p; apply Ho).
    rewrite !Hf; [done|..]; intros j r Hne Hj; destruct (Hc j r Hne Hj) as (H1 & H2 & H3 & H4); try done.
    + by apply String.eqb_neq.
    + by apply Hn.
Qed.

(** A write of one row that violates nothing. *)
Lemma tables_edit d row : tables_ok d -> violated row d.(rows) = None ->
  row.(s_community_id) ∈ d.(communities) -> tables_ok (set_rows (<[row.(s_id) := row]> d.(rows)) d).
Proof.
  intros [Hi Hu Hc] Hv Hcom. rewrite violated_none in Hv. split; cbn.
  - intros i r [[<- <-]|[Hne Hr]]%lookup_insert_Some; [done|by apply Hi].
  - intros i j a b Hne [[<- <-]|[Hni Ha]]%lookup_insert_Some [[<- <-]|[Hnj Hb]]%lookup_insert_Some; try done.
    + apply compatible_sym. by apply (Hv j).
    + by apply (Hv i).
    + exact (Hu i j a b Hne Ha Hb).
  - intros i r [[<- <-]|[Hne Hr]]%lookup_insert_Some; [done|by eapply Hc].
Qed.

(** What a write did: nothing, or its row. *)
Lemma add_cases server d d' r : stored (add server) d d' r ->
  d' = d \/ (d.(rows) !! server.(s_id) = None /\ violated server d.(rows) = None
             /\ server.(s_community_id) ∈ d.(communities)
             /\ d' = set_rows (<[server.(s_id) := server]> d.(rows)) d).
Proof.
  assert (Hcase : (add server d).2 = d \/ (d.(rows) !! server.(s_id) = None /\ violated server d.(rows) = None
             /\ server.(s_community_id) ∈ d.(communities)
             /\ (add server d).2 = set_rows (<[server.(s_id) := server]> d.(rows)) d)).
  { unfold add, try_modify. destruct (d.(rows) !! server.(s_id)); [by left|].
    destruct (violated server d.(rows)) eqn:Ev; [by left|]. case_bool_decide; [by right|by left]. }
  intros [E|[_ [->| ->]]]; [|by left|done]. by rewrite <- E in Hcase.
Qed.

(** The written columns on the row as it is. *)
Definition written (server row : Server) : Server :=
  set_settings server.(s_name) server.(s_config) server.(s_game_port) server.(s_bedrock_port)
    server.(s_slug) server.(s_updated_at) row.

Lemma update_cases server d d' r : stored (update server) d d' r ->
  d' = d \/ exists row, d.(rows) !! server.(s_id) = Some row /\ violated (written server row) d.(rows) = None
    /\ d' = set_rows (<[server.(s_id) := written server row]> d.(rows)) d.
Proof.
  assert (Hcase : (update server d).2 = d \/ exists row, d.(rows) !! server.(s_id) = Some row
    /\ violated (written server row) d.(rows) = None
    /\ (update server d).2 = set_rows (<[server.(s_id) := written server row]> d.(rows)) d).
  { unfold update, try_modify. destruct (d.(rows) !! server.(s_id)) as [row|] eqn:Er; [|by left].
    unfold written. destruct (violated _ d.(rows)) eqn:Ev; [by left|right]. by exists row. }
  intros [E|[_ [->| ->]]]; [|by left|done]. by rewrite <- E in Hcase.
Qed.

Lemma delete_cases i d d' r : stored (delete_ i) d d' r -> d' = d \/ d' = (delete_ i d).2.
Proof. intros [E|[_ [->| ->]]]; [|by left|by right]. right. by rewrite <- E. Qed.

Lemma tables_delete i d : tables_ok d -> tables_ok (delete_ i d).2.
Proof.
  intros [Hi Hu Hc]. split; cbn; setoid_rewrite lookup_delete_Some.
  - naive_solver.
  - intros j k a b Hne [_ Ha] [_ Hb]. exact (Hu j k a b Hne Ha Hb).
  - naive_solver.
Qed.

(** A read leaves the store alone. *)
Lemma stored_gets {S T} (f : S -> T) s s' (r : result exn T) : stored (gets f) s s' r ->
  s' = s /\ (r = Ok (f s) \/ exists e, r = Err e /\ fault e).
Proof.
  unfold stored, gets. cbn. intros [[= -> ->]|[He Hs]]; [by split; [|left]|]. split; [by destruct Hs|by right].
Qed.

(** Setting a column does not move the row. *)
Lemma written_id server row : (written server row).(s_id) = row.(s_id).
Proof. done. Qed.
