(* ===== verification/SettingsSafety.v ===== *)
(** * Server settings among the rest of the API

    The requests of [ManageServer] as threads that interleave with each other and
    with everything else that touches a server, event by event, and what each of
    their steps may do to a row: [request_step].  What the rest of the API keeps to
    is [outside]: it leaves a server whose lifecycle lock a request holds alone,
    except for the reports and the stops that take no lock. *)
From Stdlib Require Import ZArith NArith Lia String Ascii.
From stdpp Require Import base gmap strings list sorting.
From S2P Require Import Prelude Uow Uuid Calendar Retention Program RelyGuarantee Text PyString ServerRow Properties Utf8 ServerPolicies SettingsStore ManageServer SettingsTables.

#[local] Open Scope Z_scope.

(** ** What is left alone under the lock *)

(** A row moved by reports and stops: its settings stay, its config but for the safe
    keys, and one that is stopped stays stopped and unassigned, config and all. *)
Record follows (r r' : Server) : Prop := {
  fo_id : r'.(s_id) = r.(s_id);
  fo_community : r'.(s_community_id) = r.(s_community_id);
  fo_name : r'.(s_name) = r.(s_name);
  fo_game_port : r'.(s_game_port) = r.(s_game_port);
  fo_bedrock_port : r'.(s_bedrock_port) = r.(s_bedrock_port);
  fo_slug : r'.(s_slug) = r.(s_slug);
  fo_config : forall key, key ∉ _SAFE_CONFIG_KEYS -> r'.(s_config) !! key = r.(s_config) !! key;
  fo_stopped : r.(s_desired_state) = D_STOPPED ->
    r'.(s_desired_state) = D_STOPPED /\ r'.(s_config) = r.(s_config)
    /\ (r.(s_assigned_worker_id) = None -> r'.(s_assigned_worker_id) = None)
}.

#[export] Instance follows_refl : Reflexive follows.
Proof. by intros r. Qed.

#[export] Instance follows_trans : Transitive follows.
Proof.
  intros a b c [] []. split; try congruence.
  - intros key Hk. by rewrite fo_config1, fo_config0.
  - intros Ha. destruct (fo_stopped0 Ha) as (Hb & Hcb & Hab). destruct (fo_stopped1 Hb) as (Hc & Hcc & Hac).
    split; [done|]. split; [congruence|auto].
Qed.

(** A server's row, archives and backups, left to whoever holds its lock. *)
Record guarded (i : uuid) (w w' : world) : Prop := {
  gu_row : forall r, w.(w_db).(rows) !! i = Some r ->
    exists r', w'.(w_db).(rows) !! i = Some r' /\ follows r r';
  gu_shelf : w'.(w_shelves) !! i = w.(w_shelves) !! i;
  gu_backups : forall k b, b.(b_server_id) = i ->
    w'.(w_db).(backups) !! k = Some b <-> w.(w_db).(backups) !! k = Some b
}.

#[export] Instance guarded_refl i : Reflexive (guarded i).
Proof. intros w. split; [|done..]. intros r Hr. by exists r. Qed.

#[export] Instance guarded_trans i : Transitive (guarded i).
Proof.
  intros a b c [Hr Hs Hb] [Hr' Hs' Hb']. split; [|congruence|].
  - intros r Ha. destruct (Hr r Ha) as (r' & H1 & Hf). destruct (Hr' r' H1) as (r'' & H2 & Hf').
    exists r''. split; [done|]. by transitivity r'.
  - intros k bk Hk. by rewrite (Hb' k bk Hk), (Hb k bk Hk).
Qed.

(** What request [t] relies on. *)
Definition relies (t : nat) (w w' : world) : Prop :=
  (tables_ok w.(w_db) -> tables_ok w'.(w_db))
  /\ forall i, w.(w_locks) !! i = Some t -> w'.(w_locks) !! i = Some t /\ guarded i w w'.

#[export] Instance relies_refl t : Reflexive (relies t).
Proof. intros w. split; [done|]. intros i Hi. by split. Qed.

#[export] Instance relies_trans t : Transitive (relies t).
Proof.
  intros a b c [Ht H] [Ht' H']. split; [auto|]. intros i Hi. destruct (H i Hi) as [Hb Hg].
  destruct (H' i Hb) as [Hc Hg']. split; [done|]. by transitivity b.
Qed.

(** The rest of the API: it keeps the constraints, takes no lock away, leaves held
    servers alone, and neither adds nor removes a server. *)
Record outside (w w' : world) : Prop := {
  ou_tables : tables_ok w.(w_db) -> tables_ok w'.(w_db);
  ou_locks : w'.(w_locks) = w.(w_locks);
  ou_held : forall i, is_Some (w.(w_locks) !! i) -> guarded i w w';
  ou_rows : dom w'.(w_db).(rows) = dom w.(w_db).(rows)
}.

Section steps.
Context `{PyStr} `{JsonOther}.
Context (port_range : PortRange) (min_interval_seconds : Z)
  (default_memory_limit_mb max_memory_limit_mb : option Z) (public_base_url : string).

(** ** What a request may do to a row *)

(** The config blob carries the system's keys as before. *)
Definition keeps_system_keys (c c' : config_blob) : Prop :=
  forall key, key ∈ _SYSTEM_MANAGED_JAR_KEYS -> c' !! key = c !! key.

(** An edit: a new port is in the range, a new slug valid; the system's keys stay; and
    a server that is not meant to be stopped keeps its name, its port and, up to the
    equality of Python, every key that is not safe. *)
Definition edited (r r' : Server) : Prop :=
  exists name config game_port slug at_,
    r' = set_settings name config game_port r.(s_bedrock_port) slug at_ r
    /\ (game_port = r.(s_game_port) \/ exists p, game_port = Some p /\ in_range port_range p = true)
    /\ (slug = r.(s_slug) \/ validate_slug slug = true)
    /\ keeps_system_keys r.(s_config) config
    /\ (r.(s_desired_state) = D_STOPPED
        \/ (name = r.(s_name) /\ game_port = r.(s_game_port)
            /\ forall key, key ∉ _SAFE_CONFIG_KEYS ->
                 config !! key = r.(s_config) !! key \/ key_changed r.(s_config) config key = false)).

(** A new row: at rest, unplaced, on a free port of the range that is not reserved,
    under a valid slug and a name, with a sound config that carries no system key. *)
Definition created (r : Server) : Prop :=
  r.(s_desired_state) = D_STOPPED /\ r.(s_observed_state) = STOPPED
  /\ r.(s_assigned_worker_id) = None /\ r.(s_bedrock_port) = None /\ r.(s_mc_edition) = _SUPPORTED_EDITION
  /\ (exists p, r.(s_game_port) = Some p /\ in_range port_range p = true /\ p ∉ port_range.(pr_reserved))
  /\ validate_slug r.(s_slug) = true
  /\ r.(s_name) <> EmptyString
  /\ (forall key, key ∈ _SYSTEM_MANAGED_JAR_KEYS -> r.(s_config) !! key = None)
  /\ retired r.(s_config) = false
  /\ is_ok (memory_limit_from_config r.(s_config) max_memory_limit_mb) = true
  /\ is_ok (cpu_allocation_from_config r.(s_config)) = true.

(** The one archive that a deletion keeps: the newest backup's, if there is one. *)
Definition newest_ref (i : uuid) (d : db) (kept : option string) : Prop :=
  match kept with
  | Some ref => exists k b, d.(backups) !! k = Some b /\ b.(b_server_id) = i /\ b.(b_storage_ref) = ref
      /\ forall k' b', d.(backups) !! k' = Some b' -> b'.(b_server_id) = i -> newest_first b b'
  | None => forall k b, d.(backups) !! k = Some b -> b.(b_server_id) <> i
  end.

(** A deletion: the server is meant to be stopped and no worker holds it; its working
    set is packed, and of its archives at most the newest backup's is left. *)
Definition removed (i : uuid) (r : Server) (w : world) : Prop :=
  r.(s_desired_state) = D_STOPPED /\ r.(s_assigned_worker_id) = None
  /\ (shelf_of i w.(w_shelves)).(packed) = true
  /\ exists kept, newest_ref i w.(w_db) kept
     /\ forall ref, ref ∈ (shelf_of i w.(w_shelves)).(archives) -> kept = Some ref.

Definition request_step (w w' : world) : Prop := forall i,
  match w.(w_db).(rows) !! i, w'.(w_db).(rows) !! i with
  | Some r, Some r' => r' = r \/ edited r r'
  | Some r, None => removed i r w
  | None, Some r' => created r'
  | None, None => True
  end.

(** What request [t] guarantees. *)
Record guarantees (t : nat) (w w' : world) : Prop := {
  ga_tables : tables_ok w.(w_db) -> tables_ok w'.(w_db);
  ga_kept : forall i u, w.(w_locks) !! i = Some u -> u <> t ->
    w'.(w_locks) !! i = Some u /\ guarded i w w';
  ga_step : request_step w w'
}.

Lemma guarantees_relied t u w w' : t <> u -> guarantees t w w' -> relies u w w'.
Proof. intros Hne [Ht Hk _]. split; [done|]. intros i Hi. by apply Hk. Qed.

Lemma outside_relied u w w' : outside w w' -> relies u w w'.
Proof. intros [Ht Hl Hh _]. split; [done|]. intros i Hi. rewrite Hl. split; [done|]. by apply Hh. Qed.

(** ** Steps of one request *)

Section thread.
Context (t : nat).

Abbreviation okay p w post := (rg (exec _SLUG_CHARS t) (relies t) (guarantees t) p w post).

(** A step that touches neither a row, an archive nor a lock. *)
Definition same (w w' : world) : Prop :=
  w'.(w_db) = w.(w_db) /\ w'.(w_shelves) = w.(w_shelves) /\ w'.(w_locks) = w.(w_locks).

Lemma same_guarded i w w' : same w w' -> guarded i w w'.
Proof using. intros (Hd & Hs & Hl). split; rewrite ?Hd, ?Hs; [|done..]. intros r Hr. by exists r. Qed.

Lemma same_relies w w' : same w w' -> relies t w w'.
Proof using.
  intros Hs. pose proof Hs as (Hd & _ & Hl). split; [by rewrite Hd|]. intros i Hi. rewrite Hl.
  split; [done|by apply same_guarded].
Qed.

Lemma same_step w w' : w'.(w_db).(rows) = w.(w_db).(rows) -> request_step w w'.
Proof using. intros E i. rewrite E. destruct (_ !! i); [by left|done]. Qed.

Lemma same_guarantees w w' : same w w' -> guarantees t w w'.
Proof using.
  intros Hs. pose proof Hs as (Hd & _ & Hl). split; [by rewrite Hd| |apply same_step; by rewrite Hd].
  intros i u Hi _. rewrite Hl. split; [done|by apply same_guarded].
Qed.

Lemma same_refl w : same w w.
Proof using. done. Qed.

(** A quiet event, and what its answers lead to. *)
Lemma okay_skip {A T} (ev : event T) (k : T -> coroutine A) w post :
  (forall w1 r w2, exec _SLUG_CHARS t T w1 ev r w2 -> same w1 w2) ->
  (forall w1 x w2, relies t w w1 -> relies t w w2 -> exec _SLUG_CHARS t T w1 ev (Ok x) w2 -> okay (k x) w2 post) ->
  (forall e w2, relies t w w2 -> post (Err e) w2) ->
  okay (call ev ≫= k) w post.
Proof using.
  intros Hs Hk He. apply rg_step. intros w1 Hr r w2 Hx. pose proof (Hs _ _ _ Hx) as Hsame.
  split; [by apply same_guarantees|].
  assert (Hr2 : relies t w w2) by (transitivity w1; [done|by apply same_relies]).
  destruct r as [x|e]; [exact (Hk w1 x w2 Hr Hr2 Hx)|by apply He].
Qed.

Lemma read_same {T} (f : db -> T) w r w' : exec _SLUG_CHARS t T w (Db (gets f)) r w' ->
  same w w' /\ forall x, r = Ok x -> x = f w.(w_db).
Proof using.
  intros (d & -> & [-> Hr]%stored_gets). split; [done|]. intros x ->. destruct Hr as [[= ->]|(e & ? & _)]; done.
Qed.

(** A read of the tables. *)
Lemma okay_read {A T} (f : db -> T) (k : T -> coroutine A) w post :
  (forall w1 w2, relies t w w1 -> relies t w w2 -> same w1 w2 -> okay (k (f w1.(w_db))) w2 post) ->
  (forall e w2, relies t w w2 -> post (Err e) w2) ->
  okay (call (Db (gets f)) ≫= k) w post.
Proof using.
  intros Hk He. apply okay_skip; [by intros ??? [? _]%read_same| |done].
  intros w1 x w2 H1 H2 [Hs Hx]%read_same. rewrite (Hx x eq_refl). by apply Hk.
Qed.

Lemma files_same {T} (m : M files exn T) w r w' : exec _SLUG_CHARS t T w (Files m) r w' -> same w w'.
Proof using. by intros (f & -> & _). Qed.

(** ** The row that was read *)

(** The row as it is follows the one read under the lock. *)
Definition seen (i : uuid) (server : Server) (w : world) : Prop :=
  tables_ok w.(w_db) /\ w.(w_locks) !! i = Some t
  /\ exists r, w.(w_db).(rows) !! i = Some r /\ follows server r.

Definition holds (i : uuid) (w : world) : Prop := tables_ok w.(w_db) /\ w.(w_locks) !! i = Some t.

Lemma holds_stable i w w' : relies t w w' -> holds i w -> holds i w'.
Proof using. intros [Ht Hl] [Hok Hi]. split; [auto|]. by apply Hl. Qed.

Lemma seen_holds i server w : seen i server w -> holds i w.
Proof using. by intros (? & ? & _). Qed.

Lemma seen_stable i server w w' : relies t w w' -> seen i server w -> seen i server w'.
Proof using.
  intros [Ht Hl] (Hok & Hi & r & Hr & Hf). destruct (Hl i Hi) as [Hi' [Hg _ _]].
  destruct (Hg r Hr) as (r' & Hr' & Hf'). split; [auto|]. split; [done|]. exists r'.
  split; [done|]. by transitivity r.
Qed.

Lemma row_seen i w w' server : holds i w' -> same w w' -> w.(w_db).(rows) !! i = Some server -> seen i server w'.
Proof using.
  intros [Hok Hi] (Hd & _ & _) Hr. split; [done|]. split; [done|]. exists server. by rewrite Hd.
Qed.

(** Coroutines that only read and write files, begun with the row in sight: they
    leave it in sight. *)
Definition still {A} (p : coroutine A) : Prop := forall (Q : world -> Prop) w,
  (forall w1 w2, relies t w1 w2 -> Q w1 -> Q w2) -> Q w -> okay p w (fun _ w' => Q w').

Lemma still_ret {A} (a : A) : still (Ret a).
Proof using. by intros Q w _ HQ. Qed.
Lemma still_raise {A} e : still (Raise (A := A) e).
Proof using. by intros Q w _ HQ. Qed.
Lemma still_pure {A} (r : result exn A) : still (pure r).
Proof using. destruct r; [apply still_ret|apply still_raise]. Qed.
Lemma still_bind {A B} (p : coroutine A) (f : A -> coroutine B) : still p -> (forall a, still (f a)) -> still (p ≫= f).
Proof using.
  intros Hp Hf Q w Hs HQ. apply rg_bind. eapply rg_mono; [by apply (Hp Q)|].
  intros [a|e] w' HQ'; [by apply Hf|done].
Qed.
Lemma still_try {A} (p : coroutine A) h : still p -> (forall e, still (h e)) -> still (try_ p h).
Proof using.
  intros Hp Hh Q w Hs HQ. apply rg_try. eapply rg_mono; [by apply (Hp Q)|].
  intros [a|e] w' HQ'; [done|by apply Hh].
Qed.
Lemma still_call {T} (ev : event T) :
  (forall w1 r w2, exec _SLUG_CHARS t T w1 ev r w2 -> same w1 w2) -> still (call ev).
Proof using.
  intros Hs Q w Hst HQ. apply rg_call. intros w1 Hr r w2 Hx. pose proof (Hs _ _ _ Hx) as Hsame.
  split; [by apply same_guarantees|]. eapply Hst; [by apply same_relies|]. by eapply Hst.
Qed.
Lemma still_read {T} (f : db -> T) : still (call (Db (gets f))).
Proof using. apply still_call. by intros ??? [? _]%read_same. Qed.
Lemma still_files {T} (m : M files exn T) : still (call (Files m)).
Proof using. apply still_call. by intros ??? ?%files_same. Qed.
Lemma still_token : still (call Token).
Proof using. apply still_call. by intros ??? [-> _]. Qed.
Lemma still_now : still (call Now).
Proof using. apply still_call. by intros ??? [-> _]. Qed.
Lemma still_if (b : bool) e : still (raise_if b e).
Proof using. destruct b; [apply still_raise|apply still_ret]. Qed.
Lemma still_except {A} (p : coroutine A) e : still p -> still (except_Exception p (fun _ => Raise e)).
Proof using. intros Hp. apply still_try; [done|]. intros e'. destruct (is_Exception e'); apply still_raise. Qed.

(** What a still coroutine leaves, with what is known of its result. *)
Lemma still_okay {A} (p : coroutine A) (Q : world -> Prop) (C : A -> Prop) w :
  (forall w1 w2, relies t w1 w2 -> Q w1 -> Q w2) -> still p -> Q w ->
  okay p w (fun r _ => forall a, r = Ok a -> C a) ->
  okay p w (fun r w' => Q w' /\ forall a, r = Ok a -> C a).
Proof using.
  intros Hs Hp HQ HC. specialize (Hp Q w Hs HQ). clear HQ. revert w Hp HC.
  induction p as [a|e|T ev k IH]; intros w Hp HC; cbn in *; [by split..|].
  intros w1 Hr r w2 Hx. destruct (Hp w1 Hr r w2 Hx) as [Hg Hk]. destruct (HC w1 Hr r w2 Hx) as [_ Hc]. auto.
Qed.
End thread.
End steps.
