(* ===== verification/SettingsThreads.v ===== *)
(** * Server settings: every request keeps its guarantee

    [CreateServer], [UpdateServer], [DeleteServer] and the reads, each against the
    rely and the guarantee of [SettingsSafety]. *)
From Stdlib Require Import ZArith NArith Lia String Ascii.
From stdpp Require Import base gmap strings list sorting.
From S2P Require Import Prelude Uow Uuid Calendar Retention Program RelyGuarantee Text PyString ServerRow Properties Utf8 ServerPolicies SettingsStore ManageServer SettingsTables SettingsSafety.

#[local] Open Scope Z_scope.

Section threads.
Context `{PyStr} `{JsonOther}.
Context (port_range : PortRange) (min_interval_seconds : Z)
  (default_memory_limit_mb max_memory_limit_mb : option Z) (public_base_url : string).
Context (t : nat).

#[local] Notation okay p w post :=
  (rg (exec _SLUG_CHARS t) (relies t) (guarantees port_range max_memory_limit_mb t) p w post).
#[local] Notation still := (still port_range max_memory_limit_mb t).

Ltac still_step :=
  first [ apply still_bind; [|intros ?] | apply still_ret | apply still_raise | apply still_pure | apply still_if
        | apply still_token | apply still_now | apply still_files | apply still_read | apply still_except
        | apply still_try; [|intros ?] | case_match ].
Ltac stills := repeat still_step.

(** ** The coroutines that touch no row *)

Lemma still_rewrite server_id overrides port game_port :
  still (rewrite_files public_base_url server_id overrides port game_port).
Proof using. unfold rewrite_files, _rewrite_properties_overrides, read_properties, assigned_resource_pack,
  _rewrite_server_port, _read_properties, encoded. stills. Qed.

Lemma still_seeds server_id seeds : still (write_seeds server_id seeds).
Proof using. induction seeds as [|[p c] seeds IH]; cbn [write_seeds]; stills. apply IH. Qed.

Lemma still_seed server_id game_port accept_eula config :
  still (_seed_initial_working_set server_id game_port accept_eula config).
Proof using. unfold _seed_initial_working_set, encoded. stills; apply still_seeds. Qed.

(** ** Values read for an edit *)

Context (Q : world -> Prop) (stable : forall w1 w2, relies t w1 w2 -> Q w1 -> Q w2).

#[local] Notation yields p w C := (okay p w (fun r w' => Q w' /\ forall a, r = Ok a -> C a)).

Lemma yields_ret {A} (a : A) w (C : A -> Prop) : Q w -> C a -> yields (Ret a) w C.
Proof using. intros HQ HC. split; [done|]. by intros b [= <-]. Qed.

Lemma yields_bind {A B} (p : coroutine A) (f : A -> coroutine B) w (C : B -> Prop) :
  still p -> Q w -> (forall a w', Q w' -> yields (f a) w' C) -> yields (p ≫= f) w C.
Proof using stable.
  intros Hp HQ Hf. apply rg_bind. eapply rg_mono; [by apply (Hp Q)|].
  intros [a|e] w' HQ'; [by apply Hf|]. by split.
Qed.

Lemma yields_if {A} b e (f : unit -> coroutine A) w (C : A -> Prop) :
  Q w -> (b = false -> yields (f tt) w C) -> yields (raise_if b e ≫= f) w C.
Proof using. intros HQ Hf. destruct b; [by split|]. by apply Hf. Qed.

Lemma yields_pure {A B} (r : result exn A) (f : A -> coroutine B) w (C : B -> Prop) :
  Q w -> (forall a, r = Ok a -> yields (f a) w C) -> yields (pure r ≫= f) w C.
Proof using. intros HQ Hf. destruct r as [a|e]; [by apply Hf|by split]. Qed.

Lemma renamed_okay req server new_name w : Q w ->
  yields (renamed req server new_name) w (fun n =>
    (new_name = None -> n = server.(s_name))).
Proof using stable.
  intros HQ. unfold renamed. destruct new_name as [name|]; [|by apply yields_ret].
  destruct (name =? server.(s_name))%string; [by apply yields_ret|].
  apply yields_bind; [apply still_read|done|]. intros clash w' HQ'. by apply yields_if.
Qed.

Lemma pending_port_okay req server w : Q w ->
  yields (pending_port req server) w (fun p => p = None \/ p = req.(ur_game_port)).
Proof using stable.
  intros HQ. unfold pending_port. destruct (ur_game_port req) as [port|]; [|by apply yields_ret; [|left]].
  case_bool_decide; [by apply yields_ret; [|left]|].
  apply yields_bind; [apply still_read|done|]. intros taken w' HQ'. apply yields_if; [done|]. intros _.
  apply yields_bind; [unfold _read_properties; stills|done|]. intros content w'' HQ''.
  apply yields_ret; [done|by right].
Qed.

Lemma new_slug_okay req server w : Q w ->
  yields (new_slug req server) w (fun s => s = server.(s_slug) \/ req.(ur_slug) = Some s).
Proof using stable.
  intros HQ. unfold new_slug. destruct (ur_slug req) as [slug|]; [|by apply yields_ret; [|left]].
  destruct (slug =? server.(s_slug))%string; [by apply yields_ret; [|left]|].
  apply yields_bind; [apply still_read|done|]. intros clash w' HQ'. apply yields_if; [done|]. intros _.
  apply yields_ret; [done|by right].
Qed.

(** A slug that is drawn, or the one asked for. *)
Lemma generate_okay n taken w : Q w ->
  yields (generate (call Choice) SlugExhaustedError n taken) w (fun s => validate_slug s = true).
Proof using stable.
  revert w. induction n as [|n IH]; intros w HQ; [by split|]. cbn [generate].
  apply yields_bind; [|done|].
  - generalize _SLUG_LENGTH as m. induction m as [|m IHm]; cbn [draw]; [apply still_ret|].
    apply still_bind; [apply still_call; by intros ??? [-> _]|]. intros c. apply still_bind; [done|]. intros s. apply still_ret.
  - intros s w' HQ'. destruct (validate_slug s) eqn:Ev; cbn [andb]; [|by apply IH].
    destruct (negb _); [by apply yields_ret|by apply IH].
Qed.

Lemma assign_slug_okay slug taken w : Q w ->
  yields (assign_slug slug taken) w (fun s => validate_slug s = true).
Proof using stable.
  intros HQ. unfold assign_slug. destruct (explicit_slug slug) as [s|]; [|by apply generate_okay].
  apply yields_if; [done|]. intros Hv%negb_false_iff. apply yields_if; [done|]. intros _. by apply yields_ret.
Qed.
End threads.

(** ** Config blobs *)

Section config.
Context `{PyStr} `{JsonOther}.

Lemma strip_jar_keys c key : key ∈ _SYSTEM_MANAGED_JAR_KEYS -> _strip_system_jar_keys c !! key = None.
Proof using.
  unfold _strip_system_jar_keys, _SYSTEM_MANAGED_JAR_KEYS. cbn [foldr]. intros Hk.
  rewrite !lookup_delete_None. rewrite !elem_of_cons, elem_of_nil in Hk. naive_solver.
Qed.

Lemma strip_jar_ne c key : key ∉ _SYSTEM_MANAGED_JAR_KEYS -> _strip_system_jar_keys c !! key = c !! key.
Proof using.
  unfold _strip_system_jar_keys, _SYSTEM_MANAGED_JAR_KEYS. cbn [foldr]. intros Hk.
  by rewrite !lookup_delete_ne by set_solver.
Qed.

(** The system's keys of a request are those of the row. *)
Lemma restore_keeps current c : (forall key, key ∈ _SYSTEM_MANAGED_JAR_KEYS -> c !! key = None) ->
  keeps_system_keys current (restore_jar_keys current c).
Proof using.
  intros Hc key Hk. pose proof (Hc JAR_KEY_CONFIG_FIELD ltac:(set_solver)) as H1.
  pose proof (Hc JAR_SOURCE_CONFIG_FIELD ltac:(set_solver)) as H2.
  unfold restore_jar_keys, _SYSTEM_MANAGED_JAR_KEYS in *. cbn [foldr].
  assert (Hne : JAR_KEY_CONFIG_FIELD <> JAR_SOURCE_CONFIG_FIELD) by done.
  rewrite !elem_of_cons, elem_of_nil in Hk. destruct Hk as [->|[->|[]]].
  - destruct (current !! JAR_KEY_CONFIG_FIELD) eqn:E1; [by rewrite lookup_insert_eq|].
    destruct (current !! JAR_SOURCE_CONFIG_FIELD); [by rewrite lookup_insert_ne|done].
  - destruct (current !! JAR_KEY_CONFIG_FIELD) eqn:E1; [rewrite lookup_insert_ne by done|];
      destruct (current !! JAR_SOURCE_CONFIG_FIELD) eqn:E2; by rewrite ?lookup_insert_eq.
Qed.

Lemma retired_false c : retired c = false <-> forall key, key ∈ _RETIRED_CONFIG_KEYS -> c !! key = None.
Proof using.
  unfold retired. rewrite <- not_true_iff_false, existsb_exists. split.
  - intros Hn key Hk. destruct (c !! key) as [v|] eqn:E; [|done]. destruct Hn. exists key.
    split; [by apply list_elem_of_In|]. apply bool_decide_eq_true. by rewrite E.
  - intros Hn (key & Hk%list_elem_of_In & Hs%bool_decide_eq_true). rewrite Hn in Hs by done. by destruct Hs.
Qed.

(** A key outside a set that holds every changed key did not change. *)
Lemma not_changed c c' key s : _changed_config_keys c c' ⊆ s -> key ∉ s -> key_changed c c' key = false.
Proof using.
  intros Hs Hk. apply not_true_iff_false. intros Hc. apply Hk, Hs, elem_of_filter. split; [done|].
  rewrite elem_of_union, !elem_of_dom. unfold key_changed in Hc.
  destruct (c !! key); [by left|]. destruct (c' !! key); [by right|done].
Qed.
End config.
