(* ===== verification/SettingsRequests.v ===== *)
(** * Server settings: the requests

    Each request of [ManageServer] keeps the guarantee of [SettingsSafety] whatever
    runs beside it, and what that makes of every reachable state. *)
From Stdlib Require Import ZArith NArith Lia String Ascii.
From stdpp Require Import base gmap strings list sorting.
From S2P Require Import Prelude Uow Uuid Calendar Retention Program RelyGuarantee Text PyString ServerRow Properties Utf8 ServerPolicies SettingsStore ManageServer SettingsTables SettingsSafety SettingsThreads.

#[local] Open Scope Z_scope.

Section requests.
Context `{PyStr} `{JsonOther}.
Context (port_range : PortRange) (min_interval_seconds : Z)
  (default_memory_limit_mb max_memory_limit_mb : option Z) (public_base_url : string).

#[local] Notation guar := (guarantees port_range max_memory_limit_mb).
#[local] Notation step_ok := (request_step port_range max_memory_limit_mb).

Section thread.
Context (t : nat).

#[local] Notation okay p w post := (rg (exec _SLUG_CHARS t) (relies t) (guar t) p w post).

(** ** The writes *)

(** A row written under the lock: the others see nothing of it. *)
Lemma row_guarded i j w d : j <> i -> d.(backups) = w.(w_db).(backups) ->
  d.(rows) !! j = w.(w_db).(rows) !! j -> guarded j w (put_db d w).
Proof using.
  intros Hne Hb Hr. split; cbn; [|done|by rewrite Hb]. rewrite Hr. intros r Hj. by exists r.
Qed.

(** What an edit may make of the row it read. *)
Record edit_ok (server server' : Server) : Prop := {
  eo_id : server'.(s_id) = server.(s_id);
  eo_bedrock : server'.(s_bedrock_port) = server.(s_bedrock_port);
  eo_port : server'.(s_game_port) = server.(s_game_port)
            \/ exists p, server'.(s_game_port) = Some p /\ in_range port_range p = true;
  eo_slug : server'.(s_slug) = server.(s_slug) \/ validate_slug server'.(s_slug) = true;
  eo_system : keeps_system_keys server.(s_config) server'.(s_config);
  eo_running : server.(s_desired_state) = D_STOPPED
    \/ (server'.(s_name) = server.(s_name) /\ server'.(s_game_port) = server.(s_game_port)
        /\ forall key, key ∉ _SAFE_CONFIG_KEYS ->
             server'.(s_config) !! key = server.(s_config) !! key
             \/ key_changed server.(s_config) server'.(s_config) key = false)
}.

Lemma system_not_safe key : key ∈ _SYSTEM_MANAGED_JAR_KEYS -> key ∉ _SAFE_CONFIG_KEYS.
Proof using.
  unfold _SYSTEM_MANAGED_JAR_KEYS, _SAFE_CONFIG_KEYS. rewrite !elem_of_cons, !elem_of_nil.
  intros [->|[->|[]]] [E|[]]; vm_compute in E; discriminate.
Qed.

Lemma edit_lands server server' r : edit_ok server server' -> follows server r ->
  edited port_range r (written server' r).
Proof using.
  intros [Hi Hb Hp Hs Hj Hrun] [Fi Fc Fn Fg Fb Fs Fk Fst].
  exists server'.(s_name), server'.(s_config), server'.(s_game_port), server'.(s_slug), server'.(s_updated_at).
  unfold written. rewrite Hb, <- Fb. split; [done|]. rewrite Fg, Fs. split; [done|]. split; [done|]. split.
  - intros key Hk. rewrite Hj, Fk by (done || by apply system_not_safe). done.
  - destruct Hrun as [Hst|(Hn & Hg & Hk)]; [left; by apply Fst|right]. rewrite Fn. split; [done|]. split; [done|].
    intros key Hs'. destruct (Hk key Hs') as [E|E]; [left; by rewrite E, Fk|right].
    unfold key_changed in *. by rewrite Fk.
Qed.

Lemma update_step i server server' w r w' : seen t i server w -> edit_ok server server' ->
  exec _SLUG_CHARS t unit w (Db (update server')) r w' -> guar t w w' /\ holds t i w'.
Proof using.
  intros (Hok & Hl & row & Hrow & Hf) He (d & -> & Hst). pose proof Hok as [Hids Huniq Hcom].
  assert (Hid : server'.(s_id) = i).
  { rewrite (eo_id _ _ He), <- (fo_id _ _ Hf). by apply Hids. }
  destruct (update_cases _ _ _ _ Hst) as [->|(row' & Hr & Hv & ->)].
  - split; [by apply same_guarantees|by split].
  - rewrite Hid in *. rewrite Hrow in Hr. injection Hr as <-.
    assert (Hok' : tables_ok (set_rows (<[i := written server' row]> w.(w_db).(rows)) w.(w_db))).
    { pose proof (tables_edit w.(w_db) (written server' row) Hok Hv (Hcom i row Hrow)) as Hins.
      by rewrite written_id, (Hids i row Hrow) in Hins. }
    split; [|by split]. split; [done| |].
    + intros j u Hj Hne. assert (j <> i) by congruence. split; [done|].
      apply (row_guarded i); [done..|]. cbn. by rewrite lookup_insert_ne.
    + intros j. cbn. destruct (decide (i = j)) as [<-|Hne].
      * rewrite lookup_insert_eq, Hrow. right. by eapply edit_lands.
      * rewrite lookup_insert_ne by done. destruct (_ !! j); [by left|done].
Qed.

(** ** UpdateServer *)

Section update.
Context (req : UpdateRequest) (new_name : option string) (config : option config_blob).
Context (port_in_range : forall p, req.(ur_game_port) = Some p -> in_range port_range p = true).
Context (slug_valid : forall s, req.(ur_slug) = Some s -> validate_slug s = true).
Context (stripped : forall c key, config = Some c -> key ∈ _SYSTEM_MANAGED_JAR_KEYS -> c !! key = None).

Lemma update_edit_ok server name port slug now :
  let config' := option_map (restore_jar_keys server.(s_config)) config in
  (negb (safe_only server new_name config' req.(ur_game_port)) && negb (is_at_rest server)) = false ->
  (new_name = None -> name = server.(s_name)) ->
  (port = None \/ port = req.(ur_game_port)) ->
  (slug = server.(s_slug) \/ req.(ur_slug) = Some slug) ->
  edit_ok server (set_settings name (default server.(s_config) config')
    (match port with Some p => Some p | None => server.(s_game_port) end) server.(s_bedrock_port) slug now server).
Proof using port_in_range slug_valid stripped.
  cbn zeta. intros Hgate Hn Hp Hs.
  assert (Hsys : keeps_system_keys server.(s_config) (default server.(s_config) (option_map (restore_jar_keys server.(s_config)) config))).
  { destruct config as [c|]; cbn; [|done]. apply restore_keeps. intros key Hk. by eapply stripped. }
  split; cbn [s_id s_bedrock_port s_game_port s_slug s_config s_name s_desired_state set_settings]; try done.
  - destruct Hp as [->|Hp]; [by left|]. destruct port as [p|]; [right|by left]. exists p.
    split; [done|]. by apply port_in_range.
  - destruct Hs as [->|Hs]; [by left|right]. by apply slug_valid.
  - apply andb_false_iff in Hgate as [Hsafe%negb_false_iff|Hrest%negb_false_iff].
    + right. unfold safe_only in Hsafe. destruct new_name; [done|]. destruct (ur_game_port req); [done|].
      apply bool_decide_eq_true in Hsafe. split; [by apply Hn|]. split; [by destruct Hp as [->| ->]|].
      intros key Hk. destruct config as [c|]; [right|by left].
      eapply not_changed; [exact Hsafe|]. by intros Hin%elem_of_list_to_set.
    + left. unfold is_at_rest in Hrest. apply andb_true_iff in Hrest as [Hd _]. by apply bool_decide_eq_true in Hd.
Qed.

Lemma update_locked_okay w : holds t req.(ur_server_id) w ->
  okay (update_locked public_base_url req new_name config) w (fun _ w' => holds t req.(ur_server_id) w').
Proof using port_in_range slug_valid stripped.
  intros Hw. unfold update_locked. set (i := req.(ur_server_id)) in *.
  assert (Hst : forall w w', relies t w w' -> holds t i w -> holds t i w') by (intros; by eapply holds_stable).
  apply okay_read; [|intros e w2 Hr; by eapply Hst]. intros w1 w2 H1 H2 Hsame.
  pose proof (Hst _ _ H2 Hw) as Hw2. apply rg_bind.
  destruct (w1.(w_db).(rows) !! i) as [server|] eqn:Hrow; cbn [in_community]; [|done].
  case_bool_decide; [|done]. cbn [rg].
  pose proof (row_seen t i _ _ _ Hw2 Hsame Hrow) as Hseen. clear w Hw w1 H1 H2 Hsame Hrow Hw2. revert Hseen.
  set (config' := option_map (restore_jar_keys (s_config server)) config). intros Hseen.
  assert (Hss : forall w w', relies t w w' -> seen t i server w -> seen t i server w') by (intros; by eapply seen_stable).
  assert (Hpost : forall w, seen t i server w -> holds t i w) by (intros; by eapply seen_holds).
  apply okay_skip; [by intros ??? [-> _]| |intros e w Hr; apply Hpost; by eapply Hss].
  intros w1 allowed w Hr1 Hr2 _. pose proof (Hss _ _ Hr2 Hseen) as Hw. clear Hseen Hr1 Hr2 w1 w2.
  apply rg_bind. destruct (negb allowed); [by apply Hpost|]. cbn [rg raise_if].
  apply rg_bind. destruct (_ && _) eqn:Hgate; [by apply Hpost|]. cbn [rg raise_if].
  apply rg_bind. eapply rg_mono; [by apply (renamed_okay port_range max_memory_limit_mb t _ Hss)|].
  intros [name|e] w1 [Hw1 Hn]; [|by apply Hpost]. specialize (Hn _ eq_refl).
  apply rg_bind. eapply rg_mono; [by apply (pending_port_okay port_range max_memory_limit_mb t _ Hss)|].
  intros [port|e] w2 [Hw2 Hp]; [|by apply Hpost]. specialize (Hp _ eq_refl).
  apply rg_bind. eapply rg_mono; [by apply (new_slug_okay port_range max_memory_limit_mb t _ Hss)|].
  intros [slug|e] w3 [Hw3 Hs]; [|by apply Hpost]. specialize (Hs _ eq_refl).
  apply okay_skip; [by intros ??? [-> _]| |intros e w4 Hr; apply Hpost; by eapply Hss].
  intros w4 now w5 _ Hr5 _. pose proof (Hss _ _ Hr5 Hw3) as Hw5.
  pose proof (update_edit_ok server name port slug now Hgate Hn Hp Hs) as Hedit.
  apply rg_step. intros w6 Hr6 r w7 Hx. destruct (update_step i _ _ _ _ _ (Hss _ _ Hr6 Hw5) Hedit Hx) as [Hg Hh].
  split; [done|]. destruct r as [[]|e]; [|done].
  apply rg_bind. eapply rg_mono; [apply (still_rewrite port_range max_memory_limit_mb public_base_url t); [exact Hst|done]|].
  by intros [[]|e] w8 Hw8.
Qed.
End update.

(** Taking the lock, and giving it back whatever the block does. *)
Lemma with_lock_okay {A} i (p : coroutine A) w : tables_ok w.(w_db) ->
  (forall w', holds t i w' -> okay p w' (fun _ w'' => holds t i w'')) ->
  okay (with_lock i p) w (fun _ _ => True).
Proof using.
  intros Hok Hp. unfold with_lock. apply rg_step. intros w1 [Ht _] r w2 Hx. cbn in Hx.
  destruct Hx as [(Hfree & -> & ->)|(-> & e & -> & _)]; [|split; [by apply same_guarantees|done]].
  assert (Hl : forall j u, w1.(w_locks) !! j = Some u -> <[i := t]> w1.(w_locks) !! j = Some u).
  { intros j u Hj. rewrite lookup_insert_ne; [done|congruence]. }
  split.
  - split; [done| |by apply same_step]. intros j u Hj _. split; [by apply Hl|].
    split; [|done..]. intros r Hr. by exists r.
  - apply rg_finally. eapply rg_mono; [apply Hp|].
    + split; [by apply Ht|]. cbn. apply lookup_insert_eq.
    + intros r w3 [Hok3 Hl3]. apply rg_call. intros w4 [Ht4 Hh4] r4 w5 [-> ->].
      destruct (Hh4 i Hl3) as [Hl4 _]. split; [|by destruct r]. split; [done| |by apply same_step].
      intros j u Hj Hne. assert (i <> j) by congruence. split; [cbn; by rewrite lookup_delete_ne|].
      split; [|done..]. intros row Hr. by exists row.
Qed.

Lemma update_okay req w : tables_ok w.(w_db) ->
  okay (UpdateServer port_range min_interval_seconds max_memory_limit_mb public_base_url req) w (fun _ _ => True).
Proof using.
  intros Hok. unfold UpdateServer. apply rg_bind.
  destruct (match ur_slug req with Some slug => negb (validate_slug slug) | None => false end) eqn:Es.
  { destruct (ur_slug req) as [slug|]; [|done]. by rewrite Es. }
  assert (Hslug : forall s, ur_slug req = Some s -> validate_slug s = true).
  { intros s E. rewrite E in Es. by apply negb_false_iff. }
  replace (match ur_slug req with Some slug => raise_if (negb (validate_slug slug)) InvalidSlugError | None => Ret tt end)
    with (Ret tt : coroutine unit) by (destruct (ur_slug req); [by rewrite Es|done]).
  cbn [rg]. apply rg_bind.
  assert (Hname : forall post, (forall n, post (Ok n) w) -> (forall e, post (Err e) w) ->
    okay (match ur_name req with None => Ret None | Some n => name ← pure (ServerName n); Ret (Some name) end) w post).
  { intros post Ho He. destruct (ur_name req) as [n|]; [|apply Ho]. destruct (ServerName n); [apply Ho|apply He]. }
  apply Hname; [|done]. intros new_name. apply rg_bind.
  assert (Hconf : okay (checked_config min_interval_seconds max_memory_limit_mb req.(ur_config)) w (fun r w' =>
    w' = w /\ forall c, r = Ok c -> forall c' key, c = Some c' -> key ∈ _SYSTEM_MANAGED_JAR_KEYS -> c' !! key = None)).
  { unfold checked_config. destruct (ur_config req) as [c|]; [|split; [done|]; by intros ? [= <-] ? ? [=]].
    destruct (retired c); [by split|]. apply rg_bind. cbn [rg raise_if]. unfold config_ok.
    destruct (override_from_config _ _) as [o|]; [|by split]. apply rg_bind. cbn [rg pure].
    destruct (memory_limit_from_config _ _); [|by split]. apply rg_bind. cbn [rg pure].
    destruct (cpu_allocation_from_config _); [|by split]. apply rg_bind. cbn [rg pure]. split; [done|].
    intros ? [= <-] c' key [= <-] Hk. by apply strip_jar_keys. }
  eapply rg_mono; [exact Hconf|]. intros [config|e] w' [-> Hc]; [|done]. specialize (Hc _ eq_refl).
  apply rg_bind. destruct (ur_game_port req) as [port|] eqn:Ep.
  - destruct (in_range port_range port) eqn:Er; [|done]. cbn [negb raise_if rg].
    apply with_lock_okay; [done|]. intros w' Hw'. apply update_locked_okay; [|done..].
    intros p E. rewrite Ep in E. by injection E as <-.
  - cbn [rg]. apply with_lock_okay; [done|]. intros w' Hw'. apply update_locked_okay; [|done..].
    intros p E. by rewrite Ep in E.
Qed.
(** ** CreateServer *)

Lemma add_step server w r w' : created port_range max_memory_limit_mb server ->
  exec _SLUG_CHARS t unit w (Db (add server)) r w' -> guar t w w'.
Proof using.
  intros Hc (d & -> & Hst). destruct (add_cases _ _ _ _ Hst) as [->|(Hn & Hv & Hcom & ->)]; [by apply same_guarantees|].
  split.
  - intros Hok. by apply tables_edit.
  - intros i u Hi _. split; [done|]. split; cbn; [|done..]. intros row Hr. exists row. split; [|done].
    rewrite lookup_insert_ne; [done|congruence].
  - intros i. cbn. destruct (decide (s_id server = i)) as [<-|Hne].
    + by rewrite lookup_insert_eq, Hn.
    + rewrite lookup_insert_ne by done. destruct (_ !! i); [by left|done].
Qed.

Lemma created_retired c : retired c = false -> retired (created_config default_memory_limit_mb c) = false.
Proof using.
  rewrite !retired_false. intros Hr key Hk. unfold created_config.
  assert (Hs : _strip_system_jar_keys c !! key = None).
  { destruct (decide (key ∈ _SYSTEM_MANAGED_JAR_KEYS)); [by apply strip_jar_keys|].
    rewrite strip_jar_ne by done. by apply Hr. }
  destruct default_memory_limit_mb as [mb|]; [|done].
  destruct (_strip_system_jar_keys c !! MEMORY_LIMIT_CONFIG_KEY); [done|].
  rewrite lookup_insert_ne; [done|]. intros <-. unfold _RETIRED_CONFIG_KEYS in Hk. rewrite elem_of_cons, elem_of_nil in Hk.
  by destruct Hk as [E|[]]; vm_compute in E.
Qed.

Lemma created_system c key : key ∈ _SYSTEM_MANAGED_JAR_KEYS -> created_config default_memory_limit_mb c !! key = None.
Proof using.
  intros Hk. unfold created_config. pose proof (strip_jar_keys c key Hk) as Hs.
  destruct default_memory_limit_mb as [mb|]; [|done].
  destruct (_strip_system_jar_keys c !! MEMORY_LIMIT_CONFIG_KEY); [done|]. rewrite lookup_insert_ne; [done|].
  intros <-. unfold _SYSTEM_MANAGED_JAR_KEYS in Hk. rewrite !elem_of_cons, elem_of_nil in Hk.
  by destruct Hk as [E|[E|[]]]; vm_compute in E.
Qed.

Lemma assigned_port_ok game_port taken p :
  match game_port with None => pick_lowest_free_port port_range taken
                     | Some p => validate_explicit_port p port_range taken end = Ok p ->
  in_range port_range p = true /\ p ∉ port_range.(pr_reserved) /\ p ∉ taken.
Proof using.
  assert (Hf : forall q, port_free port_range taken q = true -> q ∉ pr_reserved port_range /\ q ∉ taken).
  { intros q. unfold port_free. rewrite andb_true_iff, !negb_true_iff, !bool_decide_eq_false. tauto. }
  destruct game_port as [q|].
  - unfold validate_explicit_port. destruct (in_range port_range q) eqn:Er; [|done]. cbn.
    destruct (port_free port_range taken q) eqn:Ef; [|done]. cbn. intros [= <-]. split; [done|by apply Hf].
  - pose proof (pick_lowest_spec port_range taken) as Hp. intros E. rewrite E in Hp.
    destruct Hp as (Hr & Hfree & _). split; [done|by apply Hf].
Qed.

Lemma server_name_ok value name : ServerName value = Ok name -> name <> EmptyString.
Proof using.
  unfold ServerName. destruct (String.eqb_spec (str_strip value) ""); [done|]. by intros [= <-].
Qed.

Lemma create_okay req w :
  okay (CreateServer port_range default_memory_limit_mb max_memory_limit_mb req) w (fun _ _ => True).
Proof using.
  unfold CreateServer. set (config := created_config default_memory_limit_mb (cr_config req)).
  apply rg_bind. destruct (cr_mc_edition req =? _SUPPORTED_EDITION)%string eqn:Eed; [|done].
  apply String.eqb_eq in Eed. cbn [negb raise_if rg]. apply rg_bind.
  destruct (_parse_server_type _) as [type|]; [|done]. cbn [pure rg]. apply rg_bind.
  destruct (retired (cr_config req)) eqn:Eret; [done|]. cbn [raise_if rg]. apply rg_bind. unfold config_ok.
  destruct (memory_limit_from_config config max_memory_limit_mb) eqn:Emem; [|done]. cbn [pure rg]. apply rg_bind.
  destruct (cpu_allocation_from_config config) eqn:Ecpu; [|done]. cbn [pure rg].
  apply okay_skip; [by intros ??? [-> _]| |done]. intros _ _ w1 _ _ _. clear w.
  apply okay_skip; [by intros ??? [-> _]| |done]. intros _ now w2 _ _ _. clear w1.
  apply okay_read; [|done]. intros w1 w _ _ _. clear w2.
  apply rg_bind. unfold port_ok.
  destruct (match cr_game_port req with None => _ | Some _ => _ end) as [port|e] eqn:Eport;
    [|by destruct e]. apply assigned_port_ok in Eport as (Hrange & Hres & _). cbn [pure rg]. clear w1.
  apply okay_read; [|done]. intros w1 w2 _ _ _. clear w.
  apply rg_bind. eapply rg_mono; [by apply (assign_slug_okay port_range max_memory_limit_mb t (fun _ => True))|].
  intros [slug|e] w [_ Hs]; [|done]. specialize (Hs _ eq_refl). clear w1 w2.
  apply okay_skip; [by intros ??? [-> _]| |done]. intros _ server_id w1 _ _ _. clear w.
  apply rg_bind. destruct (ServerName (cr_name req)) as [name|] eqn:En; [|done]. cbn [pure rg].
  apply rg_step. intros w _ r w2 Hx. split.
  { eapply add_step; [|exact Hx]. do 5 (split; [done|]). split; [by exists port|].
    split; [done|]. split; [by eapply server_name_ok|]. split; [intros key Hk; by apply created_system|].
    split; [by apply created_retired|]. cbn [s_config]. by rewrite Emem, Ecpu. }
  destruct r as [[]|e]; [|done]. apply rg_bind. eapply rg_mono.
  - by apply (still_seed port_range max_memory_limit_mb t _ _ _ _ (fun _ => True)).
  - by intros [[]|e] w3 _.
Qed.

(** ** DeleteServer *)

(** The two re-checks: what they saw of the row, with what else holds by then. *)
Lemma deletable_okay i c w (Q : world -> Prop) :
  (forall w1 w2, relies t w1 w2 -> Q w1 -> Q w2) -> holds t i w -> Q w ->
  okay (deletable c i) w (fun r w' => (holds t i w' /\ Q w') /\ forall a, r = Ok a -> exists server,
    server.(s_desired_state) = D_STOPPED /\ server.(s_assigned_worker_id) = None /\ seen t i server w').
Proof using.
  intros Hst Hw HQ. unfold deletable.
  assert (Hh : forall w w', relies t w w' -> holds t i w -> holds t i w') by (intros; by eapply holds_stable).
  apply okay_read; [|intros e w2 Hr; split; [split; [by eapply Hh|by eapply Hst]|done]].
  intros w1 w2 H1 H2 Hsame. pose proof (Hh _ _ H2 Hw) as Hw2. pose proof (Hst _ _ H2 HQ) as HQ2.
  apply rg_bind. destruct (w1.(w_db).(rows) !! i) as [server|] eqn:Hrow; cbn [in_community]; [|by split].
  case_bool_decide; [|by split]. cbn [rg]. pose proof (row_seen t i _ _ _ Hw2 Hsame Hrow) as Hseen.
  apply rg_bind. destruct (is_at_rest server) eqn:Er; [|by split]. cbn [negb raise_if rg].
  case_bool_decide as Ha; [|by split]. split; [done|]. intros [] _. exists server. split; [|done].
  unfold is_at_rest in Er. apply andb_true_iff in Er as [Hd _]. by apply bool_decide_eq_true in Hd.
Qed.

Lemma newest_ref_kept i d d' kept :
  (forall k b, b.(b_server_id) = i -> d'.(backups) !! k = Some b <-> d.(backups) !! k = Some b) ->
  newest_ref i d kept -> newest_ref i d' kept.
Proof using.
  intros Hb. destruct kept as [ref|]; cbn.
  - intros (k & b & Hk & Hi & Href & Hmax). exists k, b. split; [by apply Hb|]. split; [done|]. split; [done|].
    intros k' b' Hk' Hi'. apply (Hmax k'); [by apply Hb|done].
  - intros Hn k b Hk Hi. by apply (Hn k b); [apply Hb|].
Qed.

Lemma newest_first_total a b : newest_first a b \/ newest_first b a.
Proof using. unfold newest_first. lia. Qed.

#[local] Instance newest_first_trans : Transitive newest_first.
Proof using. intros a b c. unfold newest_first. lia. Qed.

Lemma head_newest i d : newest_ref i d (option_map b_storage_ref (head (backups_of i d))).
Proof using.
  unfold backups_of. set (l := List.filter _ _).
  assert (Hl : forall b, b ∈ l <-> exists k, d.(backups) !! k = Some b /\ b.(b_server_id) = i).
  { intros b. unfold l. rewrite elem_of_filter_bool, bool_decide_eq_true, list_elem_of_fmap. split.
    - intros [([k b'] & -> & Hk%elem_of_map_to_list) Hi]. by exists k.
    - intros (k & Hk & Hi). split; [|done]. exists (k, b). split; [done|]. by apply elem_of_map_to_list. }
  assert (Hs : StronglySorted newest_first (merge_sort newest_first l)).
  { apply StronglySorted_merge_sort; [apply _|]. intros a b. apply newest_first_total. }
  pose proof (merge_sort_Permutation newest_first l) as Hp.
  destruct (merge_sort newest_first l) as [|b rest] eqn:E; cbn.
  - intros k b Hk Hi. assert (Hin : b ∈ l) by (apply Hl; by exists k). rewrite <- Hp in Hin. by apply not_elem_of_nil in Hin.
  - destruct (proj1 (Hl b)) as (k & Hk & Hi); [rewrite <- Hp; apply list_elem_of_here|].
    exists k, b. split; [done|]. split; [done|]. split; [done|]. intros k' b' Hk' Hi'.
    assert (Hin : b' ∈ b :: rest) by (rewrite Hp; apply Hl; by exists k').
    apply StronglySorted_inv in Hs as [_ Hall]. apply elem_of_cons in Hin as [->|Hin].
    + unfold newest_first. lia.
    + rewrite Forall_forall in Hall. by apply Hall.
Qed.

(** A step on the archives of the server whose lock is held. *)
Lemma shelf_step {T} i (m : M shelves exn T) w r w' :
  (forall s j, j <> i -> (m s).2 !! j = s !! j) -> holds t i w ->
  exec _SLUG_CHARS t T w (Shelves m) r w' -> guar t w w' /\ w'.(w_db) = w.(w_db) /\ w'.(w_locks) = w.(w_locks)
    /\ (w'.(w_shelves) = w.(w_shelves) \/ w'.(w_shelves) = (m w.(w_shelves)).2).
Proof using.
  intros Hm [Hok Hl] (s & -> & Hst). cbn.
  assert (Hs : s = w.(w_shelves) \/ s = (m w.(w_shelves)).2).
  { destruct Hst as [E|[_ [->| ->]]]; [|by left|by right]. right. by rewrite <- E. }
  split; [|done]. split; [done| |by apply same_step].
  intros j u Hj Hne. split; [done|]. split; cbn; [intros row Hr; by exists row| |done].
  destruct Hs as [->| ->]; [done|]. apply Hm. congruence.
Qed.

Definition emptied (i : uuid) (kept : option string) (refs : list string) (w : world) : Prop :=
  (shelf_of i w.(w_shelves)).(packed) = true /\ newest_ref i w.(w_db) kept
  /\ forall ref, ref ∈ (shelf_of i w.(w_shelves)).(archives) -> kept = Some ref \/ ref ∈ refs.

Lemma shelf_insert i x s : shelf_of i (<[i := x]> s) = x.
Proof using. unfold shelf_of. by rewrite lookup_insert_eq. Qed.

Lemma shelf_of_guarded i w w' : guarded i w w' -> shelf_of i w'.(w_shelves) = shelf_of i w.(w_shelves).
Proof using. intros [_ Hs _]. unfold shelf_of. by rewrite Hs. Qed.

Lemma emptied_stable i kept refs server w w' : relies t w w' ->
  seen t i server w /\ emptied i kept refs w -> seen t i server w' /\ emptied i kept refs w'.
Proof using.
  intros Hr [Hs (Hp & Hn & Ha)]. split; [by eapply seen_stable|]. destruct Hs as (_ & Hl & _).
  destruct Hr as [_ Hr]. destruct (Hr i Hl) as [_ Hg]. pose proof (shelf_of_guarded _ _ _ Hg) as E.
  unfold emptied. rewrite E. split; [done|]. split; [|done]. eapply newest_ref_kept; [|done]. apply Hg.
Qed.

Lemma delete_others_okay i server kept refs w : seen t i server w /\ emptied i kept refs w ->
  okay (delete_others i kept refs) w (fun r w' => holds t i w'
    /\ (r = Ok tt -> seen t i server w' /\ emptied i kept [] w')).
Proof using.
  revert w. induction refs as [|ref refs IH]; intros w Hw; cbn [delete_others].
  { split; [by eapply seen_holds; apply Hw|done]. }
  apply rg_bind. case_bool_decide as Href.
  - apply IH. destruct Hw as (Hs & Hp & Hn & Ha). split; [done|]. split; [done|]. split; [done|].
    intros ref' Hin. destruct (Ha ref' Hin) as [E|[->|Hin']%elem_of_cons]; auto.
  - apply rg_call. intros w1 Hr r w2 Hx. pose proof (emptied_stable _ _ _ _ _ _ Hr Hw) as (Hs & Hp & Hn & Ha).
    pose proof (seen_holds _ _ _ _ Hs) as Hh.
    destruct (shelf_step i _ _ _ _ (fun s j Hj => lookup_insert_ne _ _ _ _ (not_eq_sym Hj)) Hh Hx) as (Hg & Hd & Hl & Hsh).
    split; [done|].
    assert (Hs2 : seen t i server w2).
    { destruct Hs as (Hok & Hlk & row & Hrow). unfold seen. rewrite Hd, Hl. split; [done|]. split; [done|]. by exists row. }
    destruct r as [[]|e]; [|split; [by eapply seen_holds|done]].
    apply IH. split; [done|]. unfold emptied. rewrite Hd. destruct Hx as (s & -> & Hst). cbn in Hst |- *.
    destruct Hst as [[= ->]|[(e & ? & _) _]]; [|done]. rewrite !shelf_insert. cbn [packed archives]. split; [done|]. split; [done|]. intros ref' [Hin Hne]%elem_of_difference.
    destruct (Ha ref' Hin) as [E|[->|Hin']%elem_of_cons]; [by left| |by right]. by destruct Hne; apply elem_of_singleton.
Qed.

Lemma delete_step i server kept w r w' : seen t i server w -> emptied i kept [] w ->
  server.(s_desired_state) = D_STOPPED -> server.(s_assigned_worker_id) = None ->
  exec _SLUG_CHARS t unit w (Db (delete_ i)) r w' -> guar t w w' /\ holds t i w'.
Proof using.
  intros (Hok & Hl & row & Hrow & Hf) (Hp & Hn & Ha) Hd Has (d & -> & Hst).
  destruct (delete_cases _ _ _ _ Hst) as [->| ->]; [by split; [apply same_guarantees|split]|].
  split; [|by split; [apply tables_delete|]]. split; [intros; by apply tables_delete| |].
  - intros j u Hj Hne. assert (i <> j) by congruence. split; [done|]. split; cbn; [|done|].
    + intros r' Hr'. exists r'. by rewrite lookup_delete_ne.
    + intros k b Hb. rewrite map_lookup_filter_Some. cbn. split; [by intros [? _]|]. split; [done|congruence].
  - intros j. cbn. destruct (decide (i = j)) as [<-|Hne].
    + rewrite lookup_delete_eq, Hrow. destruct (fo_stopped _ _ Hf Hd) as (Hd' & _ & Ha').
      split; [done|]. split; [by apply Ha'|]. split; [done|]. exists kept. split; [done|].
      intros ref Hin. destruct (Ha ref Hin) as [?|?%not_elem_of_nil]; done.
    + rewrite lookup_delete_ne by done. destruct (_ !! j); [by left|done].
Qed.

Lemma delete_okay c i w : tables_ok w.(w_db) -> okay (DeleteServer c i) w (fun _ _ => True).
Proof using.
  intros Hok. unfold DeleteServer. apply rg_bind. eapply rg_mono with (post := fun _ _ => True).
  2: { intros [[]|e] w' _; [|done]. apply rg_call. intros w1 _ r w2 [-> ->]. by split; [apply same_guarantees|]. }
  apply with_lock_okay; [done|]. clear w Hok. intros w Hw.
  assert (Hh : forall w w', relies t w w' -> holds t i w -> holds t i w') by (intros; by eapply holds_stable).
  apply rg_bind. eapply rg_mono; [by apply (deletable_okay i c w (fun _ => True))|].
  intros [[]|e] w1 [[Hw1 _] _]; [|done]. clear w Hw. apply rg_step. intros w2 Hr2 r w3 Hx.
  pose proof (Hh _ _ Hr2 Hw1) as Hw2.
  destruct (shelf_step i _ _ _ _ (fun s j Hj => lookup_insert_ne _ _ _ _ (not_eq_sym Hj)) Hw2 Hx) as (Hg & Hd & Hl & _).
  split; [done|]. assert (Hw3 : holds t i w3) by (unfold holds; by rewrite Hd, Hl). destruct r as [[]|e]; [|done].
  set (pk := fun w : world => holds t i w /\ (shelf_of i w.(w_shelves)).(packed) = true).
  assert (Hpk : pk w3).
  { split; [done|]. destruct Hx as (s & -> & Hst). cbn in Hst |- *. destruct Hst as [[= ->]|[(e & ? & _) _]]; [|done].
    by rewrite shelf_insert. }
  assert (Hpst : forall w w', relies t w w' -> pk w -> pk w').
  { intros w w' Hr [Hhw Hp]. split; [by eapply Hh|]. destruct Hr as [_ Hr]. destruct (Hr i (proj2 Hhw)) as [_ Hgu].
    by rewrite (shelf_of_guarded _ _ _ Hgu). }
  clear w1 w2 Hw1 Hr2 Hx Hg Hd Hl Hw2. apply rg_bind.
  eapply rg_mono; [by apply (deletable_okay i c w3 pk)|]. clear w3 Hw3 Hpk.
  intros [[]|e] w [[Hw [_ Hp]] Hseen]; [|done]. destruct (Hseen tt eq_refl) as (server & Hd & Ha & Hs). clear Hseen.
  set (st := fun w : world => seen t i server w /\ (shelf_of i w.(w_shelves)).(packed) = true).
  assert (Hsst : forall w w', relies t w w' -> st w -> st w').
  { intros w' w'' Hr [Hsw Hpw]. split; [by eapply seen_stable|]. destruct Hr as [_ Hr].
    destruct (Hr i (proj1 (proj2 Hsw))) as [_ Hgu]. by rewrite (shelf_of_guarded _ _ _ Hgu). }
  apply okay_read; [|intros e w2 Hr; by eapply Hh]. intros w1 w2 Hr1 Hr2 (Hdb & _ & _).
  pose proof (Hsst _ _ Hr2 (conj Hs Hp)) as [Hs2 Hp2]. clear w Hw Hs Hp Hr1 Hr2.
  set (kept := option_map b_storage_ref (head (backups_of i w1.(w_db)))).
  assert (Hkept : newest_ref i w2.(w_db) kept) by (rewrite Hdb; apply head_newest). clearbody kept. clear w1 Hdb.
  apply rg_step. intros w3 Hr3 r w4 Hx. pose proof (Hsst _ _ Hr3 (conj Hs2 Hp2)) as [Hs3 Hp3].
  assert (Hk3 : newest_ref i w3.(w_db) kept).
  { destruct Hr3 as [_ Hr3]. destruct (Hr3 i (proj1 (proj2 Hs2))) as [_ Hgu]. eapply newest_ref_kept; [apply Hgu|done]. }
  destruct Hx as (s & -> & [-> Hans]%stored_gets). split; [by apply same_guarantees|].
  destruct r as [refs|e]; [|by eapply seen_holds]. destruct Hans as [[= ->]|(e & ? & _)]; [|done].
  apply rg_bind. eapply rg_mono; [apply (delete_others_okay i server kept)|].
  - split; [done|]. split; [done|]. split; [done|]. intros ref Hin. right. by apply elem_of_elements.
  - intros [[]|e] w5 [Hw5 Hend]; [|done]. destruct (Hend eq_refl) as [Hs5 He5].
    apply rg_call. intros w6 Hr6 r w7 Hx. destruct (emptied_stable _ _ _ _ _ _ Hr6 (conj Hs5 He5)) as [Hs6 He6].
    by eapply delete_step.
Qed.
(** ** The reads *)

Lemma lookup_still (p : coroutine unit) w : still port_range max_memory_limit_mb t p -> okay p w (fun _ _ => True).
Proof using. intros Hp. by apply (Hp (fun _ => True)). Qed.
End thread.

(** ** The system *)

(** The requests of the component, their results dropped. *)
Inductive request : coroutine unit -> Prop :=
| Creating req : request (_ ← CreateServer port_range default_memory_limit_mb max_memory_limit_mb req; Ret tt)
| Reading c i : request (_ ← ReadServer c i; Ret tt)
| Looking i : request (_ ← LookupServerCommunity i; Ret tt)
| Listing c : request (_ ← ListServers c; Ret tt)
| Editing req :
    request (_ ← UpdateServer port_range min_interval_seconds max_memory_limit_mb public_base_url req; Ret tt)
| Deleting c i : request (DeleteServer c i).

Definition invariant (w : world) : Prop := tables_ok w.(w_db).

Lemma requests_okay t p w : request p -> invariant w ->
  rg (exec _SLUG_CHARS t) (relies t) (guar t) p w (fun _ _ => True).
Proof using.
  assert (Hdrop : forall A (q : coroutine A), rg (exec _SLUG_CHARS t) (relies t) (guar t) q w (fun _ _ => True) ->
    rg (exec _SLUG_CHARS t) (relies t) (guar t) (_ ← q; Ret tt) w (fun _ _ => True)).
  { intros A q Hq. apply rg_bind. eapply rg_mono; [exact Hq|]. by intros [a|e]. }
  intros [req|c i|i|c|req|c i] Hok.
  - by apply Hdrop, create_okay.
  - apply lookup_still. unfold ReadServer. apply still_bind; [|intros; apply still_ret].
    apply still_bind; [apply still_read|]. intros [r|]; cbn; [|apply still_raise].
    case_bool_decide; [apply still_ret|apply still_raise].
  - apply lookup_still. unfold LookupServerCommunity. apply still_bind; [|intros; apply still_ret].
    apply still_bind; [apply still_read|]. intros r. apply still_ret.
  - apply lookup_still. apply still_bind; [apply still_read|]. intros r. apply still_ret.
  - by apply Hdrop, update_okay.
  - by apply delete_okay.
Qed.

(** The requests among themselves and the rest of the API. *)
Definition system_step := step (exec _SLUG_CHARS) outside request.
Definition system_reachable := reachable (exec _SLUG_CHARS) outside request.

Lemma system_ok w0 s : tables_ok w0.(w_db) -> system_reachable w0 s -> tables_ok s.(shared).(w_db).
Proof using.
  intros Hini Hr. by apply (reachable_ok (exec _SLUG_CHARS) relies guar outside (fun t u w w' => guarantees_relied _ _ t u w w')
    (fun u w w' => outside_relied u w w') invariant (fun t w w' Hw Hg => ga_tables _ _ _ _ _ Hg Hw)
    (fun w w' Hw Ho => ou_tables _ _ Ho Hw) request requests_okay w0 s).
Qed.

(** What one step of a request may do. *)
Lemma system_step_ok w0 s s' : tables_ok w0.(w_db) -> system_reachable w0 s -> system_step s s' ->
  (s'.(threads) = s.(threads) /\ outside s.(shared) s'.(shared)) \/ step_ok s.(shared) s'.(shared).
Proof using.
  intros Hini Hr Hs. destruct (rg_threads (exec _SLUG_CHARS) relies guar outside (fun t u w w' => guarantees_relied _ _ t u w w')
    (fun u w w' => outside_relied u w w') invariant (fun t w w' Hw Hg => ga_tables _ _ _ _ _ Hg Hw)
    (fun w w' Hw Ho => ou_tables _ _ Ho Hw) request requests_okay w0 s s') as [E|[Ho|[t Hg]]]; try done.
  - right. apply same_step. by rewrite E.
  - by left.
  - right. apply Hg.
Qed.
End requests.
