(* ===== verification/ServerFiles.v ===== *)
(** * What server.properties says after a request

    The file a new server is seeded with, and the file an edit leaves, against the row
    that the request committed. *)
From Stdlib Require Import ZArith NArith Lia String Ascii.
From stdpp Require Import base gmap strings list sorting pretty.
From S2P Require Import Prelude Uow Uuid Calendar Retention Program RelyGuarantee Text PyString ServerRow Properties PropertiesLoad PropertiesEscape PropertiesChunks PropertiesWrite PropertiesGuard Utf8 ServerPolicies SettingsStore ManageServer SettingsTables SettingsSafety SettingsThreads.

(** ** Rewrites that keep a file sound *)

(** A file whose last line does not continue onto what is appended. *)
Definition sound (content : bytes) : Prop := dangles (state content) = false.

Lemma sound_empty : sound [].
Proof. done. Qed.

Lemma sound_normalize content : sound content -> sound (_normalize content).
Proof.
  intros Hs. destruct (rewrite_spec content [] []) as (out & Ho & _ & Hd); [by split; constructor|].
  assert (out = content) as ->; [|by apply Hd].
  unfold _rewrite in Ho. cbn [mapM mbind option_bind mret option_ret] in Ho.
  assert (Hnone : forall props w, rewrite_edits [] [] props w = ([], w)).
  { clear. intros props w. induction props as [|p props IH]; [done|]. cbn. by rewrite bool_decide_eq_false_2 by set_solver. }
  rewrite Hnone in Ho. by injection Ho.
Qed.

Lemma set_property_spec content k v : writable k -> writable v -> sound content ->
  exists out, _set_property content k v = Some out /\ sound out
  /\ forall k', k' <> [] -> _raw_values out k' = if bool_decide (k' = k) then [v] else _raw_values content k'.
Proof.
  intros Hk Hv Hs. destruct (rewrite_spec content [(k, v)] [] (single_settable k v Hk Hv)) as (out & Ho & Hvs & Hd).
  exists (_normalize out). rewrite set_property_rewrite, Ho by done. split; [done|]. split; [by apply Hd|].
  intros k' Hk'. rewrite Hvs by done. cbn [od_get]. repeat case_decide; repeat case_bool_decide; subst; try done; set_solver.
Qed.

Lemma port_spec content p : sound content ->
  exists out, set_server_port content p = Some out /\ sound out
  /\ forall k, k <> [] -> _raw_values out k = if bool_decide (k = _PORT_KEY) then [int_str p] else _raw_values content k.
Proof. apply set_property_spec; [repeat constructor|apply codes_writable]. Qed.

Lemma overrides_spec content overrides : settable overrides -> sound content ->
  exists out, apply_overrides content overrides = Some out /\ sound out
  /\ forall k, k <> [] -> _raw_values out k =
      match od_get k overrides with Some v => [v] | None => _raw_values content k end.
Proof.
  intros Hset Hs. destruct (set_all_spec content overrides Hset Hs) as (out & Ho & Hd & Hv).
  exists (_normalize out). unfold apply_overrides. rewrite Ho. split; [done|]. split; [by apply sound_normalize|].
  intros k Hk. by rewrite normalize_values, Hv.
Qed.

Lemma removal_spec content keys : sound content ->
  exists out, remove_keys content keys = Some out /\ sound out
  /\ forall k, k <> [] -> _raw_values out k = if bool_decide (k ∈ keys) then [] else _raw_values content k.
Proof.
  intros Hs. destruct (rewrite_spec content [] keys) as (out & Hr & Hv & Hd); [by split; constructor|].
  exists (_normalize out). unfold remove_keys. rewrite Hr. split; [done|]. split; [by apply Hd|].
  intros k Hk. by rewrite Hv.
Qed.

(** The platform's half of a file there was not. *)
Lemma platform_spec game_port pw pack : writable pw -> pack_writable pack ->
  exists out, apply_platform_properties [] game_port pw pack = Some out /\ sound out
  /\ forall k, k <> [] -> _raw_values out k =
      match od_get k (platform_values [] game_port pw pack).1 with Some v => [v] | None => [] end.
Proof.
  intros Hpw Hpack. pose proof (platform_settable [] game_port pw pack Hpw Hpack) as Hset.
  unfold apply_platform_properties. change (_parse []) with (@nil _Property).
  destruct (platform_values [] game_port pw pack) as [values cleared] eqn:E. cbn [fst] in *.
  destruct (rewrite_spec [] values cleared Hset) as (out & Ho & Hv & Hd). change (_parse []) with (@nil _Property) in Ho.
  rewrite Ho. exists (_normalize out). split; [done|]. split; [by apply Hd|]. intros k Hk. rewrite Hv by done.
  destruct (od_get k values); [done|]. by case_bool_decide.
Qed.

(** ** The overrides of a config blob *)

Section files.
Context `{PyStr} `{JsonOther}.

(** Keys that are text. *)
Definition text_keys (config : config_blob) : Prop := forall key v, config !! key = Some v -> well_formed key.

Lemma overrides_elem config k x : (k, x) ∈ omap override_of (map_to_list config) <->
  exists key v, config !! key = Some v /\ reserved_key key = false /\ k = points key /\ x = points (py_str v).
Proof.
  rewrite list_elem_of_omap. split.
  - intros ([key v] & Hin%elem_of_map_to_list & Ho). unfold override_of in Ho. cbn in Ho.
    destruct (reserved_key key) eqn:E; [done|]. injection Ho as <- <-. by exists key, v.
  - intros (key & v & Hk & Hr & -> & ->). exists (key, v). split; [by apply elem_of_map_to_list|].
    unfold override_of. cbn. by rewrite Hr.
Qed.

Lemma overrides_nodup config : text_keys config -> NoDup (omap override_of (map_to_list config)).*1.
Proof.
  intros Ht. pose proof (NoDup_fst_map_to_list config) as Hnd.
  assert (Hw : forall kv, kv ∈ map_to_list config -> well_formed kv.1).
  { intros [key v] Hin%elem_of_map_to_list. by eapply Ht. }
  induction (map_to_list config) as [|[key v] l IH]; cbn; [constructor|].
  cbn in Hnd. apply NoDup_cons in Hnd as [Hn Hnd]. unfold override_of at 1. cbn.
  assert (Hl : NoDup (omap override_of l).*1) by (apply IH; [done|]; intros; apply Hw; by right).
  destruct (reserved_key key); [done|]. cbn. constructor; [|done].
  intros ([k x] & E & Hin)%list_elem_of_fmap. cbn in E. subst k.
  apply list_elem_of_omap in Hin as ([key' v'] & Hin & Ho). unfold override_of in Ho. cbn in Ho.
  destruct (reserved_key key'); [done|]. injection Ho as Hp _.
  apply Hn, list_elem_of_fmap. exists (key', v'). split; [|done]. cbn. symmetry.
  apply points_inj; [|by apply (Hw (key, v)); left|done].
  apply (Hw (key', v')). by right.
Qed.

Lemma overrides_lookup config k x : text_keys config ->
  _properties_overrides config !! k = Some x <->
  exists key v, config !! key = Some v /\ reserved_key key = false /\ k = points key /\ x = points (py_str v).
Proof.
  intros Ht. rewrite <- overrides_elem. unfold _properties_overrides. symmetry.
  apply elem_of_list_to_map, overrides_nodup, Ht.
Qed.

Lemma overrides_unmanaged config k : text_keys config -> k ∈ PLATFORM_MANAGED_KEYS -> _properties_overrides config !! k = None.
Proof.
  intros Ht Hk. destruct (_ !! k) as [x|] eqn:E; [|done]. apply overrides_lookup in E as (key & v & _ & Hr & -> & _); [|done].
  unfold reserved_key in Hr. apply orb_false_iff in Hr as [_ Hr%bool_decide_eq_false]. by destruct Hr.
Qed.

Lemma overrides_settable config : text_keys config -> settable (map_to_list (_properties_overrides config)).
Proof.
  intros Ht. split; [apply NoDup_fst_map_to_list|]. apply Forall_forall. intros [k x] Hin%elem_of_map_to_list.
  apply overrides_lookup in Hin as (key & v & _ & _ & -> & ->); [|done]. split; apply points_writable.
Qed.

Lemma od_get_map_to_list (m : gmap str str) k : od_get k (map_to_list m) = m !! k.
Proof.
  apply option_eq. intros x. rewrite od_get_elem by apply NoDup_fst_map_to_list. apply elem_of_map_to_list.
Qed.

(** ** A new server's file *)

Lemma seed_spec game_port password config : text_keys config -> writable password -> password <> [] ->
  exists content, seed_properties game_port password config = Some content /\ sound content
  /\ forall k, k <> [] -> _raw_values content k =
      match _properties_overrides config !! k with
      | Some v => [v]
      | None => match od_get k [(_PORT_KEY, int_str game_port); (_ENABLE_RCON_KEY, codes "true");
                                (_RCON_PORT_KEY, int_str RCON_PORT); (_RCON_PASSWORD_KEY, password)] with
                | Some v => [v] | None => [] end
      end.
Proof.
  intros Ht Hw Hne. unfold seed_properties.
  destruct (port_spec [] game_port sound_empty) as (c1 & -> & Hs1 & Hv1). cbn [mbind option_bind]. unfold set_rcon_properties.
  destruct (set_property_spec c1 _ENABLE_RCON_KEY (codes "true")) as (c2 & -> & Hs2 & Hv2);
    [repeat constructor|apply codes_writable|done|]. cbn [mbind option_bind].
  destruct (set_property_spec c2 _RCON_PORT_KEY (int_str RCON_PORT)) as (c3 & -> & Hs3 & Hv3);
    [repeat constructor|apply codes_writable|done|]. cbn [mbind option_bind].
  assert (Hnone : _get_property c3 _RCON_PASSWORD_KEY = None).
  { unfold _get_property. rewrite Hv3, Hv2, Hv1 by done. reflexivity. }
  rewrite Hnone. cbn [no_password].
  destruct (set_property_spec c3 _RCON_PASSWORD_KEY password) as (c4 & -> & Hs4 & Hv4); [repeat constructor|done..|].
  assert (Hbase : forall k, k <> [] -> _raw_values c4 k = match od_get k [(_PORT_KEY, int_str game_port); (_ENABLE_RCON_KEY, codes "true");
                                (_RCON_PORT_KEY, int_str RCON_PORT); (_RCON_PASSWORD_KEY, password)] with
                | Some v => [v] | None => [] end).
  { intros k Hk. rewrite Hv4, Hv3, Hv2, Hv1 by done. cbn [od_get].
    repeat (case_bool_decide || case_decide); subst; first [congruence | discriminate | reflexivity]. }
  cbn [mbind option_bind]. case_bool_decide as Ho.
  - exists c4. split; [done|]. split; [done|]. intros k Hk. rewrite Ho, lookup_empty. by apply Hbase.
  - destruct (overrides_spec c4 (map_to_list (_properties_overrides config))) as (c5 & -> & Hs5 & Hv5);
      [by apply overrides_settable|done|]. exists c5. split; [done|]. split; [done|].
    intros k Hk. rewrite Hv5, od_get_map_to_list by done. destruct (_ !! k); [done|by apply Hbase].
Qed.
(** ** An edit's file *)

(** The file and the row of a server whose lock is held, left to its holder. *)
Definition keeps_files (t : nat) (w w' : world) : Prop :=
  relies t w w'
  /\ forall i path, w.(w_locks) !! i = Some t -> w'.(w_files) !! (i, path) = w.(w_files) !! (i, path).

Section edit.
Context (public_base_url : string) (t : nat).

(** A coroutine among others, judged by what it returns. *)
Definition gives {A} (p : coroutine A) (w : world) (C : A -> world -> Prop) : Prop :=
  rg (exec _SLUG_CHARS t) (keeps_files t) (fun _ _ => True) p w (fun r w' => forall a, r = Ok a -> C a w').

Lemma gives_ret {A} (a : A) w (C : A -> world -> Prop) : C a w -> gives (Ret a) w C.
Proof. by intros HC b [= <-]. Qed.

Lemma gives_bind {A B} (p : coroutine A) (f : A -> coroutine B) w C D :
  gives p w C -> (forall a w', C a w' -> gives (f a) w' D) -> gives (p ≫= f) w D.
Proof. intros Hp Hf. apply rg_bind. eapply rg_mono; [exact Hp|]. intros [a|e] w' Hc; [by apply Hf, Hc|done]. Qed.

Lemma gives_assoc {A B C} (p : coroutine A) (f : A -> coroutine B) (g : B -> coroutine C) w D :
  gives ((p ≫= f) ≫= g) w D <-> gives (p ≫= (fun x => f x ≫= g)) w D.
Proof.
  unfold gives, mbind, prog_mbind. revert w. induction p as [a|e|T ev k IH]; intros w; cbn; [done..|].
  split; intros Hp w1 Hr r w2 Hx; (destruct (Hp w1 Hr r w2 Hx) as [? Hk]; split; [done|]; by apply IH).
Qed.

Lemma gives_call {T} (ev : event T) w C :
  (forall w1 r w2 x, keeps_files t w w1 -> exec _SLUG_CHARS t T w1 ev r w2 -> r = Ok x -> C x w2) ->
  gives (call ev) w C.
Proof. intros Hc. apply rg_call. intros w1 Hr r w2 Hx. split; [done|]. intros x ->. by eapply Hc. Qed.

Lemma gives_pure {A} (r : result exn A) w (C : A -> world -> Prop) : (forall a, r = Ok a -> C a w) -> gives (pure r) w C.
Proof. intros Hc. destruct r as [a|e]; [|done]. intros b [= <-]. by apply Hc. Qed.

Lemma gives_guard {A} b e (f : unit -> coroutine A) w C :
  (b = false -> gives (f tt) w C) -> gives (raise_if b e ≫= f) w C.
Proof. intros Hc. destruct b; [done|]. by apply Hc. Qed.

(** [try] around a coroutine whose handlers raise. *)
Lemma gives_try {A} (p : coroutine A) h w C :
  gives p w C -> (forall e w', gives (h e) w' C) -> gives (try_ p h) w C.
Proof. intros Hp Hh. apply rg_try. eapply rg_mono; [exact Hp|]. intros [a|e] w' Hc; [done|apply Hh]. Qed.

Lemma gives_mono {A} (p : coroutine A) w C D : gives p w C -> (forall a w', C a w' -> D a w') -> gives p w D.
Proof. intros Hp Hc. eapply rg_mono; [exact Hp|]. intros r w' Hr a E. by apply Hc, Hr. Qed.

Context (i : uuid).

(** The row read under the lock is in sight, and the file is [F]. *)
Definition sees (server : Server) (F : option bytes) (w : world) : Prop :=
  seen t i server w /\ w.(w_files) !! (i, _PROPERTIES_REL_PATH) = F.

Lemma sees_stable server F w w' : keeps_files t w w' -> sees server F w -> sees server F w'.
Proof.
  intros [Hr Hf] [Hs HF]. split; [by eapply seen_stable|]. rewrite Hf; [done|]. by destruct Hs as (_ & Hl & _).
Qed.

Lemma db_id w : put_db w.(w_db) w = w.
Proof. by destruct w. Qed.
Lemma files_id w : put_files w.(w_files) w = w.
Proof. by destruct w. Qed.

Lemma gives_read {T} (f : db -> T) server F w : sees server F w ->
  gives (call (Db (gets f))) w (fun _ w' => sees server F w').
Proof.
  intros Hw. apply gives_call. intros w1 r w2 x Hr (d & -> & [-> _]%stored_gets) _. rewrite db_id. by eapply sees_stable.
Qed.

Lemma gives_read_file server F w : sees server F w ->
  gives (call (Files (read_file i _PROPERTIES_REL_PATH))) w (fun c w' => F = Some c /\ sees server F w').
Proof.
  intros Hw. apply gives_call. intros w1 r w2 c Hr (f & -> & Hst) ->.
  pose proof (sees_stable _ _ _ _ Hr Hw) as [Hs HF]. unfold stored, read_file in Hst. rewrite HF in Hst.
  assert (Hcase : F = Some c /\ f = w1.(w_files)).
  { destruct Hst as [E|[(e & ? & _) _]]; [|done]. destruct F as [c'|]; [|done]. by injection E as -> ->. }
  destruct Hcase as [-> ->]. rewrite files_id. by split.
Qed.

Lemma gives_write_file server F content w : sees server F w ->
  gives (call (Files (write_file i _PROPERTIES_REL_PATH content))) w (fun _ w' => sees server (Some content) w').
Proof.
  intros Hw. apply gives_call. intros w1 r w2 [] Hr (f & -> & Hst) ->.
  pose proof (sees_stable _ _ _ _ Hr Hw) as [Hs HF]. split; [done|].
  destruct Hst as [E|[(e & ? & _) _]]; [|done]. injection E as ->. cbn. apply lookup_insert_eq.
Qed.

Lemma gives_encoded content out w (C : bytes -> world -> Prop) : content = Some out -> C out w -> gives (encoded content) w C.
Proof. intros -> HC. by apply gives_ret. Qed.

(** The port's rewrite. *)
Lemma port_rewrite server F p w : sees server F w -> (forall c, F = Some c -> sound c) ->
  gives (_rewrite_server_port i p) w (fun _ w' => exists c0 c, F = Some c0 /\ sees server (Some c) w' /\ sound c
    /\ forall k, k <> [] -> _raw_values c k = if bool_decide (k = _PORT_KEY) then [int_str p] else _raw_values c0 k).
Proof.
  intros Hw HF. unfold _rewrite_server_port. eapply gives_bind.
  - apply gives_try; [by apply gives_read_file|]. by intros [].
  - intros c0 w' [-> Hw']. apply gives_try; [|by intros []].
    destruct (port_spec c0 p (HF c0 eq_refl)) as (c & Hc & Hs & Hv).
    eapply gives_bind; [by eapply (gives_encoded _ c w' (fun x w'' => x = c /\ sees server (Some c0) w''))|].
    intros ? w2 [-> Hw2]. eapply gives_mono; [by eapply gives_write_file|]. intros [] w3 Hw3. by exists c0, c.
Qed.

Lemma pack_url_scalars pack_id filename : Forall is_scalar (pack_download_url public_base_url pack_id filename).
Proof.
  assert (Hc : forall s, Forall is_scalar (codes s)).
  { intros s. eapply Forall_impl; [apply codes_range|]. cbn. intros c Hlt. left. lia. }
  unfold pack_download_url. rewrite !Forall_app. split; [apply decode_scalars|]. do 3 (split; [apply Hc|]).
  unfold quote. apply Forall_flat_map, Forall_forall. intros b Hb.
  assert (Hb' : (b < 256)%N).
  { unfold utf8_bytes in Hb. apply list_elem_of_fmap in Hb as (a & -> & _). apply N_ascii_bounded. }
  destruct (unreserved b); [apply Forall_singleton; left; lia|].
  assert (Hh : forall d, (d < 16)%N -> is_scalar (hex_digit d)).
  { intros d Hd. left. unfold hex_digit. destruct (d <? 10)%N; lia. }
  rewrite !Forall_cons. split; [left; lia|]. split; [apply Hh|split; [apply Hh|constructor]].
  - rewrite N.shiftr_div_pow2. apply N.Div0.div_lt_upper_bound. cbn. lia.
  - change 15%N with (N.ones 4). rewrite N.land_ones. apply N.mod_lt. done.
Qed.

(** What an overrides' edit starts from: the file, or the platform's half of one. *)
Definition base_of (F : option bytes) (game_port : option Z) (base : bytes) : Prop :=
  match F with
  | Some c => base = c
  | None => exists password pack, password <> [] /\ apply_platform_properties [] game_port password pack = Some base
  end.

Lemma base_okay server F game_port w : sees server F w -> (forall c, F = Some c -> sound c) ->
  gives (found ← read_properties i;
         match found with
         | Some current => Ret current
         | None =>
             password ← call Token;
             pack ← assigned_resource_pack i public_base_url;
             encoded (apply_platform_properties [] game_port password pack)
         end) w (fun base w' => sees server F w' /\ base_of F game_port base /\ sound base).
Proof.
  intros Hw HF.
  assert (Hread : gives (read_properties i) w (fun found w' => found = F /\ sees server F w')).
  { apply rg_try, rg_bind, rg_call. intros w1 Hr r w2 (f & -> & Hst). split; [done|].
    pose proof (sees_stable _ _ _ _ Hr Hw) as [Hs Hf]. unfold stored, read_file in Hst. rewrite Hf in Hst.
    assert (Hcase : (f = w1.(w_files)) /\ match r with Ok c => F = Some c | Err ServerFileNotFoundError => F = None | Err _ => True end).
    { destruct Hst as [E|[(e & -> & [-> | ->]) Hf']]; [destruct F; by injection E as -> ->|..];
        (split; [|done]); by destruct F, Hf'. }
    destruct Hcase as [-> Hcase]. rewrite files_id. destruct r as [c|e]; cbn [rg mret prog_ret]; [by intros ? [= <-]|].
    destruct e; try done. by intros ? [= <-]. }
  eapply gives_bind; [exact Hread|]. intros found w' [-> Hw']. destruct F as [c|] eqn:EF.
  { apply gives_ret. split; [done|]. split; [done|by apply HF]. }
  eapply gives_bind; [apply gives_call; intros w1 r w2 x Hr (-> & s & -> & Hs) [= <-]; exact (conj (sees_stable _ _ _ _ Hr Hw') Hs)|].
  intros password w2 [Hw2 [Hne Hasc]]. eapply gives_bind with (C := fun pack w' => sees server None w' /\ pack_writable pack).
  - unfold assigned_resource_pack. eapply gives_bind; [by apply gives_read|]. intros [a|] w3 Hw3; [|by apply gives_ret].
    eapply gives_bind; [by apply gives_read|]. intros pack w4 Hw4. apply gives_ret. split; [done|].
    destruct pack as [pk|]; [|done]. cbn. split; [apply scalars_writable, pack_url_scalars|].
    split; [apply points_writable|]. destruct (a_prompt a); cbn; [apply points_writable|done].
  - intros pack w3 [Hw3 Hpack].
    assert (Hpw : writable password) by (apply small_writable; eapply Forall_impl; [exact Hasc|]; cbn; intros; lia).
    destruct (platform_spec game_port password pack Hpw Hpack) as (out & Ho & Hs & _).
    eapply gives_encoded; [done|]. split; [done|]. split; [by exists password, pack|done].
Qed.

(** The file after the overrides: each says its value, a dropped one is gone, and every
    other key is as it was. *)
Definition overridden (new old : gmap str str) (base c : bytes) : Prop := forall k, k <> [] ->
  _raw_values c k = match new !! k with
                    | Some v => [v]
                    | None => if bool_decide (is_Some (old !! k)) then [] else _raw_values base k
                    end.

Definition dropped (new old : gmap str str) : list str :=
  List.filter (fun k => negb (bool_decide (is_Some (new !! k)))) (map fst (map_to_list old)).

Lemma elem_of_dropped new old k : k ∈ dropped new old <-> new !! k = None /\ is_Some (old !! k).
Proof.
  unfold dropped. rewrite elem_of_filter_bool, negb_true_iff, bool_decide_eq_false, <- eq_None_not_Some.
  rewrite list_elem_of_fmap. split.
  - intros [([k' v] & -> & Hin%elem_of_map_to_list) Hn]. split; [done|]. by eexists.
  - intros [Hn [v Hv]]. split; [|done]. exists (k, v). split; [done|]. by apply elem_of_map_to_list.
Qed.

Lemma overrides_rewrite server F new old game_port w : sees server F w -> (forall c, F = Some c -> sound c) ->
  settable (map_to_list new) ->
  gives (_rewrite_properties_overrides public_base_url i new (dropped new old) game_port) w (fun _ w' =>
    exists base c, base_of F game_port base /\ sees server (Some c) w' /\ sound c /\ overridden new old base c).
Proof.
  intros Hw HF Hset. unfold _rewrite_properties_overrides.
  apply gives_assoc. eapply gives_bind; [by apply base_okay|]. intros base w1 (Hw1 & Hb & Hs).
  destruct (overrides_spec base (map_to_list new) Hset Hs) as (c1 & Hc1 & Hs1 & Hv1).
  destruct (removal_spec c1 (dropped new old) Hs1) as (c2 & Hc2 & Hs2 & Hv2).
  apply gives_try; [|by intros []]. eapply gives_bind; [by eapply (gives_encoded _ c1 w1 (fun x w' => x = c1 /\ sees server F w'))|].
  intros ? w2 [-> Hw2]. eapply gives_bind with (C := fun c w' => sees server F w' /\ sound c /\ overridden new old base c).
  - assert (Hval : forall k, k <> [] -> _raw_values c1 k = match new !! k with Some v => [v] | None => _raw_values base k end).
    { intros k Hk. by rewrite Hv1, od_get_map_to_list. }
    destruct (dropped new old) as [|k0 ks] eqn:Ed.
    + apply gives_ret. split; [done|]. split; [done|]. intros k Hk. rewrite Hval by done.
      destruct (new !! k) eqn:En; [done|]. case_bool_decide as Ho; [|done].
      assert (Hin : k ∈ dropped new old) by by apply elem_of_dropped. rewrite Ed in Hin. by apply not_elem_of_nil in Hin.
    + eapply gives_encoded; [done|]. split; [done|]. split; [done|]. intros k Hk. rewrite Hv2, <- Ed by done.
      rewrite (bool_decide_ext _ _ (elem_of_dropped new old k)), Hval by done.
      destruct (new !! k) eqn:En; repeat case_bool_decide; naive_solver.
  - intros c w3 (Hw3 & Hs3 & Hv3). eapply gives_mono; [by eapply gives_write_file|]. intros [] w4 Hw4. by exists base, c.
Qed.
(** ** The row the file is compared with *)

Lemma written_follows server row name config game_port slug now :
  follows server row ->
  let server' := set_settings name config game_port server.(s_bedrock_port) slug now server in
  follows server' (written server' row).
Proof.
  intros [Fi Fc Fn Fg Fb Fs Fk Fst]. cbn zeta. unfold written, set_settings.
  split; cbn; try done. intros Hd. destruct (Fst Hd) as (? & _ & ?). by split.
Qed.

Lemma gives_update server F name config game_port slug now w : sees server F w ->
  let server' := set_settings name config game_port server.(s_bedrock_port) slug now server in
  gives (call (Db (update server'))) w (fun _ w' => sees server' F w').
Proof.
  intros Hw server'. apply gives_call. intros w1 r w2 [] Hr (d & -> & Hst) ->.
  pose proof (sees_stable _ _ _ _ Hr Hw) as [(Hok & Hl & row & Hrow & Hf) HF]. split; [|done].
  pose proof Hok as [Hids _ Hcom].
  assert (Hid : s_id server' = i) by (rewrite <- (Hids i row Hrow); symmetry; apply Hf).
  destruct Hst as [E|[(e & ? & _) _]]; [|done]. unfold update, try_modify in E. rewrite Hid, Hrow in E.
  destruct (violated _ _) eqn:Ev; [done|]. injection E as ->.
  pose proof (tables_edit w1.(w_db) (written server' row) Hok Ev (Hcom i row Hrow)) as Hins.
  rewrite written_id, (Hids i row Hrow) in Hins. split; [done|]. split; [done|].
  exists (written server' row). split; [apply lookup_insert_eq|]. by apply written_follows.
Qed.

Lemma renamed_sees req server F new_name w : sees server F w ->
  gives (renamed req server new_name) w (fun _ w' => sees server F w').
Proof.
  intros Hw. unfold renamed. destruct new_name as [name|]; [|by apply gives_ret].
  destruct (_ =? _)%string; [by apply gives_ret|]. eapply gives_bind; [by apply gives_read|]. intros clash w' Hw'.
  apply gives_guard. intros _. by apply gives_ret.
Qed.

Lemma new_slug_sees req server F w : sees server F w ->
  gives (new_slug req server) w (fun _ w' => sees server F w').
Proof.
  intros Hw. unfold new_slug. destruct (ur_slug req) as [slug|]; [|by apply gives_ret].
  destruct (_ =? _)%string; [by apply gives_ret|]. eapply gives_bind; [by apply gives_read|]. intros clash w' Hw'.
  apply gives_guard. intros _. by apply gives_ret.
Qed.

(** A port that changes finds its file there. *)
Lemma pending_port_sees req server F w : i = req.(ur_server_id) -> sees server F w ->
  gives (pending_port req server) w (fun port w' => sees server F w' /\
    match port with
    | Some p => req.(ur_game_port) = Some p /\ server.(s_game_port) <> Some p
    | None => forall p, req.(ur_game_port) = Some p -> server.(s_game_port) = Some p
    end).
Proof.
  intros Hi Hw. unfold pending_port. rewrite <- Hi. destruct (ur_game_port req) as [p|]; [|by apply gives_ret].
  case_bool_decide as Hp; [apply gives_ret; split; [done|]; by intros ? [= <-]|].
  eapply gives_bind; [by apply gives_read|]. intros taken w' Hw'.
  apply gives_guard. intros _.
  eapply gives_bind with (C := fun c w' => F = Some c /\ sees server F w').
  - unfold _read_properties. apply gives_try; [by apply gives_read_file|by intros []].
  - intros c w3 [_ Hw3]. by apply gives_ret.
Qed.

(** The safe keys are no overrides. *)
Lemma overrides_follow r r' : follows r r' -> text_keys r.(s_config) ->
  text_keys r'.(s_config) /\ _properties_overrides r'.(s_config) = _properties_overrides r.(s_config).
Proof.
  intros Hf Ht.
  assert (Hsafe : forall key, key ∈ _SAFE_CONFIG_KEYS -> well_formed key /\ reserved_key key = true).
  { intros key Hk. unfold _SAFE_CONFIG_KEYS in Hk. rewrite elem_of_cons, elem_of_nil in Hk.
    destruct Hk as [->|[]]. split; [by vm_compute|by vm_compute]. }
  assert (Ht' : text_keys r'.(s_config)).
  { intros key v Hv. destruct (decide (key ∈ _SAFE_CONFIG_KEYS)) as [Hk|Hk]; [by apply Hsafe|].
    rewrite (fo_config _ _ Hf key Hk) in Hv. by eapply Ht. }
  split; [done|]. apply map_eq. intros k. apply option_eq. intros x. rewrite !overrides_lookup by done.
  assert (Hk : forall key, reserved_key key = false -> r'.(s_config) !! key = r.(s_config) !! key).
  { intros key Hr. apply (fo_config _ _ Hf). intros Hin. apply Hsafe in Hin as [_ Hin]. congruence. }
  split; intros (key & v & Hv & Hr & Hx); exists key, v; (split; [|done]); [by rewrite <- Hk|by rewrite Hk].
Qed.

Lemma restored_text current c : text_keys current -> text_keys c -> text_keys (restore_jar_keys current c).
Proof.
  intros Hcur Hc key v. unfold restore_jar_keys, _SYSTEM_MANAGED_JAR_KEYS. cbn [foldr].
  destruct (current !! JAR_KEY_CONFIG_FIELD) eqn:E1; destruct (current !! JAR_SOURCE_CONFIG_FIELD) eqn:E2;
    rewrite ?lookup_insert_Some; intros Hv; repeat (destruct Hv as [[<- <-]|[_ Hv]]); eauto.
Qed.
End edit.
End files.
