(* ===== verification/SettingsContracts.v ===== *)
(** * Server settings: the contracts

    What holds of every interleaving of creations, edits, deletions and the rest of the
    API, and what the files say. *)
From Stdlib Require Import ZArith NArith Lia String Ascii.
From stdpp Require Import base gmap strings list sorting pretty.
From S2P Require Import Prelude Uow Uuid Calendar Retention Program RelyGuarantee Text PyString ServerRow Properties PropertiesEscape PropertiesWrite Utf8 ServerPolicies SettingsStore ManageServer SettingsTables SettingsSafety SettingsThreads SettingsRequests ServerFiles.

#[local] Open Scope Z_scope.

Section contracts.
Context `{PyStr} `{JsonOther}.
Context (port_range : PortRange) (min_interval_seconds : Z)
  (default_memory_limit_mb max_memory_limit_mb : option Z) (public_base_url : string).

#[local] Notation reach := (system_reachable port_range min_interval_seconds default_memory_limit_mb max_memory_limit_mb public_base_url).
#[local] Notation system_step := (system_step port_range min_interval_seconds default_memory_limit_mb max_memory_limit_mb public_base_url).
#[local] Notation table s := (s.(shared).(w_db).(rows)).


(** C18: A row that a step of a request adds is a server at rest that nobody placed, in
    a community that exists, on a port of the range that no other server has and the
    relay does not reserve, under a slug and a name no other server has, with sound
    limits and none of the keys that would pin a JAR. *)
Theorem new_servers_are_at_rest w0 s s' i r' :
  tables_ok w0.(w_db) -> reach w0 s -> system_step s s' ->
  (table s) !! i = None -> (table s') !! i = Some r' ->
  r'.(s_desired_state) = D_STOPPED /\ is_at_rest r' = true /\ r'.(s_assigned_worker_id) = None
  /\ r'.(s_community_id) ∈ s'.(shared).(w_db).(communities)
  /\ (exists p, r'.(s_game_port) = Some p /\ port_range.(pr_start) <= p <= port_range.(pr_end)
        /\ p ∉ port_range.(pr_reserved)
        /\ forall j r, j <> i -> (table s') !! j = Some r -> r.(s_game_port) <> Some p)
  /\ (dns_label r'.(s_slug) /\ r'.(s_slug) ∉ _RESERVED
        /\ forall j r, j <> i -> (table s') !! j = Some r -> r.(s_slug) <> r'.(s_slug))
  /\ (r'.(s_name) <> EmptyString /\ forall j r, j <> i -> (table s') !! j = Some r ->
        r.(s_community_id) = r'.(s_community_id) -> r.(s_name) <> r'.(s_name))
  /\ (forall key, key ∈ _SYSTEM_MANAGED_JAR_KEYS -> r'.(s_config) !! key = None)
  /\ (forall v, r'.(s_config) !! MEMORY_LIMIT_CONFIG_KEY = Some v -> exists n, v = JInt n
        /\ MEMORY_LIMIT_FLOOR_MB <= n <= default MEMORY_LIMIT_CEILING_MB max_memory_limit_mb).
Proof.
  intros Hini Hr Hs Hi Hi'.
  assert (Hok' : tables_ok s'.(shared).(w_db)) by (eapply system_ok; [exact Hini|eapply Later; [exact Hr|exact Hs]]).
  destruct Hok' as [_ Hu Hc].
  destruct (system_step_ok _ _ _ _ _ w0 s s' Hini Hr Hs) as [[_ Ho]|Hstep].
  { pose proof (ou_rows _ _ Ho) as Hd. apply not_elem_of_dom in Hi. rewrite <- Hd in Hi. by apply elem_of_dom_2 in Hi'. }
  specialize (Hstep i). rewrite Hi, Hi' in Hstep.
  destruct Hstep as (Hd & Hob & Ha & _ & _ & (p & Hp & Hrange & Hres) & Hsl & Hn & Hsys & _ & Hmem & _).
  split; [done|]. split; [unfold is_at_rest; rewrite Hd, Hob; reflexivity|]. split; [done|]. split; [by eapply Hc|].
  unfold in_range in Hrange. rewrite andb_true_iff, !Z.leb_le in Hrange.
  split; [|split; [|split; [|split; [done|]]]].
  - exists p. split; [done|]. split; [done|]. split; [done|]. intros j r Hne Hj E.
    destruct (Hu j i r r' Hne Hj Hi') as (_ & Hg & _). rewrite same_port_false in Hg. by apply (Hg p).
  - apply validate_slug_spec in Hsl as [? ?]. split; [done|]. split; [done|]. intros j r Hne Hj.
    by destruct (Hu j i r r' Hne Hj Hi') as (_ & _ & ? & _).
  - split; [done|]. intros j r Hne Hj Hcom E. by destruct (Hu j i r r' Hne Hj Hi') as ([] & _).
  - intros v Hv. unfold memory_limit_from_config in Hmem. rewrite Hv in Hmem. destruct v; try done.
    destruct (_ || _) eqn:E; [done|]. apply orb_false_iff in E as [E1%Z.ltb_ge E2%Z.ltb_ge]. by exists n.
Qed.


(** C32: The file a new server is seeded with says what its row says: the port that was
    assigned, RCON with the fresh password, each override once; and no other key. *)
Theorem new_file_says_what_the_row_says game_port password config :
  text_keys config -> writable password -> password <> [] ->
  exists content, seed_properties game_port password config = Some content
  /\ _raw_values content _PORT_KEY = [int_str game_port]
  /\ _raw_values content _ENABLE_RCON_KEY = [codes "true"]
  /\ _raw_values content _RCON_PORT_KEY = [int_str RCON_PORT]
  /\ _raw_values content _RCON_PASSWORD_KEY = [password]
  /\ (forall key v, config !! key = Some v -> reserved_key key = false -> key <> EmptyString ->
        _raw_values content (points key) = [points (py_str v)])
  /\ (forall k, k <> [] -> k ∉ [_PORT_KEY; _ENABLE_RCON_KEY; _RCON_PORT_KEY; _RCON_PASSWORD_KEY] ->
        (forall key v, config !! key = Some v -> reserved_key key = false -> k <> points key) ->
        _raw_values content k = []).
Proof.
  intros Ht Hw Hne. destruct (seed_spec game_port password config Ht Hw Hne) as (content & Hc & _ & Hv).
  exists content. split; [done|].
  assert (Hm : forall k, bool_decide (k ∈ PLATFORM_MANAGED_KEYS) = true -> _properties_overrides config !! k = None).
  { intros k Hk. apply overrides_unmanaged; [done|]. by apply bool_decide_eq_true in Hk. }
  do 4 (split; [rewrite Hv by done; rewrite Hm by (vm_compute; reflexivity); reflexivity|]). split.
  - intros key v Hk Hr Hkey. rewrite Hv by (apply points_nonempty; [by eapply Ht|done]).
    assert (_properties_overrides config !! points key = Some (points (py_str v))) as ->; [|done].
    apply overrides_lookup; [done|]. by exists key, v.
  - intros k Hk Hn Ho. rewrite Hv by done. destruct (_properties_overrides config !! k) as [x|] eqn:E.
    + apply overrides_lookup in E as (key & v & Hkey & Hr & -> & _); [|done]. by destruct (Ho key v).
    + destruct (od_get k _) eqn:Eg; [|done]. destruct Hn.
      by pose proof (proj1 (od_get_Some_key k _) (mk_is_Some _ _ Eg)) as Hin.
Qed.

End contracts.
