(* ===== verification/SettingsScenario.v ===== *)
(** * A concrete deployment

    One community with a server of two backups: creating a second server, editing and
    deleting the first, and three edits the code does not treat as it says. *)
From Stdlib Require Import ZArith NArith Lia String Ascii.
From stdpp Require Import base gmap strings list sorting pretty.
From S2P Require Import Prelude Uow Uuid Calendar Retention Program RelyGuarantee Text PyString ServerRow Properties PropertiesEscape PropertiesGuard Utf8 ServerPolicies SettingsStore ManageServer SettingsTables SettingsSafety SettingsThreads SettingsRequests ServerFiles SettingsContracts.

#[local] Open Scope Z_scope.
#[local] Existing Instance ascii_strings.

#[local] Instance scenario_json : JsonOther := {| other_eq := fun _ _ => true; other_str := fun _ => "..."%string |}.

(** ** The world answers *)

(** Every await is answered at once, and nothing fails. *)
Definition oracle (fresh : uuid) (t : nat) {T} (w : world) (ev : event T) : result exn T * world :=
  match ev in event T return result exn T * world with
  | Now => (Ok 1000, w)
  | FreshId => (Ok fresh, w)
  | Token => (Ok (codes "secret"), w)
  | Choice => (Ok "a"%char, w)
  | Validate _ _ => (Ok tt, w)
  | Authorize _ => (Ok true, w)
  | Lock i => match w.(w_locks) !! i with
              | None => (Ok tt, put_locks (<[i := t]> w.(w_locks)) w)
              | Some _ => (Err ServerBusyError, w)
              end
  | Unlock i => (Ok tt, put_locks (delete i w.(w_locks)) w)
  | Db m => let '(r, d) := m w.(w_db) in (r, put_db d w)
  | Files m => let '(r, f) := m w.(w_files) in (r, put_files f w)
  | Shelves m => let '(r, s) := m w.(w_shelves) in (r, put_shelves s w)
  | CloseTunnel _ => (Ok tt, w)
  end.

Lemma oracle_exec fresh t T w (ev : event T) :
  exec _SLUG_CHARS t T w ev (oracle fresh t w ev).1 (oracle fresh t w ev).2.
Proof.
  destruct ev as [| | | |ty v|p|i|i|T m|T m|T m|i]; cbn.
  - by split; [|exists 1000].
  - by split; [|exists fresh].
  - split; [done|]. exists (codes "secret"). split; [done|]. split; [done|]. repeat constructor.
  - split; [done|]. exists "a"%char. split; [done|]. apply list_elem_of_here.
  - by split; [|left].
  - split; [done|]. left. by exists true.
  - destruct (w_locks w !! i) eqn:E; cbn.
    + right. split; [done|]. exists ServerBusyError. by split; [|left].
    + by left.
  - done.
  - destruct (m (w_db w)) as [r d] eqn:E. cbn. exists d. split; [done|]. by left.
  - destruct (m (w_files w)) as [r f] eqn:E. cbn. exists f. split; [done|]. by left.
  - destruct (m (w_shelves w)) as [r s] eqn:E. cbn. exists s. split; [done|]. by left.
  - done.
Qed.

(** A coroutine to its end. *)
Fixpoint play (fresh : uuid) (t n : nat) {A} (p : coroutine A) (w : world) : option (result exn A * world) :=
  match p, n with
  | Ret a, _ => Some (Ok a, w)
  | Raise e, _ => Some (Err e, w)
  | Vis ev k, S n => let '(r, w') := oracle fresh t w ev in play fresh t n (k r) w'
  | Vis _ _, O => None
  end.

Lemma rg_play R G fresh t n {A} (p : coroutine A) w r w' post : Reflexive R ->
  rg (exec _SLUG_CHARS t) R G p w post -> play fresh t n p w = Some (r, w') -> post r w'.
Proof.
  intros HR. revert w n. induction p as [a|e|T ev k IH]; intros w n Hp Hplay; cbn in Hp.
  - destruct n; injection Hplay as <- <-; done.
  - destruct n; injection Hplay as <- <-; done.
  - destruct n as [|n]; [done|]. cbn in Hplay. pose proof (oracle_exec fresh t T w ev) as Hx.
    destruct (oracle fresh t w ev) as [x w1]. destruct (Hp w ltac:(reflexivity) x w1 Hx) as [_ Hk]. by eapply IH.
Qed.

(** ** The deployment *)

Definition relay_range : PortRange := {| pr_start := 25565; pr_end := 25600; pr_reserved := {[25565]} |}.

Definition first_config : gmap string json := {["motd" := JStr "hello"; "spawn-protection" := JInt 1]}.

Definition first (d : DesiredState) (o : ObservedState) : Server :=
  mkServer 5 1 "first" "java" "1.21" PAPER first_config d o None None 0 0 (Some 25566) None "first" None.

Definition first_file : bytes :=
  codes "server-port=25566" ++ LF ++ codes "rcon.password=old" ++ LF ++ codes "motd=hello" ++ LF
  ++ codes "spawn-protection=1" ++ LF ++ codes "pvp=true" ++ LF.

Definition backup (i : uuid) (at_ : datetime) (ref : string) : BackupRow :=
  {| b_id := i; b_server_id := 5; b_created_at := at_; b_storage_ref := ref |}.

Definition deployed (d : DesiredState) (o : ObservedState) : world :=
  {| w_db := {| rows := {[5%N := first d o]}; communities := {[1%N]};
                backups := {[20%N := backup 20 100 "old"; 21%N := backup 21 200 "new"]};
                assignments := ∅; packs := ∅ |};
     w_files := {[(5%N, "server.properties"%string) := first_file]};
     w_shelves := {[5%N := {| packed := false; archives := {["old"; "new"; "orphan"]} |}]};
     w_locks := ∅ |}.

Lemma deployed_ok d o : tables_ok (deployed d o).(w_db).
Proof.
  split; cbn; setoid_rewrite lookup_singleton_Some.
  - by intros i r [<- <-].
  - intros i j a b Hne [<- <-] [<- _]. done.
  - intros i r [<- <-]. cbn. set_solver.
Qed.

#[local] Notation reach := (system_reachable relay_range 30 None None "").
#[local] Notation system_step := (system_step relay_range 30 None None "").

Abbreviation system := (state event exn world unit).

(** Thread [t] performs its next event. *)
Definition advance (fresh : uuid) (t : nat) (s : system) : system :=
  match s.(threads) !! t with
  | Some (Vis ev k) =>
      let '(r, w') := oracle fresh t s.(shared) ev in {| threads := <[t := k r]> s.(threads); shared := w' |}
  | _ => s
  end.

Definition begin_ (t : nat) (p : coroutine unit) (s : system) : system :=
  {| threads := <[t := p]> s.(threads); shared := s.(shared) |}.

Definition runnable (t : nat) (s : system) : bool :=
  match s.(threads) !! t with Some (Vis _ _) => true | _ => false end.

Lemma advance_step fresh t s : runnable t s = true -> system_step s (advance fresh t s).
Proof.
  unfold runnable, advance. destruct (threads s !! t) as [[a|e|T ev k]|] eqn:E; try done. intros _.
  pose proof (oracle_exec fresh t T s.(shared) ev) as Hx. destruct (oracle fresh t (shared s) ev) as [r w'] eqn:Eo.
  by eapply Runs.
Qed.

Lemma advance_id fresh t s : runnable t s = false -> advance fresh t s = s.
Proof. unfold runnable, advance. by destruct (threads s !! t) as [[a|e|T ev k]|]. Qed.

Lemma advance_reach w0 fresh t n s : reach w0 s -> reach w0 (Nat.iter n (advance fresh t) s).
Proof.
  intros Hr. induction n as [|n IH]; [done|].
  change (Nat.iter (S n) (advance fresh t) s) with (advance fresh t (Nat.iter n (advance fresh t) s)).
  destruct (runnable t (Nat.iter n (advance fresh t) s)) eqn:E.
  - eapply Later; [exact IH|]. by apply advance_step.
  - by rewrite (advance_id _ _ _ E).
Qed.

Lemma begin_reach w0 t p s : reach w0 s -> s.(threads) !! t = None ->
  request relay_range 30 None None "" p -> reach w0 (begin_ t p s).
Proof. intros Hr Ht Hp. eapply Later; [exact Hr|]. by eapply Begins. Qed.

Definition start (w : world) : system := {| threads := ∅; shared := w |}.

(** ** A creation *)

Definition create_second : CreateRequest :=
  {| cr_community_id := 1; cr_name := "second"; cr_mc_edition := "java"; cr_mc_version := "1.21";
     cr_server_type := "paper";
     cr_config := {["motd" := JStr "hi"; JAR_KEY_CONFIG_FIELD := JStr "pinned"; MEMORY_LIMIT_CONFIG_KEY := JInt 1024]};
     cr_accept_eula := true; cr_game_port := None; cr_slug := None |}.

Definition creating : system :=
  begin_ 0 (_ ← CreateServer relay_range None None create_second; Ret tt) (start (deployed D_STOPPED STOPPED)).

(** The version, the clock, two reads, six characters and the identifier. *)
Definition before_insert : system := Nat.iter 11 (advance 7 0) creating.
Definition after_insert : system := advance 7 0 before_insert.

Lemma insert_steps : system_step before_insert after_insert.
Proof. apply advance_step. vm_compute. reflexivity. Qed.

(** The lowest port is reserved, the next one taken. *)
Lemma second_row : before_insert.(shared).(w_db).(rows) !! 7%N = None
  /\ (after_insert.(shared).(w_db).(rows) !! 7%N)
     = Some (mkServer 7 1 "second" "java" "1.21" PAPER {["motd" := JStr "hi"; MEMORY_LIMIT_CONFIG_KEY := JInt 1024]}
               D_STOPPED STOPPED None None 1000 1000 (Some 25567) None "aaaaaa" None).
Proof. split; vm_compute; reflexivity. Qed.

Lemma creating_reach : reach (deployed D_STOPPED STOPPED) creating.
Proof. apply begin_reach; [constructor|done|constructor]. Qed.

Lemma new_servers_are_at_rest_witness :
  (tables_ok (deployed D_STOPPED STOPPED).(w_db) /\ reach (deployed D_STOPPED STOPPED) before_insert
   /\ runnable 0 before_insert = true)
  /\ 25567 ∉ relay_range.(pr_reserved).
Proof.
  assert (Hr : reach (deployed D_STOPPED STOPPED) before_insert) by apply advance_reach, creating_reach.
  split; [split_and!; [apply deployed_ok|exact Hr|vm_compute; reflexivity]|].
  destruct (new_servers_are_at_rest relay_range 30 None None "" (deployed D_STOPPED STOPPED) before_insert after_insert 7%N _ (deployed_ok _ _) Hr
    insert_steps (proj1 second_row) (proj2 second_row))
    as (_ & _ & _ & _ & (p & Hp & _ & Hres & _) & _).
  cbn in Hp. injection Hp as <-. exact Hres.
Defined.

(** ** An edit at rest *)

Definition edit_first : UpdateRequest :=
  {| ur_community_id := 1; ur_server_id := 5; ur_name := Some "renamed"%string;
     ur_config := Some {["motd" := JStr "bye"; "difficulty" := JStr "hard"]};
     ur_game_port := Some 25570; ur_slug := Some "arena"%string |}.

Definition editing : system :=
  begin_ 1 (_ ← UpdateServer relay_range 30 None "" edit_first; Ret tt) (start (deployed D_STOPPED STOPPED)).

(** The lock, the row, the permission, the name, the ports, the file, the slug, the clock. *)
Definition before_update : system := Nat.iter 8 (advance 7 1) editing.
Definition after_update : system := advance 7 1 before_update.

Lemma update_steps : system_step before_update after_update.
Proof. apply advance_step. vm_compute. reflexivity. Qed.

(** The request goes on to rewrite the file. *)
Definition is_files {T} (ev : event T) : bool := match ev with Files _ => true | _ => false end.

Definition writes (p : coroutine unit) : bool := match p with Vis ev _ => is_files ev | _ => false end.

Definition at_files (s : system) (t : nat) : bool :=
  match s.(threads) !! t with Some p => writes p | None => false end.

Lemma update_moves : after_update.(threads) <> before_update.(threads).
Proof.
  intros E. assert (Hat : at_files after_update 1 = at_files before_update 1) by (unfold at_files; by rewrite E).
  vm_compute in Hat. discriminate.
Qed.

Lemma editing_reach : reach (deployed D_STOPPED STOPPED) before_update.
Proof. apply advance_reach, begin_reach; [constructor|done|constructor]. Qed.

Definition edited_row : Server :=
  mkServer 5 1 "renamed" "java" "1.21" PAPER {["motd" := JStr "bye"; "difficulty" := JStr "hard"]}
    D_STOPPED STOPPED None None 0 1000 (Some 25570) None "arena" None.

Lemma update_rows : before_update.(shared).(w_db).(rows) !! 5%N = Some (first D_STOPPED STOPPED)
  /\ after_update.(shared).(w_db).(rows) !! 5%N = Some edited_row.
Proof. split; vm_compute; reflexivity. Qed.


(** The file the edit leaves. *)
Definition locked_world : world := put_locks {[5%N := 1%nat]} (deployed D_STOPPED STOPPED).

Definition edit_result : option (result exn Server * world) :=
  play 7 1 30 (update_locked "" edit_first (Some "renamed"%string) (ur_config edit_first)) locked_world.

Definition file_after (o : option (result exn Server * world)) : option bytes :=
  match o with Some (_, w) => w.(w_files) !! (5%N, "server.properties"%string) | None => None end.

Definition new_file : bytes :=
  codes "server-port=25570" ++ LF ++ codes "rcon.password=old" ++ LF ++ codes "motd=bye" ++ LF
  ++ codes "pvp=true" ++ LF ++ codes "difficulty=hard" ++ LF.

Lemma edit_result_is : edit_result
  = Some (Ok edited_row, put_files {[(5%N, "server.properties"%string) := new_file]}
      (put_db (set_rows {[5%N := edited_row]} locked_world.(w_db)) locked_world)).
Proof. vm_compute. reflexivity. Qed.

Lemma first_file_sound : sound first_file.
Proof. vm_compute. reflexivity. Qed.

Lemma first_config_text : text_keys first_config.
Proof.
  intros key v. unfold first_config. rewrite lookup_insert_Some, lookup_singleton_Some.
  intros [[<- _]|[_ [<- _]]]; vm_compute; reflexivity.
Qed.

Lemma edit_config_text c : ur_config edit_first = Some c -> text_keys c.
Proof.
  intros [= <-] key v. rewrite lookup_insert_Some, lookup_singleton_Some.
  intros [[<- _]|[_ [<- _]]]; vm_compute; reflexivity.
Qed.

Lemma keeps_files_refl t : Reflexive (keeps_files t).
Proof. intros w. by split. Qed.

Lemma locked_holds : holds 1 5 locked_world.
Proof. split; [apply deployed_ok|vm_compute; reflexivity]. Qed.


(** ** A deletion *)

Definition deleting : system := begin_ 2 (DeleteServer 1 5) (start (deployed D_STOPPED STOPPED)).

(** The lock, the row, the pack, the row again, the backups, the archives, two of which
    are deleted. *)
Definition before_delete : system := Nat.iter 8 (advance 7 2) deleting.
Definition after_delete : system := advance 7 2 before_delete.

Lemma delete_steps : system_step before_delete after_delete.
Proof. apply advance_step. vm_compute. reflexivity. Qed.

Lemma deleting_reach : reach (deployed D_STOPPED STOPPED) before_delete.
Proof. apply advance_reach, begin_reach; [constructor|done|constructor]. Qed.

Lemma delete_rows : before_delete.(shared).(w_db).(rows) !! 5%N = Some (first D_STOPPED STOPPED)
  /\ after_delete.(shared).(w_db).(rows) !! 5%N = None.
Proof. split; vm_compute; reflexivity. Qed.


(** ** A new file *)

Lemma new_file_says_what_the_row_says_witness :
  (text_keys first_config /\ writable (codes "secret"))
  /\ exists content, seed_properties 25567 (codes "secret") first_config = Some content
     /\ _raw_values content (codes "motd") = [codes "hello"] /\ _raw_values content (codes "pvp") = [].
Proof.
  split; [split; [apply first_config_text|apply codes_writable]|].
  destruct (new_file_says_what_the_row_says 25567 (codes "secret") first_config first_config_text (codes_writable _) ltac:(discriminate))
    as (content & Hc & _ & _ & _ & _ & Ho & Hn). exists content. split; [exact Hc|]. split.
  - apply (Ho "motd"%string (JStr "hello") eq_refl eq_refl). discriminate.
  - apply Hn; [discriminate| |].
    + intros Hin. apply (bool_decide_eq_true_2 _) in Hin. vm_compute in Hin. discriminate.
    + intros key v. unfold first_config. rewrite lookup_insert_Some, lookup_singleton_Some.
      intros [[<- _]|[_ [<- _]]] _ E; vm_compute in E; discriminate.
Defined.

(** ** Edits that are not treated as the code says *)

Definition only_port (port : Z) : UpdateRequest :=
  {| ur_community_id := 1; ur_server_id := 5; ur_name := None; ur_config := None;
     ur_game_port := Some port; ur_slug := None |}.

Definition only_config (config : gmap string json) : UpdateRequest :=
  {| ur_community_id := 1; ur_server_id := 5; ur_name := None; ur_config := Some config;
     ur_game_port := None; ur_slug := None |}.

Definition update_first (req : UpdateRequest) (w : world) : option (result exn Server * world) :=
  play 7 1 40 (UpdateServer relay_range 30 None "" req) w.

Definition answer_of (o : option (result exn Server * world)) : option (result exn (option Z)) :=
  match o with
  | Some (Ok r, _) => Some (Ok r.(s_game_port))
  | Some (Err e, _) => Some (Err e)
  | None => None
  end.

(** The relay's own port, which a creation refuses, is given to an edit that asks. *)
Lemma update_takes_a_reserved_port :
  validate_explicit_port 25565 relay_range {[25566]} = Err PortTaken
  /\ answer_of (update_first (only_port 25565) (deployed D_STOPPED STOPPED)) = Some (Ok (Some 25565)).
Proof. split; vm_compute; reflexivity. Qed.

(** [True] equals [1], so an edit from one to the other changes no key for the gate of
    a running server, yet is written into its file. *)
Definition as_bool : gmap string json := {["motd" := JStr "hello"; "spawn-protection" := JBool true]}.
Definition as_two : gmap string json := {["motd" := JStr "hello"; "spawn-protection" := JInt 2]}.

Lemma equal_values_pass_the_gate :
  answer_of (update_first (only_config as_two) (deployed D_RUNNING RUNNING)) = Some (Err ServerNotStoppedError)
  /\ answer_of (update_first (only_config as_bool) (deployed D_RUNNING RUNNING)) = Some (Ok (Some 25566))
  /\ match file_after (update_first (only_config as_bool) (deployed D_RUNNING RUNNING)) with
     | Some content => _raw_values content (codes "spawn-protection") = [codes "True"]
     | None => False
     end.
Proof. split_and!; vm_compute; reflexivity. Qed.

(** A stop that read the row before an edit of a safe key commits writes the old config
    back with its compare-and-set, which compares the desired state alone. *)
Definition faster : gmap string json := <[SNAPSHOT_INTERVAL_CONFIG_KEY := JInt 60]> first_config.

Definition row_after (o : option (result exn Server * world)) : option Server :=
  match o with Some (_, w) => w.(w_db).(rows) !! 5%N | None => None end.

Lemma stop_undoes_a_config_edit :
  match row_after (update_first (only_config faster) (deployed D_RUNNING RUNNING)) with
  | Some row =>
      let stale := set_lifecycle D_STOPPED None first_config 2000 (first D_RUNNING RUNNING) in
      let d := {| servers := {[5%N := row]}; sync_pending := []; staged := [] |} in
      row.(s_config) !! SNAPSHOT_INTERVAL_CONFIG_KEY = Some (JInt 60)
      /\ match update_lifecycle (E := exn) stale D_RUNNING false d with
         | (Ok true, d') => (option_map s_config (d'.(servers) !! 5%N)) = Some first_config
         | _ => False
         end
  | None => False
  end.
Proof. vm_compute. split; reflexivity. Qed.
