(* ===== verification/PlayerGroups.v ===== *)
(** * Player groups

    [servers/domain/groups.py]: the players of a group, the union of the groups
    attached to a server and the entries of [ops.json] and [whitelist.json], with the
    bytes [servers/application/groups.py] writes ([json.dumps] with an indent of two).
    A group's players are an association list by uuid; the database keeps them as a
    map, whose order stands for that of the random row ids ([GroupStore]). *)
From Stdlib Require Import ZArith NArith Lia String Ascii Sorted.
From stdpp Require Import base gmap strings list sorting.
From S2P Require Import Prelude Uuid Text ServerRow Properties.

#[local] Open Scope N_scope.

(** ** The domain *)

Definition DEFAULT_OP_LEVEL : Z := 4.
Definition OPS_FILE : string := "ops.json".
Definition WHITELIST_FILE : string := "whitelist.json".

Definition target_file (kind : GroupKind) : string :=
  match kind with OP => OPS_FILE | WHITELIST => WHITELIST_FILE end.

Record Player := mkPlayer { p_uuid : uuid; p_username : str }.

#[export] Instance Player_eq_dec : EqDecision Player.
Proof. solve_decision. Defined.

Record PlayerGroup := mkGroup {
  g_id : uuid; g_community_id : uuid; g_name : str; g_kind : GroupKind; g_players : list Player
}.

Definition set_players (players : list Player) (g : PlayerGroup) : PlayerGroup :=
  mkGroup g.(g_id) g.(g_community_id) g.(g_name) g.(g_kind) players.

Definition set_name (name : str) (g : PlayerGroup) : PlayerGroup :=
  mkGroup g.(g_id) g.(g_community_id) name g.(g_kind) g.(g_players).

Section names.
Context `{Unicode}.

(** [GroupName(value)] and [Player(uuid, username)]; [None] where they raise. *)
Definition GroupName (value : str) : option str :=
  let trimmed := strip value in if bool_decide (trimmed = []) then None else Some trimmed.

Definition Player_ (player_uuid : uuid) (username : str) : option Player :=
  let trimmed := strip username in
  if bool_decide (trimmed = []) then None else Some (mkPlayer player_uuid trimmed).
End names.

Fixpoint upsert (player : Player) (players : list Player) : list Player :=
  match players with
  | [] => [player]
  | existing :: rest =>
      if bool_decide (existing.(p_uuid) = player.(p_uuid)) then player :: rest
      else existing :: upsert player rest
  end.

Fixpoint remove (player_uuid : uuid) (players : list Player) : list Player :=
  match players with
  | [] => []
  | existing :: rest =>
      if bool_decide (existing.(p_uuid) = player_uuid) then rest
      else existing :: remove player_uuid rest
  end.

Definition upsert_player (player : Player) (g : PlayerGroup) : PlayerGroup :=
  set_players (upsert player g.(g_players)) g.

Definition remove_player (player_uuid : uuid) (g : PlayerGroup) : PlayerGroup :=
  set_players (remove player_uuid g.(g_players)) g.

(** ** The union of the groups *)

(** [by_uuid.setdefault(player.uuid, player)]. *)
Definition setdefault (by_uuid : list Player) (player : Player) : list Player :=
  if bool_decide (player.(p_uuid) ∈ map p_uuid by_uuid) then by_uuid else by_uuid ++ [player].

(** [str(a.uuid) <= str(b.uuid)]. *)
Definition uuid_le (a b : Player) : Prop :=
  String.leb (uuid_str a.(p_uuid)) (uuid_str b.(p_uuid)) = true.

#[export] Instance uuid_le_dec a b : Decision (uuid_le a b).
Proof. unfold uuid_le. apply _. Defined.

Definition merge_players (groups : list PlayerGroup) : list Player :=
  merge_sort uuid_le
    (fold_left (fun by_uuid g => fold_left setdefault g.(g_players) by_uuid) groups []).

(** ** The files *)

Inductive value := VStr (s : str) | VInt (n : Z) | VBool (b : bool).

Abbreviation entry := (list (string * value)).

Definition render_ops_json (players : list Player) : list entry :=
  map (fun player =>
    [("uuid"%string, VStr (codes (uuid_str player.(p_uuid)))); ("name"%string, VStr player.(p_username));
     ("level"%string, VInt DEFAULT_OP_LEVEL); ("bypassesPlayerLimit"%string, VBool false)]) players.

Definition render_whitelist_json (players : list Player) : list entry :=
  map (fun player =>
    [("uuid"%string, VStr (codes (uuid_str player.(p_uuid)))); ("name"%string, VStr player.(p_username))]) players.

(** [json.dumps]: every character outside printable ASCII is escaped. *)
Definition hex4 (n : N) : str := map N_of_ascii (hex_digits 4 n).

Definition dump_char (c : N) : str :=
  if c =? 34 then codes "\" ++ [34]
  else if c =? 92 then codes "\\"
  else if c =? 8 then codes "\b"
  else if c =? 9 then codes "\t"
  else if c =? 10 then codes "\n"
  else if c =? 12 then codes "\f"
  else if c =? 13 then codes "\r"
  else if (32 <=? c) && (c <=? 126) then [c]
  else if c <? 0x10000 then codes "\u" ++ hex4 c
  else let v := c - 0x10000 in
       codes "\u" ++ hex4 (0xD800 + v / 1024) ++ codes "\u" ++ hex4 (0xDC00 + v mod 1024).

Definition dump_str (s : str) : str := [34] ++ flat_map dump_char s ++ [34].

Definition dump_value (v : value) : str :=
  match v with
  | VStr s => dump_str s
  | VInt n => int_str n
  | VBool b => codes (if b then "true" else "false")
  end.

Fixpoint separated (sep : str) (l : list str) : str :=
  match l with
  | [] => []
  | [x] => x
  | x :: rest => x ++ sep ++ separated sep rest
  end.

Definition dump_field (kv : string * value) : str :=
  dump_str (codes kv.1) ++ codes ": " ++ dump_value kv.2.

Definition dump_entry (e : entry) : str :=
  codes "{" ++ LF ++ codes "    " ++ separated (codes "," ++ LF ++ codes "    ") (map dump_field e)
  ++ LF ++ codes "  }".

(** [json.dumps(entries, indent=2)], no entry being empty. *)
Definition dumps (entries : list entry) : str :=
  match entries with
  | [] => codes "[]"
  | _ => codes "[" ++ LF ++ codes "  " ++ separated (codes "," ++ LF ++ codes "  ") (map dump_entry entries)
         ++ LF ++ codes "]"
  end.

Definition _render (kind : GroupKind) (players : list Player) : bytes :=
  dumps (match kind with OP => render_ops_json players | WHITELIST => render_whitelist_json players end) ++ LF.

(** ** Order *)

Lemma compare_trans s1 s2 s3 :
  String.leb s1 s2 = true -> String.leb s2 s3 = true -> String.leb s1 s3 = true.
Proof.
  revert s2 s3. induction s1 as [|a s1 IH]; intros [|b s2] [|c s3]; unfold String.leb; cbn; try done.
  unfold Ascii.compare. destruct (N.compare_spec (N_of_ascii a) (N_of_ascii b)) as [E|L|L]; try done;
    destruct (N.compare_spec (N_of_ascii b) (N_of_ascii c)) as [E'|L'|L']; try done; intros H1 H2;
    destruct (N.compare_spec (N_of_ascii a) (N_of_ascii c)); try done; try lia.
  by apply (IH s2 s3).
Qed.

#[export] Instance uuid_le_trans : Transitive uuid_le.
Proof. intros a b c. apply compare_trans. Qed.

Lemma uuid_le_total a b : uuid_le a b \/ uuid_le b a.
Proof. apply String.leb_total. Qed.

Lemma uuid_str_inj u v : u < 2 ^ 128 -> v < 2 ^ 128 -> uuid_str u = uuid_str v -> u = v.
Proof.
  intros Hu Hv E. apply uuid_roundtrip in Hu, Hv. rewrite E in Hu. rewrite Hu in Hv. by injection Hv.
Qed.

(** Two sorted lists of the same players, no two under one uuid, are equal. *)
Lemma sorted_unique l1 l2 : (forall p, p ∈ l1 -> p.(p_uuid) < 2 ^ 128) ->
  StronglySorted uuid_le l1 -> StronglySorted uuid_le l2 ->
  NoDup (map p_uuid l1) -> l1 ≡ₚ l2 -> l1 = l2.
Proof.
  intros Hb Hs1 Hs2 Hn Hp. apply (StronglySorted_unique_strong uuid_le); [|done..].
  intros a b Ha Hb' Hab Hba. apply String.leb_antisym in Hba; [|done].
  apply uuid_str_inj in Hba; [|by apply Hb|by apply Hb; rewrite Hp].
  rewrite <- Hp in Hb'. clear - Hn Ha Hb' Hba. induction l1 as [|x l IH]; [by apply not_elem_of_nil in Ha|].
  cbn in Hn. apply NoDup_cons in Hn as [Hx Hn]. apply elem_of_cons in Ha as [->|Ha], Hb' as [->|Hb]; [done|..|by apply IH].
  - destruct Hx. rewrite Hba. by apply list_elem_of_fmap_2.
  - destruct Hx. rewrite <- Hba. by apply list_elem_of_fmap_2.
Qed.

(** ** The union *)

(** [p] is the first player of [l] under its uuid. *)
Definition first_in (l : list Player) (p : Player) : Prop :=
  exists before after, l = before ++ p :: after /\ p.(p_uuid) ∉ map p_uuid before.

Lemma first_in_snoc l x p : first_in (l ++ [x]) p <-> first_in l p \/ (p = x /\ x.(p_uuid) ∉ map p_uuid l).
Proof.
  split.
  - intros (before & after & E & Hn). destruct after as [|y after _] using rev_ind.
    + apply app_inj_tail in E as [-> ->]. by right.
    + left. rewrite app_comm_cons, app_assoc in E. apply app_inj_tail in E as [-> _]. by exists before, after.
  - intros [(before & after & -> & Hn)|[-> Hn]].
    + exists before, (after ++ [x]). by rewrite <- app_assoc.
    + by exists l, [].
Qed.

Lemma merged_spec l : let merged := fold_left setdefault l [] in
  NoDup (map p_uuid merged) /\ (forall p, p ∈ merged <-> first_in l p)
  /\ (forall u, u ∈ map p_uuid merged <-> u ∈ map p_uuid l).
Proof.
  cbn zeta. induction l as [|x l (Hn & He & Hu)] using rev_ind; cbn.
  { split; [constructor|]. split; [|done]. intros p. split; [by intros ?%not_elem_of_nil|].
    by intros ([|? ?] & ? & ? & _). }
  rewrite fold_left_app. cbn. unfold setdefault at 1 3 5. case_bool_decide as Hx.
  - split; [done|]. split.
    + intros p. rewrite He, first_in_snoc. split; [by left|]. intros [?|[_ []]]; [done|]. by apply Hu.
    + intros u. rewrite Hu, map_app, elem_of_app. cbn. rewrite list_elem_of_singleton. split; [by left|].
      intros [?| ->]; [done|]. by apply Hu.
  - rewrite !map_app. split; [|split].
    + apply NoDup_app. split; [done|]. split; [|apply NoDup_singleton].
      by intros u Hin ->%list_elem_of_singleton.
    + intros p. rewrite elem_of_app, list_elem_of_singleton, He, first_in_snoc. rewrite Hu in Hx. naive_solver.
    + intros u. by rewrite !elem_of_app, Hu.
Qed.

Lemma merge_concat groups :
  fold_left (fun by_uuid g => fold_left setdefault g.(g_players) by_uuid) groups []
  = fold_left setdefault (concat (map g_players groups)) [].
Proof.
  generalize (@nil Player). induction groups as [|g groups IH]; intros l; [done|]. cbn. by rewrite fold_left_app, IH.
Qed.

Lemma first_in_app l m p :
  first_in (l ++ m) p <-> first_in l p \/ (p.(p_uuid) ∉ map p_uuid l /\ first_in m p).
Proof.
  induction m as [|x m IH] using rev_ind.
  { rewrite app_nil_r. split; [by left|]. intros [?|[_ ([|? ?] & ? & ? & _)]]; done. }
  rewrite app_assoc, !first_in_snoc, IH, map_app, not_elem_of_app. naive_solver.
Qed.

Lemma first_in_nodup l p : NoDup (map p_uuid l) -> first_in l p <-> p ∈ l.
Proof.
  intros Hn. split; [intros (before & after & -> & _); set_solver|].
  intros (before & after & ->)%list_elem_of_split. exists before, after. split; [done|].
  rewrite map_app in Hn. apply NoDup_app in Hn as (_ & Hd & _). intros Hin. apply (Hd _ Hin). cbn. set_solver.
Qed.

Lemma merged_permutation groups groups' :
  Forall (fun g => NoDup (map p_uuid g.(g_players))) groups ->
  Forall2 (fun g g' => g.(g_players) ≡ₚ g'.(g_players)) groups groups' ->
  fold_left setdefault (concat (map g_players groups)) []
  ≡ₚ fold_left setdefault (concat (map g_players groups')) [].
Proof.
  intros Hf H2. destruct (merged_spec (concat (map g_players groups))) as (Hn & He & _).
  destruct (merged_spec (concat (map g_players groups'))) as (Hn' & He' & _).
  apply NoDup_Permutation; [by apply (NoDup_fmap_1 p_uuid)|by apply (NoDup_fmap_1 p_uuid)|]. intros p. rewrite He, He'. clear - Hf H2.
  revert Hf. induction H2 as [|g g' gs gs' Hg _ IH]; intros Hf; [done|]. apply Forall_cons in Hf as [Hn Hf].
  assert (Hn' : NoDup (map p_uuid (g_players g'))) by (by rewrite <- Hg).
  cbn. rewrite !first_in_app, (first_in_nodup _ p Hn), (first_in_nodup _ p Hn'), IH by done.
  assert (E : p_uuid p ∈ map p_uuid (g_players g) <-> p_uuid p ∈ map p_uuid (g_players g')) by (by rewrite Hg).
  by rewrite E, Hg.
Qed.

(** C31: The players a file lists are, in increasing order of their uuid's text, one for
    each uuid of the groups, the first occurrence winning; and with the same groups,
    in whatever order each keeps its players, it is the same file. *)
Theorem player_file_lists_the_union kind groups :
  let all := concat (map g_players groups) in
  let listed := merge_players groups in
  StronglySorted uuid_le listed /\ NoDup (map p_uuid listed)
  /\ (forall p, p ∈ listed <-> first_in all p)
  /\ (forall u, u ∈ map p_uuid listed <-> u ∈ map p_uuid all)
  /\ (forall groups', (forall p, p ∈ all -> p.(p_uuid) < 2 ^ 128) ->
        Forall (fun g => NoDup (map p_uuid g.(g_players))) groups ->
        Forall2 (fun g g' => g.(g_players) ≡ₚ g'.(g_players)) groups groups' ->
        _render kind (merge_players groups') = _render kind listed).
Proof.
  intros all listed.
  assert (Hs : forall gs, StronglySorted uuid_le (merge_players gs)).
  { intros gs. apply StronglySorted_merge_sort; [apply _|]. intros a b. apply uuid_le_total. }
  assert (Hp : forall gs, merge_players gs ≡ₚ fold_left setdefault (concat (map g_players gs)) []).
  { intros gs. unfold merge_players. by rewrite merge_sort_Permutation, merge_concat. }
  destruct (merged_spec all) as (Hn & He & Hu). split; [apply Hs|].
  assert (Hnd : NoDup (map p_uuid listed)) by (unfold listed; by rewrite (Hp groups)).
  assert (Hel : forall p, p ∈ listed <-> first_in all p) by (intros p; unfold listed; rewrite (Hp groups); apply He).
  split; [done|]. split; [done|]. split; [by intros u; unfold listed; rewrite (Hp groups)|].
  intros groups' Hb Hf H2. f_equal. symmetry. apply sorted_unique; [|apply Hs|apply Hs|done|].
  { intros p (before & after & E & _)%Hel. apply Hb. rewrite E. set_solver. }
  unfold listed. rewrite (Hp groups), (Hp groups'). clear - Hf H2. fold all. by apply merged_permutation.
Qed.
