(* ===== verification/GroupStore.v ===== *)
(** * Player groups: what their use cases call

    The statements of [servers/adapters/group_repository.py] over the tables of
    [adapters/group_models.py], with their constraints and the translation of
    [adapters/integrity.py]; the file store, the lifecycle lock, and of a start what it
    does beside the player files.  A transaction writes last and commits, so its writes
    and its commit are one event; its reads and its row lock come before, each an event
    of its own among those of the others. *)
From Stdlib Require Import ZArith NArith Lia String Ascii.
From stdpp Require Import base gmap strings list sorting.
From S2P Require Import Prelude Uow Uuid Calendar Retention Program Text ServerRow Properties PlayerGroups.

#[local] Open Scope Z_scope.

(** ** Exceptions *)

Inductive exn : Set :=
| InvalidGroupKindError
| InvalidGroupNameError
| InvalidPlayerError
| GroupNameAlreadyExistsError
| GroupNotFoundError
| GroupPlayerEditConflictError
| GroupAttachmentNotFoundError
| CommunityNotFoundError
| ServerNotFoundError
| InvalidLifecycleTransitionError
| LifecycleTransitionConflictError
| EulaNotAcceptedError
| NoEligibleWorkerError
| ServerBusyError
| ServerFileNotFoundError
| WorkingSetSeedFailedError
| Failure
| Cancelled.

#[export] Instance exn_eq_dec : EqDecision exn.
Proof. solve_decision. Defined.

(** [except Exception]: everything but [asyncio.CancelledError]. *)
Definition is_Exception (e : exn) : bool := negb (bool_decide (e = Cancelled)).

#[export] Instance GroupKind_countable : Countable GroupKind.
Proof.
  refine (inj_countable' (fun k => match k with OP => true | WHITELIST => false end)
            (fun b : bool => if b then OP else WHITELIST) _). by intros [].
Defined.

(** ** Tables *)

Record GroupRow := mkGroupRow {
  gr_community_id : uuid; gr_name : str; gr_kind : GroupKind;
  gr_players : gmap uuid str                  (* player_uuid to username *)
}.

Record db := mkDb {
  server_rows : gmap uuid Server;
  communities : gset uuid;
  group_rows : gmap uuid GroupRow;
  attached : gset (uuid * uuid);              (* group and server *)
  pending : gmap (uuid * GroupKind) uuid;     (* server and kind to token *)
  (* Random identifiers do not repeat: those a group ever had, and the tokens. *)
  born : gset uuid;
  spent : gset uuid
}.

Definition put_groups (m : gmap uuid GroupRow) (d : db) : db :=
  mkDb d.(server_rows) d.(communities) m d.(attached) d.(pending) d.(born) d.(spent).
Definition put_attached (a : gset (uuid * uuid)) (d : db) : db :=
  mkDb d.(server_rows) d.(communities) d.(group_rows) a d.(pending) d.(born) d.(spent).
Definition put_pending (p : gmap (uuid * GroupKind) uuid) (d : db) : db :=
  mkDb d.(server_rows) d.(communities) d.(group_rows) d.(attached) p d.(born) d.(spent).

(** ** Reads *)

Definition _hydrate (id : uuid) (row : GroupRow) : PlayerGroup :=
  mkGroup id row.(gr_community_id) row.(gr_name) row.(gr_kind)
    (map (fun p => mkPlayer p.1 p.2) (map_to_list row.(gr_players))).

Definition id_le {A} (a b : uuid * A) : Prop := (a.1 <= b.1)%N.
#[export] Instance id_le_dec {A} (a b : uuid * A) : Decision (id_le a b).
Proof. unfold id_le. apply _. Defined.

(** The groups that satisfy [p], ordered by id. *)
Definition groups_where (p : uuid * GroupRow -> bool) (d : db) : list PlayerGroup :=
  map (fun kv => _hydrate kv.1 kv.2)
    (merge_sort id_le (List.filter p (map_to_list d.(group_rows)))).

Definition get_by_id (group_id : uuid) (d : db) : option PlayerGroup :=
  _hydrate group_id <$> d.(group_rows) !! group_id.

(** The key of the unique constraint. *)
Definition same_name (community_id : uuid) (kind : GroupKind) (name : str) (row : GroupRow) : bool :=
  bool_decide (row.(gr_community_id) = community_id /\ row.(gr_kind) = kind /\ row.(gr_name) = name).

Definition get_by_community_kind_name (community_id : uuid) (kind : GroupKind) (name : str) (d : db)
    : option PlayerGroup :=
  head (groups_where (fun kv => same_name community_id kind name kv.2) d).

Definition list_for_community (community_id : uuid) (d : db) : list PlayerGroup :=
  groups_where (fun kv => bool_decide (kv.2.(gr_community_id) = community_id)) d.

Definition is_attached (group_id server_id : uuid) (d : db) : bool :=
  bool_decide ((group_id, server_id) ∈ d.(attached)).

Definition list_server_ids_for_group (group_id : uuid) (d : db) : list uuid :=
  merge_sort N.le (map snd (List.filter (fun p => bool_decide (p.1 = group_id)) (elements d.(attached)))).

Definition list_groups_for_server (server_id : uuid) (d : db) : list PlayerGroup :=
  groups_where (fun kv => is_attached kv.1 server_id d) d.

Definition list_groups_for_server_kind (server_id : uuid) (kind : GroupKind) (d : db) : list PlayerGroup :=
  groups_where (fun kv => is_attached kv.1 server_id d && bool_decide (kv.2.(gr_kind) = kind)) d.

Definition list_sync_pending (server_id : uuid) (d : db) : list PendingGroupSync :=
  omap (fun kind => (fun token => {| pg_kind := kind; pg_token := token |}) <$> d.(pending) !! (server_id, kind))
    [OP; WHITELIST].

(** ** Writes *)

Abbreviation write := (db -> result exn db).

(** Whether a row other than [group_id]'s has the name. *)
Definition name_taken (group_id community_id : uuid) (kind : GroupKind) (name : str) (d : db) : bool :=
  bool_decide (filter (fun kv : uuid * GroupRow => same_name community_id kind name kv.2 = true)
                 (delete group_id d.(group_rows)) <> ∅).

Definition players_map (players : list Player) : gmap uuid str :=
  list_to_map (map (fun p => (p.(p_uuid), p.(p_username))) players).

Definition add (g : PlayerGroup) : write := fun d =>
  if bool_decide (g.(g_id) ∈ d.(born)) then Err Failure
  else if name_taken g.(g_id) g.(g_community_id) g.(g_kind) g.(g_name) d then Err GroupNameAlreadyExistsError
  else if bool_decide (g.(g_community_id) ∉ d.(communities)) then Err CommunityNotFoundError
  else Ok (mkDb d.(server_rows) d.(communities)
             (<[g.(g_id) := mkGroupRow g.(g_community_id) g.(g_name) g.(g_kind) (players_map g.(g_players))]>
                d.(group_rows)) d.(attached) d.(pending) ({[g.(g_id)]} ∪ d.(born)) d.(spent)).

(** The name and the whole player set. *)
Definition save (g : PlayerGroup) : write := fun d =>
  match d.(group_rows) !! g.(g_id) with
  | None => Err GroupNotFoundError
  | Some row =>
      if name_taken g.(g_id) row.(gr_community_id) row.(gr_kind) g.(g_name) d then Err GroupNameAlreadyExistsError
      else Ok (put_groups (<[g.(g_id) := mkGroupRow row.(gr_community_id) g.(g_name) row.(gr_kind)
                               (players_map g.(g_players))]> d.(group_rows)) d)
  end.

(** The group with its cascades. *)
Definition delete_ (group_id : uuid) : write := fun d =>
  Ok (put_attached (filter (fun p => p.1 <> group_id) d.(attached))
        (put_groups (delete group_id d.(group_rows)) d)).

Definition attach (group_id server_id : uuid) : write := fun d =>
  match d.(group_rows) !! group_id, d.(server_rows) !! server_id with
  | None, _ => Err GroupNotFoundError
  | _, None => Err ServerNotFoundError
  | Some _, Some _ => Ok (put_attached ({[(group_id, server_id)]} ∪ d.(attached)) d)
  end.

Definition detach (group_id server_id : uuid) : write := fun d =>
  Ok (put_attached (d.(attached) ∖ {[(group_id, server_id)]}) d).

(** [INSERT ... ON CONFLICT DO UPDATE] from the rows of the servers that exist. *)
Definition mark_sync_pending (server_ids : list uuid) (kind : GroupKind) (token : uuid) : write := fun d =>
  Ok (mkDb d.(server_rows) d.(communities) d.(group_rows) d.(attached)
        (foldr (fun i p => if bool_decide (is_Some (d.(server_rows) !! i)) then <[(i, kind) := token]> p else p)
           d.(pending) server_ids) d.(born) ({[token]} ∪ d.(spent))).

(** The marks that still carry the token read. *)
Definition clear_sync_pending (server_id : uuid) (applied : list PendingGroupSync) : write := fun d =>
  Ok (put_pending
        (foldr (fun owed p => if bool_decide (p !! (server_id, owed.(pg_kind)) = Some owed.(pg_token))
                              then delete (server_id, owed.(pg_kind)) p else p)
           d.(pending) applied) d).

(** [update_lifecycle] of a start: the row is still as expected and unassigned. *)
Definition assign_worker (server_id worker_id : uuid) (config : gmap string json) (expected_from : DesiredState)
    (at_ : datetime) : write := fun d =>
  match d.(server_rows) !! server_id with
  | Some row =>
      if bool_decide (row.(s_desired_state) = expected_from /\ row.(s_assigned_worker_id) = None)
      then Ok (mkDb (<[server_id := set_lifecycle D_RUNNING (Some worker_id) config at_ row]> d.(server_rows))
                 d.(communities) d.(group_rows) d.(attached) d.(pending) d.(born) d.(spent))
      else Err LifecycleTransitionConflictError
  | None => Err LifecycleTransitionConflictError
  end.

(** ** Files *)

Abbreviation files := (gmap (uuid * string) bytes).

Definition read_file (server_id : uuid) (rel_path : string) : M files exn bytes := fun f =>
  match f !! (server_id, rel_path) with
  | Some content => (Ok content, f)
  | None => (Err ServerFileNotFoundError, f)
  end.

Definition write_file (server_id : uuid) (rel_path : string) (content : bytes) : M files exn unit :=
  modify (<[(server_id, rel_path) := content]>).

(** ** The world and its events *)

Record world := mkWorld {
  w_db : db;
  w_files : files;
  w_locks : gmap uuid nat;        (* who holds the lifecycle lock of a server *)
  w_row_locks : gmap uuid nat     (* who holds a group's row FOR UPDATE *)
}.

Definition put_db (d : db) (w : world) : world := mkWorld d w.(w_files) w.(w_locks) w.(w_row_locks).
Definition put_files (f : files) (w : world) : world := mkWorld w.(w_db) f w.(w_locks) w.(w_row_locks).
Definition put_locks (l : gmap uuid nat) (w : world) : world := mkWorld w.(w_db) w.(w_files) l w.(w_row_locks).
Definition put_row_locks (l : gmap uuid nat) (w : world) : world := mkWorld w.(w_db) w.(w_files) w.(w_locks) l.

Inductive event : Type -> Type :=
| Now : event datetime
| FreshId : event uuid
| Lock (server_id : uuid) : event unit
| Unlock (server_id : uuid) : event unit
| LockRow (group_id : uuid) : event unit                                (* [lock_against_attach] *)
| EndTx : event unit                                                    (* the end of [async with uow] *)
| Read {T} (f : db -> T) : event T
| Write (key_shared : list uuid) (m : uuid -> write) : event unit       (* under a fresh token, with its commit *)
| SaveName (g : PlayerGroup) : event unit                               (* [save] of a rename, with its commit *)
| Files {T} (m : M files exn T) : event T
| EnsureJar (s : Server) : event (gmap string json)
| Place (s : Server) : event (option uuid).

Abbreviation coroutine := (prog event exn).

Definition fault (e : exn) : Prop := e = Failure \/ e = Cancelled.

(** A transaction's writes and commit: done, refused, or a fault after which they
    happened or did not; another edit of the same players may refuse them too. *)
Definition wrote (m : write) (d d' : db) (r : result exn unit) : Prop :=
  match m d with
  | Ok d1 => (r = Ok tt /\ d' = d1) \/ ((exists e, r = Err e /\ fault e) /\ (d' = d \/ d' = d1))
  | Err e => d' = d /\ exists e', r = Err e' /\ (e' = e \/ fault e')
  end \/ (r = Err GroupPlayerEditConflictError /\ d' = d).

(** No other transaction holds the row. *)
Definition row_free (t : nat) (w : world) (group_id : uuid) : Prop :=
  forall u, w.(w_row_locks) !! group_id = Some u -> u = t.

(** A rename writes back the players it read; [torn] says whether it may do so after
    another edit changed them. *)
Definition untorn (g : PlayerGroup) (d : db) : Prop :=
  forall row, d.(group_rows) !! g.(g_id) = Some row -> row.(gr_players) = players_map g.(g_players).

(** What an event of request [t] does to the world, and what it answers. *)
Definition exec (torn : bool) (t : nat) (T : Type) (w : world) (ev : event T)
    (r : result exn T) (w' : world) : Prop :=
  match ev in event T return result exn T -> Prop with
  | Now => fun r => w' = w /\ exists at_, r = Ok at_
  | FreshId => fun r => w' = w /\ exists u, r = Ok u
  | Lock i => fun r =>
      (w.(w_locks) !! i = None /\ w' = put_locks (<[i := t]> w.(w_locks)) w /\ r = Ok tt)
      \/ (w' = w /\ exists e, r = Err e /\ (e = ServerBusyError \/ fault e))
  | Unlock i => fun r => w' = put_locks (delete i w.(w_locks)) w /\ r = Ok tt
  | LockRow g => fun r =>
      (row_free t w g /\ r = Ok tt
       /\ w' = match w.(w_db).(group_rows) !! g with
               | Some _ => put_row_locks (<[g := t]> w.(w_row_locks)) w | None => w end)
      \/ (w' = w /\ exists e, r = Err e /\ fault e)
  | EndTx => fun r => w' = put_row_locks (filter (fun kv : uuid * nat => kv.2 <> t) w.(w_row_locks)) w /\ r = Ok tt
  | Read f => fun r => w' = w /\ (r = Ok (f w.(w_db)) \/ exists e, r = Err e /\ fault e)
  | Write shared m => fun r =>
      (w' = w /\ exists e, r = Err e /\ fault e)
      \/ ((forall g, g ∈ shared -> row_free t w g)
          /\ exists token d, token ∉ w.(w_db).(spent) /\ wrote (m token) w.(w_db) d r /\ w' = put_db d w)
  | SaveName g => fun r =>
      (torn = true \/ untorn g w.(w_db)) /\ exists d, wrote (save g) w.(w_db) d r /\ w' = put_db d w
  | Files m => fun r => exists f, w' = put_files f w
      /\ ((r, f) = m w.(w_files) \/ (exists e, r = Err e /\ fault e) /\ (f = w.(w_files) \/ f = (m w.(w_files)).2))
  | EnsureJar _ => fun r => w' = w
  | Place _ => fun r => w' = w
  end r.

(** [async with lifecycle_lock.hold(server_id): p]. *)
Definition with_lock {A} (server_id : uuid) (p : coroutine A) : coroutine A :=
  _ ← call (Lock server_id);
  finally p (call (Unlock server_id)).

(** [async with uow: p]. *)
Definition transaction {A} (p : coroutine A) : coroutine A := finally p (call EndTx).

(** [if b: raise e]. *)
Definition raise_if (b : bool) (e : exn) : coroutine unit := if b then Raise e else Ret tt.

(** [try: p except Exception as e: h(e)]. *)
Definition except_Exception {A} (p : coroutine A) (h : exn -> coroutine A) : coroutine A :=
  try_ p (fun e => if is_Exception e then h e else Raise e).
