(* ===== verification/Groups.v ===== *)
(** * Player groups: the use cases

    [servers/application/groups.py]: the groups of a community, their players and
    attachments, the synchronisation of the servers' player files at rest and the
    regeneration of the owed ones at a start, with what of [StartServer]
    ([servers/application/lifecycle.py], in full in [Lifecycle]) surrounds it. *)
From Stdlib Require Import ZArith NArith Lia String Ascii.
From stdpp Require Import base gmap strings list.
From S2P Require Import Prelude Uow Uuid Calendar Retention Program Text ServerRow Properties PlayerGroups GroupStore.

#[local] Open Scope Z_scope.

Section use_cases.
Context `{Unicode}.

(** ** Values *)

Definition _parse_kind (kind : string) : result exn GroupKind :=
  if String.eqb kind "op" then Ok OP
  else if String.eqb kind "whitelist" then Ok WHITELIST
  else Err InvalidGroupKindError.

Definition group_name (name : str) : coroutine str :=
  pure (match GroupName name with Some n => Ok n | None => Err InvalidGroupNameError end).

Definition player (player_uuid : uuid) (username : str) : coroutine Player :=
  pure (match Player_ player_uuid username with Some p => Ok p | None => Err InvalidPlayerError end).

Definition _load_group (community_id group_id : uuid) : coroutine PlayerGroup :=
  group ← call (Read (get_by_id group_id));
  match group with
  | Some g => if bool_decide (g.(g_community_id) = community_id) then Ret g else Raise GroupNotFoundError
  | None => Raise GroupNotFoundError
  end.

(** The row of a server of the community. *)
Definition _load (community_id server_id : uuid) : coroutine Server :=
  server ← call (Read (fun d => d.(server_rows) !! server_id));
  match server with
  | Some r => if bool_decide (r.(s_community_id) = community_id) then Ret r else Raise ServerNotFoundError
  | None => Raise ServerNotFoundError
  end.

Definition _require_server (community_id server_id : uuid) : coroutine unit :=
  _ ← _load community_id server_id; Ret tt.

(** ** The player files *)

(** The server's file as its groups have it. *)
Definition sync_locked (community_id server_id : uuid) (kind : GroupKind) : coroutine unit :=
  found ← transaction (
    server ← call (Read (fun d => d.(server_rows) !! server_id));
    match server with
    | Some r =>
        if bool_decide (r.(s_community_id) = community_id)
        then groups ← call (Read (list_groups_for_server_kind server_id kind)); Ret (Some (is_at_rest r, groups))
        else Ret None
    | None => Ret None
    end);
  match found with
  | Some (true, groups) =>
      call (Files (write_file server_id (target_file kind) (_render kind (merge_players groups))))
  | _ => Ret tt
  end.

Definition _sync_server_file (community_id server_id : uuid) (kind : GroupKind) : coroutine unit :=
  with_lock server_id (sync_locked community_id server_id kind).

Fixpoint _sync_servers_best_effort (community_id : uuid) (server_ids : list uuid) (kind : GroupKind)
    : coroutine unit :=
  match server_ids with
  | [] => Ret tt
  | server_id :: rest =>
      _ ← except_Exception (_sync_server_file community_id server_id kind) (fun _ => Ret tt);
      _sync_servers_best_effort community_id rest kind
  end.

(** One owed file: written where it is not already what it should be. *)
Definition regenerate_one (server_id : uuid) (owed : PendingGroupSync) : coroutine unit :=
  groups ← call (Read (list_groups_for_server_kind server_id owed.(pg_kind)));
  let content := _render owed.(pg_kind) (merge_players groups) in
  let path := target_file owed.(pg_kind) in
  except_Exception
    (current ← try_ (c ← call (Files (read_file server_id path)); Ret (Some c))
                 (fun e => match e with ServerFileNotFoundError => Ret None | _ => Raise e end);
     if bool_decide (current = Some content) then Ret tt
     else call (Files (write_file server_id path content)))
    (fun _ => Raise WorkingSetSeedFailedError).

Fixpoint regenerate_all (server_id : uuid) (owed : list PendingGroupSync) : coroutine unit :=
  match owed with
  | [] => Ret tt
  | mark :: rest => _ ← regenerate_one server_id mark; regenerate_all server_id rest
  end.

Definition regenerate_pending_group_files (server_id : uuid) : coroutine (list PendingGroupSync) :=
  pending ← call (Read (list_sync_pending server_id));
  _ ← regenerate_all server_id pending;
  Ret pending.

(** ** Groups *)

Definition CreateGroup (community_id : uuid) (name : str) (kind : string) : coroutine PlayerGroup :=
  group_kind ← pure (_parse_kind kind);
  group_name ← group_name name;
  transaction (
    existing ← call (Read (get_by_community_kind_name community_id group_kind group_name));
    _ ← raise_if (bool_decide (is_Some (g_id <$> existing))) GroupNameAlreadyExistsError;
    id ← call FreshId;
    let group := mkGroup id community_id group_name group_kind [] in
    _ ← call (Write [] (fun _ => add group));
    Ret group).

Definition ListGroups (community_id : uuid) : coroutine (list PlayerGroup) :=
  transaction (call (Read (list_for_community community_id))).

Definition ReadGroup (community_id group_id : uuid) : coroutine PlayerGroup :=
  transaction (_load_group community_id group_id).

Definition RenameGroup (community_id group_id : uuid) (name : str) : coroutine PlayerGroup :=
  new_name ← group_name name;
  transaction (
    group ← _load_group community_id group_id;
    clash ← call (Read (get_by_community_kind_name community_id group.(g_kind) new_name));
    _ ← raise_if (match clash with
                  | Some c => negb (bool_decide (c.(g_id) = group.(g_id))) | None => false end)
          GroupNameAlreadyExistsError;
    let group := set_name new_name group in
    _ ← call (SaveName group);
    Ret group).

(** A change of a group, the servers it lists marked with it: what the change writes,
    the servers to synchronise, and the group as it is then. *)
Definition change_group (community_id group_id : uuid) (change : PlayerGroup -> PlayerGroup)
    (store : PlayerGroup -> write) : coroutine (list uuid * PlayerGroup) :=
  transaction (
    group ← _load_group community_id group_id;
    _ ← call (LockRow group_id);
    let group := change group in
    server_ids ← call (Read (list_server_ids_for_group group_id));
    _ ← call (Write [] (fun token d => d' ← store group d; mark_sync_pending server_ids group.(g_kind) token d'));
    Ret (server_ids, group)).

Definition DeleteGroup (community_id group_id : uuid) : coroutine unit :=
  '(server_ids, group) ← change_group community_id group_id id (fun _ => delete_ group_id);
  _sync_servers_best_effort community_id server_ids group.(g_kind).

Definition AddPlayer (community_id group_id player_uuid : uuid) (username : str) : coroutine PlayerGroup :=
  player ← player player_uuid username;
  '(server_ids, group) ← change_group community_id group_id (upsert_player player) save;
  _ ← _sync_servers_best_effort community_id server_ids group.(g_kind);
  Ret group.

Definition RemovePlayer (community_id group_id player_uuid : uuid) : coroutine PlayerGroup :=
  '(server_ids, group) ← change_group community_id group_id (remove_player player_uuid) save;
  _ ← _sync_servers_best_effort community_id server_ids group.(g_kind);
  Ret group.

(** ** Attachments *)

Definition AttachGroup (community_id group_id server_id : uuid) : coroutine unit :=
  group ← transaction (
    group ← _load_group community_id group_id;
    _ ← _require_server community_id server_id;
    _ ← call (Write [group_id] (fun token d =>
          d' ← attach group_id server_id d; mark_sync_pending [server_id] group.(g_kind) token d'));
    Ret group);
  _sync_server_file community_id server_id group.(g_kind).

Definition DetachGroup (community_id group_id server_id : uuid) : coroutine unit :=
  group ← transaction (
    group ← _load_group community_id group_id;
    _ ← _require_server community_id server_id;
    removed ← call (Read (is_attached group_id server_id));
    _ ← raise_if (negb removed) GroupAttachmentNotFoundError;
    _ ← call (Write [] (fun token d =>
          d' ← detach group_id server_id d; mark_sync_pending [server_id] group.(g_kind) token d'));
    Ret group);
  _sync_server_file community_id server_id group.(g_kind).

Definition ListServerGroups (community_id server_id : uuid) : coroutine (list PlayerGroup) :=
  transaction (_ ← _require_server community_id server_id; call (Read (list_groups_for_server server_id))).

Definition ListGroupServers (community_id group_id : uuid) : coroutine (list uuid) :=
  transaction (_ ← _load_group community_id group_id; call (Read (list_server_ids_for_group group_id))).

(** ** Starts *)

Definition EULA_PATH : string := "eula.txt".

(** [b"eula=true" in content.lower()]. *)
Definition lower_byte (c : N) : N := if ((65 <=? c) && (c <=? 90))%N then (c + 32)%N else c.

Fixpoint prefixed (p l : bytes) : bool :=
  match p, l with
  | [], _ => true
  | a :: p', b :: l' => (a =? b)%N && prefixed p' l'
  | _, [] => false
  end.

Fixpoint contains (p l : bytes) : bool :=
  prefixed p l || match l with [] => false | _ :: l' => contains p l' end.

Definition _check_eula (server_id : uuid) : coroutine unit :=
  content ← try_ (call (Files (read_file server_id EULA_PATH)))
              (fun e => Raise match e with ServerFileNotFoundError => EulaNotAcceptedError | _ => e end);
  raise_if (negb (contains (codes "eula=true") (map lower_byte content))) EulaNotAcceptedError.

(** From the owed files to the commit that clears them. *)
Definition settle_and_commit (server : Server) (server_id : uuid) (expected_from : DesiredState) : coroutine unit :=
  owed_group_files ← regenerate_pending_group_files server_id;
  config ← call (EnsureJar server);
  placed ← call (Place server);
  match placed with
  | None => Raise NoEligibleWorkerError
  | Some worker_id =>
      at_ ← call Now;
      call (Write [] (fun _ d =>
        d' ← assign_worker server_id worker_id config expected_from at_ d;
        clear_sync_pending server_id owed_group_files d'))
  end.

(** The locked block of [StartServer.__call__]. *)
Definition start (community_id server_id : uuid) (accept_eula : bool) : coroutine unit :=
  with_lock server_id (transaction (
    server ← _load community_id server_id;
    _ ← raise_if (bool_decide (server.(s_desired_state) = D_RUNNING)) InvalidLifecycleTransitionError;
    _ ← raise_if (negb (bool_decide (server.(s_assigned_worker_id) = None))) LifecycleTransitionConflictError;
    _ ← if accept_eula
        then call (Files (write_file server_id EULA_PATH (codes "eula=true" ++ LF)))
        else _check_eula server_id;
    settle_and_commit server server_id D_STOPPED)).

(** The locked block of [StartServer.place_and_start]. *)
Definition replace (community_id server_id : uuid) : coroutine unit :=
  with_lock server_id (transaction (
    server ← _load community_id server_id;
    _ ← raise_if (negb (bool_decide (server.(s_desired_state) = D_RUNNING)
                        && bool_decide (server.(s_assigned_worker_id) = None)))
          InvalidLifecycleTransitionError;
    settle_and_commit server server_id D_RUNNING)).
End use_cases.
