(* ===== verification/GroupSafety.v ===== *)
(** * Player groups: what each request guarantees

    The requests of [Groups] as threads among each other and the rest of the API: what
    one may rely on, what it guarantees, and what each write does to the files owed and
    wanted. *)
From Stdlib Require Import ZArith NArith Lia String Ascii Sorted.
From stdpp Require Import base gmap strings list sorting.
From S2P Require Import Prelude Uow Uuid Calendar Retention Program RelyGuarantee Text ServerRow Properties PlayerGroups GroupStore Groups.

(** ** What a server's file should hold *)

Definition wanted (server_id : uuid) (kind : GroupKind) (d : db) : bytes :=
  _render kind (merge_players (list_groups_for_server_kind server_id kind d)).

(** The players a group contributes to it. *)
Definition source (server_id : uuid) (kind : GroupKind) (d : db) (g : uuid) : option (gmap uuid str) :=
  row ← d.(group_rows) !! g;
  if is_attached g server_id d && bool_decide (row.(gr_kind) = kind) then Some row.(gr_players) else None.

Definition contribution (kv : uuid * GroupRow) : uuid * gmap uuid str := (kv.1, kv.2.(gr_players)).

Definition contributions (i : uuid) (k : GroupKind) (d : db) : list (uuid * gmap uuid str) :=
  map contribution (merge_sort id_le
    (List.filter (fun kv => is_attached kv.1 i d && bool_decide (kv.2.(gr_kind) = k)) (map_to_list d.(group_rows)))).

Lemma contributions_spec i k d q : q ∈ contributions i k d <-> source i k d q.1 = Some q.2.
Proof.
  unfold contributions, contribution, source. rewrite list_elem_of_fmap. split.
  - intros ([g row] & -> & Hin). rewrite merge_sort_Permutation, elem_of_filter_bool in Hin.
    destruct Hin as [Hg%elem_of_map_to_list Hp]. cbn in *. by rewrite Hg; cbn; rewrite Hp.
  - destruct q as [g players]. cbn. destruct (group_rows d !! g) as [row|] eqn:Hg; cbn; [|done].
    destruct (_ && _) eqn:Hp; [|done]. intros [= <-]. exists (g, row). split; [done|].
    rewrite merge_sort_Permutation, elem_of_filter_bool. by split; [apply elem_of_map_to_list|].
Qed.

#[local] Instance id_le_trans {A} : Transitive (@id_le A).
Proof. intros a b c. unfold id_le. lia. Qed.

Lemma contributions_sorted i k d :
  StronglySorted id_le (contributions i k d) /\ NoDup (map fst (contributions i k d)).
Proof.
  unfold contributions. set (l := List.filter _ _).
  assert (Hs : StronglySorted id_le (merge_sort id_le l)).
  { apply StronglySorted_merge_sort; [apply _|]. intros a b. unfold id_le. lia. }
  assert (Hn : NoDup (map fst l)).
  { unfold l. pose proof (NoDup_fst_map_to_list (group_rows d)) as H. revert H. generalize (map_to_list (group_rows d)).
    intros m. induction m as [|x m IH]; [done|]. cbn. rewrite NoDup_cons. intros [Hx Hm].
    destruct (_ && _); cbn; [|by apply IH]. apply NoDup_cons. split; [|by apply IH].
    intros ([y ?] & E & [Hy _]%elem_of_filter_bool)%list_elem_of_fmap. cbn in E. subst y. apply Hx.
    apply list_elem_of_fmap. by exists (x.1, g). }
  assert (Hp : map fst (merge_sort id_le l) ≡ₚ map fst l) by by rewrite merge_sort_Permutation.
  rewrite <- Hp in Hn. clear Hp. revert Hs Hn. generalize (merge_sort id_le l). intros m Hs Hn.
  rewrite map_map. split; [|exact Hn]. clear Hn. induction Hs as [|x m Hm IH Hx]; cbn; constructor; [done|].
  rewrite Forall_map. exact Hx.
Qed.

Lemma contributions_source i k d d' :
  (forall g, source i k d' g = source i k d g) -> contributions i k d' = contributions i k d.
Proof.
  intros H. destruct (contributions_sorted i k d) as [Hs Hn], (contributions_sorted i k d') as [Hs' Hn'].
  apply (StronglySorted_unique_strong id_le); [|done..|].
  - intros [g p] [g' p'] Ha Hb H1 H2. apply contributions_spec in Ha, Hb. unfold id_le in *. cbn in *.
    assert (g = g') as <- by lia. rewrite H in Ha. rewrite Ha in Hb. by injection Hb as ->.
  - apply NoDup_Permutation; [by apply (NoDup_fmap_1 fst)|by apply (NoDup_fmap_1 fst)|].
    intros q. by rewrite !contributions_spec, H.
Qed.

Lemma wanted_source i k d d' : (forall g, source i k d' g = source i k d g) -> wanted i k d' = wanted i k d.
Proof.
  intros H%contributions_source. unfold wanted, merge_players. do 2 f_equal. rewrite !merge_concat. f_equal.
  unfold list_groups_for_server_kind, groups_where. rewrite !map_map. cbn.
  unfold contributions in H. set (l := merge_sort _ _) in *. set (l' := merge_sort _ _) in H.
  set (f := fun q : uuid * gmap uuid str => map (fun p : uuid * str => mkPlayer p.1 p.2) (map_to_list q.2)).
  change (concat (map (fun x => f (contribution x)) l) = concat (map (fun x => f (contribution x)) l')).
  by rewrite <- !(map_map contribution f), H.
Qed.

(** ** The relations *)

(** The foreign keys, and the identifiers spent. *)
Record tables_ok (d : db) : Prop := {
  ok_attached : forall g i, (g, i) ∈ d.(attached) -> is_Some (d.(group_rows) !! g) /\ is_Some (d.(server_rows) !! i);
  ok_pending : forall i k token, d.(pending) !! (i, k) = Some token -> is_Some (d.(server_rows) !! i) /\ token ∈ d.(spent);
  ok_born : forall g, is_Some (d.(group_rows) !! g) -> g ∈ d.(born)
}.

(** No worker holds the server. *)
Definition idle (i : uuid) (d : db) : Prop :=
  exists row, d.(server_rows) !! i = Some row /\ row.(s_assigned_worker_id) = None.

(** A group keeps its community and its kind, and its identifier is not used again. *)
Definition groups_last (d d' : db) : Prop := d.(born) ⊆ d'.(born) /\ forall g, g ∈ d.(born) ->
  match d.(group_rows) !! g, d'.(group_rows) !! g with
  | Some r, Some r' => r'.(gr_kind) = r.(gr_kind) /\ r'.(gr_community_id) = r.(gr_community_id)
  | None, Some _ => False
  | _, None => True
  end.

#[export] Instance groups_last_refl : Reflexive groups_last.
Proof. intros d. split; [done|]. intros g _. by destruct (_ !! g). Qed.

#[export] Instance groups_last_trans : Transitive groups_last.
Proof.
  intros a b c [Hb Ha] [Hc Hb']. split; [set_solver|]. intros g Hg. specialize (Ha g Hg). specialize (Hb' g (Hb g Hg)).
  destruct (group_rows a !! g), (group_rows b !! g), (group_rows c !! g); try done.
  destruct Ha, Hb'. split; congruence.
Qed.

(** Neither the mark nor what the file should hold has changed. *)
Definition unmoved (i : uuid) (k : GroupKind) (d d' : db) : Prop :=
  d'.(pending) !! (i, k) = d.(pending) !! (i, k) /\ wanted i k d' = wanted i k d.

(** The file is owed under a token never seen before. *)
Definition remarked (i : uuid) (k : GroupKind) (d d' : db) : Prop :=
  exists token, d'.(pending) !! (i, k) = Some token /\ token ∉ d.(spent).

Definition marks_last (d d' : db) : Prop := d.(spent) ⊆ d'.(spent)
  /\ forall i k, unmoved i k d d' \/ remarked i k d d' \/ d'.(pending) !! (i, k) = None.

#[export] Instance marks_last_refl : Reflexive marks_last.
Proof. intros d. split; [done|]. intros i k. by left. Qed.

#[export] Instance marks_last_trans : Transitive marks_last.
Proof.
  intros a b c [Hs Hm] [Hs' Hm']. split; [set_solver|]. intros i k.
  destruct (Hm' i k) as [[E' W']|[(token & Ht & Hn)|Hn]]; [|right; left|by right; right].
  - destruct (Hm i k) as [[E W]|[(token & Ht & Hn)|Hn]].
    + left. split; congruence.
    + right. left. exists token. split; [congruence|done].
    + right. right. congruence.
  - exists token. split; [done|]. set_solver.
Qed.

(** What request [t] relies on. *)
Record relies (t : nat) (w w' : world) : Prop := {
  re_ok : tables_ok w.(w_db) -> tables_ok w'.(w_db);
  re_lock : forall i, w.(w_locks) !! i = Some t -> w'.(w_locks) !! i = Some t
    /\ (idle i w.(w_db) -> idle i w'.(w_db) /\ forall path, w'.(w_files) !! (i, path) = w.(w_files) !! (i, path));
  re_row : forall g, w.(w_row_locks) !! g = Some t -> w'.(w_row_locks) !! g = Some t
    /\ forall i, (g, i) ∈ w'.(w_db).(attached) -> (g, i) ∈ w.(w_db).(attached);
  re_groups : groups_last w.(w_db) w'.(w_db);
  re_marks : marks_last w.(w_db) w'.(w_db)
}.

#[export] Instance relies_refl t : Reflexive (relies t).
Proof. intros w. split; [done|by intros..|reflexivity|reflexivity]. Qed.

#[export] Instance relies_trans t : Transitive (relies t).
Proof.
  intros a b c [Ho Hl Hr Hg Hm] [Ho' Hl' Hr' Hg' Hm']. split; [auto| | |by etransitivity|by etransitivity].
  - intros i Hi. destruct (Hl i Hi) as [Hb Hf]. destruct (Hl' i Hb) as [Hc Hf']. split; [done|]. intros Hidle.
    destruct (Hf Hidle) as [Hib Hfb]. destruct (Hf' Hib) as [Hic Hfc]. split; [done|]. intros path. by rewrite Hfc.
  - intros g Hi. destruct (Hr g Hi) as [Hb Ha]. destruct (Hr' g Hb) as [Hc Ha']. split; [done|]. auto.
Qed.

(** What it guarantees. *)
Record guarantees (t : nat) (w w' : world) : Prop := {
  ga_ok : tables_ok w.(w_db) -> tables_ok w'.(w_db);
  ga_lock : forall i u, w.(w_locks) !! i = Some u -> u <> t -> w'.(w_locks) !! i = Some u
    /\ w'.(w_db).(server_rows) !! i = w.(w_db).(server_rows) !! i
    /\ forall path, w'.(w_files) !! (i, path) = w.(w_files) !! (i, path);
  ga_row : forall g u, w.(w_row_locks) !! g = Some u -> u <> t -> w'.(w_row_locks) !! g = Some u
    /\ forall i, (g, i) ∈ w'.(w_db).(attached) -> (g, i) ∈ w.(w_db).(attached);
  ga_groups : groups_last w.(w_db) w'.(w_db);
  ga_spent : w.(w_db).(spent) ⊆ w'.(w_db).(spent);
  ga_marks : forall i k, unmoved i k w.(w_db) w'.(w_db) \/ remarked i k w.(w_db) w'.(w_db)
    \/ (w'.(w_db).(pending) !! (i, k) = None /\ wanted i k w'.(w_db) = wanted i k w.(w_db)
        /\ w'.(w_files) !! (i, target_file k) = Some (wanted i k w'.(w_db)))
}.

(** The rest of the API and the workers: a server whose lock is held and that no
    worker holds is left alone, file by file; groups go with their community and marks
    with their server. *)
Record outside (w w' : world) : Prop := {
  ou_ok : tables_ok w.(w_db) -> tables_ok w'.(w_db);
  ou_locks : w'.(w_locks) = w.(w_locks);
  ou_row_locks : w'.(w_row_locks) = w.(w_row_locks);
  ou_held : forall i, is_Some (w.(w_locks) !! i) -> idle i w.(w_db) ->
    idle i w'.(w_db) /\ forall path, w'.(w_files) !! (i, path) = w.(w_files) !! (i, path);
  ou_attached : w'.(w_db).(attached) ⊆ w.(w_db).(attached);
  ou_groups : groups_last w.(w_db) w'.(w_db);
  ou_spent : w.(w_db).(spent) ⊆ w'.(w_db).(spent);
  ou_marks : forall i k, unmoved i k w.(w_db) w'.(w_db)
    \/ (w'.(w_db).(pending) !! (i, k) = None /\ w'.(w_db).(server_rows) !! i = None)
}.

Lemma guarantees_refl t : Reflexive (guarantees t).
Proof. intros w. split; [done..|reflexivity|done|by left]. Qed.

Lemma guarantees_suffice t u w w' : t <> u -> guarantees t w w' -> relies u w w'.
Proof.
  intros Hne [Ho Hl Hr Hg Hs Hm]. split; [done| | |done|].
  - intros i Hi. destruct (Hl i u Hi) as (Hi' & Hrow & Hf); [done|]. split; [done|]. intros (row & Hrow' & Ha).
    split; [|done]. exists row. by rewrite Hrow.
  - intros g Hi. by apply Hr.
  - split; [done|]. intros i k. destruct (Hm i k) as [?|[?|(? & _)]]; auto.
Qed.

Lemma outside_suffices u w w' : outside w w' -> relies u w w'.
Proof.
  intros [Ho Hl Hr Hh Ha Hg Hs Hm]. split; [done| | |done|].
  - intros i Hi. rewrite Hl. split; [done|]. apply Hh. by eexists.
  - intros g Hi. rewrite Hr. split; [done|]. set_solver.
  - split; [done|]. intros i k. destruct (Hm i k) as [?|[? _]]; auto.
Qed.

(** ** The writes *)

Lemma source_eq i k d d' g : d'.(group_rows) !! g = d.(group_rows) !! g ->
  ((g, i) ∈ d'.(attached) <-> (g, i) ∈ d.(attached)) -> source i k d' g = source i k d g.
Proof.
  intros Hg Ha. unfold source, is_attached. by rewrite Hg, (bool_decide_ext _ _ Ha).
Qed.

(** A write that moves no server, its attachments growing under no other's lock. *)
Lemma write_guarantees t w d' : (tables_ok w.(w_db) -> tables_ok d') ->
  d'.(server_rows) = w.(w_db).(server_rows) -> groups_last w.(w_db) d' -> w.(w_db).(spent) ⊆ d'.(spent) ->
  (forall i k, unmoved i k w.(w_db) d' \/ remarked i k w.(w_db) d') ->
  (forall g u i, w.(w_row_locks) !! g = Some u -> u <> t -> (g, i) ∈ d'.(attached) -> (g, i) ∈ w.(w_db).(attached)) ->
  guarantees t w (put_db d' w).
Proof.
  intros Ho Hs Hg Hsp Hm Ha. split; cbn; [done| | |done|done|].
  - intros i u Hi _. by rewrite Hs.
  - intros g u Hr Hne. split; [done|]. intros i. by apply (Ha g u).
  - intros i k. destruct (Hm i k); auto.
Qed.

Lemma pending_lookup ids k token d i k' : forall d', mark_sync_pending ids k token d = Ok d' ->
  d'.(pending) !! (i, k') =
  if decide (i ∈ ids /\ k' = k /\ is_Some (d.(server_rows) !! i)) then Some token else d.(pending) !! (i, k').
Proof.
  intros d' [= <-]. cbn. induction ids as [|j ids IH]; cbn.
  { case_decide as Hc; [|done]. by destruct Hc as [?%not_elem_of_nil _]. }
  case_bool_decide as Hj.
  - destruct (decide ((j, k) = (i, k'))) as [E|E].
    + injection E as -> ->. rewrite lookup_insert_eq. rewrite decide_True by (split; [set_solver|done]). done.
    + rewrite lookup_insert_ne, IH by done. do 2 case_decide; try done; set_solver.
  - rewrite IH. do 2 case_decide; try done; set_solver.
Qed.

(** What a change of a group's sources leaves alone: everything but the files of
    [kind] of the servers of [ids]. *)
Record changed (kind : GroupKind) (ids : list uuid) (d d1 : db) : Prop := {
  ch_rows : d1.(server_rows) = d.(server_rows);
  ch_pending : d1.(pending) = d.(pending);
  ch_spent : d1.(spent) = d.(spent);
  ch_groups : groups_last d d1;
  ch_ok : tables_ok d -> tables_ok d1;
  ch_source : forall i k g, source i k d1 g = source i k d g
    \/ (i ∈ ids /\ k = kind /\ is_Some (d.(server_rows) !! i))
}.

Lemma changed_marked kind ids token d d1 d' : changed kind ids d d1 -> token ∉ d.(spent) ->
  mark_sync_pending ids kind token d1 = Ok d' ->
  (tables_ok d -> tables_ok d') /\ d'.(server_rows) = d.(server_rows) /\ d'.(attached) = d1.(attached)
  /\ groups_last d d' /\ d.(spent) ⊆ d'.(spent) /\ forall i k, unmoved i k d d' \/ remarked i k d d'.
Proof.
  intros [Hr Hp Hs Hg Ho Hsrc] Ht Hm. pose proof (fun i k => pending_lookup ids kind token d1 i k d' Hm) as Hl.
  rewrite Hr, Hp in Hl. assert (E : d'.(group_rows) = d1.(group_rows) /\ d'.(attached) = d1.(attached)
    /\ d'.(server_rows) = d1.(server_rows) /\ d'.(born) = d1.(born) /\ d'.(spent) = {[token]} ∪ d1.(spent))
    by (unfold mark_sync_pending in Hm; by injection Hm as <-).
  destruct E as (Eg & Ea & Er & Eb & Es). split; [|split; [congruence|]]; [|split; [done|]]; [|split; [|split; [set_solver|]]].
  - intros Hok. destruct (Ho Hok) as [Hat Hpe Hbo]. split.
    + intros g i. rewrite Ea, Eg, Er. apply Hat.
    + intros i k tok. rewrite Hl, Er, Es, Hs, Hr. rewrite Hr, Hp, Hs in Hpe. case_decide as Hc.
      * intros [= <-]. split; [apply Hc|set_solver].
      * intros [? ?]%Hpe. split; [done|set_solver].
    + intros g. rewrite Eg, Eb. apply Hbo.
  - destruct Hg as [Hb Hg]. split; [by rewrite Eb|]. intros g Hin. rewrite Eg. by apply Hg.
  - intros i k. specialize (Hl i k). case_decide as Hc; [right; by exists token|]. left. split; [done|].
    apply wanted_source. intros g. rewrite (source_eq i k d1 d' g) by (by rewrite ?Eg, ?Ea).
    by destruct (Hsrc i k g).
Qed.

(** *** The changes *)

(** A group of the kind, if it still is. *)
Definition of_kind (g : uuid) (kind : GroupKind) (d : db) : Prop :=
  g ∈ d.(born) /\ forall row, d.(group_rows) !! g = Some row -> row.(gr_kind) = kind.

(** The servers listed are all that the group is attached to. *)
Definition listed (g : uuid) (ids : list uuid) (d : db) : Prop := forall i, (g, i) ∈ d.(attached) -> i ∈ ids.

Lemma changed_at g kind ids d d1 : tables_ok d -> of_kind g kind d ->
  d1.(server_rows) = d.(server_rows) -> d1.(pending) = d.(pending) -> d1.(spent) = d.(spent) ->
  groups_last d d1 -> (tables_ok d -> tables_ok d1) ->
  (forall g' i, g' <> g -> d1.(group_rows) !! g' = d.(group_rows) !! g' /\ ((g', i) ∈ d1.(attached) <-> (g', i) ∈ d.(attached))) ->
  (forall row, d1.(group_rows) !! g = Some row -> row.(gr_kind) = kind) ->
  (forall i, ((g, i) ∈ d.(attached) \/ (g, i) ∈ d1.(attached)) -> i ∈ ids \/
     (d1.(group_rows) !! g = d.(group_rows) !! g /\ ((g, i) ∈ d1.(attached) <-> (g, i) ∈ d.(attached)))) ->
  changed kind ids d d1.
Proof.
  intros Hok [_ Hk] Hr Hp Hs Hg Ho Hother Hk1 Hids. split; try done. intros i k g'.
  destruct (decide (g' = g)) as [->|Hne]; [|by left; apply source_eq; apply Hother].
  destruct (decide ((g, i) ∈ attached d \/ (g, i) ∈ attached d1)) as [Hin|Hout].
  2: { left. unfold source, is_attached. rewrite !bool_decide_eq_false_2 by tauto. by destruct (_ !! g), (_ !! g). }
  destruct (Hids i Hin) as [Hi|[E1 E2]]; [|by left; apply source_eq].
  destruct (decide (k = kind)) as [->|Hkne].
  - right. split; [done|]. split; [done|]. destruct Hin as [Hin|Hin]; [by apply (ok_attached _ Hok g)|].
    rewrite <- Hr. by apply (ok_attached _ (Ho Hok) g).
  - assert (Hnone : forall d2, (forall row, d2.(group_rows) !! g = Some row -> row.(gr_kind) = kind) -> source i k d2 g = None).
    { intros d2 H2. unfold source. destruct (group_rows d2 !! g) as [row|] eqn:E; cbn; [|done].
      rewrite (bool_decide_eq_false_2 (gr_kind row = k)), andb_false_r; [done|]. by rewrite (H2 row eq_refl). }
    left. by rewrite !Hnone.
Qed.

Lemma groups_same d d' : d'.(group_rows) = d.(group_rows) -> d'.(born) = d.(born) -> groups_last d d'.
Proof. intros Hg Hb. split; [by rewrite Hb|]. intros g _. rewrite Hg. by destruct (_ !! g). Qed.

Lemma save_changed g kind ids d d1 : tables_ok d -> of_kind g.(g_id) kind d -> listed g.(g_id) ids d ->
  save g d = Ok d1 -> changed kind ids d d1 /\ d1.(attached) = d.(attached).
Proof.
  intros Hok Hk Hl Hs. unfold save in Hs. destruct (group_rows d !! g_id g) as [row|] eqn:Hrow; [|done].
  destruct (name_taken _ _ _ _ _); [done|]. injection Hs as <-. split; [|done].
  assert (Hd : forall g', is_Some (<[g_id g := mkGroupRow (gr_community_id row) (g_name g) (gr_kind row) (players_map (g_players g))]>
      (group_rows d) !! g') <-> is_Some (group_rows d !! g')).
  { intros g'. destruct (decide (g_id g = g')) as [<-|Hne]; [|by rewrite lookup_insert_ne].
    rewrite lookup_insert_eq, Hrow. by split; intros _. }
  apply (changed_at g.(g_id)); cbn; try done.
  - split; [done|]. cbn. intros g' _. destruct (decide (g_id g = g')) as [<-|Hne].
    + by rewrite lookup_insert_eq, Hrow.
    + rewrite lookup_insert_ne by done. by destruct (_ !! g').
  - intros [Ha Hp Hb]. split; cbn; [|done|].
    + intros g' i Hin. rewrite Hd. by apply Ha.
    + intros g' Hg'. apply Hb. by apply Hd.
  - intros g' i Hne. by rewrite lookup_insert_ne.
  - intros r. rewrite lookup_insert_eq. intros [= <-]. cbn. by apply Hk.
  - intros i [Hi|Hi]; left; by apply Hl.
Qed.

Lemma delete_changed g kind ids d d1 : tables_ok d -> of_kind g kind d -> listed g ids d ->
  delete_ g d = Ok d1 -> changed kind ids d d1 /\ d1.(attached) ⊆ d.(attached).
Proof.
  intros Hok Hk Hl [= <-]. split; [|cbn; set_solver]. apply (changed_at g); cbn; try done.
  - split; [done|]. cbn. intros g' _. destruct (decide (g = g')) as [<-|Hne].
    + rewrite lookup_delete_eq. by destruct (_ !! g).
    + rewrite lookup_delete_ne by done. by destruct (_ !! g').
  - intros [Ha Hp Hb]. split; cbn; [|done|].
    + intros g' i [Hne Hin]%elem_of_filter. cbn in Hne. rewrite lookup_delete_ne by congruence. by apply Ha.
    + intros g' Hg'. apply Hb. destruct (decide (g = g')) as [<-|Hne]; [rewrite lookup_delete_eq in Hg'; by destruct Hg'|].
      by rewrite lookup_delete_ne in Hg'.
  - intros g' i Hne. rewrite lookup_delete_ne by congruence. split; [done|]. rewrite elem_of_filter. cbn. tauto.
  - intros row. by rewrite lookup_delete_eq.
  - intros i [Hi|Hi]; left; apply Hl; [done|]. by apply elem_of_filter in Hi as [_ ?].
Qed.

Lemma attach_changed g i kind d d1 : tables_ok d -> of_kind g kind d -> attach g i d = Ok d1 ->
  changed kind [i] d d1 /\ d1.(attached) = {[(g, i)]} ∪ d.(attached).
Proof.
  intros Hok Hk Ha. unfold attach in Ha. destruct (group_rows d !! g) as [row|] eqn:Hg; [|done].
  destruct (server_rows d !! i) as [srv|] eqn:Hi; [|done]. injection Ha as <-. split; [|done].
  apply (changed_at g); cbn; try done.
  - by apply groups_same.
  - intros [Hat Hp Hb]. split; cbn; [|done..]. intros g' i' [E%elem_of_singleton|Hin]%elem_of_union; [|by apply Hat].
    injection E as -> ->. rewrite Hg, Hi. by split; eexists.
  - intros g' i' Hne. split; [done|]. set_solver.
  - apply Hk.
  - intros i' Hin. destruct (decide (i' = i)) as [->|Hne]; [left; set_solver|right]. set_solver.
Qed.

Lemma detach_changed g i kind d d1 : tables_ok d -> of_kind g kind d -> detach g i d = Ok d1 ->
  changed kind [i] d d1 /\ d1.(attached) ⊆ d.(attached).
Proof.
  intros Hok Hk [= <-]. split; [|cbn; set_solver]. apply (changed_at g); cbn; try done.
  - by apply groups_same.
  - intros [Hat Hp Hb]. split; cbn; [|done..]. intros g' i' Hin. apply Hat. set_solver.
  - intros g' i' Hne. split; [done|]. set_solver.
  - apply Hk.
  - intros i' Hin. destruct (decide (i' = i)) as [->|Hne]; [left; set_solver|right]. set_solver.
Qed.

(** *** A new group, a rename, a start *)

Lemma add_moves g d d' : tables_ok d -> add g d = Ok d' ->
  tables_ok d' /\ d'.(server_rows) = d.(server_rows) /\ d'.(attached) = d.(attached) /\ groups_last d d'
  /\ d'.(spent) = d.(spent) /\ forall i k, unmoved i k d d'.
Proof.
  intros Hok Ha. unfold add in Ha. case_bool_decide as Hb; [done|]. destruct (name_taken _ _ _ _ _); [done|].
  case_bool_decide; [done|]. injection Ha as <-. destruct Hok as [Hat Hp Hbo].
  assert (Hnone : group_rows d !! g_id g = None).
  { destruct (group_rows d !! g_id g) eqn:E; [|done]. destruct Hb. apply Hbo. by rewrite E. }
  assert (Hother : forall g', g' <> g_id g -> forall row, <[g_id g := row]> (group_rows d) !! g' = group_rows d !! g')
    by (intros; by rewrite lookup_insert_ne).
  assert (Hun : forall i, (g_id g, i) ∉ attached d).
  { intros i [E _]%Hat. rewrite Hnone in E. by destruct E. }
  split; [|split; [done|]; split; [done|]; split; [|split; [done|]]].
  - split; cbn; [|done|].
    + intros g' i Hin. rewrite Hother by (intros ->; by apply (Hun i)). by apply Hat.
    + intros g'. destruct (decide (g' = g_id g)) as [->|Hne]; [set_solver|]. rewrite Hother by done. intros ?%Hbo. set_solver.
  - split; cbn; [set_solver|]. intros g' Hg'. rewrite Hother by (intros ->; done). by destruct (_ !! g').
  - intros i k. split; [done|]. apply wanted_source. intros g'. destruct (decide (g' = g_id g)) as [->|Hne].
    + unfold source, is_attached. cbn. rewrite Hnone, lookup_insert_eq. cbn.
      by rewrite (bool_decide_eq_false_2 (_ ∈ attached d)) by apply Hun.
    + apply source_eq; [|done]. cbn. by apply Hother.
Qed.

Lemma save_name_moves g d d' : tables_ok d -> untorn g d -> save g d = Ok d' ->
  tables_ok d' /\ d'.(server_rows) = d.(server_rows) /\ d'.(attached) = d.(attached) /\ groups_last d d'
  /\ d'.(spent) = d.(spent) /\ forall i k, unmoved i k d d'.
Proof.
  intros Hok Hu Hs. unfold save in Hs. destruct (group_rows d !! g_id g) as [row|] eqn:Hrow; [|done].
  destruct (name_taken _ _ _ _ _); [done|]. injection Hs as <-. specialize (Hu row Hrow). rewrite <- Hu.
  assert (Hsame : forall g', match <[g_id g := mkGroupRow (gr_community_id row) (g_name g) (gr_kind row) (gr_players row)]>
      (group_rows d) !! g', group_rows d !! g' with
    | Some r, Some r' => gr_kind r = gr_kind r' /\ gr_community_id r = gr_community_id r' /\ gr_players r = gr_players r'
    | None, None => True | _, _ => False end).
  { intros g'. destruct (decide (g_id g = g')) as [<-|Hne]; [by rewrite lookup_insert_eq, Hrow|].
    rewrite lookup_insert_ne by done. by destruct (_ !! g'). }
  split; [|split; [done|]; split; [done|]; split; [|split; [done|]]].
  - destruct Hok as [Hat Hp Hb]. split; cbn; [|done|].
    + intros g' i Hin. destruct (Hat g' i Hin) as [[r Hr] Hi]. split; [|done]. specialize (Hsame g'). rewrite Hr in Hsame.
      by destruct (<[_ := _]> _ !! g').
    + intros g' [r Hr]. apply Hb. specialize (Hsame g'). rewrite Hr in Hsame. by destruct (group_rows d !! g').
  - split; [done|]. cbn. intros g' _. specialize (Hsame g'). destruct (group_rows d !! g'), (<[_ := _]> _ !! g'); try done.
    by destruct Hsame as (? & ? & _).
  - intros i k. split; [done|]. apply wanted_source. intros g'. specialize (Hsame g'). unfold source. cbn.
    destruct (<[_ := _]> _ !! g'), (group_rows d !! g'); try done. cbn. destruct Hsame as (-> & _ & ->). done.
Qed.

Lemma clear_lookup i owed d d' j k : clear_sync_pending i owed d = Ok d' ->
  d'.(pending) !! (j, k) = d.(pending) !! (j, k)
  \/ (d'.(pending) !! (j, k) = None /\ j = i
      /\ exists o, o ∈ owed /\ o.(pg_kind) = k /\ d.(pending) !! (i, k) = Some o.(pg_token)).
Proof.
  intros [= <-]. cbn. induction owed as [|o owed IH]; cbn; [by left|]. case_bool_decide as Hp.
  - destruct (decide ((i, o.(pg_kind)) = (j, k))) as [E|E].
    + injection E as -> <-. right. rewrite lookup_delete_eq. split; [done|]. split; [done|]. exists o.
      split; [set_solver|]. split; [done|]. destruct IH as [IH|(IH & _)]; congruence.
    + rewrite lookup_delete_ne by done. destruct IH as [?|(? & ? & o' & ? & ? & ?)]; [by left|right].
      split; [done|]. split; [done|]. exists o'. split; [set_solver|done].
  - destruct IH as [?|(? & ? & o' & ? & ? & ?)]; [by left|right].
    split; [done|]. split; [done|]. exists o'. split; [set_solver|done].
Qed.

Lemma assign_clear_moves i worker config from at_ owed d d1 d' : tables_ok d ->
  assign_worker i worker config from at_ d = Ok d1 -> clear_sync_pending i owed d1 = Ok d' ->
  tables_ok d' /\ (forall j, j <> i -> d'.(server_rows) !! j = d.(server_rows) !! j) /\ d'.(attached) = d.(attached)
  /\ groups_last d d' /\ d'.(spent) = d.(spent) /\ (forall j k, wanted j k d' = wanted j k d)
  /\ forall j k, d'.(pending) !! (j, k) = d.(pending) !! (j, k)
     \/ (d'.(pending) !! (j, k) = None /\ j = i
         /\ exists o, o ∈ owed /\ o.(pg_kind) = k /\ d.(pending) !! (i, k) = Some o.(pg_token)).
Proof.
  intros [Hat Hp Hb] Ha Hc. unfold assign_worker in Ha. destruct (server_rows d !! i) as [row|] eqn:Hrow; [|done].
  case_bool_decide; [|done]. injection Ha as <-. pose proof (fun j k => clear_lookup _ _ _ _ j k Hc) as Hl. cbn in Hl.
  injection Hc as <-. cbn in Hl |- *. set (new := set_lifecycle _ _ _ _ _).
  assert (Hs : forall j, is_Some (server_rows d !! j) -> is_Some (<[i := new]> (server_rows d) !! j)).
  { intros j Hj. destruct (decide (i = j)) as [<-|Hne]; [by rewrite lookup_insert_eq|by rewrite lookup_insert_ne]. }
  split; [|split; [|split; [done|]; split; [by apply groups_same|]; split; [done|]; split; [|exact Hl]]].
  - split; cbn; [|intros j k token Hj|done].
    + intros g j Hin. destruct (Hat g j Hin). split; [done|]. by apply Hs.
    + destruct (Hl j k) as [E|(E & _)]; rewrite E in Hj; [|done]. destruct (Hp _ _ _ Hj). split; [by apply Hs|done].
  - intros j Hne. by rewrite lookup_insert_ne.
  - intros j k. apply wanted_source. intros g. by apply source_eq.
Qed.
