(* ===== verification/GroupThreads.v ===== *)
(** * Player groups: every request keeps its guarantee

    The use cases of [Groups] against the rely and the guarantee of [GroupSafety], and
    what of it a step of the whole system keeps. *)
From Stdlib Require Import ZArith NArith Lia String Ascii.
From stdpp Require Import base gmap strings list sorting.
From S2P Require Import Prelude Uow Uuid Calendar Retention Program RelyGuarantee Text ServerRow Properties PlayerGroups GroupStore Groups GroupSafety.

Section threads.
Context `{Unicode}.

Section thread.
Context (t : nat).

#[local] Notation okay p w post := (rg (exec false t) (relies t) (guarantees t) p w post).

(** ** Assertions *)

Definition stable (Q : world -> Prop) : Prop := forall w w', relies t w w' -> Q w -> Q w'.
Definition loose (Q : world -> Prop) : Prop := forall l w, Q w -> Q (put_row_locks l w).

Definition fine (w : world) : Prop := tables_ok w.(w_db).
Definition holds (i : uuid) (w : world) : Prop := fine w /\ w.(w_locks) !! i = Some t.
Definition holds_idle (i : uuid) (w : world) : Prop := holds i w /\ idle i w.(w_db).

Lemma fine_stable : stable fine.
Proof using. intros w w' [Ho _ _ _ _]. exact Ho. Qed.
Lemma fine_loose : loose fine.
Proof using. by intros l w. Qed.
Lemma lock_stays i : stable (holds i).
Proof using. intros w w' Hr [Ho Hl]. split; [by apply (fine_stable w)|]. by apply (re_lock _ _ _ Hr). Qed.
Lemma holds_loose i : loose (holds i).
Proof using. by intros l w. Qed.
Lemma holds_idle_stable i : stable (holds_idle i).
Proof using.
  intros w w' Hr [Hh Hi]. split; [by eapply lock_stays|]. destruct (re_lock _ _ _ Hr i (proj2 Hh)) as [_ Hf]. by apply Hf.
Qed.

Lemma of_kind_stable g k : stable (fun w => of_kind g k w.(w_db)).
Proof using.
  intros w w' Hr [Hb Hk]. destruct (re_groups _ _ _ Hr) as [Hbs Hg]. split; [set_solver|]. intros row Hrow.
  specialize (Hg g Hb). rewrite Hrow in Hg. destruct (group_rows (w_db w) !! g) as [r|] eqn:E; [|done].
  destruct Hg as [-> _]. by apply Hk.
Qed.

Lemma both_stable (P Q : world -> Prop) : stable P -> stable Q -> stable (fun w => P w /\ Q w).
Proof using. intros HP HQ w w' Hr [Hp Hq]. split; [by eapply HP|by eapply HQ]. Qed.

(** ** Events *)

Lemma okay_plain {T} (ev : event T) (Q : world -> Prop) (C : T -> world -> Prop) w : stable Q ->
  (forall w1 r w2, exec false t T w1 ev r w2 -> w2 = w1) ->
  (forall w1 x, Q w1 -> exec false t T w1 ev (Ok x) w1 -> C x w1) -> Q w ->
  okay (call ev) w (fun r w' => Q w' /\ forall x, r = Ok x -> C x w').
Proof using.
  intros Hst Hs HC HQ. apply rg_call. intros w1 Hr r w2 Hx. pose proof (Hs _ _ _ Hx) as ->.
  pose proof (Hst _ _ Hr HQ) as HQ1. split; [apply guarantees_refl|]. split; [done|]. intros x ->. by apply HC.
Qed.

Lemma read_okay {T} (f : db -> T) (Q : world -> Prop) w : stable Q -> Q w ->
  okay (call (Read f)) w (fun r w' => Q w' /\ forall x, r = Ok x -> x = f w'.(w_db)).
Proof using.
  intros Hst HQ. apply (okay_plain (Read f) Q (fun x w' => x = f w'.(w_db))); [done|by intros ??? [-> _]| |done].
  intros w1 x _ [_ [[= ->]|(e & ? & _)]]; done.
Qed.

(** A step of [p], then the rest where it returned. *)
Lemma okay_bind {A B} (p : coroutine A) (f : A -> coroutine B) (Q : world -> Prop) (C : A -> world -> Prop) w post :
  okay p w (fun r w' => Q w' /\ forall x, r = Ok x -> C x w') ->
  (forall x w', Q w' -> C x w' -> okay (f x) w' post) -> (forall e w', Q w' -> post (Err e) w') ->
  okay (p ≫= f) w post.
Proof using.
  intros Hp Hf He. apply rg_bind. eapply rg_mono; [exact Hp|]. intros [x|e] w' [HQ HC]; [apply Hf; auto|by apply He].
Qed.

Lemma read_then {A T} (f : db -> T) (k : T -> coroutine A) (Q : world -> Prop) w post : stable Q -> Q w ->
  (forall w', Q w' -> okay (k (f w'.(w_db))) w' post) -> (forall e w', Q w' -> post (Err e) w') ->
  okay (call (Read f) ≫= k) w post.
Proof using.
  intros Hst HQ Hk He. eapply okay_bind; [by apply (read_okay f Q)| |done]. intros x w' HQ' ->. by apply Hk.
Qed.

Lemma okay_raise_if {A} b e (k : unit -> coroutine A) w post :
  (b = true -> post (Err e) w) -> (b = false -> okay (k tt) w post) -> okay (raise_if b e ≫= k) w post.
Proof using. intros H1 H2. destruct b; [by apply H1|by apply H2]. Qed.

(** A transaction: its row locks are gone at its end. *)
Lemma transaction_okay {A} (p : coroutine A) w (post : result exn A -> world -> Prop) :
  (forall r, stable (post r)) -> (forall r, loose (post r)) -> okay p w post -> okay (transaction p) w post.
Proof using.
  intros Hst Hlo Hp. apply rg_finally. eapply rg_mono; [exact Hp|]. intros r w' Hpost. apply rg_call.
  intros w1 Hr rc w2 [-> ->]. pose proof (Hst _ _ _ Hr Hpost) as H1. split; [|by apply Hlo].
  split; cbn; [done|done| |reflexivity|done|by left].
  intros g u Hg Hne. split; [|done]. by apply map_lookup_filter_Some.
Qed.

(** A block under a server's lock. *)
Lemma locked_okay {A} i (p : coroutine A) w : fine w ->
  (forall w', holds i w' -> okay p w' (fun _ w'' => holds i w'')) ->
  okay (with_lock i p) w (fun _ w' => fine w').
Proof using.
  intros Hw Hp. unfold with_lock. apply rg_bind, rg_call. intros w1 Hr r w2 Hx.
  pose proof (fine_stable _ _ Hr Hw) as Hw1. destruct Hx as [(Hn & -> & ->)|(-> & e & -> & _)].
  2: { by split; [apply guarantees_refl|]. }
  split.
  { split; cbn; [done| |done|reflexivity|done|by left]. intros j u Hj Hne. split; [|done].
    rewrite lookup_insert_ne; [done|]. intros <-. by rewrite Hn in Hj. }
  apply rg_finally. eapply rg_mono; [apply Hp|].
  { split; [done|]. apply lookup_insert_eq. }
  intros r w3 Hw3. apply rg_call. intros w4 Hr4 rc w5 [-> ->]. pose proof (lock_stays i _ _ Hr4 Hw3) as [Hw4 Hl4].
  split; [|done]. split; cbn; [done| |done|reflexivity|done|by left]. intros j u Hj Hne. split; [|done].
  rewrite lookup_delete_ne; [done|]. intros <-. rewrite Hl4 in Hj. by injection Hj.
Qed.

(** A write: all it does is one move of the tables, or nothing. *)
Lemma write_okay shared (m : uuid -> write) (Q : world -> Prop) w : stable Q -> Q w ->
  (forall w1, Q w1 -> fine w1) ->
  (forall w1 token d', Q w1 -> (forall g, g ∈ shared -> row_free t w1 g) -> token ∉ w1.(w_db).(spent) ->
     m token w1.(w_db) = Ok d' -> guarantees t w1 (put_db d' w1)) ->
  okay (call (Write shared m)) w (fun _ w' => fine w' /\ exists w1, Q w1 /\ w'.(w_locks) = w1.(w_locks)).
Proof using.
  intros Hst HQ Hf Hm. apply rg_call. intros w1 Hr r w2 Hx. pose proof (Hst _ _ Hr HQ) as HQ1.
  assert (Hend : guarantees t w1 w2 -> w2.(w_locks) = w1.(w_locks) ->
    guarantees t w1 w2 /\ fine w2 /\ exists w1, Q w1 /\ w2.(w_locks) = w1.(w_locks)).
  { intros Hg Hl. split; [done|]. split; [by apply (ga_ok _ _ _ Hg), Hf|]. by exists w1. }
  destruct Hx as [(-> & _)|(Hfree & token & d & Ht & Hwr & ->)]; [by apply Hend; [apply guarantees_refl|]|].
  apply Hend; [|done]. unfold wrote in Hwr.
  assert (Hd : d = w_db w1 \/ m token (w_db w1) = Ok d).
  { destruct Hwr as [Hwr|[_ ->]]; [|by left]. destruct (m token (w_db w1)) as [d1|e]; [|by left; destruct Hwr].
    destruct Hwr as [[_ ->]|[_ [->| ->]]]; auto. }
  destruct Hd as [->|Hd]; [|by apply (Hm _ token)]. destruct w1. apply guarantees_refl.
Qed.

(** A change of the files of the server whose lock is held. *)
Lemma files_guarantees {T} (i : uuid) (m : M files exn T) (w : world) r w' : holds i w ->
  (forall (f : files) j path, j <> i -> (m f).2 !! (j, path) = f !! (j, path)) ->
  exec false t T w (Files m) r w' -> guarantees t w w' /\ w'.(w_db) = w.(w_db) /\ w'.(w_locks) = w.(w_locks)
  /\ (w'.(w_files) = w.(w_files) \/ w'.(w_files) = (m w.(w_files)).2).
Proof using.
  intros [_ Hl] Hm (f & -> & Hst). cbn.
  assert (Hf : f = w.(w_files) \/ f = (m w.(w_files)).2).
  { destruct Hst as [E|[_ Hf]]; [|done]. right. by rewrite <- E. }
  split; [|done]. split; cbn; [done| |done|reflexivity|done|by left].
  intros j u Hj Hne. split; [done|]. split; [done|]. intros path.
  destruct Hf as [->| ->]; [done|]. apply Hm. intros ->. rewrite Hl in Hj. by injection Hj.
Qed.

(** ** Loading *)

Lemma load_group_okay c g (Q : world -> Prop) w : stable Q -> (forall w, Q w -> fine w) -> Q w ->
  okay (_load_group c g) w (fun r w' => Q w' /\ forall group, r = Ok group ->
    group.(g_id) = g /\ of_kind g group.(g_kind) w'.(w_db)).
Proof using.
  intros Hst Hf HQ. unfold _load_group. eapply (read_then _ _ Q); [done|done| |by split].
  intros w1 HQ1. unfold get_by_id. destruct (group_rows (w_db w1) !! g) as [row|] eqn:Hg; cbn; [|by split].
  case_bool_decide; cbn; [|by split]. split; [done|]. intros group [= <-]. split; [done|].
  split; [apply (ok_born _ (Hf _ HQ1)); by eexists|]. intros r Hr. rewrite Hg in Hr. by injection Hr as <-.
Qed.

Lemma load_okay c i (Q : world -> Prop) w : stable Q -> Q w ->
  okay (_load c i) w (fun r w' => Q w' /\ forall server, r = Ok server -> w'.(w_db).(server_rows) !! i = Some server).
Proof using.
  intros Hst HQ. unfold _load. eapply (read_then _ _ Q); [done|done| |by split].
  intros w1 HQ1. destruct (server_rows (w_db w1) !! i) as [row|] eqn:Hrow; cbn; [|by split].
  case_bool_decide; cbn; [|by split]. split; [done|]. by intros server [= <-].
Qed.

Lemma require_okay c i (Q : world -> Prop) w : stable Q -> Q w ->
  okay (_require_server c i) w (fun r w' => Q w' /\ forall u, r = Ok u -> True).
Proof using.
  intros Hst HQ. unfold _require_server. eapply okay_bind; [by apply (load_okay c i Q)| |by split]. by intros server w1 HQ1 _.
Qed.

(** ** The player files at rest *)

Lemma sync_locked_okay c i k w : holds i w -> okay (sync_locked c i k) w (fun _ w' => holds i w').
Proof using.
  intros Hw. unfold sync_locked. apply rg_bind.
  eapply rg_mono with (post := fun _ w' => holds i w').
  - apply transaction_okay; [intros; apply lock_stays|intros; apply holds_loose|].
    eapply (read_then _ _ (holds i)); [apply lock_stays|done| |done]. intros w1 Hw1.
    destruct (server_rows (w_db w1) !! i) as [row|]; [|done]. case_bool_decide; [|done].
    by eapply (read_then _ _ (holds i)); [apply lock_stays|..].
  - intros [[[[] groups]|]|e] w1 Hw1; try done. apply rg_call. intros w2 Hr r w3 Hx.
    pose proof (lock_stays i _ _ Hr Hw1) as Hw2. eapply files_guarantees in Hx as (Hg & Hd & Hl & _); [|exact Hw2|].
    + split; [done|]. unfold holds, fine. by rewrite Hd, Hl.
    + intros f j path Hne. cbn. rewrite lookup_insert_ne; [done|congruence].
Qed.

Lemma sync_server_okay c i k w : fine w -> okay (_sync_server_file c i k) w (fun _ w' => fine w').
Proof using. intros Hw. apply locked_okay; [done|]. intros w' Hw'. by apply sync_locked_okay. Qed.

Lemma sync_servers_okay c ids k w : fine w -> okay (_sync_servers_best_effort c ids k) w (fun _ w' => fine w').
Proof using.
  revert w. induction ids as [|i ids IH]; intros w Hw; cbn [_sync_servers_best_effort]; [done|]. apply rg_bind, rg_try.
  eapply rg_mono; [by apply sync_server_okay|]. intros [u|e] w1 Hw1; [by apply IH|].
  destruct (is_Exception e); cbn [rg]; [by apply IH|done].
Qed.

(** ** Changes of a group *)

(** The row is locked, or there is none. *)
Definition guards (g : uuid) (w : world) : Prop :=
  fine w /\ g ∈ w.(w_db).(born) /\ (w.(w_row_locks) !! g = Some t \/ w.(w_db).(group_rows) !! g = None).

Lemma guards_stable g : stable (guards g).
Proof using.
  intros w w' Hr (Hf & Hb & Hg). split; [by eapply fine_stable|]. destruct (re_groups _ _ _ Hr) as [Hbs Hgl].
  split; [set_solver|]. destruct Hg as [Hl|Hn]; [left; by apply (re_row _ _ _ Hr)|right].
  specialize (Hgl g Hb). rewrite Hn in Hgl. by destruct (group_rows (w_db w') !! g).
Qed.

Lemma listed_stable g ids : stable (fun w => guards g w /\ listed g ids w.(w_db)).
Proof using.
  intros w w' Hr [Hg Hl]. pose proof (guards_stable g _ _ Hr Hg) as Hg'. split; [done|]. intros i Hi.
  destruct Hg as (_ & Hb & [Hlk|Hn]).
  - apply Hl. by apply (re_row _ _ _ Hr g Hlk).
  - destruct Hg' as (Hf' & _ & _). apply (ok_attached _ Hf') in Hi as [[row Hrow] _].
    destruct (re_groups _ _ _ Hr) as [_ Hgl]. specialize (Hgl g Hb). by rewrite Hn, Hrow in Hgl.
Qed.

Lemma lock_row_okay g (Q : world -> Prop) w : stable Q -> loose Q ->
  (forall w, Q w -> fine w /\ g ∈ w.(w_db).(born)) -> Q w ->
  okay (call (LockRow g)) w (fun r w' => Q w' /\ forall u, r = Ok u -> guards g w').
Proof using.
  intros Hst Hlo HQb HQ. apply rg_call. intros w1 Hr r w2 Hx. pose proof (Hst _ _ Hr HQ) as HQ1.
  destruct (HQb _ HQ1) as [Hf1 Hb1].
  destruct Hx as [(Hfree & -> & ->)|(-> & e & -> & _)]; [|by split; [apply guarantees_refl|]].
  destruct (group_rows (w_db w1) !! g) as [row|] eqn:Hg.
  - split.
    + split; cbn; [done|done| |reflexivity|done|by left]. intros g' u Hg' Hne. split; [|done].
      rewrite lookup_insert_ne; [done|]. intros <-. by apply Hne, Hfree.
    + split; [by apply Hlo|]. intros _ _. split; [done|]. split; [done|]. left. apply lookup_insert_eq.
  - split; [apply guarantees_refl|]. split; [done|]. intros _ _. split; [done|]. split; [done|]. by right.
Qed.

(** What [change_group] stores is a change of the servers the group is attached to. *)
Definition stores (g : uuid) (store : PlayerGroup -> write) : Prop := forall group kind ids d d1,
  group.(g_id) = g -> tables_ok d -> of_kind g kind d -> listed g ids d -> store group d = Ok d1 ->
  changed kind ids d d1 /\ d1.(attached) ⊆ d.(attached).

Lemma server_ids_listed g d : listed g (list_server_ids_for_group g d) d.
Proof using.
  intros i Hi. unfold list_server_ids_for_group. rewrite merge_sort_Permutation. apply list_elem_of_fmap.
  exists (g, i). split; [done|]. apply elem_of_filter_bool. rewrite bool_decide_eq_true. split; [|done].
  by apply elem_of_elements.
Qed.

(** A change and its marks. *)
Lemma marked_guarantees kind ids token w d1 d' : fine w -> token ∉ w.(w_db).(spent) ->
  changed kind ids w.(w_db) d1 ->
  (forall g u i, w.(w_row_locks) !! g = Some u -> u <> t -> (g, i) ∈ d1.(attached) -> (g, i) ∈ w.(w_db).(attached)) ->
  mark_sync_pending ids kind token d1 = Ok d' -> guarantees t w (put_db d' w).
Proof using.
  intros Hf Ht Hc Ha Hm. destruct (changed_marked _ _ _ _ _ _ Hc Ht Hm) as (Ho & Hs & Hat & Hg & Hsp & Hmk).
  apply write_guarantees; try done. intros g u i. rewrite Hat. apply Ha.
Qed.

Lemma change_group_okay c g change store w : (forall group, (change group).(g_id) = group.(g_id)) ->
  (forall group, (change group).(g_kind) = group.(g_kind)) -> stores g store -> fine w ->
  okay (change_group c g change store) w (fun _ w' => fine w').
Proof using.
  intros Hid Hkind Hstore Hw. unfold change_group.
  apply transaction_okay; [intros; apply fine_stable|intros; apply fine_loose|].
  eapply okay_bind; [by apply (load_group_okay c g fine w fine_stable)| |done].
  intros group w1 Hw1 [Hgid Hk]. set (kind := g_kind group) in *. rewrite Hkind. fold kind.
  set (Q := fun w => fine w /\ of_kind g kind w.(w_db)).
  assert (HQ : stable Q) by (apply both_stable; [apply fine_stable|apply of_kind_stable]).
  eapply okay_bind; [apply (lock_row_okay g Q)|..]; [exact HQ|by intros l w'|by intros w' [? []]|done| |by intros e w' []].
  intros [] w2 [_ Hk2] Hg2. clear w1 Hw1 Hk.
  eapply (read_then _ _ (fun w => guards g w /\ of_kind g kind w.(w_db)));
    [apply both_stable; [apply guards_stable|apply of_kind_stable]|done| |by intros e w' [[] _]].
  intros w3 [Hg3 Hk3]. set (ids := list_server_ids_for_group g (w_db w3)).
  assert (Hl3 : listed g ids (w_db w3)) by apply server_ids_listed. clearbody ids. apply rg_bind.
  eapply rg_mono; [apply (write_okay _ _ (fun w => (guards g w /\ listed g ids w.(w_db)) /\ of_kind g kind w.(w_db)))|].
  - apply both_stable; [apply listed_stable|apply of_kind_stable].
  - done.
  - by intros w1 [[[] _] _].
  - intros w4 token d' [[Hg4 Hl4] Hk4] _ Ht Hm.
    apply (bind_ok (fun d' => mark_sync_pending ids kind token d') _ d') in Hm as (d1 & Hs & Hm).
    destruct (Hstore (change group) _ _ _ _ ltac:(by rewrite Hid) (proj1 Hg4) Hk4 Hl4 Hs) as [Hc Ha].
    eapply marked_guarantees; [apply Hg4|exact Ht|exact Hc| |exact Hm]. intros g' u i _ _. apply Ha.
  - by intros [[]|e] w4 [Hw4 _].
Qed.

Lemma save_stores g : stores g save.
Proof using. intros group kind ids d d1 <- Hok Hk Hl Hs. destruct (save_changed _ _ _ _ _ Hok Hk Hl Hs) as [? ->]. done. Qed.

Lemma delete_stores g : stores g (fun _ => delete_ g).
Proof using. intros group kind ids d d1 _. apply delete_changed. Qed.

Lemma change_then_sync {A} c g change store (k : PlayerGroup -> coroutine A) w :
  (forall group, (change group).(g_id) = group.(g_id)) -> (forall group, (change group).(g_kind) = group.(g_kind)) ->
  stores g store -> (forall group w', fine w' -> okay (k group) w' (fun _ w'' => fine w'')) -> fine w ->
  okay ('(ids, group) ← change_group c g change store;
        _ ← _sync_servers_best_effort c ids group.(g_kind); k group) w (fun _ w' => fine w').
Proof using.
  intros Hid Hkind Hs Hk Hw. apply rg_bind. eapply rg_mono; [by apply change_group_okay|].
  intros [[ids group]|e] w1 Hw1; [|done]. apply rg_bind. eapply rg_mono; [by apply sync_servers_okay|].
  intros [u|e] w2 Hw2; [by apply Hk|done].
Qed.

Lemma delete_group_okay c g w : fine w -> okay (DeleteGroup c g) w (fun _ w' => fine w').
Proof using.
  intros Hw. unfold DeleteGroup. apply rg_bind. eapply rg_mono; [by apply change_group_okay; [..|apply delete_stores|]|].
  intros [[ids group]|e] w1 Hw1; [|done]. by apply sync_servers_okay.
Qed.

Lemma add_player_okay c g u name w : fine w -> okay (AddPlayer c g u name) w (fun _ w' => fine w').
Proof using.
  intros Hw. unfold AddPlayer, player. destruct (Player_ u name) as [p|]; [|done].
  by apply change_then_sync; [..|apply save_stores| |].
Qed.

Lemma remove_player_okay c g u w : fine w -> okay (RemovePlayer c g u) w (fun _ w' => fine w').
Proof using. intros Hw. by apply change_then_sync; [..|apply save_stores| |]. Qed.

(** ** Attachments *)

Lemma row_free_other w g g' u (i : uuid) : row_free t w g -> w.(w_row_locks) !! g' = Some u -> u <> t -> g' <> g.
Proof using. intros Hf Hg' Hne ->. by apply Hne, Hf. Qed.

(** The load of both, a write under a mark of the server, and the synchronisation. *)
Lemma attach_okay c g i w : fine w -> okay (AttachGroup c g i) w (fun _ w' => fine w').
Proof using.
  intros Hw. unfold AttachGroup. apply rg_bind.
  eapply rg_mono with (post := fun _ w' => fine w').
  2: { intros [group|e] w1 Hw1; [by apply sync_server_okay|done]. }
  apply transaction_okay; [intros; apply fine_stable|intros; apply fine_loose|].
  eapply okay_bind; [by apply (load_group_okay c g fine w fine_stable)| |done].
  intros group w1 Hw1 [_ Hk]. set (Q := fun w => fine w /\ of_kind g (g_kind group) w.(w_db)).
  assert (HQ : stable Q) by (apply both_stable; [apply fine_stable|apply of_kind_stable]).
  eapply okay_bind; [by apply (require_okay c i Q)| |by intros e w' []]. intros [] w2 HQ2 _. apply rg_bind.
  eapply rg_mono; [apply (write_okay _ _ Q); [done|done|by intros w3 []|]|by intros [[]|e] w3 [Hw3 _]].
  intros w3 token d' [Hw3 Hk3] Hfree Ht Hm.
  apply (bind_ok (fun d' => mark_sync_pending [i] (g_kind group) token d') _ d') in Hm as (d1 & Hs & Hm).
  destruct (attach_changed _ _ _ _ _ Hw3 Hk3 Hs) as [Hc Ha].
  eapply marked_guarantees; [done|exact Ht|exact Hc| |exact Hm]. intros g' u j Hg' Hne. rewrite Ha.
  pose proof (row_free_other _ g g' u i (Hfree g ltac:(set_solver)) Hg' Hne). set_solver.
Qed.

Lemma detach_okay c g i w : fine w -> okay (DetachGroup c g i) w (fun _ w' => fine w').
Proof using.
  intros Hw. unfold DetachGroup. apply rg_bind.
  eapply rg_mono with (post := fun _ w' => fine w').
  2: { intros [group|e] w1 Hw1; [by apply sync_server_okay|done]. }
  apply transaction_okay; [intros; apply fine_stable|intros; apply fine_loose|].
  eapply okay_bind; [by apply (load_group_okay c g fine w fine_stable)| |done].
  intros group w1 Hw1 [_ Hk]. set (Q := fun w => fine w /\ of_kind g (g_kind group) w.(w_db)).
  assert (HQ : stable Q) by (apply both_stable; [apply fine_stable|apply of_kind_stable]).
  eapply okay_bind; [by apply (require_okay c i Q)| |by intros e w' []]. intros [] w2 HQ2 _.
  eapply (read_then _ _ Q); [done|done| |by intros e w' []]. intros w3 HQ3. apply okay_raise_if; [by destruct HQ3|].
  intros _. apply rg_bind.
  eapply rg_mono; [apply (write_okay _ _ Q); [done|done|by intros w4 []|]|by intros [[]|e] w4 [Hw4 _]].
  intros w4 token d' [Hw4 Hk4] _ Ht Hm.
  apply (bind_ok (fun d' => mark_sync_pending [i] (g_kind group) token d') _ d') in Hm as (d1 & Hs & Hm).
  destruct (detach_changed _ _ _ _ _ Hw4 Hk4 Hs) as [Hc Ha].
  eapply marked_guarantees; [done|exact Ht|exact Hc| |exact Hm]. intros g' u j _ _. apply Ha.
Qed.

(** ** Creation, renaming, reads *)

(** A write that leaves every file as it should be. *)
Lemma unmoved_guarantees w d' : fine w ->
  tables_ok d' /\ d'.(server_rows) = w.(w_db).(server_rows) /\ d'.(attached) = w.(w_db).(attached)
  /\ groups_last w.(w_db) d' /\ d'.(spent) = w.(w_db).(spent) /\ (forall i k, unmoved i k w.(w_db) d') ->
  guarantees t w (put_db d' w).
Proof using.
  intros Hw (Ho & Hs & Ha & Hg & Hsp & Hm). apply write_guarantees; try done.
  - by rewrite Hsp.
  - intros i k. by left.
  - intros g u i _ _. by rewrite Ha.
Qed.

Lemma create_group_okay c name kind w : fine w -> okay (CreateGroup c name kind) w (fun _ w' => fine w').
Proof using.
  intros Hw. unfold CreateGroup, group_name. destruct (_parse_kind kind) as [k|]; [|done].
  destruct (GroupName name) as [n|]; [|done].
  apply (transaction_okay _ w (fun _ w' => fine w')); [intros; apply fine_stable|intros; apply fine_loose|].
  eapply (read_then _ _ fine); [apply fine_stable|done| |done]. intros w1 Hw1. apply okay_raise_if; [done|]. intros _.
  eapply okay_bind; [apply (okay_plain FreshId fine (fun _ _ => True)); [apply fine_stable|by intros ??? []|done|done]| |done].
  intros u w2 Hw2 _. apply rg_bind.
  eapply rg_mono; [apply (write_okay _ _ fine); [apply fine_stable|done|done|]|by intros [[]|e] w3 [Hw3 _]].
  intros w3 token d' Hw3 _ _ Hm. by apply unmoved_guarantees, (add_moves _ _ _ Hw3 Hm).
Qed.

Lemma rename_group_okay c g name w : fine w -> okay (RenameGroup c g name) w (fun _ w' => fine w').
Proof using.
  intros Hw. unfold RenameGroup, group_name. destruct (GroupName name) as [n|]; [|done].
  apply (transaction_okay _ w (fun _ w' => fine w')); [intros; apply fine_stable|intros; apply fine_loose|].
  eapply okay_bind; [by apply (load_group_okay c g fine w fine_stable)| |done]. intros group w1 Hw1 _.
  eapply (read_then _ _ fine); [apply fine_stable|done| |done]. intros w2 Hw2. apply okay_raise_if; [done|]. intros _.
  apply rg_bind, rg_call. intros w3 Hr r w4 (Hu & d & Hwr & ->). pose proof (fine_stable _ _ Hr Hw2) as Hw3.
  destruct Hu as [?|Hu]; [done|].
  assert (Hd : d = w_db w3 \/ save (set_name n group) (w_db w3) = Ok d).
  { destruct Hwr as [Hwr|[_ ->]]; [|by left]. destruct (save (set_name n group) (w_db w3)) as [d1|e]; [|by left; destruct Hwr].
    destruct Hwr as [[_ ->]|[_ [->| ->]]]; auto. }
  assert (Hg : guarantees t w3 (put_db d w3)).
  { destruct Hd as [->|Hd]; [destruct w3; apply guarantees_refl|]. by apply unmoved_guarantees, (save_name_moves _ _ _ Hw3 Hu Hd). }
  split; [done|]. by destruct r; apply (ga_ok _ _ _ Hg).
Qed.

Lemma reading_okay {A} (p : coroutine A) w : fine w -> okay p w (fun _ w' => fine w') ->
  okay (transaction p) w (fun _ w' => fine w').
Proof using. intros Hw Hp. by apply (transaction_okay _ w (fun _ w' => fine w')); [intros; apply fine_stable|intros; apply fine_loose|]. Qed.

Lemma just_read {T} (f : db -> T) w : fine w -> okay (call (Read f)) w (fun _ w' => fine w').
Proof using. intros Hw. eapply rg_mono; [by apply (read_okay f fine w fine_stable)|]. by intros r w' []. Qed.

Lemma list_groups_okay c w : fine w -> okay (ListGroups c) w (fun _ w' => fine w').
Proof using. intros Hw. by apply reading_okay, just_read. Qed.

Lemma read_group_okay c g w : fine w -> okay (ReadGroup c g) w (fun _ w' => fine w').
Proof using.
  intros Hw. apply reading_okay; [done|]. eapply rg_mono; [by apply (load_group_okay c g fine w fine_stable)|]. by intros r w' [].
Qed.

Lemma server_groups_okay c i w : fine w -> okay (ListServerGroups c i) w (fun _ w' => fine w').
Proof using.
  intros Hw. apply reading_okay; [done|]. eapply okay_bind; [by apply (require_okay c i fine w fine_stable)| |done].
  intros u w1 Hw1 _. by apply just_read.
Qed.

Lemma group_servers_okay c g w : fine w -> okay (ListGroupServers c g) w (fun _ w' => fine w').
Proof using.
  intros Hw. apply reading_okay; [done|]. eapply okay_bind; [by apply (load_group_okay c g fine w fine_stable)| |done].
  intros u w1 Hw1 _. by apply just_read.
Qed.

(** ** Starts *)

(** While the mark carries its token, the file should hold [content]. *)
Definition watched (i : uuid) (o : PendingGroupSync) (content : bytes) (w : world) : Prop :=
  o.(pg_token) ∈ w.(w_db).(spent)
  /\ (w.(w_db).(pending) !! (i, o.(pg_kind)) = Some o.(pg_token) -> wanted i o.(pg_kind) w.(w_db) = content).

(** While the mark carries its token, the file is what it should be. *)
Definition settled (i : uuid) (o : PendingGroupSync) (w : world) : Prop :=
  o.(pg_token) ∈ w.(w_db).(spent)
  /\ (w.(w_db).(pending) !! (i, o.(pg_kind)) = Some o.(pg_token) ->
        w.(w_files) !! (i, target_file o.(pg_kind)) = Some (wanted i o.(pg_kind) w.(w_db))).

(** A mark that carries the token carried it all along. *)
Lemma token_kept i o w w' : relies t w w' -> o.(pg_token) ∈ w.(w_db).(spent) ->
  w'.(w_db).(pending) !! (i, o.(pg_kind)) = Some o.(pg_token) ->
  w.(w_db).(pending) !! (i, o.(pg_kind)) = Some o.(pg_token)
  /\ wanted i o.(pg_kind) w'.(w_db) = wanted i o.(pg_kind) w.(w_db).
Proof using.
  intros Hr Ht Hp. destruct (re_marks _ _ _ Hr) as [_ Hm]. destruct (Hm i (pg_kind o)) as [[E W]|[(token & E & Hn)|E]].
  - split; [congruence|done].
  - rewrite Hp in E. injection E as <-. done.
  - congruence.
Qed.

Lemma watched_stable i o content : stable (watched i o content).
Proof using.
  intros w w' Hr [Ht Hw]. split; [by destruct (re_marks _ _ _ Hr) as [Hs _]; apply Hs|]. intros Hp.
  destruct (token_kept _ _ _ _ Hr Ht Hp) as [Hp0 ->]. by apply Hw.
Qed.

(** Under the lock of an idle server, what is settled stays so. *)
Definition settling (i : uuid) (done : list PendingGroupSync) (w : world) : Prop :=
  holds_idle i w /\ forall o, o ∈ done -> settled i o w.

Lemma settling_stable i owed : stable (settling i owed).
Proof using.
  intros w w' Hr [Hh Hs]. split; [by eapply holds_idle_stable|]. intros o Ho. destruct (Hs o Ho) as [Ht Hf].
  split; [by destruct (re_marks _ _ _ Hr) as [Hsp _]; apply Hsp|]. intros Hp.
  destruct (token_kept _ _ _ _ Hr Ht Hp) as [Hp0 ->]. destruct (re_lock _ _ _ Hr i (proj2 (proj1 Hh))) as [_ Hk].
  destruct (Hk (proj2 Hh)) as [_ ->]. by apply Hf.
Qed.

Lemma target_file_inj k k' : target_file k = target_file k' -> k = k'.
Proof using. by destruct k, k'. Qed.

(** The file as it is read, where it is there. *)
Lemma read_current_okay i path (Q : world -> Prop) w : stable Q -> Q w -> (forall w, Q w -> holds i w) ->
  okay (try_ (c ← call (Files (read_file i path)); Ret (Some c))
          (fun e => match e with ServerFileNotFoundError => Ret None | _ => Raise e end)) w
    (fun r w' => Q w' /\ forall current, r = Ok current -> forall c, current = Some c -> w'.(w_files) !! (i, path) = Some c).
Proof using.
  intros Hst HQ Hh. apply rg_try, rg_bind, rg_call. intros w1 Hr r w2 Hx. pose proof (Hst _ _ Hr HQ) as HQ1.
  assert (Hm : forall f, (read_file i path f).2 = f) by (intros f; unfold read_file; by destruct (f !! _)).
  pose proof Hx as (f & -> & Hans).
  assert (Hf : f = w_files w1) by (destruct Hans as [E|[_ [->| ->]]]; [by rewrite <- (Hm (w_files w1)), <- E|done|by rewrite Hm]).
  subst f. eapply files_guarantees in Hx as (Hg & _); [|by apply Hh|by intros f j p _; rewrite Hm]. split; [done|].
  assert (HQ2 : Q (put_files (w_files w1) w1)) by by destruct w1.
  destruct r as [c|e]; cbn.
  - split; [done|]. intros current [= <-] c' [= <-]. destruct Hans as [E|[(e & ? & _) _]]; [|done].
    unfold read_file in E. destruct (w_files w1 !! (i, path)); [congruence|done].
  - destruct e; cbn; (split; [exact HQ2|by intros current [= <-]]).
Qed.

Lemma settle_step i o owed content w w' : settling i owed w -> watched i o content w ->
  (forall o', o' ∈ owed -> o'.(pg_kind) <> o.(pg_kind)) ->
  w'.(w_db) = w.(w_db) -> w'.(w_locks) = w.(w_locks) ->
  w'.(w_files) = <[(i, target_file o.(pg_kind)) := content]> w.(w_files) -> settling i (o :: owed) w'.
Proof using.
  intros [[[Hf Hl] Hi] Hs] [Ht Hw] Hne Ed El Ef. split; [unfold holds_idle, holds, fine; by rewrite Ed, El|].
  intros o' [->|Hin]%elem_of_cons; unfold settled; rewrite Ed, Ef.
  - split; [done|]. intros Hp. by rewrite lookup_insert_eq, Hw.
  - destruct (Hs o' Hin) as [Ht' Hf']. split; [done|]. intros Hp. rewrite lookup_insert_ne; [by apply Hf'|].
    intros [= E%target_file_inj]. by destruct (Hne o' Hin).
Qed.

Lemma regenerate_one_okay i o owed w : settling i owed w -> o.(pg_token) ∈ w.(w_db).(spent) ->
  (forall o', o' ∈ owed -> o'.(pg_kind) <> o.(pg_kind)) ->
  okay (regenerate_one i o) w (fun r w' => holds i w' /\ forall u, r = Ok u -> settling i (o :: owed) w').
Proof using.
  intros Hs Ht Hne. unfold regenerate_one.
  eapply (read_then _ _ (fun w => settling i owed w /\ o.(pg_token) ∈ w.(w_db).(spent))); [|done| |by intros e w' [[[Hh _] _] _]].
  { apply both_stable; [apply settling_stable|]. intros w1 w2 Hr Hin. destruct (re_marks _ _ _ Hr) as [Hsp _]. by apply Hsp. }
  intros w1 [Hs1 Ht1]. set (content := _render _ _).
  assert (Hw1 : watched i o content w1) by by split. clearbody content.
  set (Q := fun w => settling i owed w /\ watched i o content w).
  assert (HQ : stable Q) by (apply both_stable; [apply settling_stable|apply watched_stable]).
  assert (HQh : forall w, Q w -> holds i w) by by intros w' [[[Hh _] _] _].
  unfold except_Exception. apply rg_try.
  eapply rg_mono with (post := fun r w' => holds i w' /\ forall u, r = Ok u -> settling i (o :: owed) w').
  2: { intros [u|e] w' [Hh Hk]; [by split|]. by destruct (is_Exception e). }
  eapply okay_bind; [by apply (read_current_okay i _ Q)| |by intros e w' HQ'; split; [apply HQh|]].
  intros current w2 [Hs2 Hw2] Hcur. case_bool_decide as Hc.
  - split; [by apply HQh|]. intros u _. destruct Hs2 as [Hh Hd]. split; [done|]. intros o' [->|Hin]%elem_of_cons; [|by apply Hd].
    split; [apply Hw2|]. intros Hp. rewrite (proj2 Hw2 Hp). by apply Hcur.
  - apply rg_call. intros w3 Hr r w4 Hx. destruct (HQ _ _ Hr (conj Hs2 Hw2)) as [Hs3 Hw3].
    pose proof Hx as (f & -> & Hans). eapply files_guarantees in Hx as (Hg & _); [|by apply HQh|].
    2: { intros f' j p Hj. cbn. rewrite lookup_insert_ne; [done|congruence]. }
    split; [done|]. split; [exact (proj1 (proj1 Hs3))|]. intros u ->.
    destruct Hans as [E|[(e & ? & _) _]]; [|done]. injection E as E. by eapply settle_step; [exact Hs3|exact Hw3|..].
Qed.


(** Tokens stay spent. *)
Lemma okay_spent {A} (p : coroutine A) w (post : result exn A -> world -> Prop) : okay p w post ->
  okay p w (fun r w' => post r w' /\ w.(w_db).(spent) ⊆ w'.(w_db).(spent)).
Proof using.
  intros Hp. enough (He : forall s, s ⊆ w.(w_db).(spent) -> okay p w (fun r w' => post r w' /\ s ⊆ w'.(w_db).(spent))) by by apply He.
  revert w Hp. induction p as [a|e|T ev k IH]; intros w Hp s Hs; cbn in *; [by split..|].
  intros w1 Hr r w2 Hx. destruct (Hp w1 Hr r w2 Hx) as [Hg Hk]. split; [done|]. apply IH; [done|].
  destruct (re_marks _ _ _ Hr) as [Hsp _]. pose proof (ga_spent _ _ _ Hg). set_solver.
Qed.

Lemma regenerate_all_okay i owed w : NoDup (map pg_kind owed) -> forall before,
  settling i before w -> (forall o, o ∈ owed -> o.(pg_token) ∈ w.(w_db).(spent)) ->
  (forall o o', o ∈ owed -> o' ∈ before -> o'.(pg_kind) <> o.(pg_kind)) ->
  okay (regenerate_all i owed) w (fun r w' => holds i w' /\ forall u, r = Ok u ->
    settling i (rev owed ++ before) w').
Proof using.
  revert w. induction owed as [|o owed IH]; intros w Hn before Hs Ht Hne; cbn [regenerate_all].
  { split; [apply Hs|done]. }
  cbn in Hn. apply NoDup_cons in Hn as [Ho Hn]. apply rg_bind.
  eapply rg_mono; [apply okay_spent, (regenerate_one_okay i o before); [done|apply Ht; set_solver|intros o'; apply Hne; set_solver]|].
  intros [[]|e] w1 [[Hh Hs1] Hsp]; [|by split]. cbn [rev]. rewrite <- app_assoc. apply IH; [done|by apply (Hs1 tt)| |].
  - intros o' Ho'. apply Hsp, Ht. set_solver.
  - intros o1 o' H1 [->|H2]%elem_of_cons; [|apply Hne; set_solver].
    intros E. apply Ho. rewrite E. by apply list_elem_of_fmap_2.
Qed.

Lemma list_sync_pending_spec i d : NoDup (map pg_kind (list_sync_pending i d))
  /\ forall o, o ∈ list_sync_pending i d -> d.(pending) !! (i, o.(pg_kind)) = Some o.(pg_token).
Proof using.
  unfold list_sync_pending. cbn. destruct (pending d !! (i, OP)) as [a|] eqn:Ea, (pending d !! (i, WHITELIST)) as [b|] eqn:Eb; cbn;
    (split; [repeat constructor; set_solver|]); intros o Ho; repeat (apply elem_of_cons in Ho as [->|Ho]; [done|]);
    by apply not_elem_of_nil in Ho.
Qed.

(** From the owed files to the commit: what is cleared was made. *)
Lemma settle_and_commit_okay server i from w : holds_idle i w ->
  okay (settle_and_commit server i from) w (fun _ w' => holds i w').
Proof using.
  intros Hw. unfold settle_and_commit, regenerate_pending_group_files.
  apply rg_bind. eapply rg_mono with (post := fun r w' => holds i w' /\ forall owed, r = Ok owed ->
    settling i (rev owed ++ []) w').
  - eapply (read_then _ _ (holds_idle i)); [apply holds_idle_stable|done| |by intros e w' [Hh _]].
    intros w1 Hw1. destruct (list_sync_pending_spec i (w_db w1)) as [Hn Hp]. apply rg_bind.
    eapply rg_mono; [apply (regenerate_all_okay i _ w1 Hn [])|].
    + split; [done|]. by intros o ?%not_elem_of_nil.
    + intros o Ho. by apply (ok_pending _ (proj1 (proj1 Hw1)) i (pg_kind o)), Hp.
    + by intros o o' _ ?%not_elem_of_nil.
    + intros [u|e] w2 [Hh Hs]; cbn; [|by split]. split; [done|]. intros owed [= <-]. by apply (Hs u).
  - intros [owed|e] w1 [Hh Hs]; [|done]. specialize (Hs owed eq_refl). rewrite app_nil_r in Hs. clear Hh.
    assert (HQ : stable (settling i (rev owed))) by apply settling_stable.
    eapply okay_bind; [apply (okay_plain (EnsureJar server) _ (fun _ _ => True) w1 HQ); [done|done|done]| |].
    2: { by intros e w2 [[? _] _]. }
    intros config w2 Hs2 _.
    eapply okay_bind; [apply (okay_plain (Place server) _ (fun _ _ => True) w2 HQ); [done|done|done]| |].
    2: { by intros e w3 [[? _] _]. }
    intros [worker|] w3 Hs3 _; [|by destruct Hs3 as [[? _] _]].
    eapply okay_bind; [apply (okay_plain Now _ (fun _ _ => True) w3 HQ); [by intros ??? []|done|done]| |].
    2: { by intros e w4 [[? _] _]. }
    intros at_ w4 Hs4 _. eapply rg_mono; [apply (write_okay _ _ (settling i (rev owed))); [done|done|by intros w5 [[[] _] _]|]|].
    2: { intros r w5 (Hf & w6 & [[[_ Hl] _] _] & E). split; [done|]. by rewrite E. }
    clear w Hw w1 Hs w2 Hs2 w3 Hs3 w4 Hs4. intros w token d' [[[Hf Hl] Hi] Hs] _ _ Hm.
    apply (bind_ok (fun d' => clear_sync_pending i owed d') _ d') in Hm as (d1 & Ha & Hc).
    destruct (assign_clear_moves _ _ _ _ _ _ _ _ _ Hf Ha Hc) as (Ho & Hr & Hat & Hg & Hsp & Hwt & Hp).
    split; cbn; [done| |intros g u Hg' _; by rewrite Hat|done|by rewrite Hsp|].
    + intros j u Hj Hne. split; [done|]. split; [|done]. apply Hr. intros ->. rewrite Hl in Hj. by injection Hj.
    + intros j k. destruct (Hp j k) as [E|(E & -> & o & Ho' & <- & Ht)]; [by left|]. right. right.
      split; [done|]. split; [apply Hwt|]. rewrite Hwt. apply Hs; [|done]. by rewrite list_elem_of_In, <- in_rev, <- list_elem_of_In.
Qed.

Lemma start_files_okay i path content w : holds_idle i w ->
  okay (call (Files (write_file i path content))) w (fun r w' => holds_idle i w' /\ forall u, r = Ok u -> True).
Proof using.
  intros Hw. apply rg_call. intros w1 Hr r w2 Hx. pose proof (holds_idle_stable i _ _ Hr Hw) as [Hh1 Hi1].
  eapply files_guarantees in Hx as (Hg & Hd & Hl & _); [|exact Hh1|].
  - split; [done|]. split; [|done]. unfold holds_idle, holds, fine. by rewrite Hd, Hl.
  - intros f j p Hne. cbn. rewrite lookup_insert_ne; [done|congruence].
Qed.

Lemma check_eula_okay i w : holds_idle i w ->
  okay (_check_eula i) w (fun r w' => holds_idle i w' /\ forall u, r = Ok u -> True).
Proof using.
  intros Hw. unfold _check_eula. apply rg_bind, rg_try, rg_call. intros w1 Hr r w2 Hx.
  pose proof (holds_idle_stable i _ _ Hr Hw) as [Hh1 Hi1].
  assert (Hm : forall f, (read_file i EULA_PATH f).2 = f) by (intros f; unfold read_file; by destruct (f !! _)).
  eapply files_guarantees in Hx as (Hg & Hd & Hl & _); [|exact Hh1|by intros f j p _; rewrite Hm].
  split; [done|]. assert (Hw2 : holds_idle i w2) by (unfold holds_idle, holds, fine; by rewrite Hd, Hl).
  destruct r as [content|e]; [|destruct e; by split]. by destruct (negb _).
Qed.

(** The start of an idle server, from its row. *)
Lemma start_okay c i accept w : fine w -> okay (start c i accept) w (fun _ w' => fine w').
Proof using.
  intros Hw. apply locked_okay; [done|]. clear w Hw. intros w Hw.
  apply (transaction_okay _ w (fun _ w' => holds i w')); [intros; apply lock_stays|intros; apply holds_loose|].
  eapply okay_bind; [by apply (load_okay c i (holds i) w (lock_stays i))| |done].
  intros server w1 Hw1 Hrow. apply okay_raise_if; [done|]. intros _. apply okay_raise_if; [done|].
  intros Ha%negb_false_iff%bool_decide_eq_true. assert (Hidle : holds_idle i w1) by (split; [done|by exists server]).
  eapply (okay_bind _ _ (holds_idle i) (fun _ _ => True)); [|intros u w2 Hw2 _; by apply settle_and_commit_okay|by intros e w2 []].
  destruct accept; [by apply start_files_okay|by apply check_eula_okay].
Qed.

Lemma replace_okay c i w : fine w -> okay (replace c i) w (fun _ w' => fine w').
Proof using.
  intros Hw. apply locked_okay; [done|]. clear w Hw. intros w Hw.
  apply (transaction_okay _ w (fun _ w' => holds i w')); [intros; apply lock_stays|intros; apply holds_loose|].
  eapply okay_bind; [by apply (load_okay c i (holds i) w (lock_stays i))| |done].
  intros server w1 Hw1 Hrow. apply okay_raise_if; [done|].
  intros [_ Ha%bool_decide_eq_true]%negb_false_iff%andb_true_iff. apply settle_and_commit_okay.
  split; [done|by exists server].
Qed.
End thread.

(** ** The system *)

(** The requests of the component, their results dropped. *)
Inductive request : coroutine unit -> Prop :=
| Creates c name kind : request (_ ← CreateGroup c name kind; Ret tt)
| Lists c : request (_ ← ListGroups c; Ret tt)
| Reads c g : request (_ ← ReadGroup c g; Ret tt)
| Renames c g name : request (_ ← RenameGroup c g name; Ret tt)
| Deletes c g : request (DeleteGroup c g)
| Adds c g u name : request (_ ← AddPlayer c g u name; Ret tt)
| Removes c g u : request (_ ← RemovePlayer c g u; Ret tt)
| Attaches c g i : request (AttachGroup c g i)
| Detaches c g i : request (DetachGroup c g i)
| ListsGroups c i : request (_ ← ListServerGroups c i; Ret tt)
| ListsServers c g : request (_ ← ListGroupServers c g; Ret tt)
| Starts c i accept : request (start c i accept)
| Replaces c i : request (replace c i).

Lemma requests_keep t p w : request p -> fine w ->
  rg (exec false t) (relies t) (guarantees t) p w (fun _ _ => True).
Proof using.
  assert (Hdrop : forall A (q : coroutine A), rg (exec false t) (relies t) (guarantees t) q w (fun _ w' => fine w') ->
    rg (exec false t) (relies t) (guarantees t) (_ ← q; Ret tt) w (fun _ _ => True)).
  { intros A q Hq. apply rg_bind. eapply rg_mono; [exact Hq|]. by intros [a|e]. }
  assert (Hweak : forall q : coroutine unit, rg (exec false t) (relies t) (guarantees t) q w (fun _ w' => fine w') ->
    rg (exec false t) (relies t) (guarantees t) q w (fun _ _ => True)) by (intros q Hq; by eapply rg_mono; [exact Hq|]).
  intros [] Hw; first [apply Hdrop|apply Hweak];
    eauto using create_group_okay, list_groups_okay, read_group_okay, rename_group_okay, delete_group_okay, add_player_okay,
      remove_player_okay, attach_okay, detach_okay, server_groups_okay, group_servers_okay, start_okay, replace_okay.
Qed.

(** The requests among themselves and the rest of the API; [torn] as in [exec]. *)
Definition system_step (torn : bool) := step (exec torn) outside request.
Definition system_reachable (torn : bool) := reachable (exec torn) outside request.

Lemma system_fine w0 s : fine w0 -> system_reachable false w0 s -> fine s.(shared).
Proof using.
  intros Hini Hr. by apply (reachable_ok (exec false) relies guarantees outside guarantees_suffice outside_suffices fine
    (fun t w w' Hw Hg => ga_ok _ _ _ Hg Hw) (fun w w' Hw Ho => ou_ok _ _ Ho Hw) request requests_keep w0 s).
Qed.

Lemma system_step_keeps w0 s s' : fine w0 -> system_reachable false w0 s -> system_step false s s' ->
  outside s.(shared) s'.(shared) \/ exists t, guarantees t s.(shared) s'.(shared).
Proof using.
  intros Hini Hr Hs. destruct (rg_threads (exec false) relies guarantees outside guarantees_suffice outside_suffices fine
    (fun t w w' Hw Hg => ga_ok _ _ _ Hg Hw) (fun w w' Hw Ho => ou_ok _ _ Ho Hw) request requests_keep w0 s s')
    as [E|[[_ Ho]|Hg]]; try done.
  - right. exists O. rewrite E. apply guarantees_refl.
  - by left.
  - by right.
Qed.
End threads.
