(* ===== verification/GroupContracts.v ===== *)
(** * Player groups: the contracts

    No change of a group is lost on a server that cannot be written at once: its file is
    owed until a start writes what the groups say. *)
From Stdlib Require Import ZArith NArith Lia String Ascii.
From stdpp Require Import base gmap strings list sorting.
From S2P Require Import Prelude Uow Uuid Calendar Retention Program RelyGuarantee Text ServerRow Properties PlayerGroups GroupStore Groups GroupSafety GroupThreads.

Section contracts.
Context `{Unicode}.

#[local] Notation tables s := (s.(shared).(w_db)).
#[local] Notation files s := (s.(shared).(w_files)).
#[local] Notation reach := (system_reachable false).
#[local] Notation system_step := (system_step false).

(** What any step does to one file of a server that is still there. *)
Lemma file_step w0 s s' i k : GroupSafety.tables_ok w0.(w_db) -> reach w0 s -> system_step s s' ->
  is_Some ((tables s').(server_rows) !! i) ->
  unmoved i k (tables s) (tables s') \/ remarked i k (tables s) (tables s')
  \/ ((tables s').(pending) !! (i, k) = None /\ wanted i k (tables s') = wanted i k (tables s)
      /\ files s' !! (i, target_file k) = Some (wanted i k (tables s'))).
Proof.
  intros Hini Hr Hs Hi. destruct (system_step_keeps w0 s s' Hini Hr Hs) as [Ho|[t Hg]]; [|by apply (ga_marks _ _ _ Hg)].
  destruct (ou_marks _ _ Ho i k) as [?|[_ Hn]]; [by left|]. rewrite Hn in Hi. by destruct Hi.
Qed.

(** C6: In every interleaving of group changes, starts and the rest of the API in which
    no rename is torn, a step that changes what a server's player file should hold
    records that the file is owed, under a token no mark had; and a mark disappears,
    while the server is there, only when the file holds just what the groups say. *)
Theorem no_group_change_is_lost w0 s s' i kind :
  GroupSafety.tables_ok w0.(w_db) -> reach w0 s -> system_step s s' ->
  is_Some ((tables s').(server_rows) !! i) ->
  (wanted i kind (tables s') <> wanted i kind (tables s) ->
     exists token, (tables s').(pending) !! (i, kind) = Some token
     /\ forall j k, (tables s).(pending) !! (j, k) <> Some token)
  /\ (is_Some ((tables s).(pending) !! (i, kind)) -> (tables s').(pending) !! (i, kind) = None ->
        files s' !! (i, target_file kind) = Some (wanted i kind (tables s'))).
Proof.
  intros Hini Hr Hs Hi. pose proof (system_fine w0 s Hini Hr) as Hok.
  destruct (file_step w0 s s' i kind Hini Hr Hs Hi) as [[Hp Hw]|[(token & Hp & Ht)|(Hp & Hw & Hf)]].
  - split; [done|]. rewrite Hp. intros [token E] ?. congruence.
  - split; [|congruence]. intros _. exists token. split; [done|]. intros j k E.
    by destruct (ok_pending _ Hok _ _ _ E).
  - by split.
Qed.

(** A run in which the file of a server is never owed. *)
Inductive unowed (i : uuid) (kind : GroupKind) (s : state event exn world unit) : state event exn world unit -> Prop :=
| Unowed_here : unowed i kind s s
| Unowed_step s1 s2 (_ : unowed i kind s s1) (_ : system_step s1 s2)
    (_ : is_Some ((tables s2).(server_rows) !! i)) (_ : (tables s2).(pending) !! (i, kind) = None) : unowed i kind s s2.

End contracts.
