(* ===== verification/GroupScenario.v ===== *)
(** * A concrete community with a group of operators

    A start that settles an owed file, and two edits that undo a removal. *)
From Stdlib Require Import ZArith NArith Lia String Ascii.
From stdpp Require Import base gmap strings list sorting.
From S2P Require Import Prelude Uow Uuid Calendar Retention Program RelyGuarantee Text ServerRow Properties PlayerGroups GroupStore Groups GroupSafety GroupThreads GroupContracts.

#[local] Open Scope Z_scope.

(** ** The world answers *)

(** Every event that can happen is answered at once, and nothing fails; thread [t]
    draws the token [100 + t]. *)
Definition answer (torn : bool) (t : nat) (T : Type) (w : world) (ev : event T) : option (result exn T * world) :=
  match ev in event T return option (result exn T * world) with
  | Now => Some (Ok 1000, w)
  | FreshId => Some (Ok 77%N, w)
  | Lock i => match w.(w_locks) !! i with
              | None => Some (Ok tt, put_locks (<[i := t]> w.(w_locks)) w)
              | Some _ => None
              end
  | Unlock i => Some (Ok tt, put_locks (delete i w.(w_locks)) w)
  | LockRow g =>
      match w.(w_row_locks) !! g with
      | None => Some (Ok tt, match w.(w_db).(group_rows) !! g with
                             | Some _ => put_row_locks (<[g := t]> w.(w_row_locks)) w | None => w end)
      | Some _ => None
      end
  | EndTx => Some (Ok tt, put_row_locks (filter (fun kv : uuid * nat => kv.2 <> t) w.(w_row_locks)) w)
  | Read f => Some (Ok (f w.(w_db)), w)
  | Write shared m =>
      let token := (100 + N.of_nat t)%N in
      if bool_decide (token ∈ w.(w_db).(spent)) || bool_decide (w.(w_row_locks) <> ∅) && bool_decide (shared <> []) then None
      else match m token w.(w_db) with
           | Ok d => Some (Ok tt, put_db d w)
           | Err e => Some (Err e, put_db w.(w_db) w)
           end
  | SaveName g =>
      if torn then match save g w.(w_db) with
                   | Ok d => Some (Ok tt, put_db d w)
                   | Err e => Some (Err e, put_db w.(w_db) w)
                   end
      else None
  | Files m => let '(r, f) := m w.(w_files) in Some (r, put_files f w)
  | EnsureJar _ => Some (Ok ∅, w)
  | Place _ => Some (Ok (Some 9%N), w)
  end.

Lemma answers torn t T w (ev : event T) r w' : answer torn t T w ev = Some (r, w') -> exec torn t T w ev r w'.
Proof.
  destruct ev as [| |i|i|g| |T f|shared m|g|T m|s|s]; cbn.
  - intros [= <- <-]. by split; [|exists 1000].
  - intros [= <- <-]. by split; [|exists 77%N].
  - destruct (w_locks w !! i) eqn:E; [done|]. intros [= <- <-]. by left.
  - by intros [= <- <-].
  - destruct (w_row_locks w !! g) eqn:E; [done|]. intros [= <- <-]. left. split; [|done]. intros u Hu. by rewrite E in Hu.
  - by intros [= <- <-].
  - intros [= <- <-]. by split; [|left].
  - case_bool_decide as Ht; [done|]. destruct (_ && _) eqn:Hs; [done|]. cbn. intros Ha. right. split.
    + intros g Hg u Hu. apply andb_false_iff in Hs as [Hs%bool_decide_eq_false|Hs%bool_decide_eq_false].
      * apply dec_stable in Hs. by rewrite Hs in Hu.
      * apply dec_stable in Hs. rewrite Hs in Hg. by apply not_elem_of_nil in Hg.
    + exists (100 + N.of_nat t)%N, (match m (100 + N.of_nat t)%N (w_db w) with Ok d => d | Err _ => w_db w end).
      split; [done|]. unfold wrote. destruct (m _ (w_db w)) as [d|e]; injection Ha as <- <-; (split; [left|done]).
      * by left.
      * split; [done|]. exists e. by split; [|left].
  - destruct torn; [|done]. intros Ha. split; [by left|].
    exists (match save g (w_db w) with Ok d => d | Err _ => w_db w end).
    unfold wrote. destruct (save g (w_db w)) as [d|e]; injection Ha as <- <-; (split; [left|done]).
    + by left.
    + split; [done|]. exists e. by split; [|left].
  - destruct (m (w_files w)) as [r' f] eqn:E. intros [= <- <-]. exists f. split; [done|]. by left.
  - by intros [= <- <-].
  - by intros [= <- <-].
Qed.

(** ** The community *)

Definition stopped : Server :=
  mkServer 5 1 "first" "java" "1.21" PAPER ∅ D_STOPPED STOPPED None None 0 0 (Some 25566) None "first" None.

Definition alice : Player := mkPlayer 21 (codes "alice").
Definition bob : Player := mkPlayer 22 (codes "bob").

Definition operators (players : list Player) : GroupRow :=
  {| gr_community_id := 1; gr_name := codes "operators"; gr_kind := OP; gr_players := players_map players |}.

(** The group is attached to a stopped server; [marks] says what the server is owed. *)
Definition community (players : list Player) (marks : gmap (uuid * GroupKind) uuid) : world :=
  {| w_db := mkDb {[5%N := stopped]} {[1%N]} {[8%N := operators players]} {[(8%N, 5%N)]} marks {[8%N]} {[50%N]};
     w_files := {[(5%N, "ops.json"%string) := codes "[]" ++ LF]}; w_locks := ∅; w_row_locks := ∅ |}.

Lemma community_ok players marks : marks ⊆ {[(5%N, OP) := 50%N]} -> tables_ok (community players marks).(w_db).
Proof.
  intros Hm. split; cbn.
  - intros g i E%elem_of_singleton. injection E as -> ->. by split; eexists.
  - intros i k token Ht. pose proof (lookup_weaken _ _ _ _ Ht Hm) as E.
    apply lookup_singleton_Some in E as [E <-]. injection E as <- <-.
    split; [by eexists|set_solver].
  - intros g [row [<- _]%lookup_singleton_Some]. set_solver.
Qed.

#[local] Notation perform torn := (perform (answer torn)).
Abbreviation system := (state event exn world unit).

Definition begin_with (w : world) : system := {| threads := ∅; shared := w |}.

(** ** A start settles the file *)

Definition owing : world := community [alice] {[(5%N, OP) := 50%N]}.

Definition starting : system := begin_thread 0 (start 1 5 true) (begin_with owing).

(** The lock, the row, the eula, the marks, the groups, the file twice, the jar, the
    place and the clock. *)
Definition before_commit : system := Nat.iter 10 (perform false 0) starting.
Definition after_commit : system := perform false 0 before_commit.

Lemma owing_ok : tables_ok owing.(w_db).
Proof. by apply community_ok. Qed.

Lemma commit_reachable : system_reachable false owing before_commit.
Proof. apply perform_reachable; [apply answers|]. apply begin_reachable; [constructor|done|constructor]. Qed.

Lemma is_Some_reply (o : option system) : bool_decide (is_Some o) = true -> is_Some o.
Proof. by intros ?%bool_decide_eq_true. Qed.

Lemma commit_steps : system_step false before_commit after_commit.
Proof. apply perform_step; [apply answers|]. apply is_Some_reply. vm_compute. reflexivity. Qed.

Lemma still_there (s : system) : bool_decide (is_Some (s.(shared).(w_db).(server_rows) !! 5%N)) = true ->
  is_Some (s.(shared).(w_db).(server_rows) !! 5%N).
Proof. by intros ?%bool_decide_eq_true. Qed.

Lemma was_owed : is_Some (before_commit.(shared).(w_db).(pending) !! (5%N, OP)).
Proof. eapply mk_is_Some. vm_compute. reflexivity. Qed.

Lemma no_longer_owed : after_commit.(shared).(w_db).(pending) !! (5%N, OP) = None.
Proof. vm_compute. reflexivity. Qed.

Lemma no_group_change_is_lost_witness :
  (tables_ok owing.(w_db) /\ system_reachable false owing before_commit /\ system_step false before_commit after_commit
   /\ owing.(w_files) !! (5%N, "ops.json"%string) = Some (codes "[]" ++ LF))
  /\ after_commit.(shared).(w_files) !! (5%N, "ops.json"%string) = Some (_render OP [alice]).
Proof.
  split; [split_and!; [apply owing_ok|apply commit_reachable|apply commit_steps|reflexivity]|].
  etransitivity; [exact (proj2 (no_group_change_is_lost owing before_commit after_commit 5%N OP owing_ok commit_reachable
    commit_steps (still_there after_commit ltac:(vm_compute; reflexivity))) was_owed no_longer_owed)|].
  vm_compute. reflexivity.
Defined.

(** The transaction ends. *)
Definition later : system := perform false 0 after_commit.

Lemma later_unowed : unowed 5%N OP after_commit later.
Proof.
  eapply Unowed_step; [constructor|..].
  - apply perform_step; [apply answers|]. apply is_Some_reply. vm_compute. reflexivity.
  - apply still_there. vm_compute. reflexivity.
  - vm_compute. reflexivity.
Qed.


(** ** The union *)

Lemma player_file_lists_the_union_witness :
  merge_players [_hydrate 8 (operators [bob; alice])] = [alice; bob] /\ NoDup (map p_uuid [alice; bob]).
Proof.
  split; [vm_compute; reflexivity|].
  exact (proj1 (proj2 (player_file_lists_the_union OP [_hydrate 8 (operators [bob; alice])]))).
Defined.

(** ** Removals undone *)

Definition settled_world : world := community [alice] ∅.

(** The players of the file as it is and as the groups have it, and the mark. *)
Definition outcome (s : system) : option bytes * list Player * option uuid :=
  (s.(shared).(w_files) !! (5%N, "ops.json"%string),
   merge_players (list_groups_for_server_kind 5 OP s.(shared).(w_db)), s.(shared).(w_db).(pending) !! (5%N, OP)).

(** A rename reads the group; meanwhile alice is removed and the server started; then
    the rename writes the players it read. *)
Definition renaming : system :=
  Nat.iter 2 (perform true 1) (begin_thread 1 (_ ← RenameGroup 1 8 (codes "admins"); Ret tt) (begin_with settled_world)).
Definition removed : system := Nat.iter 30 (perform true 2) (begin_thread 2 (_ ← RemovePlayer 1 8 21; Ret tt) renaming).
Definition started : system := Nat.iter 30 (perform true 0) (begin_thread 0 (start 1 5 true) removed).
Definition renamed : system := Nat.iter 2 (perform true 1) started.

Lemma torn_rename_reinstates_an_operator :
  system_reachable true settled_world renamed
  /\ outcome started = (Some (codes "[]" ++ LF), [], None)
  /\ outcome renamed = (Some (codes "[]" ++ LF), [alice], None).
Proof.
  split; [|split; vm_compute; reflexivity].
  apply perform_reachable; [apply answers|]. apply perform_reachable; [apply answers|].
  apply begin_reachable; [|vm_compute; reflexivity|constructor].
  apply perform_reachable; [apply answers|]. apply begin_reachable; [|vm_compute; reflexivity|by apply Removes].
  apply perform_reachable; [apply answers|]. apply begin_reachable; [constructor|done|by apply Renames].
Qed.

(** Adding bob reads the group before it takes the lock, so it writes alice back. *)
Definition adding : system :=
  perform false 3 (begin_thread 3 (_ ← AddPlayer 1 8 22 (codes "bob"); Ret tt) (begin_with settled_world)).
Definition removed_meanwhile : system :=
  Nat.iter 30 (perform false 2) (begin_thread 2 (_ ← RemovePlayer 1 8 21; Ret tt) adding).
Definition added : system := Nat.iter 30 (perform false 3) removed_meanwhile.

Lemma stale_edit_undoes_a_removal :
  system_reachable false settled_world added
  /\ merge_players (list_groups_for_server_kind 5 OP removed_meanwhile.(shared).(w_db)) = []
  /\ merge_players (list_groups_for_server_kind 5 OP added.(shared).(w_db)) = [alice; bob].
Proof.
  split; [|split; vm_compute; reflexivity].
  apply perform_reachable; [apply answers|]. apply perform_reachable; [apply answers|].
  apply begin_reachable; [|vm_compute; reflexivity|by apply Removes].
  apply (perform_reachable _ _ _ _ (answers false) _ 3 1). apply begin_reachable; [constructor|done|by apply Adds].
Qed.
